(* ===== verification/_CoqProject ===== *)
-Q . S2P
Prelude.v
StringTools.v
Varint.v
Archive.v
TxExtra.v
Rct.v
CryptonoteBasic.v
Keccak.v
Limbs.v
Scalar.v
RctOps.v
TreeHash.v
HardFork.v
IntUtil.v
Difficulty.v
Hashing.v
RctSigs.v
RctProofs.v
Crypto.v
RctModel.v
Money.v
Reward.v
TxPool.v
Checkpoints.v
Outputs.v
ChainDb.v
TxCheck.v
TempConsensus.v
LeaderService.v
Blockchain.v
AltChain.v
BlockTemplate.v
TxIntake.v
Node.v
NodeCore.v
