(* ===== verification/Prelude.v ===== *)
(** * X-CASH core: verification development

    A model of the block-producing and block-accepting parts of the X-CASH
    daemon (src/): the data it exchanges and stores, the identifiers of blocks
    and transactions, the rules a block has to meet, the transaction pool, the
    block database, the main chain, and the temporary consensus in which
    authorised seed nodes sign blocks instead of mining them.

    ** The parts and how they interact

    A leader (src/cryptonote_core/temp_consensus_leader_service.cpp) asks its
    core for a block template ([Blockchain::create_block_template]), writes its
    signature into the extra field of the coinbase transaction and hands the
    block to its core, which brackets it in a batch of the database and relays
    it once it is added.  Peers' blocks arrive as bytes
    ([core::handle_incoming_block]).  Every block goes through
    [Blockchain::add_new_block]: the validator (temp_consensus_validator.cpp)
    strips the signature, recomputes the block id and verifies the signature
    under the key published for the leader's seed; an accepted block goes to
    [handle_block_to_main_chain], which checks it against the hard fork state,
    the timestamps, the difficulty, the checkpoints and the emission, takes its
    transactions from the pool and stores it in the database.  Before the
    proof-of-stake version a block that does not extend the top goes to
    [handle_alternative_block] instead, which keeps branches and switches to a
    longer one.  Everything rests on the binary serialization, on the block id
    (a Merkle root under Keccak) and on the extra field.  Transactions hide
    their amounts and their senders in RingCT signatures (src/ringct), made with
    the keys of src/crypto; both are modelled down to the scalars, above the
    group of the curve.

    ** The files

    - [Prelude]: machine integers, byte strings, the reader and writer of the
      archives, hints and tactics ([by_decide]).
    - [StringTools]: contrib/epee/include/string_tools.h, src/hex.cpp.
    - [Varint], [Archive]: src/common/varint.h and src/serialization.  A [codec]
      is one serializer with both directions; the class [CodecOk] is the round
      trip contract every composite codec is proved against.
    - [TxExtra], [Rct], [CryptonoteBasic]: the extra field, RingCT containers,
      transactions and blocks (src/cryptonote_basic, src/ringct/rctTypes.h).
    - [Keccak], [TreeHash], [Hashing]: src/crypto/keccak.c, tree-hash.c, and the
      identifiers of cryptonote_format_utils.cpp with their caches.
    - [Limbs], [Scalar]: the sc_ functions of src/crypto/crypto-ops.c, as
      sequences of carries and folds on limbs of [int64_t] ([None] when a value
      leaves the type), with an interval analysis that shows none does.
    - [RctOps], [RctSigs], [Crypto]: src/ringct/rctOps.cpp and rctSigs.cpp, and
      src/crypto/crypto.cpp.  The class [Curve] is the group, [CurveLaws] its
      laws, [Bulletproofs] the newer range proofs.  A function that draws random
      numbers is in the monad [gen].  [RctProofs] has the theorems, [RctModel] a
      concrete group in which they are instantiated.
    - [HardFork]: src/cryptonote_basic/hardfork.cpp.
    - [IntUtil], [Difficulty]: src/common/int-util.h, difficulty.cpp.
    - [Money], [Reward]: amounts, emission, coinbase transactions and fees.
    - [TxPool]: src/cryptonote_core/tx_pool.cpp; the class [PoolChain] is what
      it asks of the chain.
    - [Checkpoints]: src/checkpoints/checkpoints.cpp.
    - [Outputs], [ChainDb]: src/blockchain_db/blockchain_db.cpp over the tables
      of lmdb/db_lmdb.cpp; [Outputs] has the tables of outputs and the queries for
      the members of a ring.
    - [TxCheck]: [Blockchain::check_tx_inputs] and what it calls: the ring of each
      input read from the tables, and the signatures verified over it.
    - [Blockchain]: the main chain of src/cryptonote_core/blockchain.cpp, its
      state as the record [blockchain]; difficulty, timestamps, adding and
      popping a block.  The class [ChainEnv] is the curve, the bulletproofs, the
      slow hash and the number of threads.
    - [AltChain]: branches, reorganisation and its rollback, checkpoints.
    - [BlockTemplate]: [create_block_template] and why the chain accepts what it
      makes.
    - [TempConsensus], [LeaderService]: the validator, the construction of a
      leader's block and the leader's service as a machine of its threads and
      of the one that calls start and stop, by single loads and stores.
    - [TxIntake]: the core's handling of transactions: parsing, the semantic
      check of a group with its bulletproofs verified together, and the pool.
    - [Node]: src/daemon/temp_consensus.cpp and [Blockchain::add_new_block]; the
      external proof-of-stake module is the class [ProofOfStake].
    - [NodeCore]: the core of cryptonote_core.cpp on its way from bytes, and from
      the leader, to the chain; it is the instance of the class [Core] that
      [LeaderService] is written against.

    ** Conventions

    A w-bit integer is a [Z]; every operation that may leave its range is
    written with [wrap] (u8, u32, u64).  A byte string is a [list Z].  Pure
    code is a function; a method takes the state of its object and returns the
    new one.  A C++ exception, a failed assertion that throws or an undefined
    operation is [None], or [Thrown] with the state it leaves.  Caches are
    options, [None] when invalid.  Locks and logging leave no trace in the
    model; a method runs atomically, as it does under its lock (the leader's
    service takes none and is not atomic in [LeaderService]).  The clock, files
    and DNS answers are arguments.  No theorem assumes that Keccak has no
    collisions: [tree_inputs], [transaction_inputs] and [block_inputs] list the
    strings that are hashed for given objects, and [collide] says that two such
    lists hold different strings with one digest.

    ** What the theorems show

    - Serialization: what is stored parses back, what parses can be stored
      again, and the cases where two byte strings give one block.
    - Identifiers: equal ids mean equal blocks, unless strings that were hashed
      for these two blocks collide; the streaming and one-shot hash agree; the in-place tree hash is
      the root of a tree over the transactions.
    - Cryptography: the scalar functions compute modulo the group order; what a
      signer makes (RingCT signatures with every kind of range proof, ring
      signatures, multisignatures, signatures with a key, proofs of a
      derivation) is accepted, and receivers read what they are sent; sender and
      receiver agree on one-time keys; an accepted RingCT signature balances; a
      group is accepted exactly when its members are.
    - Rules: hard fork voting, difficulty, reward, coinbase, fees, amounts and
      checkpoints do what their formulas say, without overflow, under stated
      bounds.
    - Pool and database: the pool's three indices stay coherent, also when it
      prunes (which gets the recorded weight wrong), a template
      spends no key image twice, popping a block undoes adding it, and what an
      exception leaves behind; every output of the chain is found where its index
      says, with its key, height, unlock time and commitment.
    - Spending: the inputs of a transaction are accepted exactly when their rings
      are unlocked outputs of the chain, their key images are new and in order,
      and the signatures hold over these rings; what a wallet signs with
      [genRctSimple] over such rings is accepted.  Only transactions that are sound
      by themselves reach the pool, however they are grouped.
    - Chain: adding a block is all or nothing, popping and reorganising keep the
      chain sound (linked, no key image spent twice, supply bounded, fork state
      well formed), branches are finite, checkpoints are enforced, and the node
      accepts the templates it makes.
    - Temporary consensus: the validator accepts exactly the signed blocks, one
      thread and one block per slot, and what a configuration error leads to.
    - The node as a whole: a leader's [generate_block] extends the chain by its
      signed block and relays it; past the proof-of-stake fork, whatever bytes
      arrive for blocks and transactions, the chain only grows, and by leaders'
      blocks only, as long as no checkpoint contradicts it.

    ** Bounds and fuel

    Loops of the code that are not structural run on fuel: [write_varint_loop]
    on the binary logarithm of the value, [parse_tx_extra_loop] on the length of the
    extra, [absorb] on the length of the message, [levels] and the hard fork
    loops on the size of their input, [alt_walk] on the number of alternative
    blocks, [pop_until_hash] and [pop_until_height] on the number of blocks of
    the chain, [miner_tx_tries] on the ten tries the code has, [mlsag_loop] on
    the number of columns, [prove_batches] on the number of outputs, [batch_size]
    on five doublings.  [generate_signature] draws until a nonce is good: its
    theorem says that fuel up to the first good one is enough.  Lemmas named
    _enough, _fuel or _mono, or the theorems themselves, show that the fuel never
    runs out or that more of it changes nothing.  [handle_alternative_block]
    takes a bound on nested reorganisations; its theorems hold for every bound.
    Sizes are bounded where a theorem says so (blocks below 2^28 transactions,
    weights below 2^31, blobs up to the size the node accepts).

    ** Not modelled

    - The arithmetic of curve points and of the field below them, bulletproofs,
      proof-of-work hashes, libsodium and the external proof-of-stake module are parameters (classes) with their
      documented laws; the theorems hold for every instance, and the witnesses
      use small concrete ones.
    - Networking, RPC, wallets, the command line, the Berkeley DB back end and
      vendored libraries: input and output, or code that is only called.
    - In the database: properties, migrations and the LMDB calls.
    - In the chain and the core: queries that change nothing, the filling of
      the table of ring members for a group of blocks (its contents are an argument
      of [TxCheck]), start-up, and the built-in miner; where a call ends in an
      exception that nothing catches, what it had changed by then.
*)
From Stdlib Require Import ZArith Lia Bool Ascii String.
From stdpp Require Import prelude gmap strings.
Local Open Scope Z_scope.

(** ** Machine integers

    A w-bit unsigned integer is a [Z] in [0, 2^w); every C operation that may
    leave the range is written with [wrap]. *)

Definition wrap (w z : Z) : Z := z mod 2 ^ w.
Abbreviation u8 := (wrap 8).
Abbreviation u32 := (wrap 32).
Abbreviation u64 := (wrap 64).

(** Two's complement reading of the low [w] bits. *)
Definition swrap (w z : Z) : Z := (z + 2 ^ (w - 1)) mod 2 ^ w - 2 ^ (w - 1).
Abbreviation i64 := (swrap 64).

Definition in_range (w z : Z) : Prop := 0 <= z < 2 ^ w.
Abbreviation is_u8 := (in_range 8).
Abbreviation is_u32 := (in_range 32).
Abbreviation is_u64 := (in_range 64).

#[export] Instance in_range_dec w z : Decision (in_range w z).
Proof. unfold in_range. apply _. Defined.

(** ** Byte strings

    [std::string], [blobdata] and [std::vector<uint8_t>] are lists of byte
    values. *)
Abbreviation blob := (list Z).
Definition bytes_ok (b : blob) : Prop := Forall is_u8 b.
Definition zlen {A} (l : list A) : Z := Z.of_nat (length l).

(** The bytes of a string literal. *)
Definition str (s : String.string) : blob :=
  map (fun c => Z.of_N (Ascii.N_of_ascii c)) (String.list_ascii_of_string s).

(** A fixed-width POD (hash, key, signature) of [n] bytes. *)
Definition pod_ok (n : nat) (b : blob) : Prop := length b = n /\ bytes_ok b.

#[export] Instance bytes_ok_dec b : Decision (bytes_ok b).
Proof. unfold bytes_ok. apply _. Defined.
#[export] Instance pod_ok_dec n b : Decision (pod_ok n b).
Proof. unfold pod_ok. apply _. Defined.

(** ** Readers and writers

    [binary_archive<false>] is an [std::istream]: a reader either fails (the
    serializer returned [false], or the stream left the [good] state, which
    every caller tests) or yields a value and the unread bytes.
    [binary_archive<true>] is an [std::ostringstream]: a writer yields the
    bytes it put and the boolean its serializer returned. *)
Definition reader (A : Type) : Type := blob -> option (A * blob).

Definition rret {A} (a : A) : reader A := fun s => Some (a, s).
Definition rfail {A} : reader A := fun _ => None.
Definition rbind {A B} (m : reader A) (k : A -> reader B) : reader B :=
  fun s => match m s with Some (a, s') => k a s' | None => None end.
Definition rguard (b : bool) : reader unit := fun s => if b then Some (tt, s) else None.

Definition writer : Type := blob * bool.
Definition wput (b : blob) : writer := (b, true).
Definition wfail : writer := ([], false).
Definition wseq (m k : writer) : writer :=
  if m.2 then (m.1 ++ k.1, k.2) else m.
Definition wguard (b : bool) : writer := ([], b).
Arguments wseq : simpl never.
Arguments rbind : simpl never.

Declare Scope archive_scope.
Delimit Scope archive_scope with archive.
Notation "x <-- m ;; k" := (rbind m (fun x => k))
  (at level 100, m at next level, right associativity) : archive_scope.
Notation "m >>> k" := (wseq m k) (at level 60, right associativity) : archive_scope.

(** ** Automation *)
Create HintDb xcash discriminated.
Create HintDb xcash_rw discriminated.

Ltac simp_let := cbv beta iota zeta.
Ltac destr_match :=
  match goal with
  | |- context [match ?x with _ => _ end] => destruct x eqn:?
  | H : context [match ?x with _ => _ end] |- _ => destruct x eqn:?
  end.
Ltac bool_lia := repeat (rewrite ?andb_true_iff, ?andb_false_iff, ?orb_true_iff,
    ?orb_false_iff, ?negb_true_iff, ?negb_false_iff, ?Z.leb_le, ?Z.leb_gt, ?Z.ltb_lt,
    ?Z.ltb_ge, ?Z.eqb_eq, ?Z.eqb_neq in *); lia.

(** A decidable closed fact, by evaluation of its decision procedure. *)
Ltac by_decide := apply (bool_decide_unpack _); vm_compute; exact I.

(** Case analysis on a boolean comparison, keeping its meaning. *)
Ltac cmp_cases :=
  repeat match goal with
  | |- context [?a <=? ?b] => destruct (Z.leb_spec a b)
  | |- context [?a <? ?b] => destruct (Z.ltb_spec a b)
  | |- context [?a =? ?b] => destruct (Z.eqb_spec a b)
  end; simpl.

(** ** Integer lemmas *)
Lemma wrap_range w z : 0 <= w -> in_range w (wrap w z).
Proof. intros. apply Z.mod_pos_bound. apply Z.pow_pos_nonneg; lia. Qed.

Lemma wrap_small w z : in_range w z -> wrap w z = z.
Proof. intros. by apply Z.mod_small. Qed.

Lemma swrap_small w z : 0 < w -> - 2 ^ (w - 1) <= z < 2 ^ (w - 1) -> swrap w z = z.
Proof.
  intros Hw Hz. unfold swrap. rewrite Z.mod_small; [lia|].
  replace (2 ^ w) with (2 * 2 ^ (w - 1)); [lia|]. rewrite <- Z.pow_succ_r by lia. f_equal. lia.
Qed.

Lemma wrap_wrap w z : 0 <= w -> wrap w (wrap w z) = wrap w z.
Proof. intros. apply wrap_small. by apply wrap_range. Qed.

Lemma wrap_add_l w a b : wrap w (wrap w a + b) = wrap w (a + b).
Proof. apply Zplus_mod_idemp_l. Qed.

Lemma wrap_add_r w a b : wrap w (a + wrap w b) = wrap w (a + b).
Proof. apply Zplus_mod_idemp_r. Qed.

Lemma wrap_sub_l w a b : wrap w (wrap w a - b) = wrap w (a - b).
Proof. apply Zminus_mod_idemp_l. Qed.

#[export] Hint Resolve wrap_range : xcash.

Lemma in_range_mono w w' z : w <= w' -> in_range w z -> in_range w' z.
Proof.
  unfold in_range. intros. assert (2 ^ w <= 2 ^ w'); [|lia].
  apply Z.pow_le_mono_r; lia.
Qed.

Lemma land_ones_mod z n : 0 <= n -> Z.land z (Z.ones n) = z mod 2 ^ n.
Proof. intros. by apply Z.land_ones. Qed.

Lemma land_7f z : Z.land z 127 = z mod 128.
Proof. apply (Z.land_ones z 7). lia. Qed.

Lemma land_ff z : Z.land z 255 = z mod 256.
Proof. apply (Z.land_ones z 8). lia. Qed.

Lemma land_ffffffff z : Z.land z 4294967295 = z mod 2 ^ 32.
Proof. apply (Z.land_ones z 32). lia. Qed.

(** Disjoint bit fields: the or is the sum. *)
Lemma lor_shiftl_add a b n : 0 <= n -> 0 <= a < 2 ^ n ->
  Z.lor a (Z.shiftl b n) = a + b * 2 ^ n.
Proof.
  intros Hn Ha. rewrite Z.shiftl_mul_pow2 by lia.
  rewrite <- Z.add_lor_land. assert (Z.land a (b * 2 ^ n) = 0) as ->; [|lia].
  apply Z.bits_inj'. intros i Hi. rewrite Z.land_spec, Z.bits_0.
  destruct (Z.lt_ge_cases i n).
  - rewrite Z.mul_pow2_bits_low by lia. apply andb_false_r.
  - rewrite <- (Z.mod_small a (2 ^ n)) by lia.
    by rewrite Z.mod_pow2_bits_high by lia.
Qed.

Lemma zlen_app {A} (l k : list A) : zlen (l ++ k) = zlen l + zlen k.
Proof. unfold zlen. rewrite length_app. lia. Qed.
Lemma zlen_cons {A} (x : A) l : zlen (x :: l) = 1 + zlen l.
Proof. unfold zlen. simpl length. lia. Qed.
Lemma zlen_nil {A} : zlen ([] : list A) = 0.
Proof. done. Qed.
Lemma zlen_nonneg {A} (l : list A) : 0 <= zlen l.
Proof. unfold zlen. lia. Qed.

Lemma bytes_ok_app a b : bytes_ok (a ++ b) <-> bytes_ok a /\ bytes_ok b.
Proof. apply Forall_app. Qed.

Lemma lor_range w a b : 0 <= w -> in_range w a -> in_range w b -> in_range w (Z.lor a b).
Proof.
  unfold in_range. intros Hw [? ?] [? ?]. split; [by apply Z.lor_nonneg|].
  destruct (Z.eq_dec (Z.lor a b) 0) as [->|]; [lia|].
  assert (0 <= Z.lor a b) by (by apply Z.lor_nonneg).
  apply Z.log2_lt_pow2; [lia|]. rewrite Z.log2_lor by done.
  destruct (Z.eq_dec w 0) as [->|].
  { change (2 ^ 0) with 1 in *. assert (a = 0) as -> by lia. assert (b = 0) as -> by lia. done. }
  assert (forall x, 0 <= x < 2 ^ w -> Z.log2 x < w) as HL.
  { intros x Hx. destruct (Z.eq_dec x 0) as [->|]; [simpl; lia|]. apply Z.log2_lt_pow2; lia. }
  apply Z.max_lub_lt; by apply HL.
Qed.

(** ** Reader and writer lemmas *)
Lemma rbind_some {A B} (m : reader A) (k : A -> reader B) s r :
  rbind m k s = Some r -> exists a s', m s = Some (a, s') /\ k a s' = Some r.
Proof. unfold rbind. destruct (m s) as [[a s']|]; [|done]. eauto. Qed.

Lemma rbind_eq {A B} (m : reader A) (k : A -> reader B) s a s' :
  m s = Some (a, s') -> rbind m k s = k a s'.
Proof. unfold rbind. by intros ->. Qed.

Lemma wseq_true m k : m.2 = true -> wseq m k = (m.1 ++ k.1, k.2).
Proof. unfold wseq. by intros ->. Qed.

Lemma bytes_ok_take n b : bytes_ok b -> bytes_ok (take n b).
Proof. apply Forall_take. Qed.
Lemma bytes_ok_drop n b : bytes_ok b -> bytes_ok (drop n b).
Proof. apply Forall_drop. Qed.
#[export] Hint Resolve bytes_ok_take bytes_ok_drop : xcash.
