(* ===== verification/StringTools.v ===== *)
(** * Hexadecimal and decimal strings

    Model of contrib/epee/include/string_tools.h ([parse_hexstr_to_binbuff],
    [parse_tpod_from_hex_string], [pod_to_hex], [get_xtype_from_string]) and of
    contrib/epee/src/hex.cpp.  The C library's [strtoul] with base 16 and
    [std::to_string] are modelled as far as this code uses them. *)
From Stdlib Require Import ZArith Lia Bool.
From stdpp Require Import prelude strings.
From S2P Require Import Prelude.
Local Open Scope Z_scope.

(** [isspace] and [isdigit] in the C locale. *)
Definition is_space (c : Z) : bool := ((9 <=? c) && (c <=? 13)) || (c =? 32).
Definition is_digit (c : Z) : bool := (48 <=? c) && (c <=? 57).

Definition hex_val (c : Z) : option Z :=
  if is_digit c then Some (c - 48)
  else if (97 <=? c) && (c <=? 102) then Some (c - 87)
  else if (65 <=? c) && (c <=? 70) then Some (c - 55)
  else None.

(** [strtoul(s, &endptr, 16)] on a short NUL-terminated string (no overflow):
    the value and the number of characters consumed, 0 when there is no number. *)
Fixpoint hex_digits (s : blob) (v : Z) (n : nat) : Z * nat :=
  match s with
  | c :: s => match hex_val c with Some d => hex_digits s (v * 16 + d) (n + 1) | None => (v, n) end
  | [] => (v, n)
  end.

Fixpoint skip_spaces (s : blob) : blob * nat :=
  match s with
  | c :: s' => if is_space c then let '(r, n) := skip_spaces s' in (r, S n) else (s, O)
  | [] => ([], O)
  end.

Definition strtoul16 (s : blob) : Z * nat :=
  let '(s, n0) := skip_spaces s in
  let '(neg, s, n1) := match s with
                       | c :: s' => if c =? 43 then (false, s', 1%nat)
                                    else if c =? 45 then (true, s', 1%nat) else (false, s, 0%nat)
                       | [] => (false, s, 0%nat)
                       end in
  let '(s, n2) := match s with
                  | z :: x :: d :: s' =>
                      if (z =? 48) && ((x =? 120) || (x =? 88)) && match hex_val d with Some _ => true | None => false end
                      then (d :: s', 2%nat) else (s, 0%nat)
                  | _ => (s, 0%nat)
                  end in
  let '(v, n3) := hex_digits s 0 0 in
  if (n3 =? 0)%nat then (0, 0%nat) else (u64 (if neg then - v else v), (n0 + n1 + n2 + n3)%nat).

(** One byte of the loop: [long v = strtoul(...)], range and end checks. *)
Definition parse_hex_byte (byte_str : blob) : option Z :=
  let '(v, consumed) := strtoul16 byte_str in
  let v := i64 v in
  if (v <? 0) || (255 <? v) || negb (consumed =? length byte_str)%nat then None else Some v.

Fixpoint parse_hex_loop (n : nat) (s : blob) (res : blob) : option blob :=
  match n with
  | O => Some res
  | S n => match parse_hex_byte (take 2 s) with
           | Some v => parse_hex_loop n (drop 2 s) (res ++ [v])
           | None => None
           end
  end.

Definition parse_hexstr_to_binbuff (allow_partial_byte : bool) (s : blob) : option blob :=
  if negb allow_partial_byte && (Z.land (zlen s) 1 =? 1) then None
  else parse_hex_loop ((length s + 1) / 2) s [].

Definition parse_tpod_from_hex_string (size : nat) (s : blob) : option blob :=
  match parse_hexstr_to_binbuff false s with
  | Some buf => if (length buf =? size)%nat then Some buf else None
  | None => None
  end.

(** contrib/epee/src/hex.cpp *)
Definition hex_chars : blob := str "0123456789abcdef"%string.

Fixpoint write_hex (src : blob) : blob :=
  match src with
  | [] => []
  | byte :: src => hex_chars !!! Z.to_nat (Z.shiftr byte 4) :: hex_chars !!! Z.to_nat (Z.land byte 15) :: write_hex src
  end.

Definition pod_to_hex (pod : blob) : blob := write_hex pod.

(** [std::to_string] of an unsigned integer. *)
Fixpoint to_string_loop (fuel : nat) (n : Z) (acc : blob) : blob :=
  match fuel with
  | O => acc
  | S fuel => let acc := 48 + n mod 10 :: acc in
              if n <? 10 then acc else to_string_loop fuel (n / 10) acc
  end.
Definition to_string (n : Z) : blob := to_string_loop (S (Z.to_nat (Z.log2 n))) n [].

(** [get_xtype_from_string<uint64_t>]: only digits, then [boost::lexical_cast],
    which throws on the empty string and on overflow. *)
Fixpoint decimal_value (s : blob) (v : Z) : Z :=
  match s with
  | [] => v
  | c :: s => decimal_value s (v * 10 + (c - 48))
  end.

Definition get_xtype_from_string (s : blob) : option Z :=
  if negb (forallb is_digit s) then None
  else match s with
       | [] => None
       | _ => let v := decimal_value s 0 in if v <? 2 ^ 64 then Some v else None
       end.

(** ** Hex round trip *)
Lemma parse_hex_byte_write b : is_u8 b ->
  parse_hex_byte [hex_chars !!! Z.to_nat (Z.shiftr b 4); hex_chars !!! Z.to_nat (Z.land b 15)] = Some b.
Proof.
  intros Hb. assert (Forall (fun n => parse_hex_byte [hex_chars !!! Z.to_nat (Z.shiftr (Z.of_nat n) 4);
    hex_chars !!! Z.to_nat (Z.land (Z.of_nat n) 15)] = Some (Z.of_nat n)) (seq 0 256)) as HF by by_decide.
  rewrite Forall_forall in HF. unfold in_range in Hb.
  specialize (HF (Z.to_nat b)). rewrite Z2Nat.id in HF by lia. apply HF, elem_of_seq. lia.
Qed.

Lemma write_hex_length b : length (write_hex b) = (2 * length b)%nat.
Proof. induction b as [|x b IH]; [done|]. simpl. rewrite IH. lia. Qed.

Lemma parse_hex_loop_write b res : bytes_ok b ->
  parse_hex_loop (length b) (write_hex b) res = Some (res ++ b).
Proof.
  intros Hb. revert res. induction Hb as [|x b Hx Hb IH]; intros res; [by rewrite app_nil_r|].
  cbn [length parse_hex_loop write_hex take drop firstn skipn].
  rewrite parse_hex_byte_write by done. rewrite IH. by rewrite <- app_assoc.
Qed.

Lemma parse_hex_write b : bytes_ok b -> parse_hexstr_to_binbuff false (write_hex b) = Some b.
Proof.
  intros Hb. unfold parse_hexstr_to_binbuff. rewrite write_hex_length.
  assert (zlen (write_hex b) = 2 * zlen b) as -> by (unfold zlen; rewrite write_hex_length; lia).
  assert (Z.land (2 * zlen b) 1 = 0) as ->.
  { rewrite (Z.land_ones _ 1) by lia. change (2 ^ 1) with 2. rewrite Z.mul_comm. by apply Z.mod_mul. }
  cbn [negb andb Z.eqb]. replace ((2 * length b + 1) / 2)%nat with (length b); [by rewrite parse_hex_loop_write|].
  rewrite Nat.mul_comm, Nat.div_add_l by lia. simpl. lia.
Qed.

(** What is parsed are bytes. *)
Lemma parse_hex_loop_ok n s res b : bytes_ok res -> parse_hex_loop n s res = Some b ->
  bytes_ok b /\ length b = (length res + n)%nat.
Proof.
  revert s res. induction n as [|n IH]; intros s res Hr; simpl; [intros [= <-]; split; [done|lia]|].
  unfold parse_hex_byte. destruct (strtoul16 (take 2 s)) as [v c]. cbv zeta.
  destruct (_ || _) eqn:E; [done|]. intros H. apply IH in H as [? ->].
  - split; [done|]. rewrite length_app. simpl. lia.
  - apply bytes_ok_app. split; [done|]. constructor; [|constructor]. unfold in_range. lia.
Qed.

(** The two-character strings [strtoul] reads in full as one byte. *)
Definition hex_pair (a b : Z) : option Z :=
  match hex_val a, hex_val b with
  | Some x, Some y => Some (16 * x + y)
  | None, Some y =>
      if is_space a || (a =? 43) then Some y
      else if (a =? 45) && (y =? 0) then Some 0 else None
  | _, None => None
  end.

Lemma hex_val_range c x : hex_val c = Some x ->
  0 <= x < 16 /\ is_space c = false /\ (c =? 43) = false /\ (c =? 45) = false.
Proof.
  unfold hex_val, is_digit, is_space. intros H. repeat case_match; simplify_eq; lia.
Qed.

Lemma parse_hex_byte_pair a b : is_u8 a -> is_u8 b -> parse_hex_byte [a; b] = hex_pair a b.
Proof.
  intros Ha Hb. unfold parse_hex_byte, hex_pair, strtoul16. cbn [skip_spaces length].
  destruct (hex_val a) as [x|] eqn:Ex.
  - destruct (hex_val_range a x Ex) as (Hx & -> & -> & ->). cbn [hex_digits]. rewrite Ex.
    destruct (hex_val b) as [y|] eqn:Ey; [|cbn [Nat.eqb Nat.add negb]; by rewrite orb_true_r].
    destruct (hex_val_range b y Ey) as (Hy & _). cbn [Nat.eqb Nat.add negb]. rewrite wrap_small by (unfold in_range; lia).
    rewrite swrap_small by lia. rewrite (proj2 (Z.ltb_ge _ _)), (proj2 (Z.ltb_ge _ _)) by lia. f_equal. lia.
  - destruct (is_space a) eqn:Es.
    + destruct (hex_val b) as [y|] eqn:Ey.
      * destruct (hex_val_range b y Ey) as (Hy & -> & -> & ->). cbn [hex_digits]. rewrite Ey.
        cbn [Nat.eqb Nat.add negb orb]. rewrite wrap_small by (unfold in_range; lia).
        rewrite swrap_small by lia. by rewrite (proj2 (Z.ltb_ge _ _)), (proj2 (Z.ltb_ge _ _)) by lia.
      * destruct (is_space b); [done|]. destruct (b =? 43); [done|]. destruct (b =? 45); [done|].
        cbn [hex_digits]. by rewrite Ey.
    + destruct (a =? 43) eqn:E1; [|destruct (a =? 45) eqn:E2].
      * cbn [hex_digits]. destruct (hex_val b) as [y|] eqn:Ey; [|done].
        destruct (hex_val_range b y Ey) as (Hy & _). cbn [Nat.eqb Nat.add negb orb].
        rewrite wrap_small by (unfold in_range; lia). rewrite swrap_small by lia.
        by rewrite (proj2 (Z.ltb_ge _ _)), (proj2 (Z.ltb_ge _ _)) by lia.
      * cbn [hex_digits]. destruct (hex_val b) as [y|] eqn:Ey; [|done].
        destruct (hex_val_range b y Ey) as (Hy & _). cbn [Nat.eqb Nat.add negb orb andb].
        destruct (Z.eqb_spec y 0) as [->|Hn]; [done|].
        assert (i64 (u64 (- (0 * 16 + y))) = - y) as ->; [|by rewrite (proj2 (Z.ltb_lt _ _)) by lia].
        assert (Forall (fun n => i64 (u64 (- (0 * 16 + Z.of_nat n))) = - Z.of_nat n) (seq 0 16)) as HF by by_decide.
        rewrite Forall_forall in HF. specialize (HF (Z.to_nat y)). rewrite Z2Nat.id in HF by lia.
        apply HF, elem_of_seq. lia.
      * cbn [hex_digits]. rewrite Ex. cbn. by destruct (hex_val b).
Qed.

(** The specification of the parser: the pairs of the string, each read by [hex_pair]. *)
Fixpoint hex_pairs (s : blob) : option blob :=
  match s with
  | [] => Some []
  | a :: b :: s => x ← hex_pair a b; r ← hex_pairs s; Some (x :: r)
  | _ => None
  end.

Lemma parse_hex_loop_pairs n s res : bytes_ok s -> length s = (2 * n)%nat ->
  parse_hex_loop n s res = (fun r => res ++ r) <$> hex_pairs s.
Proof.
  revert s res. induction n as [|n IH]; intros s res Hs Hl.
  { destruct s; [|done]. simpl. by rewrite app_nil_r. }
  destruct s as [|a [|b s]]; [simpl in Hl; lia..|].
  apply Forall_cons in Hs as [Ha Hs]. apply Forall_cons in Hs as [Hb Hs].
  cbn [parse_hex_loop take drop firstn skipn hex_pairs]. rewrite parse_hex_byte_pair by done.
  destruct (hex_pair a b) as [x|]; [|done]. simpl in Hl.
  rewrite ?drop_0, IH; [|exact Hs|lia]. simpl.
  destruct (hex_pairs s); simpl; [by rewrite <- app_assoc|done].
Qed.

Lemma hex_pairs_odd s n : length s = (2 * n + 1)%nat -> hex_pairs s = None.
Proof.
  revert s. induction n as [|n IH]; intros s Hl; destruct s as [|a [|b s]]; simpl in Hl; try (done || lia).
  simpl. destruct (hex_pair a b); [|done]. simpl. rewrite IH; [done|lia].
Qed.

(** [parse_hexstr_to_binbuff] reads exactly the strings that split into
    pairs accepted by [hex_pair]: two hex digits of either case, but also - because each
    pair goes through [strtoul] - a blank or a plus sign before one digit, and
    the pair minus, zero.  Strings of odd length are refused. *)
Theorem parse_hexstr_pairs (s : blob) : bytes_ok s ->
  parse_hexstr_to_binbuff false s = hex_pairs s.
Proof.
  intros Hs. unfold parse_hexstr_to_binbuff. rewrite (Z.land_ones _ 1) by lia. change (2 ^ 1) with 2.
  assert (zlen s = Z.of_nat (length s)) as -> by done.
  destruct (Nat.Even_or_Odd (length s)) as [[n Hn]|[n Hn]]; rewrite Hn.
  - replace (Z.of_nat (2 * n) mod 2) with 0 by (rewrite Nat2Z.inj_mul, Z.mul_comm, Z.mod_mul; lia).
    cbn [negb andb Z.eqb].
    replace ((2 * n + 1) / 2)%nat with n by (rewrite Nat.mul_comm, Nat.div_add_l by lia; simpl; lia).
    rewrite parse_hex_loop_pairs by done. by destruct (hex_pairs s).
  - replace (Z.of_nat (2 * n + 1) mod 2) with 1 by
      (rewrite Nat2Z.inj_add, Nat2Z.inj_mul, Z.add_comm, Z.mul_comm, Z.mod_add; lia || done).
    simpl. symmetry. by eapply hex_pairs_odd.
Qed.

Lemma parse_hexstr_pairs_witness :
  parse_hexstr_to_binbuff false (str "+f-0 7Ab"%string) = Some [15; 0; 7; 171].
Proof. rewrite parse_hexstr_pairs; by_decide. Defined.

(** printing a POD in hexadecimal and parsing it back gives the POD. *)
Theorem pod_hex_roundtrip (size : nat) (pod : blob) : bytes_ok pod -> length pod = size ->
  parse_tpod_from_hex_string size (pod_to_hex pod) = Some pod.
Proof.
  intros Hp <-. unfold parse_tpod_from_hex_string, pod_to_hex. rewrite parse_hex_write by done.
  by rewrite Nat.eqb_refl.
Qed.

Lemma pod_hex_roundtrip_witness :
  parse_tpod_from_hex_string 3 (pod_to_hex [0; 171; 255]) = Some [0; 171; 255].
Proof. apply pod_hex_roundtrip; by_decide. Defined.

(** ** Decimal *)
Lemma decimal_value_app s t v : decimal_value (s ++ t) v = decimal_value t (decimal_value s v).
Proof. revert v. induction s as [|c s IH]; intros v; [done|]. simpl. apply IH. Qed.

Lemma to_string_loop_acc fuel n acc : to_string_loop fuel n acc = to_string_loop fuel n [] ++ acc.
Proof.
  revert n acc. induction fuel as [|fuel IH]; intros n acc; [done|]. simpl.
  destruct (n <? 10); [done|]. rewrite IH, (IH _ [_]), <- app_assoc. done.
Qed.

Lemma is_digit_mod n : is_digit (48 + n mod 10) = true.
Proof. unfold is_digit. pose proof (Z.mod_pos_bound n 10). lia. Qed.

Lemma to_string_loop_spec fuel n : 0 <= n < 10 ^ Z.of_nat fuel -> (0 < fuel)%nat ->
  let s := to_string_loop fuel n [] in
  decimal_value s 0 = n /\ forallb is_digit s = true /\ s <> [].
Proof.
  revert n. induction fuel as [|fuel IH]; intros n Hn Hf; [lia|]. cbv zeta. cbn [to_string_loop].
  destruct (n <? 10) eqn:E.
  { rewrite Z.mod_small by lia. split; [simpl; lia|]. split; [|done]. simpl. unfold is_digit. lia. }
  rewrite to_string_loop_acc, decimal_value_app, forallb_app.
  assert (10 ^ Z.of_nat (S fuel) = 10 * 10 ^ Z.of_nat fuel) as Hp by
    (rewrite Nat2Z.inj_succ, Z.pow_succ_r; lia).
  destruct (IH (n / 10)) as (IH1 & IH2 & _).
  { split; [apply Z.div_pos; lia|]. apply Z.div_lt_upper_bound; lia. }
  { destruct fuel; [change (10 ^ Z.of_nat 0) with 1 in Hp; lia|lia]. }
  rewrite IH1, IH2. simpl. rewrite is_digit_mod. split; [|split; [done|]].
  - rewrite (Z.div_mod n 10) at 3 by lia. lia.
  - by destruct (to_string_loop fuel (n / 10) []).
Qed.

Lemma to_string_spec n : 0 <= n ->
  decimal_value (to_string n) 0 = n /\ forallb is_digit (to_string n) = true /\ to_string n <> [].
Proof.
  intros Hn. apply to_string_loop_spec; [|lia]. rewrite Nat2Z.inj_succ, Z2Nat.id by apply Z.log2_nonneg.
  split; [done|]. destruct (decide (n = 0)) as [->|]; [done|].
  pose proof (Z.log2_spec n). pose proof (Z.log2_nonneg n).
  pose proof (Z.pow_le_mono_l 2 10 (Z.succ (Z.log2 n))). lia.
Qed.

(** a 64-bit number printed by [std::to_string] is read back by
    [get_xtype_from_string<uint64_t>]. *)
Theorem to_string_roundtrip (n : Z) : is_u64 n -> get_xtype_from_string (to_string n) = Some n.
Proof.
  intros Hn. unfold in_range in Hn. destruct (to_string_spec n) as (H1 & H2 & H3); [lia|].
  unfold get_xtype_from_string. rewrite H2. cbn [negb]. cbv zeta. rewrite H1.
  replace (n <? 2 ^ 64) with true by lia. by destruct (to_string n).
Qed.

Lemma to_string_roundtrip_witness :
  get_xtype_from_string (to_string 18446744073709551615) = Some 18446744073709551615.
Proof. apply to_string_roundtrip. by_decide. Defined.
