(* ===== verification/Varint.v ===== *)
(** * Variable-length integers

    Model of src/common/varint.h: [tools::write_varint], [tools::read_varint]
    and [tools::get_varint_data].  [read_varint] is kept exactly as the header
    has it: it returns the C++ [int] (a count, or a negative error code), the
    value accumulated so far and the position of the input iterator, also on
    the error paths. *)
From Stdlib Require Import ZArith Lia Bool.
From stdpp Require Import prelude.
From S2P Require Import Prelude.
Local Open Scope Z_scope.

Definition EVARINT_OVERFLOW : Z := -1.
Definition EVARINT_REPRESENT : Z := -2.

(** The write loop: seven bits per byte, the top bit set on all but the last. *)
Fixpoint write_varint_loop (fuel : nat) (i : Z) : blob :=
  match fuel with
  | O => [Z.land i 255]
  | S fuel =>
      if 128 <=? i
      then Z.lor (Z.land (Z.land i 255) 127) 128 :: write_varint_loop fuel (Z.shiftr i 7)
      else [Z.land i 255]
  end.

Definition write_varint (i : Z) : blob := write_varint_loop (Z.to_nat (Z.log2 i)) i.

Definition get_varint_data (v : Z) : blob := write_varint v.

(** The read loop, for an unsigned type of [bits] digits. *)
Fixpoint read_varint_loop (bits shift read write : Z) (s : blob) : Z * Z * blob :=
  match s with
  | [] => (read, write, [])
  | byte :: s' =>
      if (bits <=? shift + 7) && (Z.shiftl 1 (bits - shift) <=? byte)
      then (EVARINT_OVERFLOW, write, s')
      else if (byte =? 0) && negb (shift =? 0)
      then (EVARINT_REPRESENT, write, s')
      else
        let write' := Z.lor write (wrap bits (Z.shiftl (Z.land byte 127) shift)) in
        if Z.land byte 128 =? 0 then (read + 1, write', s')
        else read_varint_loop bits (shift + 7) (read + 1) write' s'
  end.

Definition read_varint (bits : Z) (s : blob) : Z * Z * blob := read_varint_loop bits 0 0 0 s.

(** ** The write loop has enough fuel *)
Lemma log2_shiftr7 i : 128 <= i -> (S (Z.to_nat (Z.log2 (Z.shiftr i 7))) <= Z.to_nat (Z.log2 i))%nat.
Proof.
  intros. rewrite Z.log2_shiftr by lia.
  assert (7 <= Z.log2 i) by (apply Z.log2_le_pow2; lia). lia.
Qed.

Lemma write_varint_loop_enough f1 f2 i : 0 <= i ->
  (Z.to_nat (Z.log2 i) <= f1)%nat -> (Z.to_nat (Z.log2 i) <= f2)%nat ->
  write_varint_loop f1 i = write_varint_loop f2 i.
Proof.
  revert f2 i. induction f1 as [|f1 IH]; intros [|f2] i Hi H1 H2; simpl; [done| | |];
    destruct (Z.leb_spec 128 i) as [H|H]; try done;
    pose proof (log2_shiftr7 i H); try lia.
  f_equal. apply IH; [apply Z.shiftr_nonneg; lia|lia..].
Qed.

(** The defining equation of [write_varint], with no fuel in it. *)
Lemma write_varint_unfold i : 0 <= i ->
  write_varint i =
    if 128 <=? i then (i mod 128 + 128) :: write_varint (i / 128) else [i].
Proof.
  intros Hi. unfold write_varint.
  destruct (Z.leb_spec 128 i) as [H|H].
  - pose proof (log2_shiftr7 i H) as HL.
    assert (Z.shiftr i 7 = i / 128) as Hs by (rewrite Z.shiftr_div_pow2; [done|lia]).
    rewrite Hs in HL.
    destruct (Z.to_nat (Z.log2 i)) as [|f] eqn:Ef; [lia|].
    simpl. rewrite (proj2 (Z.leb_le 128 i)) by lia. f_equal.
    + rewrite land_ff, land_7f. rewrite Z.mod_mod_divide by (by exists 2).
      change (Z.lor (i mod 128) 128) with (Z.lor (i mod 128) (Z.shiftl 1 7)).
      rewrite (lor_shiftl_add _ 1 7); [lia|lia|]. apply Z.mod_pos_bound. lia.
    + rewrite Hs. apply write_varint_loop_enough; [apply Z.div_pos; lia|lia|lia].
  - assert (Z.land i 255 = i) as E by (rewrite land_ff, Z.mod_small; lia).
    destruct (Z.to_nat (Z.log2 i)); simpl; [by rewrite E|].
    rewrite (proj2 (Z.leb_gt 128 i)) by lia. by rewrite E.
Qed.

(** Induction along the digits of a varint. *)
Lemma varint_ind (P : Z -> Prop) :
  (forall i, 0 <= i < 128 -> P i) ->
  (forall i, 128 <= i -> P (i / 128) -> P i) ->
  forall i, 0 <= i -> P i.
Proof.
  intros H0 H1 i Hi. revert Hi. induction i as [i IH] using (well_founded_induction (Z.lt_wf 0)).
  intros Hi. destruct (Z.lt_ge_cases i 128); [apply H0; lia|].
  apply H1; [lia|]. assert (i / 128 < i) by (apply Z.div_lt; lia).
  assert (0 <= i / 128) by (apply Z.div_pos; lia). apply IH; lia.
Qed.

Lemma write_varint_nonempty i : 0 <= i -> write_varint i <> [].
Proof. intros. rewrite write_varint_unfold by done. by destruct (128 <=? i). Qed.

Lemma write_varint_bytes i : 0 <= i -> bytes_ok (write_varint i).
Proof.
  revert i. apply varint_ind; intros i Hi.
  - rewrite write_varint_unfold by lia. rewrite (proj2 (Z.leb_gt _ _)) by lia.
    constructor; [unfold in_range; lia|constructor].
  - intros IH. rewrite write_varint_unfold by lia. rewrite (proj2 (Z.leb_le _ _)) by lia.
    constructor; [|done]. pose proof (Z.mod_pos_bound i 128). unfold in_range. lia.
Qed.

Lemma zlen_write_varint_64 i : in_range 64 i -> zlen (write_varint i) <= 10.
Proof.
  intros Hi. assert (forall k i, 0 <= i < 128 ^ (1 + Z.of_nat k) -> zlen (write_varint i) <= 1 + Z.of_nat k) as H.
  { clear. induction k as [|k IH]; intros i Hi; rewrite write_varint_unfold by lia.
    - rewrite (proj2 (Z.leb_gt _ _)) by lia. done.
    - case_match; [|change (zlen [i]) with 1; lia]. rewrite zlen_cons.
      assert (zlen (write_varint (i / 128)) <= 1 + Z.of_nat k); [|lia]. apply IH.
      split; [apply Z.div_pos; lia|]. apply Z.div_lt_upper_bound; [lia|].
      rewrite <- Z.pow_succ_r by lia. replace (Z.succ (1 + Z.of_nat k)) with (1 + Z.of_nat (S k)) by lia. lia. }
  apply (H 9%nat). unfold in_range in Hi. change (128 ^ (1 + Z.of_nat 9)) with (2 ^ 70).
  assert (2 ^ 64 < 2 ^ 70) by done. lia.
Qed.

Lemma land_128_low b : 0 <= b < 128 -> Z.land b 128 = 0.
Proof.
  intros. apply Z.bits_inj'. intros n Hn. rewrite Z.land_spec, Z.bits_0.
  destruct (Z.eq_dec n 7) as [->|].
  - rewrite <- (Z.mod_small b (2 ^ 7)) by lia. by rewrite Z.mod_pow2_bits_high by lia.
  - change 128 with (2 ^ 7). rewrite Z.pow2_bits_false by lia. apply andb_false_r.
Qed.

Lemma land_128_high b : 128 <= b < 256 -> Z.land b 128 = 128.
Proof.
  intros. replace b with (Z.lor (b - 128) (Z.shiftl 1 7)).
  - rewrite Z.land_lor_distr_l, land_128_low by lia. done.
  - rewrite lor_shiftl_add; lia.
Qed.

Lemma land_127_high b : 128 <= b < 256 -> Z.land b 127 = b - 128.
Proof. intros. rewrite land_7f. symmetry. apply Z.mod_unique with 1; lia. Qed.

(** One digit placed at [shift]: the or is an addition and nothing is lost. *)
Lemma varint_place bits shift acc d : 0 <= shift -> 0 <= acc < 2 ^ shift ->
  0 <= d -> d * 2 ^ shift < 2 ^ bits ->
  Z.lor acc (wrap bits (Z.shiftl d shift)) = acc + d * 2 ^ shift.
Proof.
  intros. rewrite wrap_small.
  - by apply lor_shiftl_add.
  - unfold in_range. rewrite Z.shiftl_mul_pow2 by lia. nia.
Qed.

Lemma read_varint_loop_write bits i : 0 <= i -> forall shift read acc rest,
  0 <= shift < bits -> 0 <= acc < 2 ^ shift -> i * 2 ^ shift < 2 ^ bits ->
  (shift = 0 \/ 0 < i) ->
  read_varint_loop bits shift read acc (write_varint i ++ rest) =
    (read + zlen (write_varint i), acc + i * 2 ^ shift, rest).
Proof.
  revert i. apply (varint_ind (fun i => forall shift read acc rest,
    0 <= shift < bits -> 0 <= acc < 2 ^ shift -> i * 2 ^ shift < 2 ^ bits ->
    (shift = 0 \/ 0 < i) -> read_varint_loop bits shift read acc (write_varint i ++ rest) =
      (read + zlen (write_varint i), acc + i * 2 ^ shift, rest))).
  - intros i Hi shift read acc rest Hs Ha Hb Hc.
    rewrite write_varint_unfold by lia. rewrite (proj2 (Z.leb_gt 128 i)) by lia. simpl.
    assert (i < 2 ^ (bits - shift)).
    { replace bits with ((bits - shift) + shift) in Hb by lia.
      rewrite Z.pow_add_r in Hb by lia. nia. }
    rewrite Z.shiftl_mul_pow2, Z.mul_1_l by lia.
    rewrite (proj2 (Z.leb_gt _ i)), andb_false_r by lia.
    assert ((i =? 0) && negb (shift =? 0) = false) as -> by bool_lia.
    rewrite land_128_low by lia. simpl.
    rewrite land_7f, (Z.mod_small i) by lia. rewrite varint_place by lia.
    by rewrite zlen_cons, zlen_nil.
  - intros i Hi IH shift read acc rest Hs Ha Hb Hc.
    rewrite write_varint_unfold by lia. rewrite (proj2 (Z.leb_le 128 i)) by lia. simpl.
    pose proof (Z.mod_pos_bound i 128 ltac:(lia)).
    pose proof (Z.div_mod i 128 ltac:(lia)).
    assert (2 ^ (shift + 7) = 2 ^ shift * 128) as E7 by (rewrite Z.pow_add_r; lia).
    assert (shift + 7 < bits).
    { apply Z.pow_lt_mono_r_iff with 2; [lia|lia|]. rewrite E7. nia. }
    rewrite (proj2 (Z.leb_gt bits _)) by lia. simpl.
    rewrite (proj2 (Z.eqb_neq (i mod 128 + 128) 0)) by lia. simpl.
    rewrite land_128_high by lia. simpl.
    rewrite land_127_high, Z.add_simpl_r by lia.
    assert (1 <= i / 128) by (apply Z.div_le_lower_bound; lia).
    rewrite varint_place by nia.
    rewrite IH; [|lia|rewrite E7; nia|rewrite E7; nia|lia].
    rewrite zlen_cons, E7. f_equal. f_equal; [lia|nia].
Qed.

Lemma read_varint_write bits i rest : 0 < bits -> in_range bits i ->
  read_varint bits (write_varint i ++ rest) = (zlen (write_varint i), i, rest).
Proof.
  intros Hb [Hi Hi']. unfold read_varint.
  rewrite read_varint_loop_write; [|lia..]. f_equal. f_equal; lia.
Qed.

Lemma write_varint_cons d i : 0 <= d < 128 -> 0 < i ->
  write_varint (i * 128 + d) = (d + 128) :: write_varint i.
Proof.
  intros. rewrite (write_varint_unfold (i * 128 + d)) by lia.
  rewrite (proj2 (Z.leb_le _ _)) by lia.
  rewrite (Z.add_comm (i * 128)), Z.mod_add, Z.div_add by lia.
  by rewrite Z.mod_small, Z.div_small, Z.add_0_l by lia.
Qed.

(** What a non-negative result of the read loop says about its input. *)
Lemma read_varint_loop_sound bits s : bytes_ok s -> forall shift read acc n v rest,
  0 <= shift < bits -> 0 <= acc < 2 ^ shift -> 0 <= read ->
  read_varint_loop bits shift read acc s = (n, v, rest) -> 0 <= n ->
  (exists i, 0 <= i /\ s = write_varint i ++ rest /\ v = acc + i * 2 ^ shift /\
     n = read + zlen (write_varint i) /\ (shift = 0 \/ 0 < i) /\ i * 2 ^ shift < 2 ^ bits)
  \/ (rest = [] /\ n = read + zlen s /\ Forall (fun b => 128 <= b) s).
Proof.
  induction 1 as [|b s Hb Hs IH]; intros shift read acc n v rest Hsh Ha Hr Heq Hn; simpl in Heq.
  { right. injection Heq as <- <- <-. rewrite zlen_nil. split; [done|split; [lia|constructor]]. }
  rewrite Z.shiftl_mul_pow2, Z.mul_1_l in Heq by lia.
  assert (2 ^ bits = 2 ^ (bits - shift) * 2 ^ shift) as Epow
    by (rewrite <- Z.pow_add_r; [f_equal; lia|lia|lia]).
  assert (bits <= shift + 7 -> 2 ^ (bits - shift) <= 2 ^ 7) as H7
    by (intros; apply Z.pow_le_mono_r; lia).
  assert (shift + 7 < bits -> 2 ^ 7 <= 2 ^ (bits - shift)) as H7'
    by (intros; apply Z.pow_le_mono_r; lia).
  destruct ((bits <=? shift + 7) && (2 ^ (bits - shift) <=? b)) eqn:E1;
    [injection Heq as <- _ _; unfold EVARINT_OVERFLOW in Hn; lia|].
  destruct ((b =? 0) && negb (shift =? 0)) eqn:E2;
    [injection Heq as <- _ _; unfold EVARINT_REPRESENT in Hn; lia|].
  unfold in_range in Hb. change (2 ^ 8) with 256 in Hb. change (2 ^ 7) with 128 in *.
  assert (0 < 2 ^ shift) by (apply Z.pow_pos_nonneg; lia).
  assert (b < 2 ^ (bits - shift) \/ shift + 7 < bits) as Hlt by bool_lia.
  destruct (Z.lt_ge_cases b 128) as [Hlow|Hhigh].
  - rewrite land_128_low, land_7f, (Z.mod_small b) in Heq by lia. simpl in Heq.
    assert (b * 2 ^ shift < 2 ^ bits) by nia.
    rewrite varint_place in Heq by lia. injection Heq as <- <- <-.
    left. exists b. rewrite write_varint_unfold by lia.
    rewrite (proj2 (Z.leb_gt 128 b)) by lia.
    change (zlen [b]) with 1. repeat split; try lia.
  - rewrite land_128_high, land_127_high in Heq by lia. simpl in Heq.
    assert (shift + 7 < bits) by lia.
    assert (2 ^ (shift + 7) = 2 ^ shift * 128) as E7 by (rewrite Z.pow_add_r; lia).
    rewrite varint_place in Heq by nia.
    apply IH in Heq; [|lia|rewrite E7; nia|lia|lia].
    destruct Heq as [(i & Hi & -> & -> & -> & Hc & Hlim)|(-> & -> & HF)].
    + left. exists (i * 128 + (b - 128)). rewrite write_varint_cons by lia.
      rewrite E7 in *. rewrite zlen_cons. replace (b - 128 + 128) with b by lia.
      assert (2 ^ bits = 2 ^ (bits - shift - 7) * (2 ^ shift * 128)) as Emul
        by (rewrite <- E7, <- Z.pow_add_r; [f_equal; lia|lia|lia]).
      assert (i + 1 <= 2 ^ (bits - shift - 7)) by nia.
      repeat split; nia.
    + right. rewrite zlen_cons. repeat split; [lia|]. by constructor.
Qed.

(** Whatever it returns, the read loop keeps the value inside the type and
    leaves a suffix of its input. *)
Lemma read_varint_loop_range bits s : 0 < bits -> bytes_ok s -> forall shift read acc n v rest,
  in_range bits acc -> read_varint_loop bits shift read acc s = (n, v, rest) ->
  in_range bits v /\ bytes_ok rest /\ (length rest <= length s)%nat.
Proof.
  intros Hbits. induction 1 as [|b s Hb Hs IH]; intros shift read acc n v rest Ha; simpl.
  { intros [= <- <- <-]. split; [done|]. split; [constructor|done]. }
  repeat case_match; intros Heq; simplify_eq; try (split; [done|split; [done|simpl; lia]]).
  - split; [|split; [done|simpl; lia]]. apply lor_range; auto with xcash lia.
  - apply IH in Heq; [|apply lor_range; auto with xcash lia]. simpl.
    destruct Heq as (? & ? & ?). split; [done|]. split; [done|lia].
Qed.

(** ** Properties *)

(** what [write_varint] puts, [read_varint] of a type of [bits] bits reads
    back from the front of any input: the value, the number of bytes consumed
    and the untouched rest of the input. *)
Theorem varint_roundtrip bits i rest : 0 < bits -> in_range bits i ->
  read_varint bits (write_varint i ++ rest) = (zlen (write_varint i), i, rest).
Proof. apply read_varint_write. Qed.

Lemma varint_roundtrip_witness :
  read_varint 64 (write_varint 18446744073709551615 ++ [7]) =
    (zlen (write_varint 18446744073709551615), 18446744073709551615, [7]).
Proof. apply varint_roundtrip; [lia|split; lia]. Defined.

(** encodings are canonical.  When [read_varint] reports that it read
    [n > 0] bytes, either the input starts with exactly the bytes that
    [write_varint] puts for the value it returned (so no value has a second,
    longer encoding), or the input ended in the middle of a varint: every byte
    of it has the continuation bit, and the reader still reports success. *)
Theorem varint_canonical bits s n v rest : 0 < bits -> bytes_ok s ->
  read_varint bits s = (n, v, rest) -> 0 < n ->
  (in_range bits v /\ s = write_varint v ++ rest /\ n = zlen (write_varint v))
  \/ (rest = [] /\ n = zlen s /\ Forall (fun b => 128 <= b) s).
Proof.
  intros Hbits Hs Heq Hn. apply read_varint_loop_sound in Heq; try done; try lia.
  destruct Heq as [(i & Hi & -> & -> & -> & _ & Hlim)|Ht]; [left|right; destruct Ht as (-> & -> & ?); repeat split; lia || done].
  rewrite Z.pow_0_r, Z.mul_1_r, !Z.add_0_l in *. done.
Qed.

Lemma varint_canonical_witness :
  (in_range 64 300 /\ [172; 2; 9] = write_varint 300 ++ [9] /\ 2 = zlen (write_varint 300))
  \/ ([9] = ([] : blob) /\ 2 = zlen [172; 2; 9] /\ Forall (fun b => 128 <= b) [172; 2; 9]).
Proof.
  apply (varint_canonical 64 [172; 2; 9] 2 300 [9]);
    [lia|by_decide|vm_compute; reflexivity|lia].
Defined.
