(* ===== verification/Archive.v ===== *)
(** * Binary archives

    Model of src/serialization/binary_archive.h and of the serialization DSL
    of src/serialization/serialization.h, string.h, container.h and variant.h.
    The C++ templates describe reading and writing with one body
    ([BEGIN_SERIALIZE ... END_SERIALIZE]); a [codec] is that body, with its
    load and its store direction.  [CodecOk] is the contract a codec gives its
    clients: what is stored loads back, and what loads can be stored. *)
From Stdlib Require Import ZArith Lia Bool.
From stdpp Require Import prelude.
From S2P Require Import Prelude Varint.
Local Open Scope Z_scope.
Local Open Scope archive_scope.

(** ** binary_archive<false> *)

(** [serialize_uint]: little-endian, [width] bytes into a type of [bits] bits. *)
Fixpoint serialize_uint_load_loop (bits : Z) (width : nat) (shift ret : Z) : reader Z :=
  match width with
  | O => rret ret
  | S width => fun s =>
      match s with
      | [] => None
      | b :: s' => serialize_uint_load_loop bits width (shift + 8)
                     (wrap bits (ret + Z.shiftl b shift)) s'
      end
  end.

Definition serialize_uint_load (bits : Z) (width : nat) : reader Z :=
  serialize_uint_load_loop bits width 0 0.

(** [serialize_blob]: exactly [len] bytes, or the stream fails. *)
Definition serialize_blob_load (len : nat) : reader blob := fun s =>
  if (length s <? len)%nat then None else Some (take len s, drop len s).

(** [serialize_uvarint]: the result of [read_varint] is ignored. *)
Definition serialize_varint_load (bits : Z) : reader Z := fun s =>
  let '(_, v, s') := read_varint bits s in Some (v, s').

Definition remaining_bytes (s : blob) : Z := zlen s.

(** ** binary_archive<true> *)
Fixpoint serialize_uint_store (width : nat) (v : Z) : blob :=
  match width with
  | O => []
  | S width => Z.land v 255 :: serialize_uint_store width (Z.shiftr v 8)
  end.

Definition serialize_varint_store (v : Z) : blob := write_varint v.

(** ** Codecs *)
Record codec (A : Type) := Codec { c_store : A -> writer; c_load : reader A }.
Arguments Codec {A} _ _.
Arguments c_store {A} _ _.
Arguments c_load {A} _ _.

(** [FIELD] of an integral type, of a blob type, and [VARINT_FIELD]. *)
Definition uint_codec (bits : Z) : codec Z :=
  let width := Z.to_nat (bits / 8) in
  Codec (fun v => wput (serialize_uint_store width v)) (serialize_uint_load bits width).

Definition blob_codec (len : nat) : codec blob :=
  Codec wput (serialize_blob_load len).

Definition varint_codec (bits : Z) : codec Z :=
  Codec (fun v => wput (serialize_varint_store v)) (serialize_varint_load bits).

(** src/serialization/string.h *)
Definition string_load : reader blob :=
  size <-- serialize_varint_load 64 ;;
  fun s => if remaining_bytes s <? size then None else serialize_blob_load (Z.to_nat size) s.

Definition string_store (str : blob) : writer :=
  wput (serialize_varint_store (zlen str)) >>> wput str.

Definition string_codec : codec blob := Codec string_store string_load.

(** src/serialization/container.h: the element loop of a load ... *)
Fixpoint load_elements {A} (c : codec A) (cnt : nat) : reader (list A) :=
  match cnt with
  | O => rret []
  | S cnt => e <-- c_load c ;; l <-- load_elements c cnt ;; rret (e :: l)
  end.

(** ... and of a store. *)
Fixpoint store_elements {A} (c : codec A) (l : list A) : writer :=
  match l with
  | [] => wput []
  | e :: l => c_store c e >>> store_elements c l
  end.

Definition container_load {A} (c : codec A) : reader (list A) :=
  cnt <-- serialize_varint_load 64 ;;
  fun s => if remaining_bytes s <? cnt then None else load_elements c (Z.to_nat cnt) s.

Definition container_store {A} (c : codec A) (l : list A) : writer :=
  wput (serialize_varint_store (zlen l)) >>> store_elements c l.

Definition container_codec {A} (c : codec A) : codec (list A) :=
  Codec (container_store c) (container_load c).

(** [PREPARE_CUSTOM_VECTOR_SERIALIZATION(n, v)], the test of the size and the
    element loop: a vector whose length is not stored. *)
Definition fixed_codec {A} (n : nat) (c : codec A) : codec (list A) :=
  Codec (fun l => wguard (length l =? n)%nat >>> store_elements c l) (load_elements c n).

(** Sequencing of fields, where a later field may depend on an earlier one. *)
Definition bind_codec {A B} (c : codec A) (f : A -> codec B) : codec (A * B) :=
  Codec (fun ab => c_store c ab.1 >>> c_store (f ab.1) ab.2)
        (a <-- c_load c ;; b <-- c_load (f a) ;; rret (a, b)).

Definition pair_codec {A B} (c : codec A) (d : codec B) : codec (A * B) :=
  bind_codec c (fun _ => d).

(** A struct is the sequence of its fields. *)
Definition iso_codec {A B} (f : A -> B) (g : B -> A) (c : codec A) : codec B :=
  Codec (fun b => c_store c (g b)) (a <-- c_load c ;; rret (f a)).

(** [if (!p) return false;] after a field, in both directions. *)
Definition guard_codec {A} (p : A -> bool) (c : codec A) : codec A :=
  Codec (fun a => c_store c a >>> wguard (p a))
        (a <-- c_load c ;; _ <-- rguard (p a) ;; rret a).

(** A branch with no field: the members keep the value [a] of a fresh object. *)
Definition const_codec {A} (a : A) : codec A := Codec (fun _ => wput []) (rret a).
(** [return false] *)
Definition fail_codec {A} : codec A := Codec (fun _ => wfail) rfail.

(** ** serialization.h: [serialize] on a load also asks for the end of input *)
Definition parse_binary {A} (c : codec A) (b : blob) : option A :=
  match c_load c b with
  | Some (a, []) => Some a
  | _ => None
  end.

(** [t_serializable_object_to_blob]: the bytes, whatever the serializer said. *)
Definition t_serializable_object_to_blob {A} (c : codec A) (a : A) : blob := (c_store c a).1.

(** ** The contract of a codec *)
Class CodecOk {A} (c : codec A) (ok : A -> Prop) : Prop := {
  codec_store_true a : ok a -> (c_store c a).2 = true;
  codec_store_bytes a : ok a -> bytes_ok (c_store c a).1;
  codec_roundtrip a rest : ok a -> c_load c ((c_store c a).1 ++ rest) = Some (a, rest);
  codec_load_ok s a rest : bytes_ok s -> c_load c s = Some (a, rest) ->
    ok a /\ bytes_ok rest /\ (length rest <= length s)%nat
}.

(** An element that takes at least one byte, as the sanity check of
    [do_serialize_container] supposes. *)
Class CodecNonempty {A} (c : codec A) (ok : A -> Prop) : Prop :=
  codec_nonempty a : ok a -> (c_store c a).1 <> [].

Section scalars.
Lemma serialize_uint_load_loop_store bits width shift ret v rest :
  0 <= shift -> 0 <= ret < 2 ^ shift -> 0 <= v < 2 ^ (8 * Z.of_nat width) ->
  shift + 8 * Z.of_nat width <= bits ->
  serialize_uint_load_loop bits width shift ret (serialize_uint_store width v ++ rest) =
    Some (ret + v * 2 ^ shift, rest).
Proof.
  revert shift ret v. induction width as [|w IH]; intros shift ret v Hs Hr Hv Hb; simpl.
  { unfold rret. assert (v = 0) as -> by lia. repeat f_equal. lia. }
  rewrite land_ff, Z.shiftl_mul_pow2, Z.shiftr_div_pow2 by lia. change (2 ^ 8) with 256.
  assert (2 ^ (shift + 8) = 2 ^ shift * 256) as E8 by (rewrite Z.pow_add_r; lia).
  assert (2 ^ (8 * Z.of_nat (S w)) = 256 * 2 ^ (8 * Z.of_nat w)) as Ew.
  { replace (8 * Z.of_nat (S w)) with (8 + 8 * Z.of_nat w) by lia. by rewrite Z.pow_add_r by lia. }
  pose proof (Z.mod_pos_bound v 256 ltac:(lia)). pose proof (Z.div_mod v 256 ltac:(lia)).
  assert (2 ^ (shift + 8) <= 2 ^ bits) by (apply Z.pow_le_mono_r; lia).
  assert (0 < 2 ^ shift) by (apply Z.pow_pos_nonneg; lia).
  rewrite wrap_small by (unfold in_range; nia).
  rewrite IH; [|lia|nia| |lia].
  - f_equal. f_equal. nia.
  - split; [apply Z.div_pos; lia|]. apply Z.div_lt_upper_bound; lia.
Qed.

Lemma serialize_uint_store_bytes width v : bytes_ok (serialize_uint_store width v).
Proof.
  revert v. induction width as [|w IH]; intros v; simpl; constructor; [|apply IH].
  rewrite land_ff. by apply Z.mod_pos_bound.
Qed.

Lemma serialize_uint_load_loop_ok bits width shift ret s v rest :
  0 <= bits -> bytes_ok s -> in_range bits ret ->
  serialize_uint_load_loop bits width shift ret s = Some (v, rest) ->
  in_range bits v /\ bytes_ok rest /\ (length rest <= length s)%nat.
Proof.
  intros Hb. revert shift ret s. induction width as [|w IH]; intros shift ret s Hs Hr; simpl.
  { intros [= -> ->]. done. }
  destruct Hs as [|b s Hb1 Hs]; [done|]. intros Heq%IH; [|done|auto with xcash].
  simpl. destruct Heq as (? & ? & ?). split; [done|]. split; [done|lia].
Qed.

#[export] Instance uint_codec_ok bits : TCEq (0 <=? bits) true -> TCEq (bits mod 8) 0 ->
  CodecOk (uint_codec bits) (in_range bits).
Proof.
  intros Hb H8. apply TCEq_eq in Hb, H8. apply Z.leb_le in Hb.
  assert (bits = 8 * (bits / 8)) as E by (pose proof (Z.div_mod bits 8); lia).
  assert (0 <= bits / 8) by lia.
  split; simpl.
  - done.
  - intros. apply serialize_uint_store_bytes.
  - intros a rest Ha. unfold serialize_uint_load. unfold in_range in Ha.
    rewrite serialize_uint_load_loop_store; [f_equal; f_equal; lia|lia|lia| |lia].
    rewrite Z2Nat.id by lia. by rewrite <- E.
  - intros s a rest Hs Heq. eapply serialize_uint_load_loop_ok in Heq; eauto.
    split; [lia|]. apply Z.pow_pos_nonneg; lia.
Qed.

#[export] Instance blob_codec_ok len : CodecOk (blob_codec len) (pod_ok len).
Proof.
  split; simpl; unfold serialize_blob_load.
  - done.
  - by intros a [_ ?].
  - intros a rest [Hl _]. rewrite length_app.
    rewrite (proj2 (Nat.ltb_ge _ _)) by lia.
    by rewrite take_app_length', drop_app_length'.
  - intros s a rest Hs. case_match eqn:E; [done|]. intros [= <- <-].
    apply Nat.ltb_ge in E. unfold pod_ok. rewrite length_take, length_drop.
    repeat split; auto with xcash; lia.
Qed.

#[export] Instance varint_codec_ok bits : TCEq (0 <? bits) true ->
  CodecOk (varint_codec bits) (in_range bits).
Proof.
  intros Hb. apply TCEq_eq, Z.ltb_lt in Hb.
  split; simpl; unfold serialize_varint_load, serialize_varint_store.
  - done.
  - intros a Ha. apply write_varint_bytes. apply Ha.
  - intros a rest Ha. by rewrite read_varint_write.
  - intros s a rest Hs. destruct (read_varint bits s) as [[n v] r] eqn:E. intros [= <- <-].
    eapply read_varint_loop_range in E; eauto. split; [lia|]. apply Z.pow_pos_nonneg; lia.
Qed.

#[export] Instance varint_codec_nonempty bits : CodecNonempty (varint_codec bits) (in_range bits).
Proof. intros a [Ha _]. simpl. by apply write_varint_nonempty. Qed.

#[export] Instance uint_codec_nonempty bits : TCEq (8 <=? bits) true ->
  CodecNonempty (uint_codec bits) (in_range bits).
Proof.
  intros Hb a _. apply TCEq_eq, Z.leb_le in Hb. simpl.
  assert (1 <= bits / 8) by (apply Z.div_le_lower_bound; lia).
  by destruct (Z.to_nat (bits / 8)) eqn:E; [lia|].
Qed.

#[export] Instance blob_codec_nonempty len : TCEq (Nat.ltb 0 len) true ->
  CodecNonempty (blob_codec len) (pod_ok len).
Proof. intros Hl a [Ha _]. apply TCEq_eq, Nat.ltb_lt in Hl. simpl. by destruct a; simpl in *; [lia|]. Qed.
End scalars.

(** A string is well formed when its size fits [size_t]. *)
Definition string_ok (b : blob) : Prop := bytes_ok b /\ in_range 64 (zlen b).

#[export] Instance string_ok_dec b : Decision (string_ok b).
Proof. unfold string_ok. apply _. Defined.

#[export] Instance string_codec_ok : CodecOk string_codec string_ok.
Proof.
  split; simpl; unfold string_store, string_load.
  - done.
  - intros a [Ha [? _]]. rewrite ?wseq_true by done. simpl. apply bytes_ok_app.
    split; [by apply write_varint_bytes|done].
  - intros a rest [Ha Hl]. rewrite ?wseq_true by done. simpl. rewrite <- app_assoc.
    erewrite rbind_eq by (apply (codec_roundtrip (c := varint_codec 64)); done).
    unfold remaining_bytes. rewrite zlen_app.
    rewrite (proj2 (Z.ltb_ge _ _)) by (pose proof (zlen_nonneg rest); lia).
    apply (codec_roundtrip (c := blob_codec _)). split; [unfold zlen; lia|done].
  - intros s a rest Hs (size & s' & H1 & H2)%rbind_some.
    apply (codec_load_ok (c := varint_codec 64)) in H1 as (Hr & Hs' & Hl); [|done].
    case_match; [done|]. apply (codec_load_ok (c := blob_codec _)) in H2 as ([Ha ?] & ? & ?); [|done].
    split; [|split; [done|lia]]. split; [done|]. unfold in_range, zlen in *. lia.
Qed.

#[export] Instance string_codec_nonempty : CodecNonempty string_codec string_ok.
Proof.
  intros a [_ [? _]]. simpl. unfold string_store. rewrite ?wseq_true by done. simpl.
  intros [E _]%app_eq_nil. by apply write_varint_nonempty in E.
Qed.

Section combinators.
Context {A B : Type} (c : codec A) (ok : A -> Prop) `{!CodecOk c ok}.

Lemma store_elements_true l : Forall ok l -> (store_elements c l).2 = true.
Proof.
  induction 1 as [|a l Ha Hl IH]; simpl; [done|].
  rewrite wseq_true by (by apply codec_store_true). done.
Qed.

Lemma store_elements_cons a l : ok a ->
  (store_elements c (a :: l)).1 = (c_store c a).1 ++ (store_elements c l).1.
Proof. intros. simpl. by rewrite wseq_true by (by apply codec_store_true). Qed.

Lemma store_elements_bytes l : Forall ok l -> bytes_ok (store_elements c l).1.
Proof.
  induction 1 as [|a l Ha Hl IH]; [by constructor|]. rewrite store_elements_cons by done.
  apply bytes_ok_app. split; [by apply codec_store_bytes|done].
Qed.

Lemma load_store_elements l rest : Forall ok l ->
  load_elements c (length l) ((store_elements c l).1 ++ rest) = Some (l, rest).
Proof.
  intros Hl. revert rest. induction Hl as [|a l Ha Hl IH]; intros rest; [done|].
  rewrite store_elements_cons by done. simpl. rewrite <- app_assoc.
  erewrite rbind_eq by (by apply codec_roundtrip). by erewrite rbind_eq by apply IH.
Qed.

Lemma load_elements_ok n s l rest : bytes_ok s -> load_elements c n s = Some (l, rest) ->
  Forall ok l /\ length l = n /\ bytes_ok rest /\ (length rest <= length s)%nat.
Proof.
  revert s l. induction n as [|n IH]; intros s l Hs; simpl; [intros [= <- <-]; done|].
  intros (a & s1 & H1 & (l1 & s2 & H2 & [= <- <-])%rbind_some)%rbind_some.
  apply codec_load_ok in H1 as (? & ? & ?); [|done].
  apply IH in H2 as (? & ? & ? & ?); [|done]. simpl. repeat split; auto; lia.
Qed.

Lemma store_elements_length `{!CodecNonempty c ok} l : Forall ok l ->
  zlen l <= zlen (store_elements c l).1.
Proof.
  induction 1 as [|a l Ha Hl IH]; [done|]. rewrite store_elements_cons by done.
  rewrite zlen_cons, zlen_app. pose proof (codec_nonempty (c := c) a Ha) as Hne.
  destruct ((c_store c a).1); [done|]. rewrite zlen_cons.
  pose proof (zlen_nonneg l0). lia.
Qed.

Definition container_ok (l : list A) : Prop := Forall ok l /\ in_range 64 (zlen l).

#[export] Instance container_codec_ok `{!CodecNonempty c ok} :
  CodecOk (container_codec c) container_ok.
Proof.
  split; simpl; unfold container_store, container_load.
  - intros l [Hl _]. rewrite ?wseq_true by done. by apply store_elements_true.
  - intros l [Hl [? _]]. rewrite ?wseq_true by done. simpl. apply bytes_ok_app.
    split; [by apply write_varint_bytes|by apply store_elements_bytes].
  - intros l rest [Hl Hz]. rewrite ?wseq_true by done. simpl. rewrite <- app_assoc.
    erewrite rbind_eq by (apply (codec_roundtrip (c := varint_codec 64)); done).
    unfold remaining_bytes. rewrite zlen_app. pose proof (store_elements_length l Hl).
    rewrite (proj2 (Z.ltb_ge _ _)) by (pose proof (zlen_nonneg rest); lia).
    unfold zlen. rewrite Nat2Z.id. by apply load_store_elements.
  - intros s l rest Hs (cnt & s' & H1 & H2)%rbind_some.
    apply (codec_load_ok (c := varint_codec 64)) in H1 as (Hr & Hs' & ?); [|done].
    case_match; [done|]. apply load_elements_ok in H2 as (? & E & ? & ?); [|done].
    split; [|split; [done|lia]]. split; [done|]. unfold in_range, zlen in *. lia.
Qed.

#[export] Instance container_codec_nonempty : CodecNonempty (container_codec c) container_ok.
Proof.
  intros a [_ [? _]]. simpl. unfold container_store. rewrite ?wseq_true by done. simpl.
  intros [E _]%app_eq_nil. by apply write_varint_nonempty in E.
Qed.

#[export] Instance fixed_codec_ok n :
  CodecOk (fixed_codec n c) (fun l => length l = n /\ Forall ok l).
Proof.
  assert (forall l, length l = n -> c_store (fixed_codec n c) l = store_elements c l) as E.
  { intros l Hl. simpl. unfold wguard. rewrite (proj2 (Nat.eqb_eq _ _)) by done.
    rewrite ?wseq_true by done. simpl. by destruct (store_elements c l). }
  split.
  - intros l [Hn Hl]. rewrite E by done. by apply store_elements_true.
  - intros l [Hn Hl]. rewrite E by done. by apply store_elements_bytes.
  - intros l rest [Hn Hl]. rewrite E by done. simpl. subst n. by apply load_store_elements.
  - intros s l rest Hs H. apply load_elements_ok in H as (? & ? & ? & ?); auto.
Qed.

#[export] Instance bind_codec_ok (f : A -> codec B) (okB : A -> B -> Prop)
  (Hf : forall a, CodecOk (f a) (okB a)) :
  CodecOk (bind_codec c f) (fun ab => ok ab.1 /\ okB ab.1 ab.2).
Proof.
  split; simpl.
  - intros [a b] [Ha Hb]. simpl. rewrite wseq_true by (by apply codec_store_true).
    by apply codec_store_true.
  - intros [a b] [Ha Hb]. simpl. rewrite wseq_true by (by apply codec_store_true). simpl.
    apply bytes_ok_app. split; by apply codec_store_bytes.
  - intros [a b] rest [Ha Hb]. simpl in *. rewrite wseq_true by (by apply codec_store_true).
    simpl. rewrite <- app_assoc. erewrite rbind_eq by (by apply codec_roundtrip).
    by erewrite rbind_eq by (by apply codec_roundtrip).
  - intros s [a b] rest Hs.
    intros (a' & s1 & H1 & (b' & s2 & H2 & [= <- <- <-])%rbind_some)%rbind_some.
    apply codec_load_ok in H1 as (? & ? & ?); [|done].
    apply codec_load_ok in H2 as (? & ? & ?); [|done]. simpl. repeat split; auto; lia.
Qed.

#[export] Instance bind_codec_nonempty `{!CodecNonempty c ok} (f : A -> codec B)
  (okB : A -> B -> Prop) : CodecNonempty (bind_codec c f) (fun ab => ok ab.1 /\ okB ab.1 ab.2).
Proof.
  intros [a b] [Ha Hb]. simpl. rewrite wseq_true by (by apply codec_store_true). simpl.
  intros [E _]%app_eq_nil. by apply (codec_nonempty (c := c) a Ha) in E.
Qed.

#[export] Instance guard_codec_ok (p : A -> bool) :
  CodecOk (guard_codec p c) (fun a => ok a /\ p a = true).
Proof.
  split; simpl; unfold wguard, rguard.
  - intros a [Ha Hp]. by rewrite wseq_true by (by apply codec_store_true).
  - intros a [Ha Hp]. rewrite wseq_true by (by apply codec_store_true). simpl.
    rewrite app_nil_r. by apply codec_store_bytes.
  - intros a rest [Ha Hp]. rewrite wseq_true by (by apply codec_store_true). simpl.
    rewrite app_nil_r. erewrite rbind_eq by (by apply codec_roundtrip).
    unfold rbind. by rewrite Hp.
  - intros s a rest Hs (a' & s1 & H1 & H2)%rbind_some. unfold rbind in H2.
    destruct (p a') eqn:Hp; [|done]. injection H2 as -> ->.
    apply codec_load_ok in H1 as (? & ? & ?); [|done]. done.
Qed.

#[export] Instance guard_codec_nonempty `{!CodecNonempty c ok} (p : A -> bool) :
  CodecNonempty (guard_codec p c) (fun a => ok a /\ p a = true).
Proof.
  intros a [Ha _]. simpl. rewrite wseq_true by (by apply codec_store_true). simpl.
  rewrite app_nil_r. by apply codec_nonempty.
Qed.

(** A struct and the tuple of its fields. *)
Lemma iso_codec_ok (f : A -> B) (g : B -> A) (okB : B -> Prop) :
  (forall b, okB b -> f (g b) = b /\ ok (g b)) -> (forall a, ok a -> okB (f a)) ->
  CodecOk (iso_codec f g c) okB.
Proof.
  intros Hg Hf. split; simpl.
  - intros b [_ Hb]%Hg. by apply codec_store_true.
  - intros b [_ Hb]%Hg. by apply codec_store_bytes.
  - intros b rest [E Hb]%Hg. erewrite rbind_eq by (by apply codec_roundtrip).
    unfold rret. by rewrite E.
  - intros s b rest Hs (a & s1 & H1 & [= <- <-])%rbind_some.
    apply codec_load_ok in H1 as (? & ? & ?); auto.
Qed.

Lemma iso_codec_nonempty `{!CodecNonempty c ok} (f : A -> B) (g : B -> A) (okB : B -> Prop) :
  (forall b, okB b -> ok (g b)) -> CodecNonempty (iso_codec f g c) okB.
Proof. intros Hg b Hb%Hg. simpl. by apply codec_nonempty. Qed.
End combinators.

#[export] Instance pair_codec_ok {A B} (c : codec A) (d : codec B) okA okB
  `{!CodecOk c okA, !CodecOk d okB} :
  CodecOk (pair_codec c d) (fun ab => okA ab.1 /\ okB ab.2).
Proof. apply (bind_codec_ok c okA (fun _ => d) (fun _ => okB)). done. Qed.

#[export] Instance pair_codec_nonempty {A B} (c : codec A) (d : codec B) okA okB
  `{!CodecOk c okA, !CodecNonempty c okA} :
  CodecNonempty (pair_codec c d) (fun ab => okA ab.1 /\ okB ab.2).
Proof. apply (bind_codec_nonempty c okA (fun _ => d) (fun _ => okB)). Qed.

Lemma codec_ok_iff {A} (c : codec A) (ok ok' : A -> Prop) :
  (forall a, ok a <-> ok' a) -> CodecOk c ok' -> CodecOk c ok.
Proof.
  intros H [H1 H2 H3 H4]. split.
  - intros a ?%H. auto.
  - intros a ?%H. auto.
  - intros a rest ?%H. auto.
  - intros s a rest Hs E. rewrite H. eauto.
Qed.

#[export] Instance const_codec_ok {A} (a : A) : CodecOk (const_codec a) (eq a).
Proof. split; simpl; [done|constructor|by intros ? ? <-|]. by intros s b rest Hs [= <- <-]. Qed.

(** A branch on something read earlier. *)
#[export] Instance if_codec_ok {A} (b : bool) (c d : codec A) okc okd
  `{!CodecOk c okc, !CodecOk d okd} :
  CodecOk (if b then c else d) (fun a => if b then okc a else okd a).
Proof. by destruct b. Qed.

#[export] Instance fail_codec_ok {A} : CodecOk (@fail_codec A) (fun _ => False).
Proof. by split. Qed.

(** A codec that keeps the contract parses back what it wrote. *)
Lemma parse_binary_to_blob {A} (c : codec A) ok `{!CodecOk c ok} a : ok a ->
  parse_binary c (t_serializable_object_to_blob c a) = Some a.
Proof.
  intros Ha. unfold parse_binary, t_serializable_object_to_blob.
  rewrite <- (app_nil_r (c_store c a).1). by rewrite codec_roundtrip.
Qed.

(** Encodings of well-formed values are prefix free. *)
Lemma codec_inj {A} (c : codec A) ok `{!CodecOk c ok} a b r r' : ok a -> ok b ->
  (c_store c a).1 ++ r = (c_store c b).1 ++ r' -> a = b /\ r = r'.
Proof.
  intros Ha Hb E. pose proof (codec_roundtrip (c := c) a r Ha) as H.
  rewrite E, codec_roundtrip in H by done. by injection H as -> ->.
Qed.

Lemma codec_inj_nil {A} (c : codec A) ok `{!CodecOk c ok} a b : ok a -> ok b ->
  (c_store c a).1 = (c_store c b).1 -> a = b.
Proof. intros Ha Hb E. apply (codec_inj c ok a b [] []); [done..|by rewrite E]. Qed.

Lemma parse_binary_ok {A} (c : codec A) ok `{!CodecOk c ok} s a : bytes_ok s ->
  parse_binary c s = Some a -> ok a.
Proof.
  intros Hs. unfold parse_binary. destruct (c_load c s) as [[a' [|]]|] eqn:E; [|done..].
  intros [= <-]. by apply codec_load_ok in E as (? & _); [|done].
Qed.
