(* ===== verification/TxExtra.v ===== *)
(** * The extra field of a transaction

    Model of src/cryptonote_basic/tx_extra.h and of the functions of
    src/cryptonote_basic/cryptonote_format_utils.cpp that read, extend and
    filter [tx_extra]: [parse_tx_extra], [add_tx_pub_key_to_extra],
    [add_extra_nonce_to_tx_extra], [remove_field_from_tx_extra] and the three
    functions of the leader metadata of the temporary consensus. *)
From Stdlib Require Import ZArith Lia Bool.
From stdpp Require Import prelude.
From S2P Require Import Prelude Varint Archive.
Local Open Scope Z_scope.
Local Open Scope archive_scope.

Definition TX_EXTRA_PADDING_MAX_COUNT : Z := 5120.
Definition TX_EXTRA_NONCE_MAX_COUNT : Z := 5120.
Definition TX_EXTRA_TAG_PADDING : Z := 0.
Definition TX_EXTRA_TAG_PUBKEY : Z := 1.
Definition TX_EXTRA_NONCE : Z := 2.
Definition TX_EXTRA_MERGE_MINING_TAG : Z := 3.
Definition TX_EXTRA_TAG_ADDITIONAL_PUBKEYS : Z := 4.
Definition TX_EXTRA_TAG_LEADER_INFO : Z := 5.
Definition TX_EXTRA_MYSTERIOUS_MINERGATE_TAG : Z := 222.
Definition TX_EXTRA_NONCE_PAYMENT_ID : Z := 0.
Definition TX_EXTRA_NONCE_ENCRYPTED_PAYMENT_ID : Z := 1.

(** The alternatives of the [boost::variant] [tx_extra_field]. *)
Inductive tx_extra_field :=
  | tx_extra_padding (size : Z)
  | tx_extra_pub_key (pub_key : blob)
  | tx_extra_nonce (nonce : blob)
  | tx_extra_merge_mining_tag (depth : Z) (merkle_root : blob)
  | tx_extra_additional_pub_keys (data : list blob)
  | tx_extra_mysterious_minergate (data : blob)
  | tx_extra_leader_info (leader_id : blob) (signature : blob).

#[export] Instance tx_extra_field_eq_dec : EqDecision tx_extra_field.
Proof. solve_decision. Defined.

(** [field.type()], and the tag [VARIANT_TAG] gives each type. *)
Inductive field_type :=
  | ty_padding | ty_pub_key | ty_nonce | ty_merge_mining_tag
  | ty_additional_pub_keys | ty_minergate | ty_leader_info.

#[export] Instance field_type_eq_dec : EqDecision field_type.
Proof. solve_decision. Defined.

Definition type_of (f : tx_extra_field) : field_type :=
  match f with
  | tx_extra_padding _ => ty_padding
  | tx_extra_pub_key _ => ty_pub_key
  | tx_extra_nonce _ => ty_nonce
  | tx_extra_merge_mining_tag _ _ => ty_merge_mining_tag
  | tx_extra_additional_pub_keys _ => ty_additional_pub_keys
  | tx_extra_mysterious_minergate _ => ty_minergate
  | tx_extra_leader_info _ _ => ty_leader_info
  end.

Definition get_tag (t : field_type) : Z :=
  match t with
  | ty_padding => TX_EXTRA_TAG_PADDING
  | ty_pub_key => TX_EXTRA_TAG_PUBKEY
  | ty_nonce => TX_EXTRA_NONCE
  | ty_merge_mining_tag => TX_EXTRA_MERGE_MINING_TAG
  | ty_additional_pub_keys => TX_EXTRA_TAG_ADDITIONAL_PUBKEYS
  | ty_minergate => TX_EXTRA_MYSTERIOUS_MINERGATE_TAG
  | ty_leader_info => TX_EXTRA_TAG_LEADER_INFO
  end.

(** [tx_extra_padding]: every byte up to the end of the input must be zero. *)
Fixpoint padding_load_loop (fuel : nat) (size : Z) : reader Z := fun s =>
  match fuel with
  | O => if size <=? TX_EXTRA_PADDING_MAX_COUNT then Some (size, s) else None
  | S fuel =>
      match s with
      | [] => if size <=? TX_EXTRA_PADDING_MAX_COUNT then Some (size, s) else None
      | zero :: s' => if zero =? 0 then padding_load_loop fuel (size + 1) s' else None
      end
  end.

Definition padding_load : reader Z :=
  padding_load_loop (Z.to_nat TX_EXTRA_PADDING_MAX_COUNT) 1.

Definition padding_store (size : Z) : writer :=
  if TX_EXTRA_PADDING_MAX_COUNT <? size then wfail
  else wput (replicate (Z.to_nat (size - 1)) 0).

Definition pub_key_codec : codec blob := blob_codec 32.

Definition nonce_codec : codec blob :=
  guard_codec (fun n => zlen n <=? TX_EXTRA_NONCE_MAX_COUNT) string_codec.

(** [tx_extra_merge_mining_tag]: a string that holds the depth and the root. *)
Definition mm_tag_helper : codec (Z * blob) := pair_codec (varint_codec 64) (blob_codec 32).

Definition mm_tag_load : reader (Z * blob) :=
  field <-- string_load ;;
  fun s => match parse_binary mm_tag_helper field with Some h => Some (h, s) | None => None end.

Definition mm_tag_store (h : Z * blob) : writer :=
  let w := c_store mm_tag_helper h in
  if w.2 then string_store w.1 else wfail.

Definition additional_pub_keys_codec : codec (list blob) := container_codec (blob_codec 32).

Definition leader_info_codec : codec (blob * blob) := pair_codec string_codec (blob_codec 64).

(** [variant_reader::read]: the types are tried in their order in the variant. *)
Definition variant_read (t : Z) : reader tx_extra_field :=
  if t =? get_tag ty_padding then x <-- padding_load ;; rret (tx_extra_padding x)
  else if t =? get_tag ty_pub_key then x <-- c_load pub_key_codec ;; rret (tx_extra_pub_key x)
  else if t =? get_tag ty_nonce then x <-- c_load nonce_codec ;; rret (tx_extra_nonce x)
  else if t =? get_tag ty_merge_mining_tag
  then x <-- mm_tag_load ;; rret (tx_extra_merge_mining_tag x.1 x.2)
  else if t =? get_tag ty_additional_pub_keys
  then x <-- c_load additional_pub_keys_codec ;; rret (tx_extra_additional_pub_keys x)
  else if t =? get_tag ty_minergate
  then x <-- c_load string_codec ;; rret (tx_extra_mysterious_minergate x)
  else if t =? get_tag ty_leader_info
  then x <-- c_load leader_info_codec ;; rret (tx_extra_leader_info x.1 x.2)
  else rfail.

Definition variant_write (f : tx_extra_field) : writer :=
  match f with
  | tx_extra_padding size => padding_store size
  | tx_extra_pub_key k => c_store pub_key_codec k
  | tx_extra_nonce n => c_store nonce_codec n
  | tx_extra_merge_mining_tag d r => mm_tag_store (d, r)
  | tx_extra_additional_pub_keys l => c_store additional_pub_keys_codec l
  | tx_extra_mysterious_minergate d => c_store string_codec d
  | tx_extra_leader_info i s => c_store leader_info_codec (i, s)
  end.

(** src/serialization/variant.h: the tag in one byte, then the value. *)
Definition tx_extra_field_load : reader tx_extra_field :=
  t <-- c_load (uint_codec 8) ;; variant_read t.

Definition tx_extra_field_store (f : tx_extra_field) : writer :=
  c_store (uint_codec 8) (get_tag (type_of f)) >>> variant_write f.

(** ** cryptonote_format_utils.cpp *)

(** The loop of [parse_tx_extra]: fields are pushed until the end of the
    input; on a failure the fields read so far stay in the output vector. *)
Fixpoint parse_tx_extra_loop (fuel : nat) (fields : list tx_extra_field) (s : blob)
  : bool * list tx_extra_field :=
  match fuel with
  | O => (false, fields)
  | S fuel =>
      match tx_extra_field_load s with
      | None => (false, fields)
      | Some (f, []) => (true, fields ++ [f])
      | Some (f, s') => parse_tx_extra_loop fuel (fields ++ [f]) s'
      end
  end.

Definition parse_tx_extra (tx_extra : blob) : bool * list tx_extra_field :=
  match tx_extra with
  | [] => (true, [])
  | _ => parse_tx_extra_loop (length tx_extra) [] tx_extra
  end.

(** [find_tx_extra_field_by_type], with the index of the occurrence wanted. *)
Fixpoint find_tx_extra_field_by_type (fields : list tx_extra_field) (ty : field_type) (index : nat)
  : option tx_extra_field :=
  match fields with
  | [] => None
  | f :: fields =>
      if decide (type_of f = ty)
      then match index with
           | O => Some f
           | S index => find_tx_extra_field_by_type fields ty index
           end
      else find_tx_extra_field_by_type fields ty index
  end.

Definition null_pkey : blob := replicate 32 0.

(** The result of [parse_tx_extra] is ignored: the fields before an error count. *)
Definition get_tx_pub_key_from_extra (tx_extra : blob) (pk_index : nat) : blob :=
  match find_tx_extra_field_by_type (parse_tx_extra tx_extra).2 ty_pub_key pk_index with
  | Some (tx_extra_pub_key k) => k
  | _ => null_pkey
  end.

Definition add_tx_pub_key_to_extra (tx_extra tx_pub_key : blob) : blob :=
  tx_extra ++ TX_EXTRA_TAG_PUBKEY :: tx_pub_key.

Definition get_additional_tx_pub_keys_from_extra (tx_extra : blob) : list blob :=
  match find_tx_extra_field_by_type (parse_tx_extra tx_extra).2 ty_additional_pub_keys 0 with
  | Some (tx_extra_additional_pub_keys l) => l
  | _ => []
  end.

Definition add_additional_tx_pub_keys_to_extra (tx_extra : blob) (keys : list blob) : bool * blob :=
  let w := tx_extra_field_store (tx_extra_additional_pub_keys keys) in
  if w.2 then (true, tx_extra ++ w.1) else (false, tx_extra).

(** The length of the nonce goes into one byte. *)
Definition add_extra_nonce_to_tx_extra (tx_extra extra_nonce : blob) : bool * blob :=
  if zlen extra_nonce <=? TX_EXTRA_NONCE_MAX_COUNT
  then (true, tx_extra ++ TX_EXTRA_NONCE :: u8 (zlen extra_nonce) :: extra_nonce)
  else (false, tx_extra).

(** The output stream of [remove_field_from_tx_extra]: a failed store sets
    its failbit, and later stores write nothing. *)
Definition ostream_store (o w : writer) : writer := wseq o w.

Fixpoint remove_field_loop (fuel : nat) (ty : field_type) (newar : writer) (s : blob)
  : option blob :=
  match fuel with
  | O => None
  | S fuel =>
      match tx_extra_field_load s with
      | None => None
      | Some (f, s') =>
          let newar := if decide (type_of f = ty) then newar
                       else ostream_store newar (tx_extra_field_store f) in
          match s' with
          | [] => Some newar.1
          | _ => remove_field_loop fuel ty newar s'
          end
      end
  end.

Definition remove_field_from_tx_extra (tx_extra : blob) (ty : field_type) : bool * blob :=
  match tx_extra with
  | [] => (true, tx_extra)
  | _ => match remove_field_loop (length tx_extra) ty (wput []) tx_extra with
         | Some s => (true, s)
         | None => (false, tx_extra)
         end
  end.

Definition add_leader_info_to_tx_extra (tx_extra leader_id sig : blob) : bool * blob :=
  let w := tx_extra_field_store (tx_extra_leader_info leader_id sig) in
  if w.2 then (true, tx_extra ++ w.1) else (false, tx_extra).

Definition get_leader_info_from_tx_extra (tx_extra : blob) : option (blob * blob) :=
  let '(r, fields) := parse_tx_extra tx_extra in
  if r then
    match find_tx_extra_field_by_type fields ty_leader_info 0 with
    | Some (tx_extra_leader_info leader_id sig) => Some (leader_id, sig)
    | _ => None
    end
  else None.

(** The rebuild loop: a failed store leaves what was rebuilt before it. *)
Fixpoint rebuild_tx_extra (tx_extra : blob) (fields : list tx_extra_field) : bool * blob :=
  match fields with
  | [] => (true, tx_extra)
  | f :: fields =>
      let w := tx_extra_field_store f in
      if w.2 then rebuild_tx_extra (tx_extra ++ w.1) fields else (false, tx_extra)
  end.

Definition remove_leader_info_from_tx_extra (tx_extra : blob) : bool * blob :=
  let '(r, fields) := parse_tx_extra tx_extra in
  if r then
    rebuild_tx_extra [] (filter (fun f => type_of f <> ty_leader_info) fields)
  else (false, tx_extra).

(** ** Payment ids inside an extra nonce *)
Definition set_payment_id_to_tx_extra_nonce (payment_id : blob) : blob :=
  TX_EXTRA_NONCE_PAYMENT_ID :: payment_id.

Definition set_encrypted_payment_id_to_tx_extra_nonce (payment_id : blob) : blob :=
  TX_EXTRA_NONCE_ENCRYPTED_PAYMENT_ID :: payment_id.

Definition get_payment_id_from_tx_extra_nonce (extra_nonce : blob) : option blob :=
  if negb (32 + 1 =? zlen extra_nonce) then None
  else match extra_nonce with
       | b :: payment_id => if TX_EXTRA_NONCE_PAYMENT_ID =? b then Some payment_id else None
       | [] => None
       end.

Definition get_encrypted_payment_id_from_tx_extra_nonce (extra_nonce : blob) : option blob :=
  if negb (8 + 1 =? zlen extra_nonce) then None
  else match extra_nonce with
       | b :: payment_id => if TX_EXTRA_NONCE_ENCRYPTED_PAYMENT_ID =? b then Some payment_id else None
       | [] => None
       end.

(** ** Well-formed fields *)
Definition field_ok (f : tx_extra_field) : Prop :=
  match f with
  | tx_extra_padding size => 1 <= size <= TX_EXTRA_PADDING_MAX_COUNT
  | tx_extra_pub_key k => pod_ok 32 k
  | tx_extra_nonce n => bytes_ok n /\ zlen n <= TX_EXTRA_NONCE_MAX_COUNT
  | tx_extra_merge_mining_tag d r => in_range 64 d /\ pod_ok 32 r
  | tx_extra_additional_pub_keys l => container_ok (pod_ok 32) l
  | tx_extra_mysterious_minergate d => string_ok d
  | tx_extra_leader_info i s => string_ok i /\ pod_ok 64 s
  end.

#[export] Instance field_ok_dec f : Decision (field_ok f).
Proof. destruct f; simpl; apply _. Defined.

(** A vector of fields that a byte string can hold: padding runs to the end,
    so it can only be the last field. *)
Fixpoint fields_ok (l : list tx_extra_field) : Prop :=
  match l with
  | [] => True
  | f :: l => field_ok f /\ (type_of f = ty_padding -> l = []) /\ fields_ok l
  end.

#[export] Instance fields_ok_dec l : Decision (fields_ok l).
Proof. induction l as [|f l IH]; simpl; apply _. Defined.

Definition field_bytes (f : tx_extra_field) : blob := (tx_extra_field_store f).1.
Definition fields_bytes (l : list tx_extra_field) : blob := concat (map field_bytes l).

(** ** Fields load back *)
Lemma padding_load_loop_zeros fuel size n :
  (n <= fuel)%nat -> size + Z.of_nat n <= TX_EXTRA_PADDING_MAX_COUNT ->
  padding_load_loop fuel size (replicate n 0) = Some (size + Z.of_nat n, []).
Proof.
  revert size n. induction fuel as [|fuel IH]; intros size [|n] Hf Hs; simpl; try lia.
  - rewrite (proj2 (Z.leb_le _ _)) by lia. by rewrite Z.add_0_r.
  - rewrite (proj2 (Z.leb_le _ _)) by lia. by rewrite Z.add_0_r.
  - rewrite IH by lia. f_equal. f_equal. lia.
Qed.

Lemma padding_load_loop_sound fuel size s v rest :
  size + Z.of_nat fuel = TX_EXTRA_PADDING_MAX_COUNT + 1 ->
  padding_load_loop fuel size s = Some (v, rest) ->
  rest = [] /\ size <= v <= TX_EXTRA_PADDING_MAX_COUNT /\ s = replicate (Z.to_nat (v - size)) 0.
Proof.
  revert size s. induction fuel as [|fuel IH]; intros size s Hf; simpl.
  { rewrite (proj2 (Z.leb_gt _ _)) by lia. done. }
  destruct s as [|b s].
  - case_match; [|done]. intros [= <- <-]. rewrite Z.sub_diag. split; [done|]. split; [lia|]. done.
  - case_match; [|done]. intros (-> & ? & ->)%IH; [|lia]. assert (b = 0) as -> by lia.
    repeat split; try lia. replace (Z.to_nat (v - size)) with (S (Z.to_nat (v - (size + 1)))) by lia.
    done.
Qed.

Arguments mm_tag_store : simpl never.
Arguments mm_tag_load : simpl never.

Definition mm_tag_codec : codec (Z * blob) := Codec mm_tag_store mm_tag_load.

Lemma mm_tag_helper_string h : in_range 64 h.1 /\ pod_ok 32 h.2 ->
  string_ok (c_store mm_tag_helper h).1.
Proof.
  intros Hh. split; [by apply (codec_store_bytes (c := mm_tag_helper))|].
  destruct h as [d r], Hh as [Hd [Hr _]]. simpl in *. rewrite ?wseq_true by done. simpl.
  rewrite zlen_app. pose proof (zlen_write_varint_64 d Hd).
  pose proof (zlen_nonneg (write_varint d)). unfold serialize_varint_store.
  unfold in_range. unfold zlen at 2 4. rewrite Hr. lia.
Qed.

#[export] Instance mm_tag_codec_ok :
  CodecOk mm_tag_codec (fun h => in_range 64 h.1 /\ pod_ok 32 h.2).
Proof.
  assert (forall h, in_range 64 h.1 /\ pod_ok 32 h.2 ->
            mm_tag_store h = string_store (c_store mm_tag_helper h).1) as E.
  { intros h Hh. unfold mm_tag_store. by rewrite (codec_store_true (c := mm_tag_helper)). }
  split; cbn [mm_tag_codec c_store c_load].
  - intros h Hh. rewrite E by done. by apply (codec_store_true (c := string_codec)), mm_tag_helper_string.
  - intros h Hh. rewrite E by done. by apply (codec_store_bytes (c := string_codec)), mm_tag_helper_string.
  - intros h rest Hh. rewrite E by done. unfold mm_tag_load.
    erewrite rbind_eq by (by apply (codec_roundtrip (c := string_codec)), mm_tag_helper_string).
    change (c_store mm_tag_helper h).1 with (t_serializable_object_to_blob mm_tag_helper h).
    by rewrite (parse_binary_to_blob mm_tag_helper _ h Hh).
  - intros s h rest Hs (f & s' & H1 & H2)%rbind_some.
    apply (codec_load_ok (c := string_codec)) in H1 as ([Hf _] & ? & ?); [|done].
    destruct (parse_binary mm_tag_helper f) as [h'|] eqn:E'; [|done]. injection H2 as <- <-.
    apply (parse_binary_ok mm_tag_helper _) in E'; done.
Qed.

#[export] Instance nonce_codec_ok :
  CodecOk nonce_codec (fun n => string_ok n /\ (zlen n <=? TX_EXTRA_NONCE_MAX_COUNT) = true).
Proof. apply _. Qed.

#[export] Instance additional_pub_keys_codec_ok :
  CodecOk additional_pub_keys_codec (container_ok (pod_ok 32)).
Proof. apply _. Qed.

#[export] Instance leader_info_codec_ok :
  CodecOk leader_info_codec (fun p => string_ok p.1 /\ pod_ok 64 p.2).
Proof. apply _. Qed.

Lemma nonce_ok n : bytes_ok n /\ zlen n <= TX_EXTRA_NONCE_MAX_COUNT <->
  string_ok n /\ (zlen n <=? TX_EXTRA_NONCE_MAX_COUNT) = true.
Proof.
  unfold string_ok, in_range, TX_EXTRA_NONCE_MAX_COUNT. pose proof (zlen_nonneg n).
  assert (5120 < 2 ^ 64) by done. rewrite Z.leb_le. intuition lia.
Qed.

Lemma field_store_eq f :
  tx_extra_field_store f = (get_tag (type_of f) :: (variant_write f).1, (variant_write f).2).
Proof. by destruct f. Qed.

Lemma field_load_cons t s : is_u8 t -> tx_extra_field_load (t :: s) = variant_read t s.
Proof.
  intros Ht. unfold tx_extra_field_load.
  assert (c_load (uint_codec 8) (t :: s) = Some (t, s)) as E.
  { rewrite <- (codec_roundtrip (c := uint_codec 8) t s Ht). simpl.
    by rewrite land_ff, Z.mod_small. }
  by erewrite rbind_eq by exact E.
Qed.

Lemma variant_write_ok f : field_ok f ->
  (variant_write f).2 = true /\ bytes_ok (variant_write f).1.
Proof.
  destruct f; cbn [variant_write field_ok]; intros Hf.
  - unfold padding_store. rewrite (proj2 (Z.ltb_ge _ _)) by lia. split; [done|].
    simpl. apply Forall_replicate. done.
  - split; [done|]. apply Hf.
  - apply nonce_ok in Hf.
    split; [by apply (codec_store_true (c := nonce_codec))|by apply (codec_store_bytes (c := nonce_codec))].
  - split; [by apply (codec_store_true (c := mm_tag_codec))|by apply (codec_store_bytes (c := mm_tag_codec))].
  - split; [by apply (codec_store_true (c := additional_pub_keys_codec))
           |by apply (codec_store_bytes (c := additional_pub_keys_codec))].
  - split; [by apply (codec_store_true (c := string_codec))|by apply (codec_store_bytes (c := string_codec))].
  - split; [by apply (codec_store_true (c := leader_info_codec))
           |by apply (codec_store_bytes (c := leader_info_codec))].
Qed.

Lemma variant_read_write f rest : field_ok f -> (type_of f = ty_padding -> rest = []) ->
  variant_read (get_tag (type_of f)) ((variant_write f).1 ++ rest) = Some (f, rest).
Proof.
  destruct f; simpl field_ok; simpl type_of; intros Hf Hr; unfold variant_read;
    cbn [variant_write get_tag]; simpl (_ =? _); cbv iota.
  - rewrite Hr by done. rewrite app_nil_r. unfold padding_store, padding_load.
    rewrite (proj2 (Z.ltb_ge _ _)) by lia. cbn [wput fst].
    erewrite rbind_eq; [|apply padding_load_loop_zeros; lia].
    unfold rret. f_equal. f_equal. f_equal. lia.
  - by erewrite rbind_eq by (by apply (codec_roundtrip (c := blob_codec 32))).
  - apply nonce_ok in Hf. by erewrite rbind_eq by (by apply (codec_roundtrip (c := nonce_codec))).
  - by erewrite rbind_eq by (by apply (codec_roundtrip (c := mm_tag_codec) (depth, merkle_root))).
  - by erewrite rbind_eq by (by apply (codec_roundtrip (c := additional_pub_keys_codec))).
  - by erewrite rbind_eq by (by apply (codec_roundtrip (c := string_codec))).
  - by erewrite rbind_eq by (by apply (codec_roundtrip (c := leader_info_codec) (leader_id, signature))).
Qed.

Lemma variant_read_ok t s f rest : bytes_ok s -> variant_read t s = Some (f, rest) ->
  t = get_tag (type_of f) /\ field_ok f /\ bytes_ok rest /\ (length rest <= length s)%nat /\
  (type_of f = ty_padding -> rest = []).
Proof.
  intros Hs. unfold variant_read.
  repeat (case_match eqn:E; [apply Z.eqb_eq in E as ->;
    intros (x & s' & H1 & [= <- <-])%rbind_some|clear E]); [..|done];
    cbn [type_of field_ok]; (split; [done|]).
  - apply padding_load_loop_sound in H1 as (-> & ? & _); [|done].
    split; [lia|]. split; [constructor|]. split; [simpl; lia|done].
  - by apply (codec_load_ok (c := blob_codec 32)) in H1 as (? & ? & ?).
  - apply (codec_load_ok (c := nonce_codec)) in H1 as (?%nonce_ok & ? & ?); done.
  - by apply (codec_load_ok (c := mm_tag_codec)) in H1 as (? & ? & ?).
  - by apply (codec_load_ok (c := additional_pub_keys_codec)) in H1 as (? & ? & ?).
  - by apply (codec_load_ok (c := string_codec)) in H1 as (? & ? & ?).
  - by apply (codec_load_ok (c := leader_info_codec)) in H1 as (? & ? & ?).
Qed.

Lemma get_tag_u8 t : is_u8 (get_tag t).
Proof. by destruct t. Qed.

Lemma field_store_ok f : field_ok f ->
  (tx_extra_field_store f).2 = true /\ bytes_ok (field_bytes f) /\ field_bytes f <> [].
Proof.
  intros [H1 H2]%variant_write_ok. unfold field_bytes. rewrite field_store_eq. simpl.
  split; [done|]. split; [|done]. constructor; [apply get_tag_u8|done].
Qed.

Lemma field_load_store f rest : field_ok f -> (type_of f = ty_padding -> rest = []) ->
  tx_extra_field_load (field_bytes f ++ rest) = Some (f, rest).
Proof.
  intros Hf Hr. unfold field_bytes. rewrite field_store_eq. simpl.
  rewrite field_load_cons by apply get_tag_u8. by apply variant_read_write.
Qed.

Lemma field_load_ok s f rest : bytes_ok s -> tx_extra_field_load s = Some (f, rest) ->
  field_ok f /\ bytes_ok rest /\ (length rest < length s)%nat /\
  (type_of f = ty_padding -> rest = []).
Proof.
  intros [|t s' Ht Hs]; [done|]. rewrite field_load_cons by done.
  intros (_ & ? & ? & ? & ?)%variant_read_ok; [|done]. simpl. repeat split; auto; lia.
Qed.

(** ** The parse loop *)
Lemma fields_bytes_cons f l : fields_bytes (f :: l) = field_bytes f ++ fields_bytes l.
Proof. done. Qed.

Lemma fields_bytes_length l : fields_ok l -> (length l <= length (fields_bytes l))%nat.
Proof.
  induction l as [|f l IH]; [done|]. intros (Hf & _ & Hl). rewrite fields_bytes_cons, length_app.
  apply field_store_ok in Hf as (_ & _ & Hne). specialize (IH Hl).
  destruct (field_bytes f); [done|]. simpl. lia.
Qed.

Lemma fields_bytes_nonempty l : fields_ok l -> fields_bytes l = [] -> l = [].
Proof. intros Hl%fields_bytes_length E. rewrite E in Hl. destruct l; simpl in *; [done|lia]. Qed.

Lemma fields_bytes_ok l : fields_ok l -> bytes_ok (fields_bytes l).
Proof.
  induction l as [|f l IH]; [constructor|]. intros (Hf & _ & Hl).
  apply bytes_ok_app. split; [by apply field_store_ok|by apply IH].
Qed.

Lemma parse_tx_extra_loop_bytes l fuel acc : fields_ok l -> l <> [] -> (length l <= fuel)%nat ->
  parse_tx_extra_loop fuel acc (fields_bytes l) = (true, acc ++ l).
Proof.
  revert fuel acc. induction l as [|f l IH]; intros [|fuel] acc Hl Hne Hf; [done|done|simpl in Hf; lia|].
  destruct Hl as (Hok & Hp & Hl). rewrite fields_bytes_cons. cbn [parse_tx_extra_loop].
  rewrite field_load_store; [|done|by intros ->%Hp].
  destruct l as [|f' l]; [done|].
  destruct (fields_bytes (f' :: l)) eqn:E; [by apply fields_bytes_nonempty in E|].
  rewrite IH; [|done|done|simpl in *; lia]. by rewrite <- app_assoc.
Qed.

Lemma parse_tx_extra_bytes l : fields_ok l -> parse_tx_extra (fields_bytes l) = (true, l).
Proof.
  intros Hl. unfold parse_tx_extra. destruct (fields_bytes l) as [|b s] eqn:E.
  { apply fields_bytes_nonempty in E as ->; done. }
  rewrite <- E. rewrite parse_tx_extra_loop_bytes; [done|done| |by apply fields_bytes_length].
  intros ->. done.
Qed.

(** Both loops over the fields of a byte string, and what each leaves. *)
Lemma parse_remove_loops fuel s acc ty newar : bytes_ok s -> (length s <= fuel)%nat -> s <> [] ->
  newar.2 = true ->
  exists r l, parse_tx_extra_loop fuel acc s = (r, acc ++ l) /\ fields_ok l /\
    remove_field_loop fuel ty newar s =
      if r then Some (newar.1 ++ fields_bytes (filter (fun f => type_of f <> ty) l)) else None.
Proof.
  revert s acc newar. induction fuel as [|fuel IH]; intros s acc newar Hs Hf Hne Hw.
  { destruct s; simpl in *; [done|lia]. }
  cbn [parse_tx_extra_loop remove_field_loop]. cbv zeta.
  destruct (tx_extra_field_load s) as [[f s']|] eqn:E.
  2: { exists false, []. by rewrite app_nil_r. }
  apply field_load_ok in E as (Hok & Hs' & Hlt & Hp); [|done].
  set (newar' := if decide (type_of f = ty) then newar
                 else ostream_store newar (tx_extra_field_store f)).
  assert (newar'.2 = true /\ newar'.1 = newar.1 ++ fields_bytes (filter (fun f => type_of f <> ty) [f]))
    as [Hw' E'].
  { apply field_store_ok in Hok as (Ht & _). unfold newar', ostream_store.
    destruct (decide (type_of f = ty)).
    - rewrite filter_cons_False by naive_solver. by rewrite app_nil_r.
    - rewrite filter_cons_True by done. rewrite wseq_true by done. simpl.
      by rewrite fields_bytes_cons, app_nil_r. }
  destruct s' as [|b s'].
  { exists true, [f]. split; [done|]. split; [done|]. f_equal. exact E'. }
  destruct (IH (b :: s') (acc ++ [f]) newar') as (r & l & -> & Hl & ER); [done|lia|done|done|].
  exists r, (f :: l). rewrite <- app_assoc. split; [done|]. split; [split; [done|]; split; [by intros ?%Hp|done]|].
  etrans; [exact ER|]. rewrite E', <- app_assoc. destruct r; [|done]. f_equal. f_equal.
  change (f :: l) with ([f] ++ l). rewrite filter_app. unfold fields_bytes.
  by rewrite map_app, concat_app.
Qed.

Lemma parse_tx_extra_fields_ok s r l : bytes_ok s -> parse_tx_extra s = (r, l) -> fields_ok l.
Proof.
  intros Hs. unfold parse_tx_extra. destruct s as [|b s]; [by intros [= <- <-]|].
  destruct (parse_remove_loops (length (b :: s)) (b :: s) [] ty_padding (wput []))
    as (r' & l' & -> & Hl & _); [done..|]. by intros [= <- <-].
Qed.

Lemma remove_field_spec s ty : bytes_ok s ->
  remove_field_from_tx_extra s ty =
    match parse_tx_extra s with
    | (true, l) => (true, fields_bytes (filter (fun f => type_of f <> ty) l))
    | (false, _) => (false, s)
    end.
Proof.
  intros Hs. unfold remove_field_from_tx_extra, parse_tx_extra. destruct s as [|b s]; [done|].
  destruct (parse_remove_loops (length (b :: s)) (b :: s) [] ty (wput []))
    as (r & l & -> & Hl & ->); [done..|]. by destruct r.
Qed.

Lemma fields_ok_filter ty l : fields_ok l -> fields_ok (filter (fun f => type_of f <> ty) l).
Proof.
  induction l as [|f l IH]; [done|]. intros (Hf & Hp & Hl). rewrite filter_cons.
  case_match; [|by apply IH]. split; [done|]. split; [by intros ->%Hp|by apply IH].
Qed.

Lemma rebuild_tx_extra_spec acc l : fields_ok l ->
  rebuild_tx_extra acc l = (true, acc ++ fields_bytes l).
Proof.
  revert acc. induction l as [|f l IH]; intros acc; cbn [rebuild_tx_extra]; [by rewrite app_nil_r|].
  intros (Hf & _ & Hl). cbv zeta. apply field_store_ok in Hf as (-> & _). rewrite IH by done.
  by rewrite fields_bytes_cons, app_assoc.
Qed.

Lemma fields_ok_snoc l f : fields_ok l -> Forall (fun g => type_of g <> ty_padding) l ->
  field_ok f -> fields_ok (l ++ [f]).
Proof.
  induction l as [|g l IH]; simpl; [done|]. intros (Hg & _ & Hl) HF Hf.
  apply Forall_cons in HF as [HF1 HF2]. split; [done|]. split; [done|by apply IH].
Qed.

Lemma remove_leader_info_spec s : bytes_ok s ->
  remove_leader_info_from_tx_extra s =
    match parse_tx_extra s with
    | (true, l) => (true, fields_bytes (filter (fun f => type_of f <> ty_leader_info) l))
    | (false, _) => (false, s)
    end.
Proof.
  intros Hs. unfold remove_leader_info_from_tx_extra.
  destruct (parse_tx_extra s) as [r l] eqn:E. destruct r; [|done].
  apply parse_tx_extra_fields_ok in E; [|done].
  by rewrite rebuild_tx_extra_spec by (by apply fields_ok_filter).
Qed.

(** ** Properties *)

(** every vector of well-formed fields in which padding comes last
    survives the round trip through bytes: [parse_tx_extra] of the
    concatenated serializations succeeds with exactly those fields. *)
Theorem tx_extra_roundtrip l : fields_ok l -> parse_tx_extra (fields_bytes l) = (true, l).
Proof. apply parse_tx_extra_bytes. Qed.

Lemma tx_extra_roundtrip_witness :
  let l := [tx_extra_pub_key (replicate 32 7); tx_extra_merge_mining_tag 300 (replicate 32 1);
            tx_extra_padding 4] in
  parse_tx_extra (fields_bytes l) = (true, l).
Proof.
  apply tx_extra_roundtrip. by_decide.
Defined.

(** [remove_field_from_tx_extra] is a filter.  On a byte string that
    [parse_tx_extra] accepts it leaves the canonical bytes of the fields of the
    other types, in their order; on any other it fails and leaves the vector as
    it was.  The stores whose results the function ignores never fail. *)
Theorem remove_field_from_tx_extra_filter s ty : bytes_ok s ->
  remove_field_from_tx_extra s ty =
    match parse_tx_extra s with
    | (true, l) => (true, fields_bytes (filter (fun f => type_of f <> ty) l))
    | (false, _) => (false, s)
    end.
Proof. apply remove_field_spec. Qed.

Lemma remove_field_from_tx_extra_filter_witness :
  remove_field_from_tx_extra [2; 2; 8; 9; 0; 0; 0] ty_padding =
    (true, fields_bytes [tx_extra_nonce [8; 9]]).
Proof.
  rewrite (remove_field_from_tx_extra_filter [2; 2; 8; 9; 0; 0; 0] ty_padding);
    [vm_compute; reflexivity|by_decide].
Defined.

(** the hand-written [remove_leader_info_from_tx_extra] (parse, filter a
    vector, rebuild) and the generic [remove_field_from_tx_extra] at the type
    of the leader metadata are the same function, errors included. *)
Theorem remove_leader_info_equiv s : bytes_ok s ->
  remove_leader_info_from_tx_extra s = remove_field_from_tx_extra s ty_leader_info.
Proof. intros Hs. by rewrite remove_field_spec, remove_leader_info_spec. Qed.

Lemma remove_leader_info_equiv_witness :
  remove_leader_info_from_tx_extra [2; 1; 8] = remove_field_from_tx_extra [2; 1; 8] ty_leader_info.
Proof. apply remove_leader_info_equiv. by_decide. Defined.

Lemma find_none_app l k ty : Forall (fun f => type_of f <> ty) l ->
  find_tx_extra_field_by_type (l ++ k) ty 0 = find_tx_extra_field_by_type k ty 0.
Proof.
  induction 1 as [|f l Hf Hl IH]; simpl; [done|]. by rewrite decide_False.
Qed.

Lemma find_first_app l k x : match find_tx_extra_field_by_type l ty_leader_info 0 with
    | Some (tx_extra_leader_info i s) => Some (i, s) | _ => None end = Some x ->
  match find_tx_extra_field_by_type (l ++ k) ty_leader_info 0 with
  | Some (tx_extra_leader_info i s) => Some (i, s) | _ => None end = Some x.
Proof. induction l as [|f l IH]; simpl; [done|]. by case_decide. Qed.

Lemma filter_all l ty : Forall (fun f => type_of f <> ty) l ->
  filter (fun f => type_of f <> ty) l = l.
Proof. induction 1 as [|f l Hf Hl IH]; [done|]. by rewrite filter_cons_True, IH. Qed.

Lemma leader_info_add l leader_id sig :
  fields_ok l -> Forall (fun f => type_of f <> ty_padding) l ->
  string_ok leader_id -> pod_ok 64 sig ->
  add_leader_info_to_tx_extra (fields_bytes l) leader_id sig =
    (true, fields_bytes (l ++ [tx_extra_leader_info leader_id sig])) /\
  fields_ok (l ++ [tx_extra_leader_info leader_id sig]).
Proof.
  intros Hl Hp Hi Hs. assert (field_ok (tx_extra_leader_info leader_id sig)) as Hf by done.
  split; [|by apply fields_ok_snoc]. unfold add_leader_info_to_tx_extra.
  rewrite (proj1 (field_store_ok _ Hf)). unfold fields_bytes at 2.
  rewrite map_app, concat_app. simpl. by rewrite app_nil_r.
Qed.

Lemma leader_info_add_remove l leader_id sig :
  fields_ok l -> Forall (fun f => type_of f <> ty_padding) l ->
  Forall (fun f => type_of f <> ty_leader_info) l ->
  string_ok leader_id -> pod_ok 64 sig ->
  let '(r, extra) := add_leader_info_to_tx_extra (fields_bytes l) leader_id sig in
  r = true /\ get_leader_info_from_tx_extra extra = Some (leader_id, sig) /\
  remove_leader_info_from_tx_extra extra = (true, fields_bytes l).
Proof.
  intros Hl Hp Hn Hi Hs. destruct (leader_info_add l leader_id sig) as [-> Hok]; [done..|].
  unfold get_leader_info_from_tx_extra, remove_leader_info_from_tx_extra.
  rewrite parse_tx_extra_bytes by done. split; [done|].
  rewrite find_none_app by done. split; [done|].
  rewrite filter_app, filter_all, filter_cons_False by naive_solver.
  rewrite filter_nil, app_nil_r. by rewrite rebuild_tx_extra_spec by done.
Qed.

(** signing metadata round trip.  On an extra made of any fields but
    padding and leader metadata, [add_leader_info_to_tx_extra] succeeds,
    [get_leader_info_from_tx_extra] then finds exactly the leader id and the
    signature added, and [remove_leader_info_from_tx_extra] restores the extra
    byte for byte, so leader and validator hash the same block. *)
Theorem leader_info_roundtrip l leader_id sig :
  fields_ok l -> Forall (fun f => type_of f <> ty_padding) l ->
  Forall (fun f => type_of f <> ty_leader_info) l ->
  string_ok leader_id -> pod_ok 64 sig ->
  let '(r, extra) := add_leader_info_to_tx_extra (fields_bytes l) leader_id sig in
  r = true /\ get_leader_info_from_tx_extra extra = Some (leader_id, sig) /\
  remove_leader_info_from_tx_extra extra = (true, fields_bytes l).
Proof. apply leader_info_add_remove. Qed.

Lemma leader_info_roundtrip_witness :
  let '(r, extra) := add_leader_info_to_tx_extra
                       (fields_bytes [tx_extra_pub_key (replicate 32 7)]) [88; 67] (replicate 64 5) in
  r = true /\ get_leader_info_from_tx_extra extra = Some ([88; 67], replicate 64 5) /\
  remove_leader_info_from_tx_extra extra = (true, fields_bytes [tx_extra_pub_key (replicate 32 7)]).
Proof.
  apply (leader_info_roundtrip [tx_extra_pub_key (replicate 32 7)] [88; 67] (replicate 64 5));
    by_decide.
Defined.

(** ** Sizes: what is written back is not much longer than what was read *)
Lemma string_load_size s x r : bytes_ok s -> string_load s = Some (x, r) -> zlen x <= zlen s.
Proof.
  intros Hs (n & s1 & H1 & H2)%rbind_some. apply (codec_load_ok (c := varint_codec 64)) in H1 as (Hn & Hs1 & Hl); [|done].
  destruct (Z.ltb_spec (remaining_bytes s1) n); [done|]. unfold serialize_blob_load in H2. case_match; [done|]. injection H2 as <- _.
  unfold zlen, remaining_bytes, in_range in *. rewrite length_take. lia.
Qed.

Lemma elements_size n s l r : load_elements (blob_codec 32) n s = Some (l, r) -> 32 * zlen l + zlen r = zlen s.
Proof.
  revert s l. induction n as [|n IH]; intros s l; cbn [load_elements]; [by intros [= <- <-]|].
  intros (e & s1 & H1 & (l1 & s2 & H2 & [= <- <-])%rbind_some)%rbind_some. apply IH in H2. cbn in H1. unfold serialize_blob_load in H1.
  case_match eqn:E; [done|]. injection H1 as _ <-. apply Nat.ltb_ge in E. unfold zlen in *. cbn [length] in *. rewrite length_drop in H2. lia.
Qed.

Lemma field_bytes_size s f r : bytes_ok s -> tx_extra_field_load s = Some (f, r) -> zlen (field_bytes f) <= zlen s + 5200.
Proof.
  intros [|t s' Ht Hs]; [done|]. rewrite field_load_cons by done. intros E. pose proof (variant_read_ok _ _ _ _ Hs E) as (_ & Hf & _). revert E.
  assert (forall x, string_ok x -> zlen (string_store x).1 <= 10 + zlen x) as Hstr.
  { intros x Hx. change (string_store x).1 with (write_varint (zlen x) ++ x). rewrite zlen_app. pose proof (zlen_write_varint_64 _ (proj2 Hx)). lia. }
  unfold variant_read. pose proof (zlen_nonneg s') as Hz.
  repeat (case_match eqn:Et; [clear Et; intros (x & s1 & H1 & [= <- _])%rbind_some|clear Et]); [..|done];
    unfold field_bytes; rewrite field_store_eq; cbn [fst variant_write get_tag type_of field_ok] in *; rewrite !zlen_cons.
  - unfold padding_store. case_match; cbn [fst wfail wput]; [rewrite zlen_nil; lia|]. unfold zlen at 1. rewrite length_replicate.
    unfold TX_EXTRA_PADDING_MAX_COUNT in *. lia.
  - cbn. unfold zlen at 1. rewrite (proj1 Hf). lia.
  - assert (string_ok x) as Hx by by apply nonce_ok. specialize (Hstr x Hx). destruct Hf as [_ Hf].
    change (c_store nonce_codec x) with (string_store x >>> wguard (zlen x <=? TX_EXTRA_NONCE_MAX_COUNT)). unfold TX_EXTRA_NONCE_MAX_COUNT in *.
    rewrite (proj2 (Z.leb_le _ _)), wseq_true by done. cbn [fst wguard wput]. rewrite app_nil_r. lia.
  - unfold mm_tag_store. destruct x as [d root]. cbn [fst snd field_ok] in *. case_match; [|change (zlen wfail.1) with 0; lia].
    assert (string_ok (c_store mm_tag_helper (d, root)).1) as Hx by (by apply mm_tag_helper_string). specialize (Hstr _ Hx).
    change (c_store mm_tag_helper (d, root)).1 with (write_varint d ++ root) in *. rewrite zlen_app in Hstr.
    pose proof (zlen_write_varint_64 d (proj1 Hf)). unfold zlen at 3 in Hstr. rewrite (proj1 (proj2 Hf)) in Hstr. lia.
  - change (c_store additional_pub_keys_codec x) with (container_store (blob_codec 32) x). apply rbind_some in H1 as (cnt & s2 & H1 & H2).
    apply (codec_load_ok (c := varint_codec 64)) in H1 as (Hn & Hs2 & Hl); [|done]. destruct (Z.ltb_spec (remaining_bytes s2) cnt); [done|].
    apply elements_size in H2. pose proof (zlen_nonneg s1).
    change (container_store (blob_codec 32) x).1 with (write_varint (zlen x) ++ (store_elements (blob_codec 32) x).1). rewrite zlen_app.
    pose proof (zlen_write_varint_64 (zlen x) (proj2 Hf)). assert (zlen (store_elements (blob_codec 32) x).1 = 32 * zlen x) as ->; [|unfold zlen in *; lia].
    destruct Hf as [Hf _]. clear -Hf. induction Hf as [|h l [Hh Hb] Hl IH]; [done|].
    rewrite (store_elements_cons (blob_codec 32) (pod_ok 32)) by done. rewrite zlen_app, IH, zlen_cons.
    change (c_store (blob_codec 32) h).1 with h. unfold zlen at 1. rewrite Hh. lia.
  - apply string_load_size in H1; [|done]. specialize (Hstr x Hf). change (c_store string_codec x) with (string_store x). lia.
  - destruct x as [i g]. cbn [fst snd field_ok] in *. apply rbind_some in H1 as (x1 & s2 & H1 & H2). apply rbind_some in H2 as (x2 & s3 & H2 & [= <- <- <-]).
    apply string_load_size in H1; [|done]. destruct Hf as [Hf1 [Hf2 _]]. specialize (Hstr x1 Hf1).
    change (c_store leader_info_codec (x1, x2)).1 with ((string_store x1).1 ++ x2). rewrite zlen_app. unfold zlen at 2. rewrite Hf2. lia.
Qed.

Lemma parse_loop_size fuel acc s b l : bytes_ok s -> parse_tx_extra_loop fuel acc s = (b, l) ->
  exists new, l = acc ++ new /\ zlen (fields_bytes new) <= zlen s * (zlen s + 5200).
Proof.
  revert acc s. induction fuel as [|fuel IH]; intros acc s Hs; cbn [parse_tx_extra_loop].
  { intros [= <- <-]. exists []. rewrite app_nil_r. split; [done|]. pose proof (zlen_nonneg s). change (zlen (fields_bytes [])) with 0. nia. }
  pose proof (zlen_nonneg s) as Hz. destruct (tx_extra_field_load s) as [[f rest]|] eqn:E.
  2: { intros [= <- <-]. exists []. rewrite app_nil_r. split; [done|]. change (zlen (fields_bytes [])) with 0. nia. }
  pose proof (field_bytes_size _ _ _ Hs E) as Hf. apply field_load_ok in E as (_ & Hr & Hl & _); [|done].
  destruct rest as [|x rest].
  - intros [= <- <-]. exists [f]. split; [done|]. rewrite fields_bytes_cons, app_nil_r. unfold zlen in Hl |- *. cbn [length] in Hl. unfold zlen in Hf, Hz. nia.
  - intros (new & -> & Hn)%IH; [|done]. exists (f :: new). rewrite <- app_assoc. split; [done|]. rewrite fields_bytes_cons, zlen_app.
    assert (zlen (x :: rest) <= zlen s - 1) by (unfold zlen; lia). pose proof (zlen_nonneg (x :: rest)). nia.
Qed.

Lemma fields_bytes_filter ty l : zlen (fields_bytes (filter (fun f => type_of f <> ty) l)) <= zlen (fields_bytes l).
Proof.
  induction l as [|f l IH]; [done|]. rewrite filter_cons, (fields_bytes_cons f l), zlen_app. pose proof (zlen_nonneg (field_bytes f)).
  case_decide; [|lia]. rewrite fields_bytes_cons, zlen_app. lia.
Qed.

Lemma remove_leader_info_size s : bytes_ok s -> zlen (remove_leader_info_from_tx_extra s).2 <= zlen s * (zlen s + 5200).
Proof.
  intros Hs. rewrite remove_leader_info_spec by done. unfold parse_tx_extra. pose proof (zlen_nonneg s). destruct s as [|x s]; [done|].
  destruct (parse_tx_extra_loop _ _ _) as [[] l] eqn:E; cbn [snd]; [|nia]. apply parse_loop_size in E as (new & -> & Hn); [|done].
  etrans; [apply fields_bytes_filter|exact Hn].
Qed.
