(* ===== verification/Rct.v ===== *)
(** * RingCT signature containers

    Model of the data types of src/ringct/rctTypes.h and of their
    serialization: [serialize_rctsig_base], [serialize_rctsig_prunable],
    [Bulletproof] and the counts of rctTypes.cpp.  Members that the code
    rebuilds instead of serializing ([message], [mixRing], [senderPk],
    [outPk[i].dest], [II]) are not part of the records; [Bulletproof::V], which
    later code does read, is, and a load leaves it empty. *)
From Stdlib Require Import ZArith Lia Bool.
From stdpp Require Import prelude.
From S2P Require Import Prelude Varint Archive.
Local Open Scope Z_scope.
Local Open Scope archive_scope.

Definition RCTTypeNull : Z := 0.
Definition RCTTypeFull : Z := 1.
Definition RCTTypeSimple : Z := 2.
Definition RCTTypeBulletproof : Z := 3.

Definition key_codec : codec blob := blob_codec 32.
Abbreviation key_ok := (pod_ok 32).

Record ecdhTuple := EcdhTuple { mask : blob; amount : blob }.
Record mgSig := MgSig { ss : list (list blob); cc : blob }.
(** [boroSig] and [key64] are blob types of 129 and 64 keys. *)
Record rangeSig := RangeSig { asig : blob; Ci : blob }.
Record Bulletproof := MkBulletproof {
  bp_V : list blob; bp_A : blob; bp_S : blob; bp_T1 : blob; bp_T2 : blob;
  bp_taux : blob; bp_mu : blob; bp_L : list blob; bp_R : list blob;
  bp_a : blob; bp_b : blob; bp_t : blob }.

Record rctSigPrunable := RctSigPrunable {
  rangeSigs : list rangeSig; bulletproofs : list Bulletproof;
  MGs : list mgSig; p_pseudoOuts : list blob }.
Record rctSig := RctSig {
  rct_type : Z; txnFee : Z; pseudoOuts : list blob;
  ecdhInfo : list ecdhTuple; outPk : list blob; rct_p : rctSigPrunable }.

Definition ecdhTuple_codec : codec ecdhTuple :=
  iso_codec (fun x => EcdhTuple x.1 x.2) (fun e => (mask e, amount e))
    (pair_codec key_codec key_codec).

Definition rangeSig_codec : codec rangeSig :=
  iso_codec (fun x => RangeSig x.1 x.2) (fun e => (asig e, Ci e))
    (pair_codec (blob_codec (129 * 32)) (blob_codec (64 * 32))).

(** [Bulletproof]: the commitments [V] are not stored; the two vectors must be
    non-empty and of one length. *)
Definition bp_of (x : blob * (blob * (blob * (blob * (blob * (blob * (list blob * (list blob *
    (blob * (blob * blob)))))))))) : Bulletproof :=
  let '(A, (S', (T1, (T2, (taux, (mu, (L, (R, (a, (b, t)))))))))) := x in
  MkBulletproof [] A S' T1 T2 taux mu L R a b t.
Definition bp_to (p : Bulletproof) :=
  (bp_A p, (bp_S p, (bp_T1 p, (bp_T2 p, (bp_taux p, (bp_mu p, (bp_L p, (bp_R p,
    (bp_a p, (bp_b p, bp_t p)))))))))).

Definition Bulletproof_codec : codec Bulletproof :=
  guard_codec (fun p => negb ((zlen (bp_L p) =? 0) || negb (zlen (bp_L p) =? zlen (bp_R p))))
    (iso_codec bp_of bp_to
      (pair_codec key_codec (pair_codec key_codec (pair_codec key_codec (pair_codec key_codec
      (pair_codec key_codec (pair_codec key_codec
      (pair_codec (container_codec key_codec) (pair_codec (container_codec key_codec)
      (pair_codec key_codec (pair_codec key_codec key_codec))))))))))).

(** src/ringct/rctTypes.cpp *)
Definition is_rct_simple (type : Z) : bool :=
  (type =? RCTTypeSimple) || (type =? RCTTypeBulletproof).
Definition is_rct_bulletproof (type : Z) : bool := type =? RCTTypeBulletproof.
Definition is_rct_borromean (type : Z) : bool :=
  (type =? RCTTypeSimple) || (type =? RCTTypeFull).

Definition n_bulletproof_amounts_1 (proof : Bulletproof) : Z :=
  let l := zlen (bp_L proof) in let v := zlen (bp_V proof) in
  if negb (6 <=? l) then 0
  else if negb (l =? zlen (bp_R proof)) then 0
  else if negb (l <=? 6 + 4) then 0
  else if negb (v <=? Z.shiftl 1 (l - 6)) then 0
  else if negb (Z.shiftl 1 (l - 6) <? u64 (v * 2)) then 0
  else if negb (0 <? v) then 0 else v.

Definition n_bulletproof_max_amounts_1 (proof : Bulletproof) : Z :=
  let l := zlen (bp_L proof) in
  if negb (6 <=? l) then 0
  else if negb (l =? zlen (bp_R proof)) then 0
  else if negb (l <=? 6 + 4) then 0
  else Z.shiftl 1 (l - 6).

(** The two sums over a vector of proofs share their loop. *)
Fixpoint n_bulletproof_loop (count : Bulletproof -> Z) (proofs : list Bulletproof) (n : Z) : Z :=
  match proofs with
  | [] => n
  | proof :: proofs =>
      let n2 := count proof in
      if negb (n2 <? u64 (4294967295 - n)) then 0
      else if n2 =? 0 then 0
      else n_bulletproof_loop count proofs (u64 (n + n2))
  end.

Definition n_bulletproof_amounts (proofs : list Bulletproof) : Z :=
  n_bulletproof_loop n_bulletproof_amounts_1 proofs 0.
Definition n_bulletproof_max_amounts (proofs : list Bulletproof) : Z :=
  n_bulletproof_loop n_bulletproof_max_amounts_1 proofs 0.

Definition rct_type_known (type : Z) : bool :=
  (type =? RCTTypeFull) || (type =? RCTTypeSimple) || (type =? RCTTypeBulletproof).

(** [serialize_rctsig_base], after the type: fee, pseudo outputs, ecdh, masks. *)
Definition rctsig_base_body (type : Z) (inputs outputs : nat)
  : codec (Z * (list blob * (list ecdhTuple * list blob))) :=
  if type =? RCTTypeNull then const_codec (0, ([], ([], [])))
  else if negb (rct_type_known type) then fail_codec
  else pair_codec (varint_codec 64)
    (pair_codec (if type =? RCTTypeSimple then fixed_codec inputs key_codec else const_codec [])
    (pair_codec (fixed_codec outputs ecdhTuple_codec) (fixed_codec outputs key_codec))).

(** The vector of bulletproofs, behind a 32-bit count. *)
Definition bulletproofs_store (outputs : nat) (l : list Bulletproof) : writer :=
  let nbp := u32 (zlen l) in
  c_store (uint_codec 32) nbp >>>
  wguard (negb (Z.of_nat outputs <? nbp)) >>>
  store_elements Bulletproof_codec (take (Z.to_nat nbp) l) >>>
  wguard (negb (n_bulletproof_max_amounts l <? Z.of_nat outputs)).

Definition bulletproofs_load (outputs : nat) : reader (list Bulletproof) :=
  nbp <-- c_load (uint_codec 32) ;;
  _ <-- rguard (negb (Z.of_nat outputs <? nbp)) ;;
  l <-- load_elements Bulletproof_codec (Z.to_nat nbp) ;;
  _ <-- rguard (negb (n_bulletproof_max_amounts l <? Z.of_nat outputs)) ;;
  rret l.

Definition bulletproofs_codec (outputs : nat) : codec (list Bulletproof) :=
  Codec (bulletproofs_store outputs) (bulletproofs_load outputs).

(** One MLSAG: [mixin + 1] columns (the sum wraps in [size_t]) and the seed. *)
Definition mgSig_codec (type mixin : Z) (inputs : nat) : codec mgSig :=
  iso_codec (fun x => MgSig x.1 x.2) (fun m => (ss m, cc m))
    (pair_codec
      (fixed_codec (Z.to_nat (u64 (mixin + 1)))
        (fixed_codec ((if is_rct_simple type then 1 else inputs) + 1) key_codec))
      key_codec).

(** [serialize_rctsig_prunable] *)
Definition rctsig_prunable_body (type : Z) (inputs outputs : nat) (mixin : Z)
  : codec (list Bulletproof * (list rangeSig * (list mgSig * list blob))) :=
  if type =? RCTTypeNull then const_codec ([], ([], ([], [])))
  else if negb (rct_type_known type) then fail_codec
  else
    pair_codec (if type =? RCTTypeBulletproof then bulletproofs_codec outputs else const_codec [])
    (pair_codec (if type =? RCTTypeBulletproof then const_codec [] else fixed_codec outputs rangeSig_codec)
    (pair_codec (fixed_codec (if is_rct_simple type then inputs else 1) (mgSig_codec type mixin inputs))
    (if type =? RCTTypeBulletproof then fixed_codec inputs key_codec else const_codec []))).

Definition rctSigPrunable_codec (type : Z) (inputs outputs : nat) (mixin : Z) : codec rctSigPrunable :=
  iso_codec (fun x => RctSigPrunable x.2.1 x.1 x.2.2.1 x.2.2.2)
    (fun p => (bulletproofs p, (rangeSigs p, (MGs p, p_pseudoOuts p))))
    (rctsig_prunable_body type inputs outputs mixin).

(** The whole signature of a version 2 transaction: base, then prunable part. *)
Definition rctSig_of (x : (Z * (Z * (list blob * (list ecdhTuple * list blob)))) * rctSigPrunable) : rctSig :=
  let '((ty, (fee, (po, (ecdh, opk)))), p) := x in RctSig ty fee po ecdh opk p.
Definition rctSig_to (r : rctSig) :=
  ((rct_type r, (txnFee r, (pseudoOuts r, (ecdhInfo r, outPk r)))), rct_p r).

Definition rctSigBase_codec (inputs outputs : nat) :=
  bind_codec (uint_codec 8) (fun type => rctsig_base_body type inputs outputs).

Definition rctSig_codec (inputs outputs : nat) (mixin : Z) : codec rctSig :=
  iso_codec rctSig_of rctSig_to
    (bind_codec (rctSigBase_codec inputs outputs)
      (fun base => rctSigPrunable_codec base.1 inputs outputs mixin)).

(** ** Well-formed values, and the contract of the codecs *)
Definition ecdhTuple_ok (e : ecdhTuple) : Prop := key_ok (mask e) /\ key_ok (amount e).
Definition rangeSig_ok (e : rangeSig) : Prop := pod_ok (129 * 32) (asig e) /\ pod_ok (64 * 32) (Ci e).
Definition Bulletproof_ok (p : Bulletproof) : Prop :=
  (bp_V p = [] /\ Forall key_ok [bp_A p; bp_S p; bp_T1 p; bp_T2 p; bp_taux p; bp_mu p; bp_a p; bp_b p; bp_t p]
   /\ container_ok key_ok (bp_L p) /\ container_ok key_ok (bp_R p)) /\
  negb ((zlen (bp_L p) =? 0) || negb (zlen (bp_L p) =? zlen (bp_R p))) = true.
Definition fixed_ok {A} (n : nat) (ok : A -> Prop) (l : list A) : Prop := length l = n /\ Forall ok l.

Definition mgSig_ok (type mixin : Z) (inputs : nat) (m : mgSig) : Prop :=
  fixed_ok (Z.to_nat (u64 (mixin + 1))) (fixed_ok ((if is_rct_simple type then 1 else inputs) + 1) key_ok) (ss m)
  /\ key_ok (cc m).

Definition bulletproofs_ok (outputs : nat) (l : list Bulletproof) : Prop :=
  Forall Bulletproof_ok l /\ is_u32 (zlen l) /\ (length l <= outputs)%nat /\
  Z.of_nat outputs <= n_bulletproof_max_amounts l.

Definition rctsig_base_ok (type : Z) (inputs outputs : nat)
  (b : Z * (list blob * (list ecdhTuple * list blob))) : Prop :=
  if type =? RCTTypeNull then (0, ([], ([], []))) = b
  else rct_type_known type = true /\ is_u64 b.1 /\
    (if type =? RCTTypeSimple then fixed_ok inputs key_ok b.2.1 else [] = b.2.1) /\
    fixed_ok outputs ecdhTuple_ok b.2.2.1 /\ fixed_ok outputs key_ok b.2.2.2.

Definition rctsig_prunable_ok (type : Z) (inputs outputs : nat) (mixin : Z) (p : rctSigPrunable) : Prop :=
  if type =? RCTTypeNull then p = RctSigPrunable [] [] [] []
  else rct_type_known type = true /\
    (if type =? RCTTypeBulletproof then bulletproofs_ok outputs (bulletproofs p) else [] = bulletproofs p) /\
    (if type =? RCTTypeBulletproof then [] = rangeSigs p else fixed_ok outputs rangeSig_ok (rangeSigs p)) /\
    fixed_ok (if is_rct_simple type then inputs else 1%nat) (mgSig_ok type mixin inputs) (MGs p) /\
    (if type =? RCTTypeBulletproof then fixed_ok inputs key_ok (p_pseudoOuts p) else [] = p_pseudoOuts p).

Definition rctSig_ok (inputs outputs : nat) (mixin : Z) (r : rctSig) : Prop :=
  is_u8 (rct_type r) /\
  rctsig_base_ok (rct_type r) inputs outputs (txnFee r, (pseudoOuts r, (ecdhInfo r, outPk r))) /\
  rctsig_prunable_ok (rct_type r) inputs outputs mixin (rct_p r).

#[export] Instance key_codec_ok : CodecOk key_codec key_ok := blob_codec_ok 32.
#[export] Instance key_codec_nonempty : CodecNonempty key_codec key_ok := blob_codec_nonempty 32 _.

#[export] Instance ecdhTuple_codec_ok : CodecOk ecdhTuple_codec ecdhTuple_ok.
Proof. eapply iso_codec_ok; [apply _|by intros [] []|by intros [] []]. Qed.

#[export] Instance rangeSig_codec_ok : CodecOk rangeSig_codec rangeSig_ok.
Proof. eapply iso_codec_ok; [apply _|by intros [] []|by intros [] []]. Qed.

Lemma Forall9 {A} (P : A -> Prop) a b c d e f g h i :
  Forall P [a; b; c; d; e; f; g; h; i] <->
  P a /\ P b /\ P c /\ P d /\ P e /\ P f /\ P g /\ P h /\ P i.
Proof. rewrite !Forall_cons, Forall_nil. tauto. Qed.

#[export] Instance Bulletproof_codec_ok : CodecOk Bulletproof_codec Bulletproof_ok.
Proof.
  unfold Bulletproof_codec.
  refine (guard_codec_ok _ (fun p => bp_V p = [] /\ Forall key_ok [bp_A p; bp_S p; bp_T1 p; bp_T2 p;
    bp_taux p; bp_mu p; bp_a p; bp_b p; bp_t p] /\ container_ok key_ok (bp_L p) /\ container_ok key_ok (bp_R p)) _).
  eapply iso_codec_ok; [apply _|..].
  - intros [] (HV & HF%Forall9 & ? & ?). simpl in *. subst. intuition.
  - intros (A & S' & T1 & T2 & taux & mu & L & R & a & b & t) H. simpl in *. rewrite Forall9. intuition.
Qed.

#[export] Instance mgSig_codec_ok type mixin inputs :
  CodecOk (mgSig_codec type mixin inputs) (mgSig_ok type mixin inputs).
Proof. eapply iso_codec_ok; [apply _|by intros [] []|by intros [] []]. Qed.

Lemma bulletproofs_store_eq outputs l : bulletproofs_ok outputs l ->
  bulletproofs_store outputs l =
    ((c_store (uint_codec 32) (zlen l)).1 ++ (store_elements Bulletproof_codec l).1, true).
Proof.
  intros (HF & Hr & Hl & Hm). unfold bulletproofs_store. rewrite wrap_small by done. cbv zeta.
  replace (take (Z.to_nat (zlen l)) l) with l by (unfold zlen; by rewrite Nat2Z.id, take_ge).
  rewrite (proj2 (Z.ltb_ge (Z.of_nat outputs) _)) by (unfold zlen; lia).
  rewrite (proj2 (Z.ltb_ge _ (Z.of_nat outputs))) by lia.
  pose proof (store_elements_true _ Bulletproof_ok l HF) as E.
  rewrite (wseq_true (store_elements _ _)) by done. rewrite ?wseq_true by done. simpl.
  by rewrite app_nil_r.
Qed.

#[export] Instance bulletproofs_codec_ok outputs :
  CodecOk (bulletproofs_codec outputs) (bulletproofs_ok outputs).
Proof.
  split; cbn [bulletproofs_codec c_store c_load].
  - intros l Hl. by rewrite bulletproofs_store_eq.
  - intros l Hl. rewrite bulletproofs_store_eq by done. destruct Hl as (HF & Hr & _).
    apply bytes_ok_app. split; [by apply (codec_store_bytes (c := uint_codec 32))|].
    by apply (store_elements_bytes _ Bulletproof_ok).
  - intros l rest Hl. rewrite bulletproofs_store_eq by done. destruct Hl as (HF & Hr & Hl & Hm).
    unfold bulletproofs_load. cbn [fst]. rewrite <- app_assoc.
    erewrite rbind_eq by (by apply (codec_roundtrip (c := uint_codec 32))).
    unfold rguard. erewrite rbind_eq by (rewrite (proj2 (Z.ltb_ge _ _)) by (unfold zlen; lia); done).
    erewrite rbind_eq.
    2: { unfold zlen. rewrite Nat2Z.id. by apply (load_store_elements _ Bulletproof_ok). }
    by erewrite rbind_eq by (rewrite (proj2 (Z.ltb_ge _ _)) by lia; done).
  - intros s l rest Hs. unfold bulletproofs_load, rguard.
    intros (n & s1 & H1 & (? & s2 & H2 & (l' & s3 & H3 & (? & s4 & H4 & [= -> ->])%rbind_some)%rbind_some)%rbind_some)%rbind_some.
    apply (codec_load_ok (c := uint_codec 32)) in H1 as (? & ? & ?); [|done].
    destruct (negb (Z.of_nat outputs <? n)) eqn:E1; [|done]. injection H2 as _ ->.
    apply (load_elements_ok _ Bulletproof_ok) in H3 as (? & ? & ? & ?); [|done].
    destruct (negb (n_bulletproof_max_amounts l <? Z.of_nat outputs)) eqn:E2; [|done].
    injection H4 as _ ->. split; [|split; [done|lia]].
    unfold bulletproofs_ok, in_range, zlen in *. split; [done|]. lia.
Qed.

#[export] Instance rctsig_base_body_ok type inputs outputs :
  CodecOk (rctsig_base_body type inputs outputs) (rctsig_base_ok type inputs outputs).
Proof.
  unfold rctsig_base_body, rctsig_base_ok. destruct (type =? RCTTypeNull); [apply _|].
  destruct (rct_type_known type); simpl negb; cbv iota.
  2: { eapply codec_ok_iff; [|apply fail_codec_ok]. intuition done. }
  eapply codec_ok_iff; [|apply _]. intros (fee & po & ecdh & opk). simpl.
  unfold fixed_ok. tauto.
Qed.

#[export] Instance rctSigPrunable_codec_ok type inputs outputs mixin :
  CodecOk (rctSigPrunable_codec type inputs outputs mixin) (rctsig_prunable_ok type inputs outputs mixin).
Proof.
  unfold rctSigPrunable_codec, rctsig_prunable_body, rctsig_prunable_ok.
  destruct (type =? RCTTypeNull).
  { eapply iso_codec_ok; [apply _|by intros [] [= -> -> -> ->]|by intros [? []] [= <- <- <-]]. }
  destruct (rct_type_known type); simpl negb; cbv iota.
  2: { eapply iso_codec_ok; [apply _|by intros [] []|by intros ? ?]. }
  eapply iso_codec_ok; [apply _|..].
  - intros [] (_ & ? & ? & ? & ?). simpl in *. unfold fixed_ok in *. tauto.
  - intros (bps & rs & mgs & po) H. simpl in *. unfold fixed_ok in *. tauto.
Qed.

#[export] Instance rctSigBase_codec_ok inputs outputs :
  CodecOk (rctSigBase_codec inputs outputs)
    (fun b => is_u8 b.1 /\ rctsig_base_ok b.1 inputs outputs b.2).
Proof.
  apply (bind_codec_ok (uint_codec 8) is_u8 _ (fun type => rctsig_base_ok type inputs outputs)). apply _.
Qed.

#[export] Instance rctSig_codec_ok inputs outputs mixin :
  CodecOk (rctSig_codec inputs outputs mixin) (rctSig_ok inputs outputs mixin).
Proof.
  eapply (iso_codec_ok _ _ (CodecOk0 := bind_codec_ok (rctSigBase_codec inputs outputs) _
    (fun base => rctSigPrunable_codec base.1 inputs outputs mixin)
    (fun base => rctsig_prunable_ok base.1 inputs outputs mixin) _)).
  - intros [] (? & ? & ?). simpl in *. done.
  - intros [(ty & fee & po & ecdh & opk) p] H. simpl in *. unfold rctSig_ok. simpl. tauto.
Qed.
