(* ===== verification/CryptonoteBasic.v ===== *)
(** * Transactions and blocks

    Model of src/cryptonote_basic/cryptonote_basic.h: the variants of inputs
    and output targets, [tx_out], [transaction_prefix], [transaction],
    [block_header] and [block], with the serialization each class declares.
    The caches ([hash_valid]/[hash], [blob_size_valid]/[blob_size]) are options:
    [None] is an invalid cache.  A load leaves every cache invalid. *)
From Stdlib Require Import ZArith Lia Bool.
From stdpp Require Import prelude.
From S2P Require Import Prelude Varint Archive Rct.
Local Open Scope Z_scope.
Local Open Scope archive_scope.

Definition CURRENT_TRANSACTION_VERSION : Z := 2.

Abbreviation hash_codec := (blob_codec 32).
Abbreviation hash_ok := (pod_ok 32).

(** [std::vector<uint8_t>]: a container of one-byte integers. *)
Definition bytes_codec : codec blob := container_codec (uint_codec 8).

(** ** Outputs *)
Record txout_to_script := Txout_to_script { keys : list blob; script : blob }.

Inductive txout_target_v :=
  | target_script (s : txout_to_script)
  | target_scripthash (hash : blob)
  | target_key (key : blob).

Record tx_out := Tx_out { out_amount : Z; target : txout_target_v }.

(** ** Inputs *)
Inductive txin_v :=
  | txin_gen (height : Z)
  | txin_to_script (prev : blob) (prevout : Z) (sigset : blob)
  | txin_to_scripthash (prev : blob) (prevout : Z) (script : txout_to_script) (sigset : blob)
  | txin_to_key (in_amount : Z) (key_offsets : list Z) (k_image : blob).

(** ** Transactions *)
Record transaction_prefix := Prefix {
  version : Z; unlock_time : Z; vin : list txin_v; vout : list tx_out; extra : blob }.

Record transaction := Transaction {
  tx_prefix : transaction_prefix;
  signatures : list (list blob);
  rct_signatures : rctSig;
  tx_hash : option blob;
  tx_blob_size : option Z }.

(** ** Accounts *)
Record account_public_address := Address { m_spend_public_key : blob; m_view_public_key : blob }.

Definition rct_null : rctSig := RctSig RCTTypeNull 0 [] [] [] (RctSigPrunable [] [] [] []).

Definition set_null : transaction := Transaction (Prefix 1 0 [] [] []) [] rct_null None None.

Definition tx_invalidate_hashes (tx : transaction) : transaction :=
  Transaction (tx_prefix tx) (signatures tx) (rct_signatures tx) None None.

Definition get_signature_size (tx_in : txin_v) : Z :=
  match tx_in with
  | txin_to_key _ key_offsets _ => zlen key_offsets
  | _ => 0
  end.

(** ** Blocks *)
Record block_header := Header {
  major_version : Z; minor_version : Z; timestamp : Z; prev_id : blob; nonce : Z }.

Record block := Block {
  hdr : block_header; miner_tx : transaction; tx_hashes : list blob; b_hash : option blob }.

Definition block_invalidate_hashes (b : block) : block :=
  Block (hdr b) (miner_tx b) (tx_hashes b) None.

(** ** Serialization *)
Definition txout_to_script_codec : codec txout_to_script :=
  iso_codec (fun x => Txout_to_script x.1 x.2) (fun s => (keys s, script s))
    (pair_codec (container_codec (blob_codec 32)) bytes_codec).

Definition target_tag (t : txout_target_v) : Z :=
  match t with target_script _ => 0 | target_scripthash _ => 1 | target_key _ => 2 end.

Definition target_read (t : Z) : codec txout_target_v :=
  if t =? 0 then
    iso_codec target_script (fun v => match v with target_script s => s | _ => Txout_to_script [] [] end)
      txout_to_script_codec
  else if t =? 1 then
    iso_codec target_scripthash (fun v => match v with target_scripthash h => h | _ => [] end) hash_codec
  else if t =? 2 then
    iso_codec target_key (fun v => match v with target_key k => k | _ => [] end) (blob_codec 32)
  else fail_codec.

Definition txout_target_v_codec : codec txout_target_v :=
  iso_codec snd (fun v => (target_tag v, v)) (bind_codec (uint_codec 8) target_read).

Definition tx_out_codec : codec tx_out :=
  iso_codec (fun x => Tx_out x.1 x.2) (fun o => (out_amount o, target o))
    (pair_codec (varint_codec 64) txout_target_v_codec).

Definition txin_tag (i : txin_v) : Z :=
  match i with
  | txin_gen _ => 255 | txin_to_script _ _ _ => 0 | txin_to_scripthash _ _ _ _ => 1
  | txin_to_key _ _ _ => 2
  end.

Definition txin_read (t : Z) : codec txin_v :=
  if t =? 255 then
    iso_codec txin_gen (fun v => match v with txin_gen h => h | _ => 0 end) (varint_codec 64)
  else if t =? 0 then
    iso_codec (fun x => txin_to_script x.1 x.2.1 x.2.2)
      (fun v => match v with txin_to_script p n s => (p, (n, s)) | _ => ([], (0, [])) end)
      (pair_codec hash_codec (pair_codec (varint_codec 64) bytes_codec))
  else if t =? 1 then
    iso_codec (fun x => txin_to_scripthash x.1 x.2.1 x.2.2.1 x.2.2.2)
      (fun v => match v with
                | txin_to_scripthash p n sc s => (p, (n, (sc, s)))
                | _ => ([], (0, (Txout_to_script [] [], [])))
                end)
      (pair_codec hash_codec (pair_codec (varint_codec 64) (pair_codec txout_to_script_codec bytes_codec)))
  else if t =? 2 then
    iso_codec (fun x => txin_to_key x.1 x.2.1 x.2.2)
      (fun v => match v with txin_to_key a o k => (a, (o, k)) | _ => (0, ([], [])) end)
      (pair_codec (varint_codec 64) (pair_codec (container_codec (varint_codec 64)) (blob_codec 32)))
  else fail_codec.

Definition txin_v_codec : codec txin_v :=
  iso_codec snd (fun v => (txin_tag v, v)) (bind_codec (uint_codec 8) txin_read).

Definition version_supported (v : Z) : bool :=
  negb ((v =? 0) || (CURRENT_TRANSACTION_VERSION <? v)).

Definition transaction_prefix_codec : codec transaction_prefix :=
  iso_codec (fun x => Prefix x.1 x.2.1 x.2.2.1 x.2.2.2.1 x.2.2.2.2)
    (fun p => (version p, (unlock_time p, (vin p, (vout p, extra p)))))
    (pair_codec (guard_codec version_supported (varint_codec 64))
    (pair_codec (varint_codec 64)
    (pair_codec (container_codec txin_v_codec)
    (pair_codec (container_codec tx_out_codec) bytes_codec)))).

(** The ring signatures of a version 1 transaction: no counts are stored, each
    input says how many signatures it has.  A store also accepts an empty
    vector when no input needs a signature. *)
Fixpoint signatures_load (vin : list txin_v) : reader (list (list blob)) :=
  match vin with
  | [] => rret []
  | i :: vin =>
      s <-- load_elements (blob_codec 64) (Z.to_nat (get_signature_size i)) ;;
      l <-- signatures_load vin ;;
      rret (s :: l)
  end.

Fixpoint signatures_store_loop (vin : list txin_v) (sigs : list (list blob)) : writer :=
  match vin, sigs with
  | i :: vin, s :: sigs =>
      wguard (get_signature_size i =? zlen s) >>> store_elements (blob_codec 64) s >>>
      signatures_store_loop vin sigs
  | _, _ => wput []
  end.

Definition signatures_store (vin : list txin_v) (sigs : list (list blob)) : writer :=
  match sigs with
  | [] => wguard (forallb (fun i => get_signature_size i =? 0) vin)
  | _ => wguard (zlen vin =? zlen sigs) >>> signatures_store_loop vin sigs
  end.

Definition signatures_codec (vin : list txin_v) : codec (list (list blob)) :=
  Codec (signatures_store vin) (signatures_load vin).

(** The mixin of the first input, as a [size_t]. *)
Definition rct_mixin (vin : list txin_v) : Z :=
  match vin with
  | txin_to_key _ key_offsets _ :: _ => u64 (zlen key_offsets - 1)
  | _ => 0
  end.

Definition transaction_body (p : transaction_prefix) : codec (list (list blob) * rctSig) :=
  if version p =? 1 then pair_codec (signatures_codec (vin p)) (const_codec rct_null)
  else pair_codec (const_codec [])
    (if zlen (vin p) =? 0 then const_codec rct_null
     else rctSig_codec (length (vin p)) (length (vout p)) (rct_mixin (vin p))).

Definition transaction_codec : codec transaction :=
  iso_codec (fun x => Transaction x.1 x.2.1 x.2.2 None None)
    (fun tx => (tx_prefix tx, (signatures tx, rct_signatures tx)))
    (bind_codec transaction_prefix_codec transaction_body).

Definition block_header_codec : codec block_header :=
  iso_codec (fun x => Header x.1 x.2.1 x.2.2.1 x.2.2.2.1 x.2.2.2.2)
    (fun h => (major_version h, (minor_version h, (timestamp h, (prev_id h, nonce h)))))
    (pair_codec (varint_codec 8) (pair_codec (varint_codec 8) (pair_codec (varint_codec 64)
    (pair_codec hash_codec (uint_codec 32))))).

Definition block_codec : codec block :=
  iso_codec (fun x => Block x.1 x.2.1 x.2.2 None) (fun b => (hdr b, (miner_tx b, tx_hashes b)))
    (pair_codec block_header_codec (pair_codec transaction_codec (container_codec hash_codec))).

(** ** Well-formed values *)
Definition script_ok (s : txout_to_script) : Prop :=
  container_ok (pod_ok 32) (keys s) /\ container_ok is_u8 (script s).

Definition target_ok (t : txout_target_v) : Prop :=
  match t with
  | target_script s => script_ok s
  | target_scripthash h => hash_ok h
  | target_key k => pod_ok 32 k
  end.

Definition tx_out_ok (o : tx_out) : Prop := is_u64 (out_amount o) /\ target_ok (target o).

Definition txin_ok (i : txin_v) : Prop :=
  match i with
  | txin_gen h => is_u64 h
  | txin_to_script p n s => hash_ok p /\ is_u64 n /\ container_ok is_u8 s
  | txin_to_scripthash p n sc s => hash_ok p /\ is_u64 n /\ script_ok sc /\ container_ok is_u8 s
  | txin_to_key a o k => is_u64 a /\ container_ok is_u64 o /\ pod_ok 32 k
  end.

Definition prefix_ok (p : transaction_prefix) : Prop :=
  (is_u64 (version p) /\ version_supported (version p) = true) /\ is_u64 (unlock_time p) /\
  container_ok txin_ok (vin p) /\ container_ok tx_out_ok (vout p) /\ container_ok is_u8 (extra p).

Definition signatures_ok (vin : list txin_v) (sigs : list (list blob)) : Prop :=
  Forall2 (fun i s => zlen s = get_signature_size i /\ Forall (pod_ok 64) s) vin sigs.

Definition body_ok (p : transaction_prefix) (b : list (list blob) * rctSig) : Prop :=
  if version p =? 1 then signatures_ok (vin p) b.1 /\ rct_null = b.2
  else [] = b.1 /\ if zlen (vin p) =? 0 then rct_null = b.2
                   else rctSig_ok (length (vin p)) (length (vout p)) (rct_mixin (vin p)) b.2.

(** A transaction as a parse leaves it: caches invalid. *)
Definition tx_ok (tx : transaction) : Prop :=
  prefix_ok (tx_prefix tx) /\ body_ok (tx_prefix tx) (signatures tx, rct_signatures tx) /\
  tx_hash tx = None /\ tx_blob_size tx = None.

Definition header_ok (h : block_header) : Prop :=
  is_u8 (major_version h) /\ is_u8 (minor_version h) /\ is_u64 (timestamp h) /\
  hash_ok (prev_id h) /\ is_u32 (nonce h).

Definition block_ok (b : block) : Prop :=
  header_ok (hdr b) /\ tx_ok (miner_tx b) /\ container_ok hash_ok (tx_hashes b) /\ b_hash b = None.

(** ** The codecs keep the contract *)
#[export] Instance bytes_codec_ok : CodecOk bytes_codec (container_ok is_u8).
Proof. apply _. Qed.
#[export] Instance bytes_codec_nonempty : CodecNonempty bytes_codec (container_ok is_u8).
Proof. apply _. Qed.

#[export] Instance txout_to_script_codec_ok : CodecOk txout_to_script_codec script_ok.
Proof. eapply iso_codec_ok; [apply _|by intros [] []|by intros [] []]. Qed.

Definition target_tag_ok (t : Z) (v : txout_target_v) : Prop := target_tag v = t /\ target_ok v.

#[export] Instance target_read_ok t : CodecOk (target_read t) (target_tag_ok t).
Proof.
  unfold target_read, target_tag_ok.
  repeat (let E := fresh "E" in case_match eqn:E;
    [apply Z.eqb_eq in E as ->; eapply iso_codec_ok; [apply _|by intros [] [? ?]|by intros ? ?]|]).
  eapply codec_ok_iff; [|apply fail_codec_ok]. intros []; simpl; split; try done; lia.
Qed.

#[export] Instance txout_target_v_codec_ok : CodecOk txout_target_v_codec target_ok.
Proof.
  eapply (iso_codec_ok _ _ (CodecOk0 := bind_codec_ok (uint_codec 8) _ target_read target_tag_ok _)).
  - intros v Hv. simpl. split; [done|]. split; [by destruct v|done].
  - intros [t v] [_ [_ Hv]]. done.
Qed.

#[export] Instance tx_out_codec_ok : CodecOk tx_out_codec tx_out_ok.
Proof. eapply iso_codec_ok; [apply _|by intros [] []|by intros [] []]. Qed.
#[export] Instance tx_out_codec_nonempty : CodecNonempty tx_out_codec tx_out_ok.
Proof.
  eapply (iso_codec_nonempty _ (fun x => is_u64 x.1 /\ target_ok x.2)). by intros [] [].
Qed.

Definition txin_tag_ok (t : Z) (v : txin_v) : Prop := txin_tag v = t /\ txin_ok v.

#[export] Instance txin_read_ok t : CodecOk (txin_read t) (txin_tag_ok t).
Proof.
  unfold txin_read, txin_tag_ok.
  repeat (let E := fresh "E" in case_match eqn:E;
    [apply Z.eqb_eq in E as ->; eapply iso_codec_ok; [apply _|by intros [] [? ?]|by intros ? ?]|]).
  eapply codec_ok_iff; [|apply fail_codec_ok]. intros []; simpl; split; try done; lia.
Qed.

Lemma txin_variant_ok : CodecOk (bind_codec (uint_codec 8) txin_read)
  (fun x => is_u8 x.1 /\ txin_tag_ok x.1 x.2).
Proof. apply (bind_codec_ok _ _ _ txin_tag_ok). apply _. Qed.

Lemma txin_variant v : txin_ok v -> is_u8 (txin_tag v) /\ txin_tag_ok (txin_tag v) v.
Proof. intros Hv. split; [by destruct v|done]. Qed.

#[export] Instance txin_v_codec_ok : CodecOk txin_v_codec txin_ok.
Proof.
  eapply (iso_codec_ok _ _ (CodecOk0 := txin_variant_ok)).
  - intros v Hv%txin_variant. done.
  - intros [t v] [_ [_ Hv]]. done.
Qed.
#[export] Instance txin_v_codec_nonempty : CodecNonempty txin_v_codec txin_ok.
Proof.
  eapply (iso_codec_nonempty _ (fun x => is_u8 x.1 /\ txin_tag_ok x.1 x.2)).
  intros v Hv. by apply txin_variant.
Qed.

#[export] Instance transaction_prefix_codec_ok : CodecOk transaction_prefix_codec prefix_ok.
Proof.
  eapply iso_codec_ok; [apply _|by intros [] (? & ? & ? & ? & ?)|].
  by intros (? & ? & ? & ? & ?) (? & ? & ? & ? & ?).
Qed.

Lemma signatures_store_loop_eq l sigs : signatures_ok l sigs ->
  signatures_store_loop l sigs =
    (concat (map (fun s => (store_elements (blob_codec 64) s).1) sigs), true).
Proof.
  induction 1 as [|i s l sigs [Hn Hs] HF IH]; [done|]. cbn [signatures_store_loop].
  rewrite IH, (proj2 (Z.eqb_eq _ _)) by done. rewrite ?wseq_true by done.
  by rewrite wseq_true by (by apply (store_elements_true _ (pod_ok 64))).
Qed.

Lemma signatures_store_eq l sigs : signatures_ok l sigs ->
  signatures_store l sigs = (concat (map (fun s => (store_elements (blob_codec 64) s).1) sigs), true).
Proof.
  intros H. pose proof (signatures_store_loop_eq _ _ H) as E. unfold signatures_store.
  pose proof (Forall2_length _ _ _ H) as Hlen. destruct sigs as [|s sigs].
  { by apply Forall2_nil_inv_r in H as ->. }
  rewrite E, (proj2 (Z.eqb_eq _ _)) by (unfold zlen; lia). by rewrite ?wseq_true by done.
Qed.

#[export] Instance signatures_codec_ok l : CodecOk (signatures_codec l) (signatures_ok l).
Proof.
  split; cbn [signatures_codec c_store c_load].
  - intros s Hs. by rewrite signatures_store_eq.
  - intros s Hs. rewrite signatures_store_eq by done. simpl.
    induction Hs as [|i s' l' sigs' [Hn Hs'] HF IH]; [constructor|]. simpl. apply bytes_ok_app.
    split; [by apply (store_elements_bytes _ (pod_ok 64))|done].
  - intros s rest Hs. rewrite signatures_store_eq by done. simpl.
    induction Hs as [|i s' l' sigs' [Hn Hs'] HF IH]; [done|]. simpl. rewrite <- app_assoc.
    erewrite rbind_eq.
    2: { rewrite <- Hn. unfold zlen. rewrite Nat2Z.id. by apply (load_store_elements _ (pod_ok 64)). }
    by erewrite rbind_eq by apply IH.
  - induction l as [|i l IH]; intros s a rest Hs; simpl.
    { intros [= <- <-]. split; [constructor|done]. }
    intros (e & s1 & H1 & (k & s2 & H2 & [= <- <-])%rbind_some)%rbind_some.
    apply (load_elements_ok _ (pod_ok 64)) in H1 as (? & He & ? & ?); [|done].
    apply IH in H2 as (? & ? & ?); [|done]. split; [|split; [done|lia]].
    constructor; [|done]. split; [|done]. unfold zlen. rewrite He.
    apply Z2Nat.id. destruct i; simpl; try done. apply zlen_nonneg.
Qed.

#[export] Instance transaction_body_ok p : CodecOk (transaction_body p) (body_ok p).
Proof.
  unfold transaction_body. eapply codec_ok_iff; [|apply _]. intros [s r]. unfold body_ok. simpl.
  done.
Qed.

Lemma transaction_fields_ok : CodecOk (bind_codec transaction_prefix_codec transaction_body)
  (fun x => prefix_ok x.1 /\ body_ok x.1 x.2).
Proof. apply (bind_codec_ok _ _ _ body_ok). apply _. Qed.

#[export] Instance transaction_codec_ok : CodecOk transaction_codec tx_ok.
Proof.
  eapply (iso_codec_ok _ _ (CodecOk0 := transaction_fields_ok)).
  - intros [] (? & ? & ? & ?). simpl in *. by subst.
  - intros [p [s r]] [? ?]. done.
Qed.

#[export] Instance block_header_codec_ok : CodecOk block_header_codec header_ok.
Proof.
  eapply iso_codec_ok; [apply _|by intros [] (? & ? & ? & ? & ?)|].
  by intros (? & ? & ? & ? & ?) (? & ? & ? & ? & ?).
Qed.

#[export] Instance block_codec_ok : CodecOk block_codec block_ok.
Proof.
  eapply iso_codec_ok; [apply _| |].
  - intros [] (? & ? & ? & ?). simpl in *. by subst.
  - by intros (? & ? & ?) (? & ? & ?).
Qed.

(** ** Properties *)

(** C33: parsing normalises.  Whatever bytes a block was parsed from, the block
    is well formed, serializing it succeeds, and the bytes so produced parse
    back to the same block: code that serializes and parses again a block it
    received never fails and never changes it. *)
Theorem block_reparse s b : bytes_ok s -> parse_binary block_codec s = Some b ->
  block_ok b /\ (c_store block_codec b).2 = true /\
  parse_binary block_codec (t_serializable_object_to_blob block_codec b) = Some b.
Proof.
  intros Hs Hb. apply (parse_binary_ok block_codec _) in Hb; [|done]. split; [done|].
  split; [by apply (codec_store_true (c := block_codec))|]. by apply (parse_binary_to_blob block_codec _).
Qed.

(** A version 2 block with only its miner transaction. *)
Definition example_miner_tx : transaction :=
  Transaction (Prefix 2 70 [txin_gen 10] [Tx_out 1000 (target_key (replicate 32 9))] [2; 1; 7])
    [] rct_null None None.
Definition example_block : block :=
  Block (Header 13 13 1700000000 (replicate 32 1) 5) example_miner_tx [] None.

Lemma block_reparse_witness :
  block_ok example_block /\ (c_store block_codec example_block).2 = true /\
  parse_binary block_codec (t_serializable_object_to_blob block_codec example_block) = Some example_block.
Proof.
  apply (block_reparse (t_serializable_object_to_blob block_codec example_block));
    [by_decide|vm_compute; reflexivity].
Defined.

(** the same for transactions, both versions. *)
Theorem transaction_reparse s tx : bytes_ok s -> parse_binary transaction_codec s = Some tx ->
  tx_ok tx /\ (c_store transaction_codec tx).2 = true /\
  parse_binary transaction_codec (t_serializable_object_to_blob transaction_codec tx) = Some tx.
Proof.
  intros Hs Hb. apply (parse_binary_ok transaction_codec _) in Hb; [|done]. split; [done|].
  split; [by apply (codec_store_true (c := transaction_codec))|].
  by apply (parse_binary_to_blob transaction_codec _).
Qed.

Lemma transaction_reparse_witness :
  tx_ok example_miner_tx /\ (c_store transaction_codec example_miner_tx).2 = true /\
  parse_binary transaction_codec (t_serializable_object_to_blob transaction_codec example_miner_tx)
    = Some example_miner_tx.
Proof.
  apply (transaction_reparse (t_serializable_object_to_blob transaction_codec example_miner_tx));
    [by_decide|vm_compute; reflexivity].
Defined.

Lemma block_store_fields b : block_ok b ->
  (c_store block_codec b).1 =
    (c_store block_header_codec (hdr b)).1 ++ (c_store transaction_codec (miner_tx b)).1 ++
    (c_store (container_codec hash_codec) (tx_hashes b)).1.
Proof.
  intros (Hh & Ht & Hx & _). unfold block_codec, iso_codec, pair_codec, bind_codec.
  cbn [c_store fst snd].
  rewrite wseq_true by (by apply (codec_store_true (c := block_header_codec))). cbn [fst snd].
  rewrite wseq_true by (by apply (codec_store_true (c := transaction_codec))). done.
Qed.

(** block encodings are not unique.  [read_varint] reports success at the
    end of its input, so the blob of a block without transactions still parses,
    to the same block, when its last byte (the transaction count) is cut off. *)
Theorem block_blob_truncated s b : bytes_ok s -> parse_binary block_codec s = Some b ->
  tx_hashes b = [] ->
  let blob := t_serializable_object_to_blob block_codec b in
  parse_binary block_codec (take (length blob - 1) blob) = Some b.
Proof.
  intros Hs Hb Hx. apply (parse_binary_ok block_codec _) in Hb; [|done].
  unfold t_serializable_object_to_blob. cbv zeta. rewrite block_store_fields, Hx by done.
  change ((c_store (container_codec hash_codec) []).1) with [0]. rewrite app_assoc.
  rewrite length_app, Nat.add_sub, take_app_length.
  destruct b as [h tx hs c], Hb as (Hh & Ht & _ & Hc). simpl in Hx, Hh, Ht, Hc. subst.
  unfold parse_binary, block_codec, iso_codec, pair_codec, bind_codec. cbn [c_load hdr miner_tx].
  unfold rbind. rewrite (codec_roundtrip (c := block_header_codec)) by done.
  rewrite <- (app_nil_r (c_store transaction_codec tx).1).
  by rewrite (codec_roundtrip (c := transaction_codec)) by done.
Qed.

Lemma block_blob_truncated_witness :
  let blob := t_serializable_object_to_blob block_codec example_block in
  parse_binary block_codec (take (length blob - 1) blob) = Some example_block.
Proof.
  apply (block_blob_truncated (t_serializable_object_to_blob block_codec example_block) example_block);
    [by_decide|vm_compute; reflexivity|reflexivity].
Defined.
