(* ===== verification/Keccak.v ===== *)
(** * Keccak

    Model of src/crypto/keccak.c and of [cn_fast_hash] of src/crypto/hash.c on a
    little-endian host: the permutation [keccakf] on 25 words, the one-shot
    [keccak]/[keccak1600] and the streaming [keccak_init]/[keccak_update]/
    [keccak_finish].  [local_abort] is [None]. *)
From Stdlib Require Import ZArith Lia Bool.
From stdpp Require Import prelude.
From S2P Require Import Prelude.
Local Open Scope Z_scope.

Definition KECCAK_ROUNDS : nat := 24.
Definition HASH_SIZE : nat := 32.
Definition HASH_DATA_AREA : nat := 136.
Definition KECCAK_BLOCKLEN : nat := 136.
Definition KECCAK_WORDS : nat := 17.
Definition KECCAK_DIGESTSIZE : nat := 32.
Definition KECCAK_FINALIZED : Z := 2147483648.

Definition keccakf_rndc : list Z :=
  [0x0000000000000001; 0x0000000000008082; 0x800000000000808a;
   0x8000000080008000; 0x000000000000808b; 0x0000000080000001;
   0x8000000080008081; 0x8000000000008009; 0x000000000000008a;
   0x0000000000000088; 0x0000000080008009; 0x000000008000000a;
   0x000000008000808b; 0x800000000000008b; 0x8000000000008089;
   0x8000000000008003; 0x8000000000008002; 0x8000000000000080;
   0x000000000000800a; 0x800000008000000a; 0x8000000080008081;
   0x8000000000008080; 0x0000000080000001; 0x8000000080008008].

Definition keccakf_rotc : list Z :=
  [1; 3; 6; 10; 15; 21; 28; 36; 45; 55; 2; 14; 27; 41; 56; 8; 25; 43; 62; 18; 39; 61; 20; 44].

Definition keccakf_piln : list nat :=
  [10; 7; 11; 17; 18; 3; 5; 16; 8; 21; 24; 4; 15; 23; 19; 13; 12; 2; 20; 14; 22; 9; 6; 1]%nat.

Definition ROTL64 (x y : Z) : Z := Z.lor (u64 (Z.shiftl x y)) (Z.shiftr x (64 - y)).

(** ** The permutation, on a list of 25 words *)
Definition theta_bc (st : list Z) : list Z :=
  map (fun i => Z.lxor (Z.lxor (Z.lxor (Z.lxor (st !!! i) (st !!! (i + 5))) (st !!! (i + 10)))
                               (st !!! (i + 15))) (st !!! (i + 20)))%nat (seq 0 5).

Definition theta (st : list Z) : list Z :=
  let bc := theta_bc st in
  foldl (fun st i =>
    let t := Z.lxor (bc !!! ((i + 4) mod 5)%nat) (ROTL64 (bc !!! ((i + 1) mod 5)%nat) 1) in
    foldl (fun st j => <[(j + i)%nat := Z.lxor (st !!! (j + i)%nat) t]> st) st [0; 5; 10; 15; 20]%nat)
    st (seq 0 5).

Definition rho_pi (st : list Z) : list Z :=
  (foldl (fun '(st, t) '(j, r) => (<[j := ROTL64 t r]> st, st !!! j))
     (st, st !!! 1%nat) (zip keccakf_piln keccakf_rotc)).1.

Definition chi_row (st : list Z) (j : nat) : list Z :=
  let bc := map (fun i => st !!! (j + i)%nat) (seq 0 5) in
  foldl (fun st i =>
    <[(j + i)%nat := Z.lxor (st !!! (j + i)%nat)
        (Z.land (u64 (Z.lnot (bc !!! ((i + 1) mod 5)%nat))) (bc !!! ((i + 2) mod 5)%nat))]> st)
    st (seq 0 5).

Definition chi (st : list Z) : list Z := foldl chi_row st [0; 5; 10; 15; 20]%nat.

Definition iota (rndc : Z) (st : list Z) : list Z := <[0%nat := Z.lxor (st !!! 0%nat) rndc]> st.

Definition keccakf (st : list Z) (rounds : nat) : list Z :=
  foldl (fun st round => iota (keccakf_rndc !!! round) (chi (rho_pi (theta st)))) st (seq 0 rounds).

(** ** Words and bytes *)
Fixpoint le_word (b : blob) : Z :=
  match b with
  | [] => 0
  | x :: b => x + 256 * le_word b
  end.

Fixpoint load_words (n : nat) (b : blob) : list Z :=
  match n with
  | O => []
  | S n => le_word (take 8 b) :: load_words n (drop 8 b)
  end.

Fixpoint le_bytes (n : nat) (w : Z) : blob :=
  match n with
  | O => []
  | S n => Z.land w 255 :: le_bytes n (Z.shiftr w 8)
  end.

Definition store_words (ws : list Z) : blob := concat (map (le_bytes 8) ws).

(** [st[i] ^= block[i]] for the words of the block. *)
Fixpoint xor_words (st ws : list Z) : list Z :=
  match st, ws with
  | s :: st, w :: ws => Z.lxor s w :: xor_words st ws
  | _, _ => st
  end.

Definition process_block (rsizw : nat) (st : list Z) (block : blob) : list Z :=
  keccakf (xor_words st (load_words rsizw block)) KECCAK_ROUNDS.

(** The loop over whole blocks; what is left is shorter than a block. *)
Fixpoint absorb (fuel rsiz : nat) (st : list Z) (b : blob) : list Z * blob :=
  match fuel with
  | O => (st, b)
  | S fuel =>
      if (rsiz <=? length b)%nat
      then absorb fuel rsiz (process_block (rsiz / 8) st (take rsiz b)) (drop rsiz b)
      else (st, b)
  end.

(** The last block: the rest of the message, 1, zeros, and the top bit. *)
Definition pad_block (rsiz : nat) (rest : blob) : blob :=
  let temp := rest ++ 1 :: replicate (rsiz - length rest - 1) 0 in
  <[(rsiz - 1)%nat := Z.lor (temp !!! (rsiz - 1)%nat) 128]> temp.

Definition zero_state : list Z := replicate 25 0.

(** ** One shot *)
Definition keccak (data : blob) (mdlen : Z) : option blob :=
  if (mdlen <=? 0) || ((100 <? mdlen) && negb (200 =? mdlen)) then None
  else
    let rsiz := if 200 =? mdlen then HASH_DATA_AREA else Z.to_nat (200 - 2 * mdlen) in
    let rsizw := (rsiz / 8)%nat in
    if (rsiz =? 0)%nat then None   (* the loop over blocks does not end *)
    else
    let '(st, rest) := absorb (length data) rsiz zero_state data in
    let inlen := length rest in
    if ((144 <=? inlen + 1) || (rsiz <? inlen) || (144 <=? rsiz - inlen + inlen + 1)
        || (144 <=? rsiz - 1) || (144 <? rsizw * 8))%nat then None
    else
      let st := keccakf (xor_words st (load_words rsizw (pad_block rsiz rest))) KECCAK_ROUNDS in
      if negb (mdlen mod 8 =? 0) then None
      else Some (store_words (take (Z.to_nat (mdlen / 8)) st)).

Definition keccak1600 (data : blob) : option blob := keccak data 200.

(** src/crypto/hash.c: the first 32 bytes of the state. *)
Definition cn_fast_hash (data : blob) : blob :=
  match keccak1600 data with
  | Some state => take HASH_SIZE state
  | None => []
  end.

(** ** Streaming *)
Record KECCAK_CTX := Keccak_ctx { ctx_hash : list Z; ctx_message : blob; ctx_rest : Z }.

Definition keccak_init : KECCAK_CTX := Keccak_ctx zero_state (replicate KECCAK_BLOCKLEN 0) 0.

Definition is_finalized (ctx : KECCAK_CTX) : bool :=
  negb (Z.land (ctx_rest ctx) KECCAK_FINALIZED =? 0).

(** [memcpy(buf + at, src, n)] *)
Definition memcpy (buf : blob) (idx : nat) (src : blob) : blob :=
  take idx buf ++ src ++ drop (idx + length src) buf.

(** The loop of [keccak_update]: an unaligned block goes through the buffer. *)
Fixpoint update_loop (fuel : nat) (is_aligned : bool) (h : list Z) (message : blob) (b : blob)
  : list Z * blob * blob :=
  match fuel with
  | O => (h, message, b)
  | S fuel =>
      if (KECCAK_BLOCKLEN <=? length b)%nat
      then
        let block := take KECCAK_BLOCKLEN b in
        let message := if is_aligned then message else memcpy message 0 block in
        update_loop fuel is_aligned (process_block KECCAK_WORDS h (if is_aligned then block else message))
          message (drop KECCAK_BLOCKLEN b)
      else (h, message, b)
  end.

Definition keccak_update (is_aligned : bool) (ctx : KECCAK_CTX) (data : blob) : option KECCAK_CTX :=
  if is_finalized ctx then None
  else
    let idx := Z.to_nat (ctx_rest ctx) in
    let rest := u64 (ctx_rest ctx + zlen data) mod Z.of_nat KECCAK_BLOCKLEN in
    let left := (KECCAK_BLOCKLEN - idx)%nat in
    if negb (idx =? 0)%nat && (length data <? left)%nat
    then Some (Keccak_ctx (ctx_hash ctx) (memcpy (ctx_message ctx) idx data) rest)
    else
      let '(h, message, data) :=
        if negb (idx =? 0)%nat
        then let message := memcpy (ctx_message ctx) idx (take left data) in
             (process_block KECCAK_WORDS (ctx_hash ctx) message, message, drop left data)
        else (ctx_hash ctx, ctx_message ctx, data) in
      let '(h, message, data) := update_loop (length data) is_aligned h message data in
      Some (Keccak_ctx h (memcpy message 0 data) rest).

(** The padding of [keccak_finish]. *)
Definition finish_block (message : blob) (rest : nat) : blob :=
  let m := memcpy message rest (replicate (KECCAK_BLOCKLEN - rest) 0) in
  let m := <[rest := Z.lor (m !!! rest) 1]> m in
  <[(KECCAK_BLOCKLEN - 1)%nat := Z.lor (m !!! (KECCAK_BLOCKLEN - 1)%nat) 128]> m.

Definition keccak_finish (ctx : KECCAK_CTX) : KECCAK_CTX * blob :=
  let ctx := if is_finalized ctx then ctx
    else let m := finish_block (ctx_message ctx) (Z.to_nat (ctx_rest ctx)) in
         Keccak_ctx (process_block KECCAK_WORDS (ctx_hash ctx) m) m KECCAK_FINALIZED in
  (ctx, take KECCAK_DIGESTSIZE (store_words (ctx_hash ctx))).

(** Test vector: the Keccak-256 digest of the empty string. *)
Example keccak_empty : cn_fast_hash [] =
  [0xc5; 0xd2; 0x46; 0x01; 0x86; 0xf7; 0x23; 0x3c; 0x92; 0x7e; 0x7d; 0xb2; 0xdc; 0xc7; 0x03; 0xc0;
   0xe5; 0x00; 0xb6; 0x53; 0xca; 0x82; 0x27; 0x3b; 0x7b; 0xfa; 0xd8; 0x04; 0x5d; 0x85; 0xa4; 0x70].
Proof. vm_compute. reflexivity. Qed.

(** ** The permutation keeps the shape of the state *)
Lemma foldl_length {A B} (f : list A -> B -> list A) l st :
  (forall st x, length (f st x) = length st) -> length (foldl f st l) = length st.
Proof. intros Hf. revert st. induction l as [|x l IH]; intros st; simpl; [done|]. by rewrite IH. Qed.

Lemma rho_pi_length st : length (rho_pi st) = length st.
Proof.
  unfold rho_pi. generalize (st !!! 1%nat). revert st.
  induction (zip keccakf_piln keccakf_rotc) as [|[j r] l IH]; intros st t; simpl; [done|].
  rewrite IH. apply length_insert.
Qed.

Lemma keccakf_length st n : length (keccakf st n) = length st.
Proof.
  apply foldl_length. intros st' r. unfold iota, chi, theta. rewrite length_insert.
  rewrite foldl_length by (intros; apply foldl_length; intros; apply length_insert).
  rewrite rho_pi_length. apply foldl_length. intros. apply foldl_length. intros. apply length_insert.
Qed.

Lemma xor_words_length st ws : length (xor_words st ws) = length st.
Proof. revert ws. induction st as [|s st IH]; intros [|w ws]; simpl; [done..|]. by rewrite IH. Qed.

Lemma process_block_length n st b : length (process_block n st b) = length st.
Proof. unfold process_block. rewrite keccakf_length. apply xor_words_length. Qed.

Lemma process_block_eq n st b :
  keccakf (xor_words st (load_words n b)) KECCAK_ROUNDS = process_block n st b.
Proof. unfold process_block. reflexivity. Qed.

#[local] Opaque keccakf process_block.

(** ** The block loop *)
Section absorb.
Context (rsiz : nat) (Hrsiz : (0 < rsiz)%nat).

Lemma absorb_enough f1 f2 st b : (length b <= f1)%nat -> (length b <= f2)%nat ->
  absorb f1 rsiz st b = absorb f2 rsiz st b.
Proof using Hrsiz.
  revert f2 st b. induction f1 as [|f1 IH]; intros [|f2] st b H1 H2; simpl; [done| | |];
    destruct (Nat.leb_spec rsiz (length b)); try done; try lia.
  apply IH; rewrite length_drop; lia.
Qed.

Lemma absorb_short f st b : (length b < rsiz)%nat -> absorb f rsiz st b = (st, b).
Proof. intros. destruct f; simpl; [done|]. by rewrite (proj2 (Nat.leb_gt _ _)). Qed.

Lemma absorb_block st blk b : length blk = rsiz ->
  absorb (length (blk ++ b)) rsiz st (blk ++ b) =
    absorb (length b) rsiz (process_block (rsiz / 8) st blk) b.
Proof using Hrsiz.
  intros Hl. destruct (length (blk ++ b)) as [|f] eqn:E; rewrite length_app in E; [lia|]. simpl.
  rewrite (proj2 (Nat.leb_le _ _)) by (rewrite length_app; lia).
  rewrite take_app_length', drop_app_length' by done. apply absorb_enough; lia.
Qed.

(** Absorbing more data continues from what was left. *)
Lemma absorb_app st b c : exists st' r, absorb (length b) rsiz st b = (st', r) /\
  (length r < rsiz)%nat /\ (exists k, length b = k * rsiz + length r)%nat /\
  absorb (length (b ++ c)) rsiz st (b ++ c) = absorb (length (r ++ c)) rsiz st' (r ++ c).
Proof using Hrsiz.
  remember (length b) as n eqn:En. revert st b En.
  induction n as [n IH] using lt_wf_ind. intros st b ->.
  destruct (Nat.lt_ge_cases (length b) rsiz) as [Hs|Hs].
  { rewrite absorb_short by done. exists st, b. split; [done|]. split; [done|]. split; [by exists O|done]. }
  assert (exists blk b', b = blk ++ b' /\ length blk = rsiz) as (blk & b' & -> & Hl).
  { exists (take rsiz b), (drop rsiz b). rewrite take_drop, length_take. split; [done|lia]. }
  rewrite <- app_assoc, !absorb_block by done. rewrite length_app in IH, Hs.
  destruct (IH (length b') ltac:(lia) (process_block (rsiz / 8) st blk) b' eq_refl)
    as (st' & r & E1 & Hr & [k Hk] & E2).
  exists st', r. split; [done|]. split; [done|]. split; [|done].
  exists (S k). rewrite length_app. simpl. lia.
Qed.
End absorb.

Definition absorb136 (st : list Z) (b : blob) : list Z * blob := absorb (length b) KECCAK_BLOCKLEN st b.

Lemma memcpy_whole m b : length m = length b -> memcpy m 0 b = b.
Proof. intros H. unfold memcpy. simpl. by rewrite drop_ge, app_nil_r by lia. Qed.

Lemma memcpy_length m i b : (i + length b <= length m)%nat -> length (memcpy m i b) = length m.
Proof. intros. unfold memcpy. rewrite !length_app, length_take, length_drop. lia. Qed.

(** Alignment makes no difference to the digest. *)
Lemma update_loop_absorb fuel al h m b : length m = KECCAK_BLOCKLEN ->
  exists m', update_loop fuel al h m b = ((absorb fuel KECCAK_BLOCKLEN h b).1, m',
                                          (absorb fuel KECCAK_BLOCKLEN h b).2) /\
    length m' = KECCAK_BLOCKLEN.
Proof.
  revert h m b. induction fuel as [|fuel IH]; intros h m b Hm; cbn [update_loop absorb]; [by exists m|].
  destruct (Nat.leb_spec KECCAK_BLOCKLEN (length b)); [|by exists m]. cbv zeta.
  assert (length (take KECCAK_BLOCKLEN b) = KECCAK_BLOCKLEN) as Hl by (rewrite length_take; lia).
  rewrite memcpy_whole by lia. change KECCAK_WORDS with (KECCAK_BLOCKLEN / 8)%nat.
  destruct al; apply IH; done.
Qed.

(** ** What a context stands for *)
Definition ctx_repr (ctx : KECCAK_CTX) (d : blob) : Prop :=
  let '(st, r) := absorb136 zero_state d in
  ctx_hash ctx = st /\ ctx_rest ctx = zlen r /\ length (ctx_message ctx) = KECCAK_BLOCKLEN /\
  take (length r) (ctx_message ctx) = r.

Lemma absorb136_app st b c : exists st' r, absorb136 st b = (st', r) /\
  (length r < KECCAK_BLOCKLEN)%nat /\ (exists k, length b = k * KECCAK_BLOCKLEN + length r)%nat /\
  absorb136 st (b ++ c) = absorb136 st' (r ++ c).
Proof. apply absorb_app. unfold KECCAK_BLOCKLEN. lia. Qed.

Lemma rest_not_finalized h m n : 0 <= n < 136 -> is_finalized (Keccak_ctx h m n) = false.
Proof.
  intros Hn. unfold is_finalized, KECCAK_FINALIZED. simpl.
  change 2147483648 with (Z.shiftl 1 31).
  assert (Z.land n (Z.shiftl 1 31) = 0) as ->; [|done].
  apply Z.bits_inj'. intros i Hi. rewrite Z.land_spec, Z.bits_0.
  destruct (Z.lt_ge_cases i 8).
  - rewrite Z.shiftl_spec_low by lia. apply andb_false_r.
  - rewrite <- (Z.mod_small n (2 ^ 8)) by lia. by rewrite Z.mod_pow2_bits_high by lia.
Qed.

Lemma rest_sum n m k r : 0 <= n < 136 -> 0 <= m < 2 ^ 64 - 136 -> n + m = k * 136 + r ->
  0 <= r < 136 -> u64 (n + m) mod Z.of_nat KECCAK_BLOCKLEN = r.
Proof.
  intros Hn Hm E Hr. rewrite wrap_small by (unfold in_range; lia).
  change (Z.of_nat KECCAK_BLOCKLEN) with 136. rewrite E, Z.add_comm, Z.mod_add by lia.
  by apply Z.mod_small.
Qed.

Lemma take_memcpy m i b : (i + length b <= length m)%nat ->
  take (i + length b) (memcpy m i b) = take i m ++ b.
Proof.
  intros. unfold memcpy. rewrite app_assoc. apply take_app_length'.
  rewrite length_app, length_take. lia.
Qed.

(** The loop and the copy of what is left into the buffer. *)
Lemma update_tail al h m b : length m = KECCAK_BLOCKLEN ->
  exists h' m' r, update_loop (length b) al h m b = (h', m', r) /\ absorb136 h b = (h', r) /\
    length (memcpy m' 0 r) = KECCAK_BLOCKLEN /\ take (length r) (memcpy m' 0 r) = r.
Proof.
  intros Hm. destruct (update_loop_absorb (length b) al h m b Hm) as (m' & -> & Hm').
  destruct (absorb136_app h b []) as (h' & r & E & Hr & _). unfold absorb136 in *. rewrite E.
  exists h', m', r. split; [done|]. split; [done|].
  rewrite memcpy_length by lia. split; [done|]. apply (take_memcpy m' 0). lia.
Qed.

Lemma ctx_repr_update al ctx d data : ctx_repr ctx d -> zlen data < 2 ^ 64 - 136 ->
  exists ctx', keccak_update al ctx data = Some ctx' /\ ctx_repr ctx' (d ++ data).
Proof.
  unfold ctx_repr. destruct (absorb136_app zero_state d data) as (st & r & E1 & Hr & _ & E2).
  rewrite E1, E2. destruct ctx as [h m n]. simpl. intros (-> & -> & Hm & Ht) Hd.
  unfold keccak_update. rewrite rest_not_finalized by (unfold zlen, KECCAK_BLOCKLEN in *; lia).
  cbn [ctx_rest ctx_hash ctx_message]. pose proof (zlen_nonneg data) as Hd0.
  destruct (absorb136_app st (r ++ data) []) as (st' & r' & E3 & Hr' & [k Hk] & _).
  assert (u64 (zlen r + zlen data) mod Z.of_nat KECCAK_BLOCKLEN = zlen r') as ->.
  { apply (rest_sum _ _ (Z.of_nat k)); unfold zlen, KECCAK_BLOCKLEN in *; rewrite ?length_app in Hk; lia. }
  rewrite E3. replace (Z.to_nat (zlen r)) with (length r) by (unfold zlen; lia). cbv zeta.
  destruct (Nat.eqb_spec (length r) 0) as [H0|H0]; simpl negb; cbn [andb].
  - apply nil_length_inv in H0 as ->. destruct (update_tail al st m data) as (h' & m' & r1 & -> & E4 & ? & ?); [done|].
    simpl in E3. rewrite E4 in E3. injection E3 as <- <-. by eexists.
  - destruct (Nat.ltb_spec (length data) (KECCAK_BLOCKLEN - length r)) as [Hs|Hs].
    + eexists. split; [done|]. cbn [ctx_rest ctx_hash ctx_message]. unfold absorb136 in E3.
      rewrite absorb_short in E3 by (rewrite length_app; lia). injection E3 as <- <-.
      rewrite memcpy_length, length_app, take_memcpy, Ht by lia. done.
    + set (blk := r ++ take (KECCAK_BLOCKLEN - length r) data).
      assert (length (take (KECCAK_BLOCKLEN - length r) data) = KECCAK_BLOCKLEN - length r)%nat as Hl
        by (rewrite length_take; lia).
      assert (memcpy m (length r) (take (KECCAK_BLOCKLEN - length r) data) = blk) as ->.
      { unfold memcpy. rewrite Ht, Hl, (drop_ge m) by lia. by rewrite app_nil_r. }
      assert (length blk = KECCAK_BLOCKLEN) as Hb by (unfold blk; rewrite length_app; lia).
      destruct (update_tail al (process_block KECCAK_WORDS st blk) blk (drop (KECCAK_BLOCKLEN - length r) data))
        as (h' & m' & r1 & -> & E4 & ? & ?); [done|].
      replace (r ++ data) with (blk ++ drop (KECCAK_BLOCKLEN - length r) data) in E3
        by (unfold blk; by rewrite <- app_assoc, take_drop).
      unfold absorb136 in E3, E4. rewrite absorb_block in E3 by (done || unfold KECCAK_BLOCKLEN; lia).
      change (KECCAK_BLOCKLEN / 8)%nat with KECCAK_WORDS in E3. rewrite E4 in E3. injection E3 as <- <-.
      by eexists.
Qed.

Lemma finish_pad m r : length m = KECCAK_BLOCKLEN -> (length r < KECCAK_BLOCKLEN)%nat ->
  take (length r) m = r -> finish_block m (length r) = pad_block KECCAK_BLOCKLEN r.
Proof.
  intros Hm Hr Ht. unfold finish_block, pad_block.
  assert (memcpy m (length r) (replicate (KECCAK_BLOCKLEN - length r) 0) =
          r ++ 0 :: replicate (KECCAK_BLOCKLEN - length r - 1) 0) as ->.
  { unfold memcpy. rewrite Ht, length_replicate, (drop_ge m), app_nil_r by lia.
    replace (KECCAK_BLOCKLEN - length r)%nat with (S (KECCAK_BLOCKLEN - length r - 1)) by lia.
    simpl. do 3 f_equal. lia. }
  rewrite list_lookup_total_middle by done. by rewrite insert_app_r_alt, Nat.sub_diag by lia.
Qed.

Lemma le_bytes_length n w : length (le_bytes n w) = n.
Proof. revert w. induction n as [|n IH]; intros w; simpl; [done|]. by rewrite IH. Qed.

Lemma store_words_take n ws : store_words (take n ws) = take (8 * n) (store_words ws).
Proof.
  revert ws. induction n as [|n IH]; intros [|w ws]; [done..|].
  unfold store_words. cbn [take map concat]. fold (store_words (take n ws)). rewrite IH.
  rewrite take_app_ge by (rewrite le_bytes_length; lia). rewrite le_bytes_length.
  f_equal. f_equal. lia.
Qed.

Lemma store_words_ok ws : bytes_ok (store_words ws) /\ length (store_words ws) = (8 * length ws)%nat.
Proof.
  assert (forall n w, bytes_ok (le_bytes n w)) as Hb.
  { induction n as [|n IH]; intros w; simpl; constructor; [|apply IH].
    rewrite land_ff. by apply Z.mod_pos_bound. }
  induction ws as [|w ws [IH1 IH2]]; [by split; [constructor|]|]. unfold store_words in *. cbn [map concat]. split.
  - apply bytes_ok_app. by split.
  - rewrite length_app, le_bytes_length, IH2. simpl length. lia.
Qed.

Lemma absorb_length fuel rsiz st b : length (absorb fuel rsiz st b).1 = length st.
Proof.
  revert st b. induction fuel as [|fuel IH]; intros st b; simpl; [done|]. case_match; [|done].
  rewrite IH. apply process_block_length.
Qed.

(** The one-shot digests, in terms of the block loop. *)
Definition digest (d : blob) : blob :=
  let '(st, r) := absorb136 zero_state d in
  take KECCAK_DIGESTSIZE (store_words (process_block KECCAK_WORDS st (pad_block KECCAK_BLOCKLEN r))).

Lemma keccak_digest d n : n = 32 \/ n = 200 ->
  exists st, keccak d n = Some (store_words (take (Z.to_nat (n / 8)) st)) /\
    digest d = take KECCAK_DIGESTSIZE (store_words st).
Proof.
  intros Hn. unfold keccak, digest. destruct (absorb136_app zero_state d []) as (st & r & E & Hr & _).
  rewrite E. exists (process_block KECCAK_WORDS st (pad_block KECCAK_BLOCKLEN r)).
  assert ((if 200 =? n then HASH_DATA_AREA else Z.to_nat (200 - 2 * n)) = KECCAK_BLOCKLEN) as ->
    by by destruct Hn as [-> | ->].
  assert ((n <=? 0) || ((100 <? n) && negb (200 =? n)) = false) as -> by by destruct Hn as [-> | ->].
  unfold absorb136 in E. cbv zeta. rewrite E. split; [|done].
  assert (negb (n mod 8 =? 0) = false) as -> by by destruct Hn as [-> | ->].
  unfold KECCAK_BLOCKLEN in Hr.
  assert (((144 <=? length r + 1) || (KECCAK_BLOCKLEN <? length r) ||
    (144 <=? KECCAK_BLOCKLEN - length r + length r + 1) || (144 <=? KECCAK_BLOCKLEN - 1) ||
    (144 <? KECCAK_BLOCKLEN / 8 * 8))%nat = false) as ->.
  2: { rewrite process_block_eq. by change (KECCAK_BLOCKLEN / 8)%nat with KECCAK_WORDS. }
  rewrite !orb_false_iff. rewrite !Nat.leb_gt, !Nat.ltb_ge. unfold KECCAK_BLOCKLEN.
  change (136 / 8)%nat with 17%nat. lia.
Qed.

Lemma keccak_32 d : keccak d 32 = Some (digest d).
Proof.
  destruct (keccak_digest d 32) as (st & -> & ->); [by left|].
  by rewrite store_words_take.
Qed.

Lemma cn_fast_hash_digest d : cn_fast_hash d = digest d.
Proof.
  unfold cn_fast_hash, keccak1600. destruct (keccak_digest d 200) as (st & -> & ->); [by right|].
  rewrite store_words_take, take_take. by rewrite Nat.min_l by (compute; lia).
Qed.

(** A digest is 32 bytes. *)
Lemma cn_fast_hash_ok d : pod_ok 32 (cn_fast_hash d).
Proof.
  rewrite cn_fast_hash_digest. unfold digest. destruct (absorb136 zero_state d) as [st r] eqn:E.
  pose proof (absorb_length (length d) KECCAK_BLOCKLEN zero_state d) as Hl.
  unfold absorb136 in E. rewrite E in Hl. simpl in Hl.
  destruct (store_words_ok (process_block KECCAK_WORDS st (pad_block KECCAK_BLOCKLEN r))) as [Hb Hn].
  rewrite process_block_length, Hl in Hn. split; [|by apply bytes_ok_take].
  rewrite length_take, Hn. done.
Qed.

Lemma ctx_repr_finish ctx d : ctx_repr ctx d -> (keccak_finish ctx).2 = digest d.
Proof.
  unfold ctx_repr, digest. destruct (absorb136_app zero_state d []) as (st & r & -> & Hr & _).
  destruct ctx as [h m n]. simpl. intros (-> & -> & Hm & Ht). unfold keccak_finish.
  rewrite rest_not_finalized by (unfold zlen, KECCAK_BLOCKLEN in *; lia). simpl.
  unfold zlen. rewrite Nat2Z.id. by rewrite finish_pad.
Qed.

(** A sequence of updates, each with the alignment of its input pointer. *)
Fixpoint keccak_updates (ctx : KECCAK_CTX) (chunks : list (bool * blob)) : option KECCAK_CTX :=
  match chunks with
  | [] => Some ctx
  | (al, data) :: chunks =>
      match keccak_update al ctx data with
      | Some ctx => keccak_updates ctx chunks
      | None => None
      end
  end.

(** ** Properties *)

(** C36: streaming equals one shot.  However a message is cut into chunks, and
    however the chunks are aligned in memory, the updates never abort and
    [keccak_finish] gives the 32-byte [keccak] of the whole message, which is
    also [cn_fast_hash] of it. *)
Theorem keccak_streaming chunks : Forall (fun c => zlen c.2 < 2 ^ 64 - 136) chunks ->
  exists ctx, keccak_updates keccak_init chunks = Some ctx /\
    keccak (concat (map snd chunks)) 32 = Some (keccak_finish ctx).2 /\
    cn_fast_hash (concat (map snd chunks)) = (keccak_finish ctx).2.
Proof.
  assert (forall ctx d, ctx_repr ctx d -> Forall (fun c => zlen c.2 < 2 ^ 64 - 136) chunks ->
    exists ctx', keccak_updates ctx chunks = Some ctx' /\ ctx_repr ctx' (d ++ concat (map snd chunks))) as H.
  { induction chunks as [|[al c] chunks IH]; intros ctx d Hr HF; simpl.
    - rewrite app_nil_r. by eexists.
    - apply Forall_cons in HF as [Hc HF].
      destruct (ctx_repr_update al ctx d c Hr Hc) as (ctx1 & -> & H1).
      destruct (IH _ _ H1 HF) as (ctx2 & -> & H2). rewrite <- app_assoc in H2. by eexists. }
  intros HF. destruct (H keccak_init []) as (ctx & E & Hr); [by vm_compute|done|].
  exists ctx. rewrite keccak_32, cn_fast_hash_digest, (ctx_repr_finish _ _ Hr). done.
Qed.

Lemma keccak_streaming_witness :
  exists ctx, keccak_updates keccak_init [(true, [1; 2]); (false, replicate 140 7)] = Some ctx /\
    keccak ([1; 2] ++ replicate 140 7) 32 = Some (keccak_finish ctx).2 /\
    cn_fast_hash ([1; 2] ++ replicate 140 7) = (keccak_finish ctx).2.
Proof.
  destruct (keccak_streaming [(true, [1; 2]); (false, replicate 140 7)]) as (ctx & H1 & H2 & H3);
    [by_decide|].
  exists ctx. split; [exact H1|]. rewrite <- (app_nil_r (replicate 140 7)). split; [exact H2|exact H3].
Defined.
