(* ===== verification/Limbs.v ===== *)
(** * Integers in limbs

    The arithmetic of src/crypto/crypto-ops.c keeps an integer as a list of
    signed 64-bit limbs at fixed bit positions, which overlap while it is worked
    on.  Here are the steps these routines are made of, with the overflow of
    [int64_t], which is undefined in C, as [None]; the value they preserve; and
    an analysis that bounds every intermediate result. *)
From Stdlib Require Import ZArith Lia Bool.
From stdpp Require Import prelude.
From S2P Require Import Prelude Keccak.
Local Open Scope Z_scope.

(** ** Checked arithmetic *)
Definition int64 (x : Z) : option Z := if (- 2 ^ 63 <=? x) && (x <? 2 ^ 63) then Some x else None.

(** [s_i += x] and [s_i -= x] *)
Definition limb_add (i : nat) (x : Z) (s : list Z) : option (list Z) := y ← int64 (s !!! i + x); Some (<[i := y]> s).
Definition limb_sub (i : nat) (x : Z) (s : list Z) : option (list Z) := y ← int64 (s !!! i - x); Some (<[i := y]> s).

(** [s_i += s_k * c] and [s_i -= s_k * c] *)
Definition mul_add (i k : nat) (c : Z) (s : list Z) : option (list Z) := p ← int64 (s !!! k * c); limb_add i p s.
Definition mul_sub (i k : nat) (c : Z) (s : list Z) : option (list Z) := p ← int64 (s !!! k * c); limb_sub i p s.

(** [carry = s_i >> w; s_{i+1} += carry; s_i -= carry << w], and the same with
    [carry = (s_i + (1 << (w - 1))) >> w]. *)
Definition carry_to (i : nat) (w carry : Z) (s : list Z) : option (list Z) :=
  s ← limb_add (S i) carry s; k ← int64 (Z.shiftl carry w); limb_sub i k s.
Definition carry (i : nat) (w : Z) (s : list Z) : option (list Z) := carry_to i w (Z.shiftr (s !!! i) w) s.
Definition carry_near (i : nat) (w : Z) (s : list Z) : option (list Z) :=
  t ← int64 (s !!! i + Z.shiftl 1 (w - 1)); carry_to i w (Z.shiftr t w) s.

(** ** Bytes *)
Definition byte (b : blob) (i : nat) : Z := default 0 (b !! i).
Definition load_3 (b : blob) (i : nat) : Z :=
  Z.lor (Z.lor (byte b i) (Z.shiftl (byte b (S i)) 8)) (Z.shiftl (byte b (S (S i))) 16).
Definition load_4 (b : blob) (i : nat) : Z :=
  Z.lor (Z.lor (Z.lor (byte b i) (Z.shiftl (byte b (S i)) 8)) (Z.shiftl (byte b (S (S i))) 16)) (Z.shiftl (byte b (S (S (S i)))) 24).

(** ** Bounds *)
Abbreviation bounds := (list (Z * Z)).

Definition fits (s : list Z) (b : bounds) : Prop := Forall2 (fun x r => r.1 <= x <= r.2) s b.

Definition bound_add (i : nat) (r : Z * Z) (b : bounds) : option bounds :=
  l ← int64 ((b !!! i).1 + r.1); h ← int64 ((b !!! i).2 + r.2); Some (<[i := (l, h)]> b).
Definition bound_mul (k : nat) (c : Z) (b : bounds) : option (Z * Z) :=
  l ← int64 ((b !!! k).1 * c); h ← int64 ((b !!! k).2 * c); Some (l, h).
Definition bound_mul_add (i k : nat) (c : Z) (b : bounds) : option bounds := r ← bound_mul k c b; bound_add i r b.
Definition bound_mul_sub (i k : nat) (c : Z) (b : bounds) : option bounds := r ← bound_mul k c b; bound_add i (- r.2, - r.1) b.

Definition bound_carry_to (i : nat) (w : Z) (r : Z * Z) (left : Z * Z) (b : bounds) : option bounds :=
  b ← bound_add (S i) r b; _ ← int64 (Z.shiftl r.1 w); _ ← int64 (Z.shiftl r.2 w); Some (<[i := left]> b).
Definition bound_carry (i : nat) (w : Z) (b : bounds) : option bounds :=
  bound_carry_to i w (Z.shiftr (b !!! i).1 w, Z.shiftr (b !!! i).2 w) (0, 2 ^ w - 1) b.
Definition bound_carry_near (i : nat) (w : Z) (b : bounds) : option bounds :=
  l ← int64 ((b !!! i).1 + 2 ^ (w - 1)); h ← int64 ((b !!! i).2 + 2 ^ (w - 1));
  bound_carry_to i w (Z.shiftr l w, Z.shiftr h w) (- 2 ^ (w - 1), 2 ^ (w - 1) - 1) b.

(** A step whose results the analysis bounds. *)
Definition bounded (f : list Z -> option (list Z)) (g : bounds -> option bounds) : Prop :=
  forall s b b', fits s b -> g b = Some b' -> exists s', f s = Some s' /\ fits s' b'.

Lemma int64_some x : - 2 ^ 63 <= x < 2 ^ 63 -> int64 x = Some x.
Proof. intros Hx. unfold int64. by rewrite (proj2 (Z.leb_le _ _)), (proj2 (Z.ltb_lt _ _)) by lia. Qed.

Lemma int64_inv x y : int64 x = Some y -> y = x /\ - 2 ^ 63 <= x < 2 ^ 63.
Proof. unfold int64. destruct (Z.leb_spec (- 2 ^ 63) x), (Z.ltb_spec x (2 ^ 63)); cbn; intros [= <-]; done. Qed.

Lemma int64_between l h x l' h' : int64 l = Some l' -> int64 h = Some h' -> l <= x <= h -> int64 x = Some x.
Proof. intros [_ ?]%int64_inv [_ ?]%int64_inv ?. apply int64_some. lia. Qed.

Lemma bind_inv {A B} (m : option A) (f : A -> option B) y : m ≫= f = Some y -> exists x, m = Some x /\ f x = Some y.
Proof. destruct m as [x|]; [|done]. eauto. Qed.

Ltac inv_binds :=
  repeat match goal with
  | H : mbind _ _ = Some _ |- _ => apply bind_inv in H as (? & ? & H)
  | H : Some _ = Some _ |- _ => injection H as <-
  end.

Lemma fits_lookup s b i : fits s b -> (b !!! i).1 <= s !!! i <= (b !!! i).2.
Proof.
  intros Hf. destruct (decide (i < length s)%nat) as [Hi|Hi].
  - destruct (lookup_lt_is_Some_2 s i Hi) as [x Hx]. destruct (Forall2_lookup_l _ _ _ _ _ Hf Hx) as (r & Hr & Hxr).
    by rewrite (list_lookup_total_correct _ _ _ Hx), (list_lookup_total_correct _ _ _ Hr).
  - pose proof (Forall2_length _ _ _ Hf) as Hl. rewrite !list_lookup_total_alt, !lookup_ge_None_2 by lia. done.
Qed.

Lemma fits_insert s b i x r : fits s b -> r.1 <= x <= r.2 -> fits (<[i := x]> s) (<[i := r]> b).
Proof. intros. by apply Forall2_insert. Qed.

Lemma bounded_bind f1 f2 g1 g2 : bounded f1 g1 -> bounded f2 g2 -> bounded (fun s => f1 s ≫= f2) (fun b => g1 b ≫= g2).
Proof.
  intros H1 H2 s b b' Hs (b1 & E1 & E2)%bind_inv. destruct (H1 s b b1 Hs E1) as (s1 & Es & Hs1). rewrite Es. by apply (H2 s1 b1).
Qed.

Lemma limb_add_bounded i x r s b b' : r.1 <= x <= r.2 -> fits s b -> bound_add i r b = Some b' -> limb_add i x s = Some (<[i := s !!! i + x]> s) /\ fits (<[i := s !!! i + x]> s) b'.
Proof.
  intros Hx Hs. unfold bound_add, limb_add. intros E. inv_binds. pose proof (fits_lookup s b i Hs) as Hi.
  rewrite (int64_between _ _ _ _ _ H H0) by lia. split; [done|]. apply fits_insert; [done|].
  repeat match goal with H : int64 _ = Some _ |- _ => apply int64_inv in H as [-> _] end. cbn [fst snd]. lia.
Qed.

Lemma limb_sub_add i x s : limb_sub i x s = limb_add i (- x) s.
Proof. done. Qed.

Lemma mul_bounded k c r s b : 0 <= c -> fits s b -> bound_mul k c b = Some r -> int64 (s !!! k * c) = Some (s !!! k * c) /\ r.1 <= s !!! k * c <= r.2.
Proof.
  intros Hc Hs E. unfold bound_mul in E. inv_binds. pose proof (fits_lookup s b k Hs) as Hk.
  assert ((b !!! k).1 * c <= s !!! k * c <= (b !!! k).2 * c) as Hb by nia. split; [exact (int64_between _ _ _ _ _ H H0 Hb)|].
  repeat match goal with H : int64 _ = Some _ |- _ => apply int64_inv in H as [-> _] end. done.
Qed.

Lemma mul_add_bounded i k c : 0 <= c -> bounded (mul_add i k c) (bound_mul_add i k c).
Proof.
  intros Hc s b b' Hs E. unfold bound_mul_add in E. inv_binds. destruct (mul_bounded k c x s b Hc Hs H) as [E1 Hr].
  unfold mul_add. rewrite E1. cbn [mbind option_bind]. eexists. by eapply limb_add_bounded.
Qed.

Lemma mul_sub_bounded i k c : 0 <= c -> bounded (mul_sub i k c) (bound_mul_sub i k c).
Proof.
  intros Hc s b b' Hs E. unfold bound_mul_sub in E. inv_binds. destruct (mul_bounded k c x s b Hc Hs H) as [E1 Hr].
  unfold mul_sub. rewrite E1. cbn [mbind option_bind]. rewrite limb_sub_add. eexists. eapply limb_add_bounded; [|done|done]. cbn [fst snd]. lia.
Qed.

Lemma carry_to_bounded i w c r left s b b' : 0 <= w -> r.1 <= c <= r.2 -> left.1 <= s !!! i - c * 2 ^ w <= left.2 -> - 2 ^ 63 <= left.1 -> left.2 < 2 ^ 63 ->
  fits s b -> bound_carry_to i w r left b = Some b' -> exists s', carry_to i w c s = Some s' /\ fits s' b'.
Proof.
  intros Hw Hc Hl Hl1 Hl2 Hs E. unfold bound_carry_to in E. apply bind_inv in E as (b1 & E1 & E). inv_binds.
  destruct (limb_add_bounded (S i) c r s b b1 Hc Hs E1) as [E2 Hs1]. unfold carry_to. rewrite E2. cbn [mbind option_bind].
  rewrite !Z.shiftl_mul_pow2 in * by done. assert (0 < 2 ^ w) as Hp by (apply Z.pow_pos_nonneg; lia).
  rewrite (int64_between _ _ (c * 2 ^ w) _ _ H H0) by nia. cbn [mbind option_bind]. unfold limb_sub.
  rewrite list_lookup_total_insert_ne by lia. rewrite int64_some by lia. cbn [mbind option_bind]. eexists. split; [done|]. by apply fits_insert.
Qed.

Lemma shiftr_mono a b w : 0 <= w -> a <= b -> Z.shiftr a w <= Z.shiftr b w.
Proof. intros. rewrite !Z.shiftr_div_pow2 by done. apply Z.div_le_mono; [apply Z.pow_pos_nonneg; lia|done]. Qed.

Lemma carry_bounded i w : 0 <= w <= 62 -> bounded (carry i w) (bound_carry i w).
Proof.
  intros Hw s b b' Hs E. pose proof (fits_lookup s b i Hs) as Hi. assert (0 < 2 ^ w <= 2 ^ 62) as Hp by (split; [apply Z.pow_pos_nonneg; lia|apply Z.pow_le_mono_r; lia]).
  eapply carry_to_bounded; [| | | | |exact Hs|exact E]; cbn [fst snd]; [lia|split; apply shiftr_mono; lia| |lia|lia].
  rewrite Z.shiftr_div_pow2 by lia. pose proof (Z.div_mod (s !!! i) (2 ^ w)). pose proof (Z.mod_pos_bound (s !!! i) (2 ^ w)). lia.
Qed.

Lemma carry_near_bounded i w : 1 <= w <= 62 -> bounded (carry_near i w) (bound_carry_near i w).
Proof.
  intros Hw s b b' Hs E. pose proof (fits_lookup s b i Hs) as Hi.
  assert (0 < 2 ^ (w - 1) <= 2 ^ 62) as Hp by (split; [apply Z.pow_pos_nonneg; lia|apply Z.pow_le_mono_r; lia]).
  assert (2 ^ w = 2 * 2 ^ (w - 1)) as E2 by (rewrite <- Z.pow_succ_r by lia; f_equal; lia).
  unfold bound_carry_near in E. apply bind_inv in E as (l & El & E). apply bind_inv in E as (h & Eh & E).
  unfold carry_near. rewrite Z.shiftl_1_l. rewrite (int64_between _ _ _ _ _ El Eh) by lia. cbn [mbind option_bind].
  apply int64_inv in El as [-> _], Eh as [-> _].
  eapply carry_to_bounded; [| | | | |exact Hs|exact E]; cbn [fst snd]; [lia|split; apply shiftr_mono; lia| |lia|lia].
  set (x := s !!! i + 2 ^ (w - 1)). rewrite Z.shiftr_div_pow2 by lia. pose proof (Z.div_mod x (2 ^ w)). pose proof (Z.mod_pos_bound x (2 ^ w)). lia.
Qed.

(** ** Values *)
Section value.
Variable pos : nat -> Z.
Hypothesis pos_nonneg : forall i, 0 <= pos i.

Fixpoint value_at (i : nat) (s : list Z) : Z :=
  match s with
  | [] => 0
  | x :: s => x * 2 ^ pos i + value_at (S i) s
  end.

(** The value of the first [n] limbs. *)
Definition value (n : nat) (s : list Z) : Z := value_at 0 (take n s).

Lemma value_at_insert k s i x : (i < length s)%nat -> value_at k (<[i := x]> s) = value_at k s + (x - s !!! i) * 2 ^ pos (k + i).
Proof.
  revert k i. induction s as [|y s IH]; intros k i Hi; [cbn in Hi; lia|]. destruct i as [|i]; cbn -[Z.pow].
  - rewrite Nat.add_0_r. lia.
  - rewrite IH by (cbn in Hi; lia). replace (S k + i)%nat with (k + S i)%nat by lia. rewrite Z.add_assoc. reflexivity.
Qed.

Lemma value_at_app k s t : value_at k (s ++ t) = value_at k s + value_at (k + length s) t.
Proof.
  revert k. induction s as [|x s IH]; intros k; cbn -[Z.pow]; [by rewrite Nat.add_0_r|]. rewrite IH.
  replace (S k + length s)%nat with (k + S (length s))%nat by lia. lia.
Qed.

Lemma value_insert n s i x : (i < n)%nat -> (i < length s)%nat -> value n (<[i := x]> s) = value n s + (x - s !!! i) * 2 ^ pos i.
Proof.
  intros Hn Hi. unfold value. rewrite take_insert_lt by done. rewrite value_at_insert by (rewrite length_take; lia).
  rewrite !list_lookup_total_alt, lookup_take_lt by done. done.
Qed.

Lemma value_insert_ge n s i x : (n <= i)%nat -> value n (<[i := x]> s) = value n s.
Proof. intros Hn. unfold value. by rewrite take_insert_ge. Qed.

Lemma value_S n s : (n < length s)%nat -> value (S n) s = value n s + s !!! n * 2 ^ pos n.
Proof.
  intros Hn. unfold value. destruct (lookup_lt_is_Some_2 s n Hn) as [x Hx]. rewrite (take_S_r _ _ x) by done. rewrite value_at_app, length_take, Nat.min_l by lia.
  rewrite (list_lookup_total_correct _ _ _ Hx). cbn -[Z.pow]. lia.
Qed.

Lemma limb_add_length i x s s' : limb_add i x s = Some s' -> length s' = length s.
Proof. intros E. unfold limb_add in E. inv_binds. by rewrite length_insert. Qed.

Lemma limb_add_value n i x s s' : limb_add i x s = Some s' -> (i < n <= length s)%nat -> value n s' = value n s + x * 2 ^ pos i.
Proof.
  intros E Hi. unfold limb_add in E. inv_binds. apply int64_inv in H as [-> _]. rewrite value_insert by lia. lia.
Qed.

Lemma limb_add_other i x s s' j : limb_add i x s = Some s' -> i <> j -> s' !!! j = s !!! j.
Proof. intros E Hj. unfold limb_add in E. inv_binds. by rewrite list_lookup_total_insert_ne. Qed.

Lemma mul_add_value n i k c s s' : mul_add i k c s = Some s' -> (i < n <= length s)%nat -> value n s' = value n s + s !!! k * c * 2 ^ pos i.
Proof. intros E Hi. unfold mul_add in E. inv_binds. apply int64_inv in H as [-> _]. by apply limb_add_value. Qed.

Lemma mul_sub_value n i k c s s' : mul_sub i k c s = Some s' -> (i < n <= length s)%nat -> value n s' = value n s - s !!! k * c * 2 ^ pos i.
Proof.
  intros E Hi. unfold mul_sub in E. inv_binds. apply int64_inv in H as [-> _]. rewrite limb_sub_add in E.
  rewrite (limb_add_value n _ _ _ _ E) by done. lia.
Qed.

Lemma carry_to_value n i w c s s' : carry_to i w c s = Some s' -> (S i < n <= length s)%nat -> 0 <= w -> pos (S i) = pos i + w -> value n s' = value n s.
Proof.
  intros E Hi Hw Hp. unfold carry_to in E. inv_binds. apply int64_inv in H0 as [-> _]. rewrite limb_sub_add in E.
  rewrite (limb_add_value n _ _ _ _ E) by (rewrite (limb_add_length _ _ _ _ H); lia). rewrite (limb_add_value n _ _ _ _ H) by lia.
  rewrite Hp, Z.pow_add_r, Z.shiftl_mul_pow2 by auto. lia.
Qed.

Lemma carry_value n i w s s' : carry i w s = Some s' -> (S i < n <= length s)%nat -> 0 <= w -> pos (S i) = pos i + w -> value n s' = value n s.
Proof. apply carry_to_value. Qed.

Lemma carry_near_value n i w s s' : carry_near i w s = Some s' -> (S i < n <= length s)%nat -> 0 <= w -> pos (S i) = pos i + w -> value n s' = value n s.
Proof. intros E. unfold carry_near in E. inv_binds. by eapply carry_to_value. Qed.

(** Bounds of the limbs bound the value. *)
Fixpoint bounds_at (f : Z * Z -> Z) (i : nat) (b : bounds) : Z :=
  match b with
  | [] => 0
  | r :: b => f r * 2 ^ pos i + bounds_at f (S i) b
  end.

Lemma value_bounds n s b : fits s b -> bounds_at fst 0 (take n b) <= value n s <= bounds_at snd 0 (take n b).
Proof.
  intros Hs. unfold value. assert (Forall2 (fun x r => r.1 <= x <= r.2) (take n s) (take n b)) as H by by apply Forall2_take.
  generalize 0%nat as i. induction H as [|x r s' b' Hx _ IH]; intros i; cbn -[Z.pow]; [lia|]. specialize (IH (S i)).
  pose proof (Z.pow_pos_nonneg 2 (pos i) ltac:(lia) (pos_nonneg i)). nia.
Qed.
End value.

Lemma limb_lengths : (forall i k c s s', mul_add i k c s = Some s' -> length s' = length s) /\ (forall i k c s s', mul_sub i k c s = Some s' -> length s' = length s) /\
  (forall i w c s s', carry_to i w c s = Some s' -> length s' = length s).
Proof.
  split; [|split]; intros *; unfold mul_add, mul_sub, carry_to; rewrite ?limb_sub_add; intros E; inv_binds; rewrite ?limb_sub_add in *;
    repeat match goal with H : limb_add _ _ _ = Some _ |- _ => apply limb_add_length in H end; congruence.
Qed.

(** ** Little-endian bytes *)
Lemma le_word_nonneg b : bytes_ok b -> 0 <= le_word b < 2 ^ (8 * zlen b).
Proof.
  induction 1 as [|x b Hx _ IH]; [change (0 <= 0 < 1); lia|]. cbn [le_word]. rewrite zlen_cons. replace (8 * (1 + zlen b)) with (8 + 8 * zlen b) by lia.
  rewrite Z.pow_add_r by (pose proof (zlen_nonneg b); lia). unfold in_range in Hx. change (2 ^ 8) with 256 in *. nia.
Qed.

Lemma byte_spec b i : bytes_ok b -> byte b i = (le_word b / 2 ^ (8 * Z.of_nat i)) mod 256.
Proof.
  intros Hb. revert i. induction Hb as [|x b Hx Hb IH]; intros i.
  { unfold byte. rewrite lookup_nil. cbn [default le_word]. rewrite Z.div_0_l; [done|]. apply Z.pow_nonzero; lia. }
  unfold in_range in Hx. cbn [le_word]. destruct i as [|i].
  - change (byte (x :: b) 0) with x. change (8 * Z.of_nat 0) with 0. rewrite Z.pow_0_r, Z.div_1_r.
    rewrite (Z.mul_comm 256), Z.mod_add by lia. by rewrite Z.mod_small.
  - change (byte (x :: b) (S i)) with (byte b i). rewrite IH. replace (8 * Z.of_nat (S i)) with (8 + 8 * Z.of_nat i) by lia.
    rewrite Z.pow_add_r, <- Z.div_div by (try apply Z.pow_pos_nonneg; lia). change (2 ^ 8) with 256.
    rewrite (Z.mul_comm 256), Z.div_add by lia. by rewrite (Z.div_small x), Z.add_0_l.
Qed.

Lemma byte_range b i : bytes_ok b -> 0 <= byte b i < 256.
Proof. intros Hb. rewrite byte_spec by done. by apply Z.mod_pos_bound. Qed.

(** The two lowest digits of an integer put together. *)
Lemma two_digits x a c : 0 <= a -> 0 <= c -> (x mod 2 ^ a) + 2 ^ a * ((x / 2 ^ a) mod 2 ^ c) = x mod 2 ^ (a + c).
Proof.
  intros Ha Hc. rewrite Z.pow_add_r by done. rewrite Z.rem_mul_r; [done|apply Z.pow_nonzero; lia|apply Z.pow_pos_nonneg; lia].
Qed.

Lemma load_spec b i : bytes_ok b ->
  load_3 b i = (le_word b / 2 ^ (8 * Z.of_nat i)) mod 2 ^ 24 /\ load_4 b i = (le_word b / 2 ^ (8 * Z.of_nat i)) mod 2 ^ 32.
Proof.
  intros Hb. unfold load_3, load_4. pose proof (byte_range b i Hb). pose proof (byte_range b (S i) Hb). pose proof (byte_range b (S (S i)) Hb).
  pose proof (byte_range b (S (S (S i))) Hb). set (x := le_word b / 2 ^ (8 * Z.of_nat i)).
  assert (forall k, byte b (k + i) = (x / 2 ^ (8 * Z.of_nat k)) mod 2 ^ 8) as E.
  { intros k. unfold x. rewrite byte_spec by done. rewrite Z.div_div by (try apply Z.pow_nonzero; try apply Z.pow_pos_nonneg; lia).
    rewrite <- Z.pow_add_r by lia. do 3 f_equal. lia. }
  pose proof (E 0%nat) as E0. pose proof (E 1%nat) as E1. pose proof (E 2%nat) as E2. pose proof (E 3%nat) as E3. cbn [Nat.add] in *.
  change (2 ^ (8 * Z.of_nat 0)) with 1 in E0. rewrite Z.div_1_r in E0. change (8 * Z.of_nat 1) with 8 in E1. change (8 * Z.of_nat 2) with 16 in E2. change (8 * Z.of_nat 3) with 24 in E3.
  rewrite (lor_shiftl_add (byte b i)) by lia. rewrite (lor_shiftl_add (byte b i + _)) by lia. rewrite (lor_shiftl_add (byte b i + _ + _)) by lia. clearbody x. rewrite E0, E1, E2, E3.
  pose proof (two_digits x 8 8 ltac:(lia) ltac:(lia)) as T1. pose proof (two_digits x 16 8 ltac:(lia) ltac:(lia)) as T2. pose proof (two_digits x 24 8 ltac:(lia) ltac:(lia)) as T3.
  change (8 + 8) with 16 in T1. change (16 + 8) with 24 in T2. change (24 + 8) with 32 in T3. split; lia.
Qed.

(** [w] bits of an integer, from bit [r] on, out of some of its low bits. *)
Lemma low_bits x n r w : 0 <= r -> 0 <= w -> r + w <= n -> (Z.shiftr (x mod 2 ^ n) r) mod 2 ^ w = (x / 2 ^ r) mod 2 ^ w.
Proof.
  intros Hr Hw Hn. rewrite Z.shiftr_div_pow2 by done. replace n with (r + (n - r)) by lia. rewrite Z.pow_add_r by lia.
  assert (0 < 2 ^ r) by (apply Z.pow_pos_nonneg; lia). assert (0 < 2 ^ (n - r)) by (apply Z.pow_pos_nonneg; lia).
  rewrite Z.rem_mul_r by lia. rewrite (Z.mul_comm (2 ^ r)), Z.div_add by lia. rewrite (Z.div_small (x mod 2 ^ r)) by by apply Z.mod_pos_bound.
  rewrite Z.add_0_l. replace (n - r) with (w + (n - r - w)) by lia. rewrite Z.pow_add_r by lia.
  assert (0 < 2 ^ w) by (apply Z.pow_pos_nonneg; lia). assert (0 < 2 ^ (n - r - w)) by (apply Z.pow_pos_nonneg; lia).
  rewrite Z.rem_mul_r by lia. rewrite (Z.mul_comm (2 ^ w)), Z.mod_add by lia. by rewrite Z.mod_mod by lia.
Qed.

Lemma le_bytes_seq n w : le_bytes n w = (fun i => (w / 2 ^ (8 * Z.of_nat i)) mod 256) <$> seq 0 n.
Proof.
  revert w. induction n as [|n IH]; intros w; [done|]. cbn [le_bytes seq fmap list_fmap]. rewrite land_ff. f_equal.
  { change (8 * Z.of_nat 0) with 0. by rewrite Z.pow_0_r, Z.div_1_r. }
  rewrite IH, <- fmap_S_seq, <- list_fmap_compose. apply list_fmap_ext. intros i k _. cbn [compose].
  rewrite Z.shiftr_div_pow2, Z.div_div by (try apply Z.pow_pos_nonneg; lia). rewrite <- Z.pow_add_r by lia. do 3 f_equal. lia.
Qed.

Lemma le_word_bytes n w : 0 <= w < 2 ^ (8 * Z.of_nat n) -> le_word (le_bytes n w) = w.
Proof.
  revert w. induction n as [|n IH]; intros w Hw; [cbn in *; lia|]. cbn [le_bytes le_word]. rewrite land_ff, Z.shiftr_div_pow2 by lia. change (2 ^ 8) with 256.
  rewrite IH; [pose proof (Z.div_mod w 256); lia|]. replace (8 * Z.of_nat (S n)) with (8 + 8 * Z.of_nat n) in Hw by lia. rewrite Z.pow_add_r in Hw by lia.
  change (2 ^ 8) with 256 in Hw. split; [apply Z.div_pos; lia|apply Z.div_lt_upper_bound; lia].
Qed.

Lemma le_bytes_word b : bytes_ok b -> le_bytes (length b) (le_word b) = b.
Proof.
  induction 1 as [|x b Hx _ IH]; [done|]. unfold in_range in Hx. cbn [length le_word le_bytes]. rewrite land_ff, Z.shiftr_div_pow2 by lia. change (2 ^ 8) with 256 in *.
  rewrite (Z.mul_comm 256), Z.mod_add, Z.div_add, (Z.div_small x), (Z.mod_small x), Z.add_0_l by lia. by rewrite IH.
Qed.

Lemma le_bytes_ok n w : pod_ok n (le_bytes n w).
Proof.
  split; [apply le_bytes_length|]. revert w. induction n as [|n IH]; intros w; constructor; [|apply IH]. rewrite land_ff. by apply Z.mod_pos_bound.
Qed.
