(* ===== verification/Scalar.v ===== *)
(** * Scalars

    The arithmetic modulo the order of the group in src/crypto/crypto-ops.c
    ([sc_reduce], [sc_reduce32], [sc_add], [sc_sub], [sc_mul], [sc_muladd],
    [sc_mulsub], [sc_check], [sc_isnonzero]).  A scalar is 32 bytes; the routines
    cut it into limbs of 21 bits.  Every routine is shown to compute the residue
    its comment promises, without overflow. *)
From Stdlib Require Import ZArith Lia Bool.
From stdpp Require Import prelude.
From S2P Require Import Prelude Keccak Limbs.
Local Open Scope Z_scope.

(** The order of the group. *)
Definition ell : Z := 2 ^ 252 + 27742317777372353535851937790883648493.

(** ** Limbs *)
Definition mask21 : Z := 2097151.

Definition limbs32 (s : blob) : list Z :=
  [Z.land mask21 (load_3 s 0); Z.land mask21 (Z.shiftr (load_4 s 2) 5); Z.land mask21 (Z.shiftr (load_3 s 5) 2);
   Z.land mask21 (Z.shiftr (load_4 s 7) 7); Z.land mask21 (Z.shiftr (load_4 s 10) 4); Z.land mask21 (Z.shiftr (load_3 s 13) 1);
   Z.land mask21 (Z.shiftr (load_4 s 15) 6); Z.land mask21 (Z.shiftr (load_3 s 18) 3); Z.land mask21 (load_3 s 21);
   Z.land mask21 (Z.shiftr (load_4 s 23) 5); Z.land mask21 (Z.shiftr (load_3 s 26) 2); Z.shiftr (load_4 s 28) 7].

Definition limbs64 (s : blob) : list Z :=
  [Z.land mask21 (load_3 s 0); Z.land mask21 (Z.shiftr (load_4 s 2) 5); Z.land mask21 (Z.shiftr (load_3 s 5) 2);
   Z.land mask21 (Z.shiftr (load_4 s 7) 7); Z.land mask21 (Z.shiftr (load_4 s 10) 4); Z.land mask21 (Z.shiftr (load_3 s 13) 1);
   Z.land mask21 (Z.shiftr (load_4 s 15) 6); Z.land mask21 (Z.shiftr (load_3 s 18) 3); Z.land mask21 (load_3 s 21);
   Z.land mask21 (Z.shiftr (load_4 s 23) 5); Z.land mask21 (Z.shiftr (load_3 s 26) 2); Z.land mask21 (Z.shiftr (load_4 s 28) 7);
   Z.land mask21 (Z.shiftr (load_4 s 31) 4); Z.land mask21 (Z.shiftr (load_3 s 34) 1); Z.land mask21 (Z.shiftr (load_4 s 36) 6);
   Z.land mask21 (Z.shiftr (load_3 s 39) 3); Z.land mask21 (load_3 s 42); Z.land mask21 (Z.shiftr (load_4 s 44) 5);
   Z.land mask21 (Z.shiftr (load_3 s 47) 2); Z.land mask21 (Z.shiftr (load_4 s 49) 7); Z.land mask21 (Z.shiftr (load_4 s 52) 4);
   Z.land mask21 (Z.shiftr (load_3 s 55) 1); Z.land mask21 (Z.shiftr (load_4 s 57) 6); Z.shiftr (load_4 s 60) 3].

(** The bytes the routines end with: [s[k] = s_j >> r], and
    [s[k] = (s_j >> r) | (s_{j+1} << (21 - r))]. *)
Definition low (s : list Z) (j : nat) (r : Z) : Z := u8 (Z.shiftr (s !!! j) r).
Definition both (s : list Z) (j : nat) (r l : Z) : Z := u8 (Z.lor (Z.shiftr (s !!! j) r) (Z.shiftl (s !!! S j) l)).

Definition pack (s : list Z) : blob :=
  [low s 0 0; low s 0 8; both s 0 16 5; low s 1 3; low s 1 11; both s 1 19 2; low s 2 6; both s 2 14 7;
   low s 3 1; low s 3 9; both s 3 17 4; low s 4 4; low s 4 12; both s 4 20 1; low s 5 7; both s 5 15 6;
   low s 6 2; low s 6 10; both s 6 18 3; low s 7 5; low s 7 13; low s 8 0; low s 8 8; both s 8 16 5;
   low s 9 3; low s 9 11; both s 9 19 2; low s 10 6; both s 10 14 7; low s 11 1; low s 11 9; low s 11 17].

(** ** The steps of a reduction

    [Near i] and [Down i] carry from limb [i], to the nearest and downwards; [Fold k] folds
    limb [k] into those 12 places below, as 2^252 is
    -27742317777372353535851937790883648493 modulo the order; [Clear k] is
    [s_k = 0]. *)
Inductive op := Near (i : nat) | Down (i : nat) | Fold (k : nat) | Clear (k : nat).

Definition fold_limb (k : nat) (s : list Z) : option (list Z) :=
  s ← mul_add (k - 12) k 666643 s; s ← mul_add (k - 11) k 470296 s; s ← mul_add (k - 10) k 654183 s;
  s ← mul_sub (k - 9) k 997805 s; s ← mul_add (k - 8) k 136657 s; mul_sub (k - 7) k 683901 s.

Definition do_op (o : op) (s : list Z) : option (list Z) :=
  match o with
  | Near i => carry_near i 21 s
  | Down i => carry i 21 s
  | Fold k => fold_limb k s
  | Clear k => Some (<[k := 0]> s)
  end.

Fixpoint run_ops (l : list op) (s : list Z) : option (list Z) :=
  match l with
  | [] => Some s
  | o :: l => s ← do_op o s; run_ops l s
  end.

(** The end all routines share, in two parts: to twelve limbs below 2^21 in size, and
    from there to the residue. *)
Definition settle : list op := [Near 0; Near 2; Near 4; Near 6; Near 8; Near 10; Near 1; Near 3; Near 5; Near 7; Near 9; Near 11; Fold 12; Clear 12].
Definition downwards : list op := [Down 0; Down 1; Down 2; Down 3; Down 4; Down 5; Down 6; Down 7; Down 8; Down 9; Down 10].
Definition finish : list op := downwards ++ [Down 11; Fold 12] ++ downwards.

(** The two rounds of folding that bring 24 limbs down to 12. *)
Definition fold_high : list op :=
  [Fold 23; Fold 22; Fold 21; Fold 20; Fold 19; Fold 18; Near 6; Near 8; Near 10; Near 12; Near 14; Near 16; Near 7; Near 9; Near 11; Near 13; Near 15;
   Fold 17; Fold 16; Fold 15; Fold 14; Fold 13; Fold 12; Clear 12].
(** The carries over all limbs of a product. *)
Definition spread : list op :=
  [Near 0; Near 2; Near 4; Near 6; Near 8; Near 10; Near 12; Near 14; Near 16; Near 18; Near 20; Near 22; Near 1; Near 3; Near 5; Near 7; Near 9; Near 11; Near 13; Near 15; Near 17; Near 19; Near 21].

(** ** The routines *)
Definition sc_0 : blob := replicate 32 0.

Definition sc_reduce (s : blob) : option blob := s ← run_ops (fold_high ++ settle ++ finish) (limbs64 s); Some (pack s).
Definition sc_reduce32 (s : blob) : option blob := s ← run_ops (settle ++ finish) (limbs32 s ++ [0]); Some (pack s).

(** src/ringct/rctCryptoOps.c: the same, into another buffer. *)
Definition sc_reduce32copy (s : blob) : option blob := s ← run_ops (settle ++ finish) (limbs32 s ++ [0]); Some (pack s).

Definition sc_add (a b : blob) : option blob :=
  s ← mapM int64 (zip_with Z.add (limbs32 a) (limbs32 b)); s ← run_ops (settle ++ finish) (s ++ [0]); Some (pack s).
Definition sc_sub (a b : blob) : option blob :=
  s ← mapM int64 (zip_with Z.sub (limbs32 a) (limbs32 b)); s ← run_ops (settle ++ finish) (s ++ [0]); Some (pack s).

(** [a_0 * b_k + a_1 * b_{k-1} + ...], over the limbs that exist. *)
Fixpoint dot (l : list (Z * Z)) (acc : Z) : option Z :=
  match l with
  | [] => Some acc
  | (x, y) :: l => p ← int64 (x * y); acc ← int64 (acc + p); dot l acc
  end.
Definition pairs (a b : list Z) (k : nat) : list (Z * Z) :=
  zip (drop (k - 11) (take (S k) a)) (reverse (drop (k - 11) (take (S k) b))).
Definition product (a b : list Z) : option (list Z) := mapM (fun k => dot (pairs a b k) 0) (seq 0 23).

Definition reduce_product (s : list Z) : option blob := s ← run_ops (spread ++ fold_high ++ settle ++ finish) (s ++ [0]); Some (pack s).

Definition sc_mul (a b : blob) : option blob := s ← product (limbs32 a) (limbs32 b); reduce_product s.
Definition sc_muladd (a b c : blob) : option blob :=
  s ← product (limbs32 a) (limbs32 b); s ← mapM int64 (zip_with Z.add (limbs32 c ++ replicate 11 0) s); reduce_product s.
Definition sc_mulsub (a b c : blob) : option blob :=
  s ← product (limbs32 a) (limbs32 b); s ← mapM int64 (zip_with Z.sub (limbs32 c ++ replicate 11 0) s); reduce_product s.

Definition signum (a : Z) : Z := if 0 <? a then 1 else if a <? 0 then -1 else 0.

(** 0 for a reduced scalar. *)
Definition sc_check (s : blob) : Z :=
  Z.shiftr (signum (1559614444 - load_4 s 0) + Z.shiftl (signum (1477600026 - load_4 s 4)) 1 + Z.shiftl (signum (2734136534 - load_4 s 8)) 2 +
    Z.shiftl (signum (350157278 - load_4 s 12)) 3 + Z.shiftl (signum (- load_4 s 16)) 4 + Z.shiftl (signum (- load_4 s 20)) 5 +
    Z.shiftl (signum (- load_4 s 24)) 6 + Z.shiftl (signum (268435456 - load_4 s 28)) 7) 8.

Definition sc_isnonzero (s : blob) : Z := Z.shiftr (foldl Z.lor 0 s - 1) 8 + 1.

(** ** Random scalars (src/crypto/crypto.cpp)

    [less32] compares from the last byte down.  [random32_unbiased] draws blocks
    of bytes until one is taken; [rnd n] is the [n]-th block. *)
Fixpoint less_from (k0 k1 : list Z) : bool :=
  match k0, k1 with
  | x :: k0, y :: k1 => if x <? y then true else if y <? x then false else less_from k0 k1
  | _, _ => false
  end.
Definition less32 (k0 k1 : blob) : bool := less_from (reverse k0) (reverse k1).

Definition random_limit : blob :=
  [227; 106; 103; 114; 139; 206; 19; 41; 143; 48; 130; 140; 11; 164; 16; 57; 1; 0; 0; 0; 0; 0; 0; 0; 0; 0; 0; 0; 0; 0; 0; 240].

Fixpoint random32_unbiased (fuel : nat) (rnd : nat -> blob) (n : nat) : option (blob * nat) :=
  match fuel with
  | O => None
  | S fuel =>
      let bytes := rnd n in
      if (sc_isnonzero bytes =? 0) && negb (less32 bytes random_limit) then random32_unbiased fuel rnd (S n)
      else r ← sc_reduce32 bytes; Some (r, S n)
  end.

(** ** Bounds of every step *)
Definition bound_fold (k : nat) (b : bounds) : option bounds :=
  b ← bound_mul_add (k - 12) k 666643 b; b ← bound_mul_add (k - 11) k 470296 b; b ← bound_mul_add (k - 10) k 654183 b;
  b ← bound_mul_sub (k - 9) k 997805 b; b ← bound_mul_add (k - 8) k 136657 b; bound_mul_sub (k - 7) k 683901 b.
Definition bound_step (o : op) (b : bounds) : option bounds :=
  match o with
  | Near i => bound_carry_near i 21 b
  | Down i => bound_carry i 21 b
  | Fold k => bound_fold k b
  | Clear k => Some (<[k := (0, 0)]> b)
  end.
Fixpoint bound_run (l : list op) (b : bounds) : option bounds :=
  match l with
  | [] => Some b
  | o :: l => b ← bound_step o b; bound_run l b
  end.

Lemma step_bounded o : bounded (do_op o) (bound_step o).
Proof.
  destruct o as [i|i|k|k]; cbn [do_op bound_step].
  - by apply carry_near_bounded.
  - by apply carry_bounded.
  - unfold fold_limb, bound_fold. repeat apply bounded_bind; (apply mul_add_bounded || apply mul_sub_bounded); lia.
  - intros s b b' Hs [= <-]. eexists. split; [done|]. by apply fits_insert.
Qed.

Lemma run_bounded l : bounded (run_ops l) (bound_run l).
Proof.
  induction l as [|o l IH]; cbn [run_ops bound_run].
  - intros s b b' Hs [= <-]. by eexists.
  - apply (bounded_bind _ _ _ _ (step_bounded o) IH).
Qed.

(** ** The residue every step keeps *)
Definition pos (i : nat) : Z := 21 * Z.of_nat i.
Abbreviation value := (Limbs.value pos).

Lemma pos_nonneg i : 0 <= pos i.
Proof. unfold pos. lia. Qed.
Lemma pos_S i : pos (S i) = pos i + 21.
Proof. unfold pos. lia. Qed.

(** How many limbs count after a step, if [n] did before. *)
Definition live_step (o : op) (n : nat) : option nat :=
  match o with
  | Near i | Down i => if decide (S i < n)%nat then Some n else None
  | Fold k => if decide (n = S k /\ 12 <= k)%nat then Some k else None
  | Clear k => if decide (n = k) then Some (S k) else None
  end.
Fixpoint live_run (l : list op) (n : nat) : option nat :=
  match l with
  | [] => Some n
  | o :: l => n ← live_step o n; live_run l n
  end.

(** One of the six products of a fold. *)
Lemma fold_part k j c s s' : (12 <= k < length s)%nat -> (j < 12)%nat ->
  (mul_add (k - 12 + j) k c s = Some s' -> value k s' = value k s + s !!! k * 2 ^ pos (k - 12) * (c * 2 ^ (21 * Z.of_nat j)) /\ length s' = length s /\ s' !!! k = s !!! k) /\
  (mul_sub (k - 12 + j) k c s = Some s' -> value k s' = value k s + s !!! k * 2 ^ pos (k - 12) * (- c * 2 ^ (21 * Z.of_nat j)) /\ length s' = length s /\ s' !!! k = s !!! k).
Proof.
  intros Hk Hj. assert (2 ^ pos (k - 12 + j) = 2 ^ pos (k - 12) * 2 ^ (21 * Z.of_nat j)) as Hpow.
  { rewrite <- Z.pow_add_r by (unfold pos; lia). f_equal. unfold pos. lia. }
  pose proof limb_lengths as (La & Ls & _). split; intros E; split.
  - rewrite (mul_add_value pos k _ _ _ _ _ E), Hpow by lia. ring.
  - split; [by eapply La|]. unfold mul_add in E. inv_binds. eapply limb_add_other; [exact E|lia].
  - rewrite (mul_sub_value pos k _ _ _ _ _ E), Hpow by lia. ring.
  - split; [by eapply Ls|]. unfold mul_sub in E. inv_binds. rewrite limb_sub_add in E. eapply limb_add_other; [exact E|lia].
Qed.

Lemma fold_value k s s' : fold_limb k s = Some s' -> (12 <= k < length s)%nat ->
  value k s' = value (S k) s - s !!! k * 2 ^ pos (k - 12) * ell /\ length s' = length s.
Proof.
  intros E Hk. unfold fold_limb in E.
  rewrite <- (Nat.add_0_r (k - 12)) in E. replace (k - 11)%nat with (k - 12 + 1)%nat in E by lia. replace (k - 10)%nat with (k - 12 + 2)%nat in E by lia.
  replace (k - 9)%nat with (k - 12 + 3)%nat in E by lia. replace (k - 8)%nat with (k - 12 + 4)%nat in E by lia. replace (k - 7)%nat with (k - 12 + 5)%nat in E by lia.
  apply bind_inv in E as (s1 & E1 & E). apply bind_inv in E as (s2 & E2 & E). apply bind_inv in E as (s3 & E3 & E).
  apply bind_inv in E as (s4 & E4 & E). apply bind_inv in E as (s5 & E5 & E6).
  apply fold_part in E1 as (V1 & L1 & K1); [|lia..]. apply fold_part in E2 as (V2 & L2 & K2); [|lia..]. apply fold_part in E3 as (V3 & L3 & K3); [|lia..].
  apply fold_part in E4 as (V4 & L4 & K4); [|lia..]. apply fold_part in E5 as (V5 & L5 & K5); [|lia..]. apply fold_part in E6 as (V6 & L6 & _); [|lia..].
  split; [|congruence]. rewrite value_S by lia. rewrite V6, V5, V4, V3, V2, V1, K5, K4, K3, K2, K1.
  assert (2 ^ pos k = 2 ^ pos (k - 12) * 2 ^ 252) as -> by (rewrite <- Z.pow_add_r by (unfold pos; lia); f_equal; unfold pos; lia).
  generalize (s !!! k) as x, (2 ^ pos (k - 12)) as w, (value k s) as v. intros x w v. unfold ell.
  change (21 * Z.of_nat 0) with 0. change (21 * Z.of_nat 1) with 21. change (21 * Z.of_nat 2) with 42. change (21 * Z.of_nat 3) with 63.
  change (21 * Z.of_nat 4) with 84. change (21 * Z.of_nat 5) with 105. ring.
Qed.

Lemma step_value o n n' s s' : do_op o s = Some s' -> live_step o n = Some n' -> (n <= length s)%nat -> (n' <= length s)%nat ->
  length s' = length s /\ exists q, value n' s' = value n s + q * ell.
Proof.
  intros E En Hn Hn'. pose proof limb_lengths as (_ & _ & Lc). destruct o as [i|i|k|k]; cbn [do_op live_step] in *.
  - destruct (decide _) as [Hi|]; [|done]. injection En as <-. split; [unfold carry_near in E; inv_binds; by eapply Lc|].
    exists 0. rewrite (carry_near_value pos pos_nonneg n _ _ _ _ E); [lia|lia|lia|apply pos_S].
  - destruct (decide _) as [Hi|]; [|done]. injection En as <-. split; [by eapply Lc|].
    exists 0. rewrite (carry_value pos pos_nonneg n _ _ _ _ E); [lia|lia|lia|apply pos_S].
  - destruct (decide _) as [[-> Hk]|]; [|done]. injection En as <-. apply fold_value in E as [E L]; [|lia]. split; [done|].
    exists (- (s !!! k * 2 ^ pos (k - 12))). rewrite E. ring.
  - destruct (decide _) as [->|]; [|done]. injection En as <-. injection E as <-. rewrite length_insert. split; [done|]. exists 0.
    rewrite value_S by (rewrite length_insert; lia). rewrite value_insert_ge, list_lookup_total_insert_eq by lia. lia.
Qed.

Lemma run_value l n n' m s s' : run_ops l s = Some s' -> live_run l n = Some n' -> (n <= m)%nat -> length s = m ->
  forallb (fun o => match o with Clear k => bool_decide (k < m)%nat | _ => true end) l = true ->
  length s' = m /\ exists q, value n' s' = value n s + q * ell.
Proof.
  revert n s. induction l as [|o l IH]; intros n s E En Hn Hm Hc; cbn [run_ops live_run] in *.
  { injection E as <-. injection En as <-. split; [done|]. exists 0. lia. }
  apply bind_inv in E as (s1 & E1 & E2). apply bind_inv in En as (n1 & N1 & N2). cbn [forallb] in Hc. apply andb_prop in Hc as [Hc1 Hc2].
  assert (n1 <= m)%nat as Hn1.
  { destruct o; cbn [live_step] in N1; case_decide; try done; injection N1 as <-; try lia. by apply bool_decide_eq_true_1 in Hc1. }
  apply (step_value _ _ _ _ _ E1) in N1 as [L1 [q1 V1]]; [|lia..]. destruct (IH n1 s1 E2 N2 Hn1 ltac:(lia) Hc2) as [L2 [q2 V2]].
  split; [done|]. exists (q2 + q1). rewrite V2, V1. ring.
Qed.

(** ** To the canonical residue *)
Definition is_carry (n : nat) (o : op) : bool := match o with Near i | Down i => bool_decide (S i < n)%nat | _ => false end.

Lemma run_carries l n s s' : run_ops l s = Some s' -> forallb (is_carry n) l = true -> (n <= length s)%nat -> value n s' = value n s /\ length s' = length s.
Proof.
  revert s. induction l as [|o l IH]; intros s E Hc Hn; cbn [run_ops forallb] in *; [by injection E as <-|].
  apply bind_inv in E as (s1 & E1 & E2). apply andb_prop in Hc as [Hc1 Hc2]. pose proof limb_lengths as (_ & _ & Lc).
  assert (value n s1 = value n s /\ length s1 = length s) as [V1 L1].
  { destruct o as [i|i| |]; try done; cbn [do_op is_carry] in *; apply bool_decide_eq_true_1 in Hc1.
    - split; [|unfold carry_near in E1; inv_binds; by eapply Lc]. apply (carry_near_value pos pos_nonneg n _ _ _ _ E1); [lia|lia|apply pos_S].
    - split; [|by eapply Lc]. apply (carry_value pos pos_nonneg n _ _ _ _ E1); [lia|lia|apply pos_S]. }
  destruct (IH s1 E2 Hc2 ltac:(lia)) as [V2 L2]. split; congruence.
Qed.

Lemma run_app l1 l2 s : run_ops (l1 ++ l2) s = run_ops l1 s ≫= run_ops l2.
Proof. revert s. induction l1 as [|o l1 IH]; intros s; [done|]. cbn [app run_ops]. destruct (do_op o s); [apply IH|done]. Qed.
Lemma bound_run_app l1 l2 b : bound_run (l1 ++ l2) b = bound_run l1 b ≫= bound_run l2.
Proof. revert b. induction l1 as [|o l1 IH]; intros b; [done|]. cbn [app bound_run]. destruct (bound_step o b); [apply IH|done]. Qed.

(** Limbs in proper form. *)
Definition digits (s : list Z) : Prop := (12 <= length s)%nat /\ forall i, (i < 11)%nat -> 0 <= s !!! i < 2 ^ 21.
Definition digit_bounds (k : nat) (b : bounds) : bool := forallb (fun r : Z * Z => (0 <=? r.1) && (r.2 <? 2 ^ 21)) (take k b).

Lemma digit_bounds_spec k b s : fits s b -> digit_bounds k b = true -> forall i, (i < k)%nat -> (i < length s)%nat -> 0 <= s !!! i < 2 ^ 21.
Proof.
  intros Hf Hd i Hi Hs. pose proof (fits_lookup s b i Hf) as Hr. pose proof (Forall2_length _ _ _ Hf) as Hl. unfold digit_bounds in Hd. rewrite forallb_forall in Hd.
  destruct (lookup_lt_is_Some_2 b i ltac:(lia)) as [r Er]. rewrite (list_lookup_total_correct _ _ _ Er) in Hr.
  assert (List.In r (take k b)) as Hin by (apply list_elem_of_In, (list_elem_of_lookup_2 _ i); by rewrite lookup_take_lt).
  apply Hd, andb_prop in Hin as [H1%Z.leb_le H2%Z.ltb_lt]. lia.
Qed.

Lemma value_digits n s : (n <= length s)%nat -> (forall i, (i < n)%nat -> 0 <= s !!! i < 2 ^ 21) -> 0 <= value n s < 2 ^ pos n.
Proof.
  induction n as [|n IH]; intros Hn Hd; [change (0 <= 0 < 1); lia|]. rewrite value_S by lia. specialize (IH ltac:(lia) ltac:(auto)). specialize (Hd n ltac:(lia)).
  rewrite pos_S, Z.pow_add_r by (apply pos_nonneg || lia). nia.
Qed.

(** What is to be known of the limbs the last part starts from. *)
Definition settled (b : bounds) : bool :=
  bool_decide (13 <= length b)%nat && (- 2 ^ 252 <=? bounds_at pos fst 0 (take 13 b)) && (bounds_at pos snd 0 (take 13 b) <? 2 ^ 252) &&
  match bound_run (downwards ++ [Down 11]) b with
  | Some b1 => digit_bounds 12 b1 && match bound_run ([Fold 12] ++ downwards) b1 with Some b2 => digit_bounds 11 b2 | None => false end
  | None => false
  end.

Lemma finish_spec s b : fits s b -> settled b = true -> exists s', run_ops finish s = Some s' /\ digits s' /\ value 12 s' = value 13 s mod ell.
Proof.
  intros Hf Hb. unfold settled in Hb. apply andb_prop in Hb as [Hb Hrun]. apply andb_prop in Hb as [Hb Hhi%Z.ltb_lt]. apply andb_prop in Hb as [Hlen%bool_decide_eq_true_1 Hlo%Z.leb_le].
  pose proof (Forall2_length _ _ _ Hf) as Hl. pose proof (value_bounds pos pos_nonneg 13 s b Hf) as Hv.
  destruct (bound_run (downwards ++ [Down 11]) b) as [b1|] eqn:B1; [|done]. apply andb_prop in Hrun as [Hd1 Hrun].
  destruct (bound_run _ b1) as [b2|] eqn:B2; [|done].
  destruct (run_bounded _ s b b1 Hf B1) as (s1 & E1 & F1). destruct (run_bounded _ s1 b1 b2 F1 B2) as (s2 & E2 & F2).
  exists s2. split; [change finish with ((downwards ++ [Down 11]) ++ ([Fold 12] ++ downwards)); rewrite run_app, E1; exact E2|].
  destruct (run_carries _ 13 _ _ E1) as [V1 L1]; [reflexivity|lia|]. rewrite run_app in E2. apply bind_inv in E2 as (s3 & E3 & E4).
  apply bind_inv in E3 as (s3' & E3 & [= <-]). cbn [do_op] in E3. apply fold_value in E3 as [V3 L3]; [|lia].
  destruct (run_carries _ 12 _ _ E4) as [V4 L4]; [reflexivity|lia|]. split.
  { split; [lia|]. intros i Hi. apply (digit_bounds_spec 11 b2); [done|done|done|lia]. }
  pose proof (value_digits 12 s1 ltac:(lia) (fun i Hi => digit_bounds_spec 12 b1 s1 F1 Hd1 i Hi ltac:(lia))) as D1.
  rewrite V4, V3, V1. change (pos (12 - 12)) with 0. rewrite Z.pow_0_r, Z.mul_1_r. rewrite value_S in V1 by lia. change (pos 12) with 252 in V1, D1.
  set (v := value 13 s) in *. clearbody v. set (q := s1 !!! 12%nat) in *. clearbody q. set (lo := value 12 s1) in *. clearbody lo.
  assert (q = -1 \/ q = 0) as Hq by lia. clear -Hq V1 D1 Hv Hlo Hhi. apply Z.mod_unique_pos with q; unfold ell in *; lia.
Qed.

(** A routine as a whole: steps that keep the residue, then the last part. *)
Definition reduces (pre : list op) (n : nat) (b : bounds) : bool :=
  match bound_run pre b, live_run pre n with
  | Some b1, Some m => bool_decide (m = 13 /\ n <= length b)%nat && settled b1 &&
      forallb (fun o => match o with Clear k => bool_decide (k < length b)%nat | _ => true end) pre
  | _, _ => false
  end.

Lemma reduces_spec pre n b s : reduces pre n b = true -> fits s b ->
  exists s', run_ops (pre ++ finish) s = Some s' /\ digits s' /\ value 12 s' = value n s mod ell.
Proof.
  intros Hr Hf. unfold reduces in Hr. destruct (bound_run pre b) as [b1|] eqn:B1; [|done]. destruct (live_run pre n) as [m|] eqn:M; [|done].
  apply andb_prop in Hr as [Hr Hc]. apply andb_prop in Hr as [[-> Hn]%bool_decide_eq_true_1 Hs].
  pose proof (Forall2_length _ _ _ Hf) as Hl. destruct (run_bounded _ s b b1 Hf B1) as (s1 & E1 & F1).
  destruct (run_value _ _ _ _ _ _ E1 M Hn Hl Hc) as [L1 [q V1]]. destruct (finish_spec s1 b1 F1 Hs) as (s2 & E2 & D2 & V2).
  exists s2. rewrite run_app, E1. split; [done|]. split; [done|]. rewrite V2, V1. apply Z.mod_add. discriminate.
Qed.

(** ** Bytes out *)
Lemma value_split j n s : (j <= n <= length s)%nat -> exists h, value n s = value j s + 2 ^ pos j * h.
Proof.
  intros [Hj Hn]. induction Hj as [|n Hj IH]; [exists 0; lia|]. destruct (IH ltac:(lia)) as [h Eh]. exists (h + s !!! n * 2 ^ (pos n - pos j)).
  rewrite value_S by lia. rewrite Eh. assert (2 ^ pos n = 2 ^ pos j * 2 ^ (pos n - pos j)) as -> by (rewrite <- Z.pow_add_r by (unfold pos; lia); f_equal; lia). ring.
Qed.

Definition top (s : list Z) (j : nat) : Z := value 12 s / 2 ^ pos j.

Lemma pow_pos_21 j : 0 < 2 ^ pos j.
Proof. apply Z.pow_pos_nonneg; [lia|apply pos_nonneg]. Qed.

Lemma top_step s j : digits s -> (j < 11)%nat -> top s j = s !!! j + 2 ^ 21 * top s (S j).
Proof.
  intros [Hl Hd] Hj. destruct (value_split (S j) 12 s ltac:(lia)) as [h Eh].
  pose proof (value_digits j s ltac:(lia) ltac:(intros; apply Hd; lia)) as D1. pose proof (value_digits (S j) s ltac:(lia) ltac:(intros; apply Hd; lia)) as D2.
  pose proof (pow_pos_21 j). pose proof (pow_pos_21 (S j)). assert (top s (S j) = h) as ->.
  { unfold top. rewrite Eh, (Z.mul_comm (2 ^ pos (S j))), Z.div_add, (Z.div_small (value (S j) s)) by lia. lia. }
  unfold top. rewrite Eh, value_S by lia. rewrite pos_S, Z.pow_add_r by (apply pos_nonneg || lia).
  replace (value j s + s !!! j * 2 ^ pos j + 2 ^ pos j * 2 ^ 21 * h) with (value j s + (s !!! j + 2 ^ 21 * h) * 2 ^ pos j) by ring.
  rewrite Z.div_add, Z.div_small by lia. lia.
Qed.

Lemma top_last s : digits s -> top s 11 = s !!! 11%nat.
Proof.
  intros [Hl Hd]. unfold top. rewrite value_S by lia. pose proof (value_digits 11 s ltac:(lia) ltac:(intros; apply Hd; lia)) as D1. pose proof (pow_pos_21 11).
  rewrite Z.div_add, Z.div_small by lia. lia.
Qed.

Lemma top_byte s j r : 0 <= r -> (value 12 s / 2 ^ (pos j + r)) mod 256 = (top s j / 2 ^ r) mod 256.
Proof. intros Hr. unfold top. rewrite Z.div_div by (pose proof (pow_pos_21 j); try apply Z.pow_pos_nonneg; lia). by rewrite <- Z.pow_add_r by (apply pos_nonneg || done). Qed.

(** Bits below those of the higher part. *)
Lemma div_shifted x t w r : 0 <= r <= w -> (x + 2 ^ w * t) / 2 ^ r = x / 2 ^ r + 2 ^ (w - r) * t.
Proof.
  intros Hr. assert (2 ^ w = 2 ^ (w - r) * 2 ^ r) as -> by (rewrite <- Z.pow_add_r by lia; f_equal; lia).
  replace (x + 2 ^ (w - r) * 2 ^ r * t) with (x + 2 ^ (w - r) * t * 2 ^ r) by ring. rewrite Z.div_add by (apply Z.pow_nonzero; lia). done.
Qed.

Lemma mod_shifted x t w : 8 <= w -> (x + 2 ^ w * t) mod 256 = x mod 256.
Proof.
  intros Hw. assert (2 ^ w = 2 ^ (w - 8) * 256) as -> by (change 256 with (2 ^ 8); rewrite <- Z.pow_add_r by lia; f_equal; lia).
  replace (x + 2 ^ (w - 8) * 256 * t) with (x + 2 ^ (w - 8) * t * 256) by ring. by apply Z.mod_add.
Qed.

Lemma low_spec s j r : digits s -> 0 <= r -> ((j < 11)%nat /\ r <= 13 \/ j = 11%nat) -> low s j r = (value 12 s / 2 ^ (pos j + r)) mod 256.
Proof.
  intros Hd Hr Hj. rewrite top_byte by done. unfold low, wrap. rewrite Z.shiftr_div_pow2 by done. change (2 ^ 8) with 256. destruct Hj as [[Hj Hr'] | -> ].
  - rewrite top_step by done. rewrite div_shifted by lia. by rewrite mod_shifted by lia.
  - by rewrite top_last.
Qed.

Lemma both_spec s j r l : digits s -> (j < 11)%nat -> l = 21 - r -> 0 <= r <= 21 -> both s j r l = (value 12 s / 2 ^ (pos j + r)) mod 256.
Proof.
  intros Hd Hj -> Hr. rewrite top_byte by lia. unfold both, wrap. rewrite Z.shiftr_div_pow2 by lia. change (2 ^ 8) with 256. rewrite top_step, div_shifted by (done || lia).
  assert (0 <= s !!! j < 2 ^ 21) as Hs by (apply Hd; lia). assert (0 < 2 ^ r) by (apply Z.pow_pos_nonneg; lia).
  rewrite lor_shiftl_add; [|lia|split; [apply Z.div_pos; lia|apply Z.div_lt_upper_bound; [lia|]; rewrite <- Z.pow_add_r by lia; replace (r + (21 - r)) with 21 by lia; lia]].
  destruct (decide (S j < 11)%nat) as [Hj'|Hj'].
  - rewrite (top_step s (S j)) by done.
    replace (s !!! j / 2 ^ r + 2 ^ (21 - r) * (s !!! S j + 2 ^ 21 * top s (S (S j)))) with
      ((s !!! j / 2 ^ r + s !!! S j * 2 ^ (21 - r)) + 2 ^ 21 * (2 ^ (21 - r) * top s (S (S j)))) by ring. by rewrite mod_shifted by lia.
  - replace j with 10%nat by lia. rewrite top_last by done. do 2 f_equal. apply Z.mul_comm.
Qed.

Lemma pack_spec s : digits s -> pack s = le_bytes 32 (value 12 s).
Proof.
  intros Hd. rewrite le_bytes_seq. cbn [seq fmap list_fmap]. unfold pack.
  repeat (apply (f_equal2 cons); [first [rewrite low_spec by (done || lia)|rewrite both_spec by (done || lia)]; reflexivity|]). reflexivity.
Qed.

(** ** Bytes in *)
Definition chunk (w : Z) (i : nat) : Z := (w / 2 ^ pos i) mod 2 ^ 21.

Lemma load_chunk (b : blob) (i j : nat) (r : Z) : bytes_ok b -> 0 <= r -> 8 * Z.of_nat i + r = pos j ->
  (r <= 3 -> Z.land mask21 (Z.shiftr (load_3 b i) r) = chunk (le_word b) j) /\ (r <= 11 -> Z.land mask21 (Z.shiftr (load_4 b i) r) = chunk (le_word b) j).
Proof.
  intros Hb Hr Hj. destruct (load_spec b i Hb) as [-> ->]. unfold mask21, chunk. change 2097151 with (Z.ones 21). rewrite !(Z.land_comm (Z.ones 21)), !Z.land_ones by lia.
  assert (le_word b / 2 ^ pos j = le_word b / 2 ^ (8 * Z.of_nat i) / 2 ^ r) as ->.
  { rewrite Z.div_div by (try apply Z.pow_nonzero; try apply Z.pow_pos_nonneg; lia). rewrite <- Z.pow_add_r by lia. by rewrite Hj. }
  split; intros Hr'; apply low_bits; lia.
Qed.

Lemma load_last (b : blob) (i j : nat) (r : Z) : bytes_ok b -> 0 <= r -> 8 * Z.of_nat i + r = pos j -> length b = S (S (S (S i))) ->
  Z.shiftr (load_4 b i) r = le_word b / 2 ^ pos j.
Proof.
  intros Hb Hr Hj Hl. destruct (load_spec b i Hb) as [_ ->]. pose proof (le_word_nonneg b Hb) as Hw. unfold zlen in Hw. rewrite Hl in Hw.
  rewrite <- Hj, Z.pow_add_r, <- Z.div_div, Z.shiftr_div_pow2 by (try apply Z.pow_nonzero; try apply Z.pow_pos_nonneg; lia). f_equal. apply Z.mod_small.
  assert (0 < 2 ^ (8 * Z.of_nat i)) by (apply Z.pow_pos_nonneg; lia). split; [apply Z.div_pos; lia|]. apply Z.div_lt_upper_bound; [done|].
  rewrite <- Z.pow_add_r by lia. replace (8 * Z.of_nat i + 32) with (8 * Z.of_nat (S (S (S (S i))))) by lia. lia.
Qed.

Lemma limbs32_spec s : pod_ok 32 s -> limbs32 s = (chunk (le_word s) <$> seq 0 11) ++ [le_word s / 2 ^ pos 11].
Proof.
  intros [Hl Hb]. unfold limbs32. cbn [seq fmap list_fmap app]. rewrite (load_last s 28 11 7) by done. rewrite <- (Z.shiftr_0_r (load_3 s 0)), <- (Z.shiftr_0_r (load_3 s 21)).
  repeat (apply (f_equal2 cons); [eapply load_chunk; [done|lia|reflexivity|lia]|]). reflexivity.
Qed.

Lemma limbs64_spec s : pod_ok 64 s -> limbs64 s = (chunk (le_word s) <$> seq 0 23) ++ [le_word s / 2 ^ pos 23].
Proof.
  intros [Hl Hb]. unfold limbs64. cbn [seq fmap list_fmap app]. rewrite (load_last s 60 23 3) by done.
  rewrite <- (Z.shiftr_0_r (load_3 s 0)), <- (Z.shiftr_0_r (load_3 s 21)), <- (Z.shiftr_0_r (load_3 s 42)).
  repeat (apply (f_equal2 cons); [eapply load_chunk; [done|lia|reflexivity|lia]|]). reflexivity.
Qed.

Lemma chunks_value w n : value_at pos 0 (chunk w <$> seq 0 n) = w mod 2 ^ pos n.
Proof.
  induction n as [|n IH]; [change (0 = w mod 1); by rewrite Z.mod_1_r|].
  rewrite seq_S, fmap_app, value_at_app, IH, length_fmap, length_seq. cbn [fmap list_fmap value_at Nat.add]. unfold chunk.
  rewrite pos_S. rewrite <- (two_digits w (pos n) 21) by (apply pos_nonneg || lia). ring.
Qed.

Lemma chunks_fit w n : fits (chunk w <$> seq 0 n) (replicate n (0, 2 ^ 21 - 1)).
Proof.
  generalize 0%nat as k. induction n as [|n IH]; intros k; [constructor|]. cbn [seq fmap list_fmap replicate]. constructor; [|apply IH].
  cbn [fst snd]. unfold chunk. pose proof (Z.mod_pos_bound (w / 2 ^ pos k) (2 ^ 21)). lia.
Qed.

(** The limbs of 32 bytes, and what they stand for. *)
Definition bounds32 : bounds := replicate 11 (0, 2 ^ 21 - 1) ++ [(0, 2 ^ 25 - 1)].

Lemma limbs_value w n : 0 <= w -> value (S n) ((chunk w <$> seq 0 n) ++ [w / 2 ^ pos n]) = w.
Proof.
  intros Hw. unfold Limbs.value. rewrite take_ge by (rewrite length_app, length_fmap, length_seq; cbn; lia). rewrite value_at_app, chunks_value, length_fmap, length_seq.
  cbn [value_at Nat.add]. pose proof (pow_pos_21 n). pose proof (Z.div_mod w (2 ^ pos n)). lia.
Qed.

Lemma limbs32_value s : pod_ok 32 s -> value 12 (limbs32 s) = le_word s /\ fits (limbs32 s) bounds32.
Proof.
  intros Hs. rewrite limbs32_spec by done. destruct Hs as [Hl Hb]. pose proof (le_word_nonneg s Hb) as Hw. unfold zlen in Hw. rewrite Hl in Hw.
  split; [apply limbs_value; lia|]. apply Forall2_app; [apply chunks_fit|]. constructor; [|constructor]. cbn [fst snd]. change (pos 11) with 231.
  change (2 ^ (8 * Z.of_nat 32)) with (2 ^ 231 * 2 ^ 25) in Hw. pose proof (Z.div_lt_upper_bound (le_word s) (2 ^ 231) (2 ^ 25)). pose proof (Z.div_pos (le_word s) (2 ^ 231)). lia.
Qed.

Lemma limbs64_value s : pod_ok 64 s -> value 24 (limbs64 s) = le_word s /\ fits (limbs64 s) (replicate 23 (0, 2 ^ 21 - 1) ++ [(0, 2 ^ 29 - 1)]).
Proof.
  intros Hs. rewrite limbs64_spec by done. destruct Hs as [Hl Hb]. pose proof (le_word_nonneg s Hb) as Hw. unfold zlen in Hw. rewrite Hl in Hw.
  split; [apply limbs_value; lia|]. apply Forall2_app; [apply chunks_fit|]. constructor; [|constructor]. cbn [fst snd]. change (pos 23) with 483.
  change (2 ^ (8 * Z.of_nat 64)) with (2 ^ 483 * 2 ^ 29) in Hw. pose proof (Z.div_lt_upper_bound (le_word s) (2 ^ 483) (2 ^ 29)). pose proof (Z.div_pos (le_word s) (2 ^ 483)). lia.
Qed.

(** ** The routines compute residues *)

(** The 32 bytes of an integer modulo the order. *)
Definition scalar (z : Z) : blob := le_bytes 32 (z mod ell).

Lemma ell_bounds : 2 ^ 252 < ell < 2 ^ 253.
Proof. by_decide. Qed.

Lemma le_word_scalar z : le_word (scalar z) = z mod ell.
Proof.
  unfold scalar. apply le_word_bytes. pose proof ell_bounds. pose proof (Z.mod_pos_bound z ell). change (8 * Z.of_nat 32) with 256. lia.
Qed.
Lemma scalar_ok z : pod_ok 32 (scalar z).
Proof. apply le_bytes_ok. Qed.

Lemma reduced pre n b s : reduces pre n b = true -> fits s b -> run_ops (pre ++ finish) s ≫= (fun s => Some (pack s)) = Some (scalar (value n s)).
Proof. intros Hr Hf. destruct (reduces_spec pre n b s Hr Hf) as (s' & -> & Hd & Hv). cbn [mbind option_bind]. rewrite pack_spec by done. by rewrite Hv. Qed.

Lemma value_zip f g a b : (forall x y, f x y = x + g * y) -> length a = length b -> value (length a) (zip_with f a b) = value (length a) a + g * value (length a) b.
Proof.
  intros Hf Hl. unfold Limbs.value. rewrite !take_ge by (rewrite ?length_zip_with; lia). generalize 0%nat as k. revert b Hl.
  induction a as [|x a IH]; intros [|y b] Hl k; cbn [zip_with value_at]; [ring|done|done|]. rewrite IH by (cbn in Hl; lia). rewrite Hf. ring.
Qed.

Lemma fits_zip f a b ba bb (bf : Z * Z -> Z * Z -> Z * Z) : (forall x y r t, r.1 <= x <= r.2 -> t.1 <= y <= t.2 -> (bf r t).1 <= f x y <= (bf r t).2) ->
  fits a ba -> fits b bb -> fits (zip_with f a b) (zip_with bf ba bb).
Proof. intros Hf Ha. revert b bb. induction Ha as [|x r a ba Hx Ha IH]; intros b bb [|y t b' bb' Hy Hb]; cbn [zip_with]; constructor; auto. by apply IH. Qed.

Lemma fits_int64 s b : fits s b -> forallb (fun r : Z * Z => (- 2 ^ 63 <=? r.1) && (r.2 <? 2 ^ 63)) b = true -> mapM int64 s = Some s.
Proof.
  induction 1 as [|x r s b Hx _ IH]; [done|]. cbn [forallb]. intros [[H1%Z.leb_le H2%Z.ltb_lt]%andb_prop Hb]%andb_prop. cbn [mapM]. rewrite int64_some by lia.
  cbn [mbind option_bind]. by rewrite IH.
Qed.

Lemma value_zero n s : length s = n -> value (S n) (s ++ [0]) = value n s.
Proof. intros <-. unfold Limbs.value. rewrite !take_ge by (rewrite ?length_app; cbn; lia). rewrite value_at_app. cbn [value_at]. lia. Qed.

Lemma fits_app s b x r : fits s b -> r.1 <= x <= r.2 -> fits (s ++ [x]) (b ++ [r]).
Proof. intros Hs Hx. apply Forall2_app; [done|]. by constructor. Qed.

Lemma sc_reduce_correct s : pod_ok 64 s -> sc_reduce s = Some (scalar (le_word s)).
Proof.
  intros Hs. destruct (limbs64_value s Hs) as [<- Hf]. unfold sc_reduce. rewrite app_assoc. eapply reduced; [|exact Hf]. vm_compute. reflexivity.
Qed.

Lemma settle_correct s g : fits s (replicate 12 (- 2 ^ 26, 2 ^ 26)) -> value 12 s = g -> run_ops (settle ++ finish) (s ++ [0]) ≫= (fun s => Some (pack s)) = Some (scalar g).
Proof.
  intros Hf <-. rewrite <- value_zero by by rewrite (Forall2_length _ _ _ Hf), length_replicate.
  apply (reduced settle 13 (replicate 12 (- 2 ^ 26, 2 ^ 26) ++ [(0, 0)])); [vm_compute; reflexivity|]. apply fits_app; [done|cbn [fst snd]; lia].
Qed.

Lemma fits_weaken s b b' : fits s b -> Forall2 (fun r t : Z * Z => t.1 <= r.1 /\ r.2 <= t.2) b b' -> fits s b'.
Proof. intros Hs Hb. revert s Hs. induction Hb as [|r t b b' Ht _ IH]; intros s Hs; inversion Hs as [|x ? s' ? Hx Hs']; subst; constructor; [lia|]. by apply IH. Qed.

Lemma sc_reduce32_correct s : pod_ok 32 s -> sc_reduce32 s = Some (scalar (le_word s)).
Proof.
  intros Hs. destruct (limbs32_value s Hs) as [Hv Hf]. apply settle_correct; [|done]. eapply fits_weaken; [exact Hf|]. by_decide.
Qed.

Lemma sc_add_correct a b : pod_ok 32 a -> pod_ok 32 b -> sc_add a b = Some (scalar (le_word a + le_word b)).
Proof.
  intros [Va Fa]%limbs32_value [Vb Fb]%limbs32_value. unfold sc_add.
  assert (fits (zip_with Z.add (limbs32 a) (limbs32 b)) (zip_with (fun r t => (r.1 + t.1, r.2 + t.2)) bounds32 bounds32)) as Hf
    by (apply fits_zip; [intros; cbn [fst snd]; lia|done..]).
  rewrite (fits_int64 _ _ Hf) by reflexivity. cbn [mbind option_bind]. apply settle_correct; [eapply fits_weaken; [exact Hf|by_decide]|].
  rewrite <- Va, <- Vb. rewrite (value_zip Z.add 1 (limbs32 a)) by (try done; intros; lia). cbn [length limbs32]. lia.
Qed.

Lemma sc_sub_correct a b : pod_ok 32 a -> pod_ok 32 b -> sc_sub a b = Some (scalar (le_word a - le_word b)).
Proof.
  intros [Va Fa]%limbs32_value [Vb Fb]%limbs32_value. unfold sc_sub.
  assert (fits (zip_with Z.sub (limbs32 a) (limbs32 b)) (zip_with (fun r t => (r.1 - t.2, r.2 - t.1)) bounds32 bounds32)) as Hf
    by (apply fits_zip; [intros; cbn [fst snd]; lia|done..]).
  rewrite (fits_int64 _ _ Hf) by reflexivity. cbn [mbind option_bind]. apply settle_correct; [eapply fits_weaken; [exact Hf|by_decide]|].
  rewrite <- Va, <- Vb. rewrite (value_zip Z.sub (-1) (limbs32 a)) by (try done; intros; lia). cbn [length limbs32]. lia.
Qed.

(** ** Products *)
Fixpoint sum_pairs (l : list (Z * Z)) : Z :=
  match l with
  | [] => 0
  | (x, y) :: l => x * y + sum_pairs l
  end.

Definition small (x : Z) : Prop := 0 <= x < 2 ^ 25.

Lemma dot_spec l acc : Forall (fun p => small p.1 /\ small p.2) l -> 0 <= acc -> acc + zlen l * 2 ^ 50 < 2 ^ 63 ->
  dot l acc = Some (acc + sum_pairs l) /\ 0 <= sum_pairs l <= zlen l * 2 ^ 50.
Proof.
  intros Hl. revert acc. induction Hl as [|[x y] l [Hx Hy] _ IH]; intros acc Ha Hb; cbn [dot sum_pairs]; [rewrite Z.add_0_r; split; [done|change (@zlen (Z * Z) []) with 0; lia]|].
  rewrite zlen_cons in *. unfold small in *. cbn [fst snd] in *. assert (0 <= x * y <= 2 ^ 50) as Hp by nia. pose proof (zlen_nonneg l).
  rewrite int64_some by lia. cbn [mbind option_bind]. rewrite int64_some by lia. cbn [mbind option_bind].
  destruct (IH (acc + x * y)) as [-> Hs]; [lia|lia|]. split; [f_equal; lia|lia].
Qed.

Lemma pairs_small a b k : Forall small a -> Forall small b -> length a = 12%nat -> Forall (fun p => small p.1 /\ small p.2) (pairs a b k) /\ zlen (pairs a b k) <= 12.
Proof.
  intros Ha Hb Hl. unfold pairs. split.
  - assert (Forall small (drop (k - 11) (take (S k) a))) as Ha' by by apply Forall_drop, Forall_take.
    assert (Forall small (reverse (drop (k - 11) (take (S k) b)))) as Hb' by (apply Forall_reverse; by apply Forall_drop, Forall_take).
    revert Hb'. generalize (reverse (drop (k - 11) (take (S k) b))) as l. induction Ha' as [|x a' Hx _ IH]; intros l Hl'; [constructor|].
    inversion Hl' as [|y l' Hy Hl'']; subst; [constructor|]. constructor; [done|]. by apply IH.
  - unfold zlen. rewrite length_zip_with, length_drop, length_take. lia.
Qed.

Lemma small_bounds s : fits s bounds32 -> Forall small s /\ length s = 12%nat.
Proof.
  intros Hf. split; [|by rewrite (Forall2_length _ _ _ Hf)]. apply Forall_lookup. intros i x Hx. destruct (Forall2_lookup_l _ _ _ _ _ Hf Hx) as (r & Hr & Hxr).
  assert (Forall (fun r : Z * Z => 0 <= r.1 /\ r.2 < 2 ^ 25) bounds32) as Hb by by_decide. rewrite Forall_lookup in Hb. specialize (Hb i r Hr). unfold small. lia.
Qed.

Lemma convolution (a b : list Z) : length a = 12%nat -> length b = 12%nat -> value 23 ((fun k => sum_pairs (pairs a b k)) <$> seq 0 23) = value 12 a * value 12 b.
Proof.
  intros Ha Hb. do 12 (destruct a as [|? a]; [done|]). destruct a; [|done]. do 12 (destruct b as [|? b]; [done|]). destruct b; [|done].
  cbv [Limbs.value value_at seq fmap list_fmap take drop pairs zip zip_with reverse rev_append sum_pairs Nat.sub].
  assert (forall k, 2 ^ pos k = (2 ^ 21) ^ Z.of_nat k) as Hp by (intros k; unfold pos; apply Z.pow_mul_r; lia).
  rewrite !Hp. generalize (2 ^ 21) as w. intros w. cbv [Z.of_nat Pos.of_succ_nat Pos.succ]. ring.
Qed.

Lemma product_spec a b : pod_ok 32 a -> pod_ok 32 b -> exists s, product (limbs32 a) (limbs32 b) = Some s /\ fits s (replicate 23 (0, 12 * 2 ^ 50)) /\
  value 23 s = le_word a * le_word b.
Proof.
  intros [Va [Sa La]%small_bounds]%limbs32_value [Vb [Sb Lb]%small_bounds]%limbs32_value. eexists. split; [|split; [|rewrite <- Va, <- Vb; by apply convolution]].
  - unfold product. apply mapM_Some_2. generalize (seq 0 23). intros ks. induction ks as [|k ks IH]; constructor; [|apply IH].
    destruct (pairs_small _ _ k Sa Sb La) as [Hs Hz]. destruct (dot_spec _ 0 Hs) as [-> _]; [lia|lia|]. by rewrite Z.add_0_l.
  - generalize 0%nat at 1. generalize 23%nat. intros n. induction n as [|n IH]; intros k; [constructor|]. cbn [seq fmap list_fmap replicate]. constructor; [|apply IH].
    destruct (pairs_small _ _ k Sa Sb La) as [Hs Hz]. destruct (dot_spec _ 0 Hs) as [_ Hd]; [lia|lia|]. cbn [fst snd]. lia.
Qed.

Lemma reduce_product_correct s g : fits s (replicate 23 (- 2 ^ 54, 2 ^ 54)) -> value 23 s = g -> reduce_product s = Some (scalar g).
Proof.
  intros Hf <-. rewrite <- value_zero by by rewrite (Forall2_length _ _ _ Hf), length_replicate. unfold reduce_product.
  rewrite (app_assoc fold_high), app_assoc.
  apply (reduced (spread ++ fold_high ++ settle) 24 (replicate 23 (- 2 ^ 54, 2 ^ 54) ++ [(0, 0)])); [vm_compute; reflexivity|]. apply fits_app; [done|cbn [fst snd]; lia].
Qed.

Lemma sc_mul_correct a b : pod_ok 32 a -> pod_ok 32 b -> sc_mul a b = Some (scalar (le_word a * le_word b)).
Proof.
  intros Ha Hb. destruct (product_spec a b Ha Hb) as (s & E & Hf & Hv). unfold sc_mul. rewrite E. cbn [mbind option_bind].
  apply reduce_product_correct; [|done]. eapply fits_weaken; [exact Hf|]. by_decide.
Qed.

(** A product added to, or taken from, a third scalar. *)
Lemma with_addend f g a b c : (forall x y, f x y = x + g * y) -> (g = 1 \/ g = -1) -> pod_ok 32 a -> pod_ok 32 b -> pod_ok 32 c ->
  (s ← product (limbs32 a) (limbs32 b); s ← mapM int64 (zip_with f (limbs32 c ++ replicate 11 0) s); reduce_product s) =
  Some (scalar (le_word c + g * (le_word a * le_word b))).
Proof.
  intros Hfg Hg Ha Hb [Vc Fc]%limbs32_value. destruct (product_spec a b Ha Hb) as (s & -> & Hf & Hv). cbn [mbind option_bind].
  assert (fits (limbs32 c ++ replicate 11 0) (bounds32 ++ replicate 11 (0, 0))) as Fc' by (apply Forall2_app; [done|by_decide]).
  assert (fits (zip_with f (limbs32 c ++ replicate 11 0) s) (zip_with (fun r t => (r.1 - t.2, r.2 + t.2)) (bounds32 ++ replicate 11 (0, 0)) (replicate 23 (0, 12 * 2 ^ 50)))) as Hz.
  { clear -Fc' Hf Hfg Hg. revert Hf Fc'. generalize (bounds32 ++ replicate 11 (0, 0)) as bb, (limbs32 c ++ replicate 11 0) as l. intros bb l Hf Hl.
    revert s bb l Hf Hl. generalize 23%nat as n. induction n as [|n IH]; intros s bb l Hf Hl; inversion Hf as [|y ? s' ? Hy Hs]; subst; [destruct l, bb; constructor|].
    inversion Hl as [|x r l' bb' Hx Hl']; subst; cbn [zip_with replicate]; constructor; [|by apply IH]. rewrite Hfg. cbn [fst snd] in *. destruct Hg as [-> | ->]; lia. }
  rewrite (fits_int64 _ _ Hz) by reflexivity. cbn [mbind option_bind]. apply reduce_product_correct; [eapply fits_weaken; [exact Hz|by_decide]|].
  pose proof (Forall2_length _ _ _ Hf) as Ls. rewrite length_replicate in Ls. pose proof (Forall2_length _ _ _ Fc') as Lc.
  change 23%nat with (length (bounds32 ++ replicate 11 (0, 0))) at 1. rewrite <- Lc. rewrite (value_zip f g) by (done || by rewrite Ls, Lc). rewrite Lc.
  change (length (bounds32 ++ replicate 11 (0, 0))) with 23%nat. rewrite Hv, <- Vc. f_equal.
Qed.

Lemma sc_muladd_correct a b c : pod_ok 32 a -> pod_ok 32 b -> pod_ok 32 c -> sc_muladd a b c = Some (scalar (le_word c + le_word a * le_word b)).
Proof. intros Ha Hb Hc. rewrite <- (Z.mul_1_l (_ * _)). apply with_addend; [intros; lia|by left|done..]. Qed.

Lemma sc_mulsub_correct a b c : pod_ok 32 a -> pod_ok 32 b -> pod_ok 32 c -> sc_mulsub a b c = Some (scalar (le_word c - le_word a * le_word b)).
Proof. intros Ha Hb Hc. replace (le_word c - _) with (le_word c + -1 * (le_word a * le_word b)) by ring. apply with_addend; [intros; lia|by right|done..]. Qed.

(** ** Comparisons *)
Fixpoint weigh (base : Z) (l : list Z) : Z :=
  match l with
  | [] => 0
  | x :: l => x + base * weigh base l
  end.

(** The signs of the digits, weighed, have the sign of the number. *)
Lemma weigh_signum l : Forall (fun x => - 2 ^ 32 < x < 2 ^ 32) l -> Z.sgn (weigh 2 (signum <$> l)) = Z.sgn (weigh (2 ^ 32) l).
Proof.
  induction 1 as [|x l Hx _ IH]; [done|]. cbn [weigh fmap list_fmap]. fold (signum <$> l) in *. unfold signum at 1.
  destruct (Z.ltb_spec 0 x), (Z.ltb_spec x 0); try lia; destruct (Z.sgn_spec (weigh 2 (signum <$> l))) as [[? E]|[[? E]|[? E]]]; rewrite E in IH;
    destruct (Z.sgn_spec (weigh (2 ^ 32) l)) as [[? E']|[[? E']|[? E']]]; rewrite E' in IH; try discriminate IH;
    try (rewrite !Z.sgn_pos by lia; done); try (rewrite !Z.sgn_neg by lia; done).
Qed.

Lemma words_value n w : 0 <= w < 2 ^ (32 * Z.of_nat n) -> weigh (2 ^ 32) ((fun i => (w / 2 ^ (32 * Z.of_nat i)) mod 2 ^ 32) <$> seq 0 n) = w.
Proof.
  revert w. induction n as [|n IH]; intros w Hw; [change (2 ^ (32 * Z.of_nat 0)) with 1 in Hw; cbn; lia|]. cbn [seq fmap list_fmap weigh].
  rewrite <- fmap_S_seq, <- list_fmap_compose. rewrite (list_fmap_ext _ (fun i => (w / 2 ^ 32 / 2 ^ (32 * Z.of_nat i)) mod 2 ^ 32)).
  - rewrite IH; [change (32 * Z.of_nat 0) with 0; rewrite Z.pow_0_r, Z.div_1_r; pose proof (Z.div_mod w (2 ^ 32)); lia|].
    replace (32 * Z.of_nat (S n)) with (32 + 32 * Z.of_nat n) in Hw by lia. rewrite Z.pow_add_r in Hw by lia. split; [apply Z.div_pos; lia|apply Z.div_lt_upper_bound; lia].
  - intros i k _. cbn [compose]. rewrite Z.div_div by (try apply Z.pow_pos_nonneg; lia). rewrite <- Z.pow_add_r by lia. do 3 f_equal. lia.
Qed.

Lemma weigh_sub base l m : length l = length m -> weigh base (zip_with Z.sub l m) = weigh base l - weigh base m.
Proof. revert m. induction l as [|x l IH]; intros [|y m] Hl; cbn [zip_with weigh]; [lia|done|done|]. rewrite IH by (cbn in Hl; lia). ring. Qed.

Lemma sc_check_correct s : pod_ok 32 s -> sc_check s = if le_word s <? ell then 0 else -1.
Proof.
  intros [Hl Hb]. pose proof (le_word_nonneg s Hb) as Hw. unfold zlen in Hw. rewrite Hl in Hw. change (8 * Z.of_nat 32) with (32 * Z.of_nat 8) in Hw.
  set (ws := (fun i => (le_word s / 2 ^ (32 * Z.of_nat i)) mod 2 ^ 32) <$> seq 0 8). set (cs := [1559614444; 1477600026; 2734136534; 350157278; 0; 0; 0; 268435456]).
  pose proof (words_value 8 (le_word s) Hw) as Ev. fold ws in Ev. clear Hw.
  assert (Forall (fun x => - 2 ^ 32 < x < 2 ^ 32) (zip_with Z.sub cs ws)) as Hd.
  { unfold cs, ws. cbn [seq fmap list_fmap zip_with]. repeat constructor; match goal with |- context [?x mod ?y] => pose proof (Z.mod_pos_bound x y) end; lia. }
  pose proof (weigh_signum _ Hd) as Hs. rewrite weigh_sub, Ev in Hs by done. change (weigh (2 ^ 32) cs) with (ell - 1) in Hs.
  assert (sc_check s = Z.shiftr (weigh 2 (signum <$> zip_with Z.sub cs ws)) 8) as ->.
  { unfold sc_check. f_equal. unfold cs, ws. cbn [seq fmap list_fmap zip_with weigh]. rewrite !Z.shiftl_mul_pow2 by lia.
    repeat match goal with |- context [load_4 s ?i] => rewrite (proj2 (load_spec s i Hb)) end. repeat match goal with |- context [0 - ?x] => change (0 - x) with (- x) end.
    change (8 * Z.of_nat 0) with (32 * Z.of_nat 0). change (8 * Z.of_nat 4) with (32 * Z.of_nat 1). change (8 * Z.of_nat 8) with (32 * Z.of_nat 2). change (8 * Z.of_nat 12) with (32 * Z.of_nat 3).
    change (8 * Z.of_nat 16) with (32 * Z.of_nat 4). change (8 * Z.of_nat 20) with (32 * Z.of_nat 5). change (8 * Z.of_nat 24) with (32 * Z.of_nat 6). change (8 * Z.of_nat 28) with (32 * Z.of_nat 7). ring. }
  assert (-256 <= weigh 2 (signum <$> zip_with Z.sub cs ws) < 256) as Hr.
  { assert (forall x, -1 <= signum x <= 1) as Hsg by (intros x; unfold signum; repeat case_match; lia). unfold cs, ws. cbn [seq fmap list_fmap zip_with weigh].
    repeat match goal with |- context [signum ?x] => pose proof (Hsg x); set (signum x) in * end. lia. }
  set (t := weigh 2 _) in *. clearbody t. rewrite Z.shiftr_div_pow2 by lia. change (2 ^ 8) with 256. destruct (Z.ltb_spec (le_word s) ell).
  - assert (0 <= t) by (destruct (Z.sgn_spec (ell - 1 - le_word s)) as [[? E]|[[? E]|[? E]]]; rewrite E in Hs; destruct (Z.sgn_spec t) as [[? E']|[[? E']|[? E']]]; rewrite E' in Hs; lia). apply Z.div_small. lia.
  - assert (t < 0) by (rewrite (Z.sgn_neg (ell - 1 - le_word s)) in Hs by lia; apply Z.sgn_neg_iff; lia). symmetry. apply Z.div_unique with (t + 256); lia.
Qed.

Lemma lor_fold_zero l acc : Forall is_u8 l -> is_u8 acc -> is_u8 (foldl Z.lor acc l) /\ (foldl Z.lor acc l = 0 <-> acc = 0 /\ le_word l = 0).
Proof.
  intros Hl. revert acc. induction Hl as [|x l Hx Hl IH]; intros acc Ha; cbn [foldl le_word]; [split; [done|tauto]|].
  destruct (IH (Z.lor acc x)) as [H1 H2]; [by apply lor_range|]. split; [done|]. rewrite H2, Z.lor_eq_0_iff. pose proof (le_word_nonneg l Hl). unfold in_range in Hx. lia.
Qed.

Lemma sc_isnonzero_correct s : bytes_ok s -> sc_isnonzero s = if le_word s =? 0 then 0 else 1.
Proof.
  intros Hb. destruct (lor_fold_zero s 0 Hb ltac:(unfold in_range; lia)) as [Hr Hz]. unfold sc_isnonzero. unfold in_range in Hr. set (x := foldl Z.lor 0 s) in *. clearbody x.
  change (2 ^ 8) with 256 in Hr. rewrite Z.shiftr_div_pow2 by lia. change (2 ^ 8) with 256. destruct (Z.eqb_spec (le_word s) 0) as [E|E].
  - assert (x = 0) as -> by tauto. done.
  - rewrite Z.div_small by (assert (x <> 0) by tauto; lia). done.
Qed.

(** C28: arithmetic modulo the order of the group.  Whatever bytes they are
    given, reduced or not, the routines of crypto-ops.c return the 32 bytes of
    the residue their comments promise, and no do_op of theirs overflows a 64-bit
    integer (an overflow would be [None]).  [sc_check] accepts exactly the reduced
    scalars and [sc_isnonzero] tells zero from the rest. *)
Theorem scalar_arithmetic a b c d : pod_ok 32 a -> pod_ok 32 b -> pod_ok 32 c -> pod_ok 64 d ->
  sc_reduce d = Some (scalar (le_word d)) /\ sc_reduce32 a = Some (scalar (le_word a)) /\
  sc_add a b = Some (scalar (le_word a + le_word b)) /\ sc_sub a b = Some (scalar (le_word a - le_word b)) /\
  sc_mul a b = Some (scalar (le_word a * le_word b)) /\
  sc_muladd a b c = Some (scalar (le_word c + le_word a * le_word b)) /\ sc_mulsub a b c = Some (scalar (le_word c - le_word a * le_word b)) /\
  (sc_check a = 0 <-> le_word a < ell) /\ (sc_isnonzero a = 0 <-> le_word a = 0).
Proof.
  intros Ha Hb Hc Hd. split; [by apply sc_reduce_correct|]. split; [by apply sc_reduce32_correct|]. split; [by apply sc_add_correct|]. split; [by apply sc_sub_correct|].
  split; [by apply sc_mul_correct|]. split; [by apply sc_muladd_correct|]. split; [by apply sc_mulsub_correct|]. split.
  - rewrite sc_check_correct by done. destruct (Z.ltb_spec (le_word a) ell); lia.
  - rewrite sc_isnonzero_correct by apply Ha. destruct (Z.eqb_spec (le_word a) 0); lia.
Qed.

Lemma scalar_arithmetic_witness : sc_mulsub (replicate 32 255) (replicate 32 254) (replicate 32 253) =
  Some (scalar (le_word (replicate 32 253) - le_word (replicate 32 255) * le_word (replicate 32 254))).
Proof. apply (scalar_arithmetic (replicate 32 255) (replicate 32 254) (replicate 32 253) (replicate 64 255)); by_decide. Defined.

(** ** Random scalars *)

Lemma random32_first fuel rnd n : (forall k, pod_ok 32 (rnd k)) -> random32_unbiased (S fuel) rnd n = Some (scalar (le_word (rnd n)), S n).
Proof.
  intros Hr. cbn [random32_unbiased]. rewrite sc_isnonzero_correct by apply Hr.
  assert (sc_reduce32 (rnd n) = Some (scalar (le_word (rnd n)))) as -> by by apply sc_reduce32_correct.
  destruct (Z.eqb_spec (le_word (rnd n)) 0) as [E|E]; [|done]. rewrite <- (le_bytes_word (rnd n)) by apply Hr. destruct (Hr n) as [-> _]. rewrite E. reflexivity.
Qed.

(** what [random32_unbiased] draws.  Its comment expects about one draw in
    sixteen to be thrown away; the loop repeats only while the block is both zero
    and not below the limit, which no block is.  So the first block is always
    taken, whatever it is: blocks above the limit are reduced as well, which
    favours the residues they reach, and a block equal to the order gives the
    scalar zero. *)
Theorem random32_takes_first fuel rnd n : (forall k, pod_ok 32 (rnd k)) -> (0 < fuel)%nat ->
  random32_unbiased fuel rnd n = Some (scalar (le_word (rnd n)), S n).
Proof. intros Hr Hf. destruct fuel as [|fuel]; [lia|]. by apply random32_first. Qed.

Lemma random32_takes_first_witness : random32_unbiased 16 (fun _ => le_bytes 32 ell) 0 = Some (sc_0, 1%nat) /\ less32 (le_bytes 32 (2 ^ 256 - 1)) random_limit = false /\
  random32_unbiased 16 (fun _ => le_bytes 32 (2 ^ 256 - 1)) 0 = Some (scalar (2 ^ 256 - 1), 1%nat).
Proof.
  split; [|split; [by_decide|]].
  - rewrite (random32_takes_first 16 (fun _ => le_bytes 32 ell) 0); [vm_compute; reflexivity|intros _; apply le_bytes_ok|lia].
  - rewrite (random32_takes_first 16 (fun _ => le_bytes 32 (2 ^ 256 - 1)) 0); [vm_compute; reflexivity|intros _; apply le_bytes_ok|lia].
Defined.
