(* ===== verification/RctOps.v ===== *)
(** * Operations on keys

    Model of src/ringct/rctOps.cpp and of the conversions of
    src/ringct/rctTypes.cpp: the layer between the curve and the proofs of
    RingCT.  A key is 32 bytes, a point or a scalar.  The points of the curve
    and the arithmetic on them (the [ge_] functions of src/crypto/crypto-ops.c)
    are the class [Curve], with what is documented of them as the class
    [CurveLaws]; the scalars are those of Scalar.v.  [None] is an exception. *)
From Stdlib Require Import ZArith Lia Bool.
From stdpp Require Import prelude.
From S2P Require Import Prelude Keccak Limbs Scalar.
Local Open Scope Z_scope.

#[local] Opaque cn_fast_hash.

(** ** The curve *)
Class Curve := {
  point : Type;
  ge_frombytes_vartime : blob -> option point;
  ge_tobytes : point -> blob;
  ge_add : point -> point -> point;
  ge_sub : point -> point -> point;
  ge_identity : point;
  ge_p3_H : point;
  ge_scalarmult : blob -> point -> point;
  ge_scalarmult_base : blob -> point;
  (** a * A + b * G, and a * A + b * B *)
  ge_double_scalarmult_base_vartime : blob -> point -> blob -> point;
  ge_double_scalarmult_precomp_vartime : blob -> point -> blob -> point -> point;
  ge_mul8 : point -> point;
  ge_fromfe_frombytes_vartime : blob -> point;
  (** the constants [G], [H] and [H2] of rctOps.h and rctTypes.h *)
  key_G : blob;
  key_H : blob;
  H2 : list blob
}.

(** ** Constants *)
Definition zero_key : blob := replicate 32 0.
Definition identity_key : blob := 1 :: replicate 31 0.
Definition curveOrder : blob :=
  [237; 211; 245; 92; 26; 99; 18; 88; 214; 156; 247; 162; 222; 249; 222; 20; 0; 0; 0; 0; 0; 0; 0; 0; 0; 0; 0; 0; 0; 0; 0; 16].
Definition INV_EIGHT : blob :=
  [121; 47; 220; 226; 41; 229; 6; 97; 208; 218; 28; 125; 179; 157; 211; 7; 0; 0; 0; 0; 0; 0; 0; 0; 0; 0; 0; 0; 0; 0; 0; 6].

(** ** Conversions (rctTypes.cpp) *)
Fixpoint d2h_loop (n : nat) (val : Z) : blob :=
  match n with
  | O => []
  | S n => if val =? 0 then replicate (S n) 0 else Z.land val 255 :: d2h_loop n (val / 256)
  end.
Definition d2h (amount : Z) : blob := d2h_loop 32 amount.

Fixpoint d2b_loop (n : nat) (val : Z) : list Z :=
  match n with
  | O => []
  | S n => if val =? 0 then replicate (S n) 0 else Z.land val 1 :: d2b_loop n (Z.shiftr val 1)
  end.
Definition d2b (val : Z) : list Z := d2b_loop 64 val.

Definition h2d (test : blob) : Z := foldr (fun x vali => u64 (vali * 256 + x)) 0 (take 8 test).
Definition b2d (amountb : list Z) : Z := foldr (fun x vali => u64 (vali * 2 + x)) 0 (take 64 amountb).

(** The eight bits of a byte, lowest first. *)
Definition h2b (test : blob) : list Z := concat ((fun x => d2b_loop 8 x) <$> take 8 test).
Definition b2h (amountb2 : list Z) : blob :=
  ((fun j => u8 (foldr (fun x b => b * 2 + x) 0 (take 8 (drop (8 * j) amountb2)))) <$> seq 0 8) ++ replicate 24 0.

(** ** Hashes *)
Definition keys_hash (keys : list blob) : blob := cn_fast_hash (concat keys).
Definition hash_to_scalar (keys : list blob) : option blob := sc_reduce32 (keys_hash keys).

Section ops.
Context `{Curve}.

(** ** Points *)
Definition toPointCheckOrder (data : blob) : option point :=
  P ← ge_frombytes_vartime data;
  if bool_decide (ge_tobytes (ge_scalarmult curveOrder P) = identity_key) then Some P else None.
Definition isInMainSubgroup (a : blob) : bool := match toPointCheckOrder a with Some _ => true | None => false end.

Definition scalarmultBase (a : blob) : option blob := a ← sc_reduce32copy a; Some (ge_tobytes (ge_scalarmult_base a)).
Definition scalarmultKey (P a : blob) : option blob := A ← ge_frombytes_vartime P; Some (ge_tobytes (ge_scalarmult a A)).
Definition scalarmultH (a : blob) : blob := ge_tobytes (ge_scalarmult a ge_p3_H).
Definition scalarmult8 (P : blob) : option blob := p3 ← ge_frombytes_vartime P; Some (ge_tobytes (ge_mul8 p3)).

Definition addKeys (A B : blob) : option blob :=
  B2 ← ge_frombytes_vartime B; A2 ← ge_frombytes_vartime A; Some (ge_tobytes (ge_add A2 B2)).
Definition subKeys (A B : blob) : option blob :=
  B2 ← ge_frombytes_vartime B; A2 ← ge_frombytes_vartime A; Some (ge_tobytes (ge_sub A2 B2)).

Fixpoint addKeys_loop (A : list blob) (p3 : point) : option point :=
  match A with
  | [] => Some p3
  | k :: A => tmp ← ge_frombytes_vartime k; addKeys_loop A (ge_add p3 tmp)
  end.
(** [addKeys] of a vector *)
Definition addKeys_all (A : list blob) : option blob :=
  match A with
  | [] => Some identity_key
  | k :: A => p3 ← ge_frombytes_vartime k; p3 ← addKeys_loop A p3; Some (ge_tobytes p3)
  end.

Fixpoint sumKeys_loop (Cis : list blob) (Csum : blob) : option blob :=
  match Cis with
  | [] => Some Csum
  | C :: Cis => Csum ← addKeys Csum C; sumKeys_loop Cis Csum
  end.
Definition sumKeys (Cis : list blob) : option blob := sumKeys_loop Cis identity_key.

Definition addKeys1 (a B : blob) : option blob := aG ← scalarmultBase a; addKeys aG B.
Definition addKeys2 (a b B : blob) : option blob :=
  B2 ← ge_frombytes_vartime B; Some (ge_tobytes (ge_double_scalarmult_base_vartime b B2 a)).
(** The second point is given as a point, after [precomp]. *)
Definition precomp (B : blob) : option point := ge_frombytes_vartime B.
Definition addKeys3 (a A b : blob) (B : point) : option blob :=
  A2 ← ge_frombytes_vartime A; Some (ge_tobytes (ge_double_scalarmult_precomp_vartime a A2 b B)).

Definition equalKeys (a b : blob) : bool := bool_decide (a = b).

Definition hashToPoint (hh : blob) : blob := ge_tobytes (ge_mul8 (ge_fromfe_frombytes_vartime (cn_fast_hash hh))).

(** ** Commitments *)
Definition genC (a : blob) (amount : Z) : option blob := addKeys1 a (scalarmultH (d2h amount)).
Definition zeroCommit (amount : Z) : option blob := addKeys key_G (scalarmultH (d2h amount)).
Definition commit (amount : Z) (mask : blob) : option blob := c ← scalarmultBase mask; addKeys c (scalarmultH (d2h amount)).
End ops.

(** ** The encoded mask and amount *)
Definition ecdhEncode (mask amount sharedSec : blob) : option (blob * blob) :=
  sharedSec1 ← hash_to_scalar [sharedSec]; sharedSec2 ← hash_to_scalar [sharedSec1];
  mask ← sc_add mask sharedSec1; amount ← sc_add amount sharedSec2; Some (mask, amount).
Definition ecdhDecode (mask amount sharedSec : blob) : option (blob * blob) :=
  sharedSec1 ← hash_to_scalar [sharedSec]; sharedSec2 ← hash_to_scalar [sharedSec1];
  mask ← sc_sub mask sharedSec1; amount ← sc_sub amount sharedSec2; Some (mask, amount).

(** ** What is known of the curve *)

(** A scalar in its range. *)
Definition sc_ok (a : blob) : Prop := pod_ok 32 a /\ le_word a < ell.

(** The points are an abelian group with multiples by integers; encoding a point
    and reading it back gives the point; the base points, and eight times any
    point, have the order of the scalars. *)
Class CurveLaws `{Curve} := {
  ge_opp : point -> point;
  ge_smul : Z -> point -> point;
  ge_base : point;
  ge_add_assoc p q r : ge_add p (ge_add q r) = ge_add (ge_add p q) r;
  ge_add_comm p q : ge_add p q = ge_add q p;
  ge_add_0_l p : ge_add ge_identity p = p;
  ge_add_opp p : ge_add p (ge_opp p) = ge_identity;
  ge_sub_opp p q : ge_sub p q = ge_add p (ge_opp q);
  ge_smul_1 p : ge_smul 1 p = p;
  ge_smul_plus x y p : ge_smul (x + y) p = ge_add (ge_smul x p) (ge_smul y p);
  ge_order_base : ge_smul ell ge_base = ge_identity;
  ge_base_order x : ge_smul x ge_base = ge_identity -> x mod ell = 0;
  ge_order_H : ge_smul ell ge_p3_H = ge_identity;
  ge_order_8 p : ge_smul ell (ge_smul 8 p) = ge_identity;
  ge_mul8_spec p : ge_mul8 p = ge_smul 8 p;
  ge_scalarmult_spec a p : pod_ok 32 a -> le_word a < 2 ^ 255 -> ge_scalarmult a p = ge_smul (le_word a) p;
  ge_scalarmult_base_spec a : sc_ok a -> ge_scalarmult_base a = ge_smul (le_word a) ge_base;
  ge_double_base_spec a b p : sc_ok a -> sc_ok b -> ge_double_scalarmult_base_vartime a p b = ge_add (ge_smul (le_word a) p) (ge_smul (le_word b) ge_base);
  ge_double_precomp_spec a b p q : sc_ok a -> sc_ok b -> ge_double_scalarmult_precomp_vartime a p b q = ge_add (ge_smul (le_word a) p) (ge_smul (le_word b) q);
  ge_frombytes_tobytes p : ge_frombytes_vartime (ge_tobytes p) = Some p;
  ge_tobytes_ok p : pod_ok 32 (ge_tobytes p);
  ge_tobytes_identity : ge_tobytes ge_identity = identity_key;
  key_G_spec : ge_frombytes_vartime key_G = Some ge_base;
  key_H_spec : ge_frombytes_vartime key_H = Some ge_p3_H;
  H2_spec i : (i < 64)%nat -> exists k, H2 !! i = Some k /\ ge_frombytes_vartime k = Some (ge_smul (2 ^ Z.of_nat i) ge_p3_H)
}.

Section laws.
Context `{CurveLaws}.
Implicit Types p q r : point.

Lemma ge_add_0_r p : ge_add p ge_identity = p.
Proof. by rewrite ge_add_comm, ge_add_0_l. Qed.
Lemma ge_opp_add p : ge_add (ge_opp p) p = ge_identity.
Proof. by rewrite ge_add_comm, ge_add_opp. Qed.

Lemma ge_add_cancel p q r : ge_add p q = ge_add p r -> q = r.
Proof. intros E. apply (f_equal (ge_add (ge_opp p))) in E. rewrite !ge_add_assoc, !ge_opp_add, !ge_add_0_l in E. done. Qed.

Lemma ge_smul_0 p : ge_smul 0 p = ge_identity.
Proof. apply (ge_add_cancel (ge_smul 0 p)). by rewrite <- ge_smul_plus, ge_add_0_r. Qed.

Lemma ge_smul_opp x p : ge_smul (- x) p = ge_opp (ge_smul x p).
Proof. apply (ge_add_cancel (ge_smul x p)). by rewrite <- ge_smul_plus, ge_add_opp, Z.add_opp_diag_r, ge_smul_0. Qed.

Lemma ge_opp_identity : ge_opp ge_identity = ge_identity.
Proof. apply (ge_add_cancel ge_identity). by rewrite ge_add_opp, ge_add_0_l. Qed.

Lemma ge_add_swap p q r s : ge_add (ge_add p q) (ge_add r s) = ge_add (ge_add p r) (ge_add q s).
Proof. rewrite <- !ge_add_assoc. f_equal. rewrite !ge_add_assoc. f_equal. apply ge_add_comm. Qed.

Lemma ge_opp_dist p q : ge_opp (ge_add p q) = ge_add (ge_opp p) (ge_opp q).
Proof. apply (ge_add_cancel (ge_add p q)). by rewrite ge_add_opp, ge_add_swap, !ge_add_opp, ge_add_0_l. Qed.

(** An equation that holds for one multiple more or less holds for all. *)
Lemma Z_both_ways (P : Z -> Prop) : P 0 -> (forall x, P x -> P (x + 1)) -> (forall x, P x -> P (x - 1)) -> forall x, P x.
Proof. intros H1 H2 H3 x. apply Z.bi_induction; [solve_proper|done|]. intros n. unfold Z.succ. split; [apply H2|]. intros Hn%H3. by replace (n + 1 - 1) with n in Hn by lia. Qed.

Lemma ge_smul_pred x p : ge_smul (x - 1) p = ge_add (ge_smul x p) (ge_opp p).
Proof. rewrite <- Z.add_opp_r, ge_smul_plus, ge_smul_opp, ge_smul_1. done. Qed.

Lemma ge_smul_dist x p q : ge_smul x (ge_add p q) = ge_add (ge_smul x p) (ge_smul x q).
Proof.
  revert x. apply Z_both_ways; [by rewrite !ge_smul_0, ge_add_0_l|intros x IH..].
  - by rewrite !ge_smul_plus, !ge_smul_1, IH, ge_add_swap.
  - by rewrite !ge_smul_pred, IH, ge_opp_dist, ge_add_swap.
Qed.

Lemma ge_smul_identity x : ge_smul x ge_identity = ge_identity.
Proof. apply (ge_add_cancel (ge_smul x ge_identity)). by rewrite <- ge_smul_dist, ge_add_0_l, ge_add_0_r. Qed.

Lemma ge_smul_mul x y p : ge_smul (x * y) p = ge_smul x (ge_smul y p).
Proof.
  revert x. apply Z_both_ways; [by rewrite !ge_smul_0|intros x IH..].
  - by rewrite Z.mul_add_distr_r, Z.mul_1_l, !ge_smul_plus, ge_smul_1, IH.
  - by rewrite Z.mul_sub_distr_r, Z.mul_1_l, ge_smul_pred, <- Z.add_opp_r, ge_smul_plus, ge_smul_opp, IH.
Qed.

(** Points of the order of the scalars: multiples are taken modulo it. *)
Definition main p : Prop := ge_smul ell p = ge_identity.

Lemma main_smul x p : main p -> main (ge_smul x p).
Proof. intros Hp. unfold main. rewrite <- ge_smul_mul, Z.mul_comm, ge_smul_mul, Hp. apply ge_smul_identity. Qed.
Lemma main_add p q : main p -> main q -> main (ge_add p q).
Proof. intros Hp Hq. unfold main. by rewrite ge_smul_dist, Hp, Hq, ge_add_0_l. Qed.

Lemma ge_smul_mod x p : main p -> ge_smul (x mod ell) p = ge_smul x p.
Proof.
  intros Hp. pose proof (Z.div_mod x ell ltac:(by_decide)) as E. rewrite E at 2. by rewrite ge_smul_plus, Z.mul_comm, ge_smul_mul, Hp, ge_smul_identity, ge_add_0_l.
Qed.

Lemma ge_tobytes_inj p q : ge_tobytes p = ge_tobytes q -> p = q.
Proof. intros E. apply (f_equal ge_frombytes_vartime) in E. rewrite !ge_frombytes_tobytes in E. by injection E. Qed.

(** ** Keys *)
Lemma scalar_sc_ok z : sc_ok (scalar z).
Proof. split; [apply scalar_ok|]. rewrite le_word_scalar. by apply Z.mod_pos_bound. Qed.

Lemma sc_ok_nonneg a : sc_ok a -> 0 <= le_word a < ell.
Proof. intros [[_ Hb] Hl]. pose proof (le_word_nonneg a Hb). lia. Qed.

Lemma sc_ok_scalar a : sc_ok a -> scalar (le_word a) = a.
Proof. intros Ha. pose proof (sc_ok_nonneg a Ha). destruct Ha as [[Hl Hb] _]. unfold scalar. rewrite Z.mod_small by done. rewrite <- Hl. by apply le_bytes_word. Qed.

Lemma scalarmultBase_spec a : pod_ok 32 a -> scalarmultBase a = Some (ge_tobytes (ge_smul (le_word a) ge_base)).
Proof.
  intros Ha. unfold scalarmultBase. change (sc_reduce32copy a) with (sc_reduce32 a). rewrite sc_reduce32_correct by done. cbn [mbind option_bind].
  rewrite ge_scalarmult_base_spec by apply scalar_sc_ok. rewrite le_word_scalar, ge_smul_mod; [done|apply ge_order_base].
Qed.

Lemma addKeys_spec p q : addKeys (ge_tobytes p) (ge_tobytes q) = Some (ge_tobytes (ge_add p q)).
Proof. unfold addKeys. by rewrite !ge_frombytes_tobytes. Qed.
Lemma zeroCommit_total amount : is_Some (zeroCommit amount).
Proof. unfold zeroCommit, addKeys, scalarmultH. rewrite key_G_spec, ge_frombytes_tobytes. by eexists. Qed.
Lemma subKeys_spec p q : subKeys (ge_tobytes p) (ge_tobytes q) = Some (ge_tobytes (ge_sub p q)).
Proof. unfold subKeys. by rewrite !ge_frombytes_tobytes. Qed.

Lemma scalarmultH_spec a : pod_ok 32 a -> le_word a < 2 ^ 255 -> scalarmultH a = ge_tobytes (ge_smul (le_word a) ge_p3_H).
Proof. intros Ha Hl. unfold scalarmultH. by rewrite ge_scalarmult_spec. Qed.

Lemma addKeys2_spec a b B p : sc_ok a -> sc_ok b -> ge_frombytes_vartime B = Some p ->
  addKeys2 a b B = Some (ge_tobytes (ge_add (ge_smul (le_word b) p) (ge_smul (le_word a) ge_base))).
Proof. intros Ha Hb E. unfold addKeys2. rewrite E. cbn [mbind option_bind]. by rewrite ge_double_base_spec. Qed.

Lemma addKeys3_spec a A b p q : sc_ok a -> sc_ok b -> ge_frombytes_vartime A = Some p ->
  addKeys3 a A b q = Some (ge_tobytes (ge_add (ge_smul (le_word a) p) (ge_smul (le_word b) q))).
Proof. intros Ha Hb E. unfold addKeys3. rewrite E. cbn [mbind option_bind]. by rewrite ge_double_precomp_spec. Qed.

Lemma hashToPoint_main hh : exists p, hashToPoint hh = ge_tobytes p /\ main p.
Proof. unfold hashToPoint. eexists. split; [done|]. rewrite ge_mul8_spec. apply ge_order_8. Qed.

Lemma hash_to_scalar_some keys : exists c, hash_to_scalar keys = Some c /\ sc_ok c.
Proof. unfold hash_to_scalar. rewrite sc_reduce32_correct by (apply cn_fast_hash_ok). eexists. split; [done|]. apply scalar_sc_ok. Qed.
End laws.

(** ** Conversions *)
Lemma d2h_loop_spec n val : 0 <= val -> pod_ok n (d2h_loop n val) /\ (val < 2 ^ (8 * Z.of_nat n) -> le_word (d2h_loop n val) = val).
Proof.
  revert val. induction n as [|n IH]; intros val Hv; [split; [split; [done|constructor]|change (2 ^ (8 * Z.of_nat 0)) with 1; cbn; lia]|]. cbn [d2h_loop]. destruct (Z.eqb_spec val 0) as [->|Hz].
  - split; [split; [apply length_replicate|apply Forall_replicate; unfold in_range; lia]|]. intros _. clear. induction n as [|n IH]; [done|]. cbn [replicate le_word] in *. lia.
  - destruct (IH (val / 256)) as [[Hl Hb] Hw]; [apply Z.div_pos; lia|]. split; [split; [cbn; by rewrite Hl|]|].
    + constructor; [|done]. rewrite land_ff. by apply Z.mod_pos_bound.
    + intros Hlt. cbn [le_word]. rewrite Hw, land_ff; [pose proof (Z.div_mod val 256); lia|].
      replace (8 * Z.of_nat (S n)) with (8 + 8 * Z.of_nat n) in Hlt by lia. rewrite Z.pow_add_r in Hlt by lia. apply Z.div_lt_upper_bound; lia.
Qed.

Lemma d2h_spec amount : is_u64 amount -> sc_ok (d2h amount) /\ le_word (d2h amount) = amount.
Proof.
  intros [H0 Hu]. destruct (d2h_loop_spec 32 amount H0) as [Hp Hw]. unfold sc_ok, d2h. rewrite Hw by (assert (2 ^ 64 < 2 ^ (8 * Z.of_nat 32)) by by_decide; lia).
  split; [|done]. split; [done|]. pose proof ell_bounds. assert (2 ^ 64 < 2 ^ 252) by by_decide. lia.
Qed.

Lemma le_word_split a b : le_word (a ++ b) = le_word a + 2 ^ (8 * zlen a) * le_word b.
Proof.
  induction a as [|x a IH]; [change (le_word b = 0 + 1 * le_word b); lia|]. cbn [app le_word]. rewrite IH, zlen_cons. replace (8 * (1 + zlen a)) with (8 + 8 * zlen a) by lia.
  rewrite Z.pow_add_r by (pose proof (zlen_nonneg a); lia). change (2 ^ 8) with 256. ring.
Qed.

Lemma h2d_take b : bytes_ok b -> h2d b = le_word (take 8 b).
Proof.
  intros Hb. unfold h2d. assert (bytes_ok (take 8 b)) as Ht by by apply bytes_ok_take. assert (zlen (take 8 b) <= 8) as Hl by (unfold zlen; rewrite length_take; lia).
  induction Ht as [|x l Hx Ht IH]; [done|]. rewrite zlen_cons in Hl. cbn [foldr le_word]. rewrite IH by lia. rewrite wrap_small; [ring|].
  pose proof (le_word_nonneg l Ht) as Hw. assert (2 ^ (8 * zlen l) <= 2 ^ 56) by (apply Z.pow_le_mono_r; lia). unfold in_range in *. lia.
Qed.

Lemma h2d_spec b : bytes_ok b -> le_word b < 2 ^ 64 -> h2d b = le_word b.
Proof.
  intros Hb Hw. rewrite h2d_take by done. rewrite <- (take_drop 8 b) in Hw |- * at 2. rewrite le_word_split in *.
  pose proof (le_word_nonneg _ (bytes_ok_drop 8 b Hb)). pose proof (le_word_nonneg _ (bytes_ok_take 8 b Hb)). destruct (decide (length b < 8)%nat) as [Hs|Hs].
  - rewrite (drop_ge b 8) by lia. cbn [le_word]. lia.
  - assert (zlen (take 8 b) = 8) as E by (unfold zlen; rewrite length_take; lia). rewrite E in *. change (2 ^ (8 * 8)) with (2 ^ 64) in *. assert (le_word (drop 8 b) = 0) by lia. lia.
Qed.

Lemma h2d_d2h amount : is_u64 amount -> h2d (d2h amount) = amount.
Proof. intros Ha. destruct (d2h_spec amount Ha) as [[[_ Hb] _] Hw]. rewrite h2d_spec; [done|done|]. unfold in_range in Ha. lia. Qed.

(** The bits of an amount. *)
Fixpoint bits_value (l : list Z) : Z :=
  match l with
  | [] => 0
  | x :: l => x + 2 * bits_value l
  end.

Lemma d2b_loop_spec n val : 0 <= val < 2 ^ Z.of_nat n -> length (d2b_loop n val) = n /\ Forall (fun x => x = 0 \/ x = 1) (d2b_loop n val) /\ bits_value (d2b_loop n val) = val.
Proof.
  revert val. induction n as [|n IH]; intros val Hv; [change (2 ^ Z.of_nat 0) with 1 in Hv; split; [done|]; split; [constructor|cbn; lia]|].
  cbn [d2b_loop]. destruct (Z.eqb_spec val 0) as [->|Hz].
  - split; [apply length_replicate|]. split; [apply Forall_replicate; by left|]. clear. induction n as [|n IH]; [done|]. cbn [replicate bits_value] in *. lia.
  - rewrite Nat2Z.inj_succ, Z.pow_succ_r in Hv by lia. rewrite Z.shiftr_div_pow2 by lia. change (2 ^ 1) with 2. assert (Z.land val 1 = val mod 2) as -> by (change 1 with (Z.ones 1); by rewrite Z.land_ones by lia).
    destruct (IH (val / 2)) as (Hl & Hf & Hb); [split; [apply Z.div_pos; lia|apply Z.div_lt_upper_bound; lia]|]. cbn [length bits_value]. rewrite Hl, Hb. split; [done|]. split.
    + constructor; [|done]. pose proof (Z.mod_pos_bound val 2). lia.
    + pose proof (Z.div_mod val 2). lia.
Qed.

Lemma d2b_spec val : is_u64 val -> length (d2b val) = 64%nat /\ Forall (fun x => x = 0 \/ x = 1) (d2b val) /\ bits_value (d2b val) = val.
Proof. intros Hv. apply d2b_loop_spec. exact Hv. Qed.

(** The receiver reads what the sender hid. *)
Lemma ecdh_roundtrip mask amount sec : sc_ok mask -> sc_ok amount -> exists m a, ecdhEncode mask amount sec = Some (m, a) /\ sc_ok m /\ sc_ok a /\
  ecdhDecode m a sec = Some (mask, amount).
Proof.
  intros Hm Ha. unfold ecdhEncode, ecdhDecode. destruct (hash_to_scalar_some [sec]) as (s1 & -> & H1). cbn [mbind option_bind].
  destruct (hash_to_scalar_some [s1]) as (s2 & -> & H2). cbn [mbind option_bind].
  rewrite (sc_add_correct mask s1) by (apply Hm || apply H1). cbn [mbind option_bind]. rewrite (sc_add_correct amount s2) by (apply Ha || apply H2). cbn [mbind option_bind].
  eexists _, _. split; [done|]. split; [apply scalar_sc_ok|]. split; [apply scalar_sc_ok|].
  rewrite !sc_sub_correct by (apply scalar_ok || apply H1 || apply H2). cbn [mbind option_bind]. rewrite !le_word_scalar.
  unfold scalar. rewrite !Zminus_mod_idemp_l, !Z.add_simpl_r. fold (scalar (le_word mask)). fold (scalar (le_word amount)). by rewrite !sc_ok_scalar.
Qed.
