(* ===== verification/TreeHash.v ===== *)
(** * The Merkle root of a block's transactions

    Model of src/crypto/tree-hash.c.  [tree_hash] works in place on a buffer of
    hashes; the theorems relate it to the hash of a binary tree whose leaves are
    the given hashes, in order. *)
From Stdlib Require Import ZArith Lia Bool.
From stdpp Require Import prelude.
From S2P Require Import Prelude Keccak.
Local Open Scope Z_scope.

(** [while(pow < count) pow <<= 1;] on a [size_t]: 64 shifts are enough for
    every count on which the loop ends. *)
Fixpoint tree_hash_cnt_loop (fuel : nat) (pow count : Z) : Z :=
  match fuel with
  | O => pow
  | S fuel => if pow <? count then tree_hash_cnt_loop fuel (u64 (Z.shiftl pow 1)) count else pow
  end.

Definition tree_hash_cnt (count : Z) : Z := Z.shiftr (tree_hash_cnt_loop 64 2 count) 1.

(** [cn_fast_hash(h[i], 64, ...)]: two adjacent hashes of an array. *)
Definition hash_pair (h : list blob) (i : nat) : blob := cn_fast_hash (h !!! i ++ h !!! (i + 1)%nat).

(** [for (...; j < cnt; i += 2, ++j) cn_fast_hash(src[i], 64, ints[j]);] reading
    from the input array ... *)
Fixpoint leaf_loop (n : nat) (hashes : list blob) (i j : nat) (ints : list blob) : list blob :=
  match n with
  | O => ints
  | S n => leaf_loop n hashes (i + 2) (j + 1) (<[j := hash_pair hashes i]> ints)
  end.

(** ... and in place. *)
Fixpoint level_loop (n : nat) (i j : nat) (ints : list blob) : list blob :=
  match n with
  | O => ints
  | S n => level_loop n (i + 2) (j + 1) (<[j := hash_pair ints i]> ints)
  end.

(** [while (cnt > 2) { cnt >>= 1; ... }] *)
Fixpoint levels (fuel : nat) (cnt : nat) (ints : list blob) : list blob :=
  match fuel with
  | O => ints
  | S fuel => if (2 <? cnt)%nat
              then let cnt := (cnt / 2)%nat in levels fuel cnt (level_loop cnt 0 0 ints)
              else ints
  end.

(** [None] is the failed assertion on an empty array. *)
Definition tree_hash (hashes : list blob) : option blob :=
  let count := length hashes in
  if (count =? 0)%nat then None
  else if (count =? 1)%nat then Some (hashes !!! 0%nat)
  else if (count =? 2)%nat then Some (hash_pair hashes 0)
  else
    let cnt := Z.to_nat (tree_hash_cnt (Z.of_nat count)) in
    let keep := (2 * cnt - count)%nat in
    let ints := take keep hashes ++ replicate (cnt - keep) (replicate HASH_SIZE 0) in
    let ints := leaf_loop (cnt - keep) hashes keep keep ints in
    Some (hash_pair (levels cnt cnt ints) 0).

(** ** The count *)
Lemma tree_hash_cnt_loop_spec fuel k count :
  1 <= k -> (Z.to_nat (64 - k) <= fuel)%nat -> 2 ^ (k - 1) < count <= 2 ^ 63 ->
  exists m, k <= m /\ tree_hash_cnt_loop fuel (2 ^ k) count = 2 ^ m /\ 2 ^ (m - 1) < count <= 2 ^ m.
Proof.
  revert k. induction fuel as [|fuel IH]; intros k Hk Hf Hc; simpl.
  { exists k. split; [lia|]. split; [done|]. assert (2 ^ 63 <= 2 ^ k) by (apply Z.pow_le_mono_r; lia). lia. }
  destruct (Z.ltb_spec (2 ^ k) count) as [H|H]; [|exists k; lia].
  assert (k < 63) by (apply (Z.pow_lt_mono_r_iff 2); lia).
  rewrite Z.shiftl_mul_pow2, <- Z.pow_add_r by lia.
  rewrite wrap_small.
  2: { unfold in_range. split; [lia|]. apply Z.pow_lt_mono_r; lia. }
  destruct (IH (k + 1)) as (m & ? & ? & ?); [lia|lia|replace (k + 1 - 1) with k by lia; lia|].
  exists m. lia.
Qed.

Lemma tree_hash_cnt_spec count : 3 <= count <= 2 ^ 63 ->
  exists m, 1 <= m /\ tree_hash_cnt count = 2 ^ m /\ 2 ^ m < count <= 2 * 2 ^ m.
Proof.
  intros Hc. unfold tree_hash_cnt.
  destruct (tree_hash_cnt_loop_spec 64 1 count) as (m & Hm & E0 & Hb); [lia|lia|simpl; lia|].
  change (2 ^ 1) with 2 in E0. rewrite E0.
  assert (m <> 1) by (intros ->; simpl in Hb; lia).
  exists (m - 1). rewrite Z.shiftr_div_pow2 by lia.
  assert (2 ^ m = 2 ^ (m - 1) * 2) as E by (rewrite <- (Z.pow_add_r 2 _ 1) by lia; f_equal; lia).
  rewrite E, (Z.div_mul _ 2) by lia. rewrite E in Hb. lia.
Qed.

(** ** Reference: hash trees *)
Inductive tree := Leaf (h : blob) | Node (l r : tree).

Fixpoint root (t : tree) : blob :=
  match t with Leaf h => h | Node l r => cn_fast_hash (root l ++ root r) end.

Fixpoint leaves (t : tree) : list blob :=
  match t with Leaf h => [h] | Node l r => leaves l ++ leaves r end.

(** Neighbours become siblings. *)
Fixpoint pair_trees (l : list tree) : list tree :=
  match l with
  | a :: b :: l => Node a b :: pair_trees l
  | _ => []
  end.

Fixpoint build (k : nat) (l : list tree) : list tree :=
  match k with O => l | S k => build k (pair_trees l) end.

(** The tree of a list of at least two hashes: the last hashes are paired so
    that a power of two of subtrees is left, and those form a perfect tree. *)
Definition hash_tree (hashes : list blob) : tree :=
  let count := length hashes in
  let cnt := if (count =? 2)%nat then 2%nat else Z.to_nat (tree_hash_cnt (Z.of_nat count)) in
  let keep := (2 * cnt - count)%nat in
  let subtrees := map Leaf (take keep hashes) ++ pair_trees (map Leaf (drop keep hashes)) in
  match build (Nat.log2 cnt) subtrees with t :: _ => t | [] => Leaf [] end.

(** ** The loops compute the levels of the tree *)
Fixpoint pair_hashes (l : list blob) : list blob :=
  match l with
  | a :: b :: l => cn_fast_hash (a ++ b) :: pair_hashes l
  | _ => []
  end.

#[local] Opaque cn_fast_hash.

Lemma pair_trees_root l : map root (pair_trees l) = pair_hashes (map root l).
Proof.
  induction l as [l IH] using (induction_ltof1 _ (@length tree)); unfold ltof in IH.
  destruct l as [|a [|b l]]; [done..|]. simpl. rewrite IH; [done|simpl; lia].
Qed.

Lemma pair_trees_leaves l : Nat.Even (length l) ->
  concat (map leaves (pair_trees l)) = concat (map leaves l).
Proof.
  induction l as [l IH] using (induction_ltof1 _ (@length tree)); unfold ltof in IH.
  destruct l as [|a [|b l]]; intros [k Hk]; [done|simpl in Hk; lia|]. simpl.
  rewrite IH, app_assoc; [done|simpl; lia|]. exists (k - 1)%nat. simpl in Hk. lia.
Qed.

Lemma pair_trees_length l n : length l = (2 * n)%nat -> length (pair_trees l) = n.
Proof.
  revert l. induction n as [|n IH]; intros [|a [|b l]] Hl; simpl in *; try lia. rewrite IH; lia.
Qed.

Lemma lookup_total_drop_hd {A} `{Inhabited A} (l : list A) i x k :
  drop i l = x :: k -> l !!! i = x /\ drop (i + 1) l = k.
Proof.
  intros E. split.
  - rewrite <- (take_drop i l) at 1. rewrite E. apply list_lookup_total_middle.
    rewrite length_take. apply (f_equal length) in E. rewrite length_drop in E. simpl in E. lia.
  - rewrite <- drop_drop, E. done.
Qed.

(** Reading two hashes at [i] of an array whose tail is known. *)
Lemma hash_pair_drop h i a b k : drop i h = a :: b :: k ->
  hash_pair h i = cn_fast_hash (a ++ b) /\ drop (i + 2) h = k.
Proof.
  intros E. apply lookup_total_drop_hd in E as [E1 E2]. pose proof (lookup_total_drop_hd _ _ _ _ E2) as [E3 E4].
  unfold hash_pair. rewrite E1, E3. split; [done|]. by replace (i + 2)%nat with (i + 1 + 1)%nat by lia.
Qed.

Lemma take_insert_snoc {A} (l : list A) j x : (j < length l)%nat ->
  take (j + 1) (<[j := x]> l) = take j l ++ [x].
Proof.
  intros Hj. rewrite Nat.add_1_r, (take_S_r _ _ x); [by rewrite take_insert_ge by lia|].
  by apply list_lookup_insert_eq.
Qed.

Lemma drop2_split {A} (l : list A) i n : (2 * S n <= length (drop i l))%nat ->
  exists a b k, drop i l = a :: b :: k /\ (2 * n <= length k)%nat.
Proof. intros H. destruct (drop i l) as [|a [|b k]]; simpl in *; [lia..|]. exists a, b, k. split; [done|lia]. Qed.

Lemma leaf_loop_spec n h i j ints :
  (2 * n <= length (drop i h))%nat -> (j + n <= length ints)%nat ->
  take (j + n) (leaf_loop n h i j ints) = take j ints ++ pair_hashes (take (2 * n) (drop i h)).
Proof.
  revert i j ints. induction n as [|n IH]; intros i j ints Hh Hi.
  { simpl. by rewrite Nat.add_0_r, app_nil_r. }
  destruct (drop2_split _ _ _ Hh) as (a & b & k & E & Hk). cbn [leaf_loop].
  destruct (hash_pair_drop _ _ _ _ _ E) as [-> E2].
  replace (j + S n)%nat with (j + 1 + n)%nat by lia.
  rewrite IH; [|by rewrite E2|rewrite length_insert; lia].
  rewrite take_insert_snoc by lia. rewrite E, E2.
  replace (2 * S n)%nat with (S (S (2 * n))) by lia. by rewrite <- app_assoc.
Qed.

(** In place: position [j] is written after the positions from [2 j] on are read. *)
Lemma level_loop_spec n l j ints :
  drop j ints = drop j l -> length ints = length l -> (2 * (j + n) <= length l)%nat ->
  take (j + n) (level_loop n (2 * j) j ints) = take j ints ++ pair_hashes (take (2 * n) (drop (2 * j) l)).
Proof.
  revert j ints. induction n as [|n IH]; intros j ints Hd Hlen Hl.
  { simpl. by rewrite Nat.add_0_r, app_nil_r. }
  destruct (drop2_split l (2 * j) n) as (a & b & k & E & Hk); [rewrite length_drop; lia|].
  assert (drop (2 * j) ints = a :: b :: k) as E'.
  { rewrite <- E. replace (2 * j)%nat with (j + j)%nat by lia. by rewrite <- !drop_drop, Hd. }
  cbn [level_loop]. destruct (hash_pair_drop _ _ _ _ _ E') as [-> _].
  destruct (hash_pair_drop _ _ _ _ _ E) as [_ E2].
  replace (j + S n)%nat with (j + 1 + n)%nat by lia. replace (2 * j + 2)%nat with (2 * (j + 1))%nat in * by lia.
  rewrite IH; [| |rewrite length_insert; lia|lia].
  - rewrite take_insert_snoc, E2, E by lia. replace (2 * S n)%nat with (S (S (2 * n))) by lia.
    by rewrite <- app_assoc.
  - rewrite drop_insert_lt by lia. by rewrite <- !drop_drop, Hd.
Qed.

Lemma level_loop_length n i j ints : length (level_loop n i j ints) = length ints.
Proof. revert i j ints. induction n as [|n IH]; intros; simpl; [done|]. by rewrite IH, length_insert. Qed.

Lemma leaf_loop_length n h i j ints : length (leaf_loop n h i j ints) = length ints.
Proof. revert i j ints. induction n as [|n IH]; intros; simpl; [done|]. by rewrite IH, length_insert. Qed.

Lemma pow2_ge m : (m < 2 ^ m)%nat.
Proof. apply Nat.pow_gt_lin_r. lia. Qed.

(** From a perfect level down to the root. *)
Lemma levels_build m fuel ints ts : (m <= fuel)%nat -> (2 ^ S m <= length ints)%nat ->
  take (2 ^ S m) ints = map root ts ->
  exists t, build (S m) ts = [t] /\ hash_pair (levels fuel (2 ^ S m) ints) 0 = root t.
Proof.
  revert fuel ints ts. induction m as [|m IH]; intros fuel ints ts Hf Hl E.
  - change (2 ^ 1)%nat with 2%nat in *. assert (length ts = 2)%nat as Hts.
    { apply (f_equal length) in E. rewrite length_take, length_map in E. lia. }
    destruct ts as [|a [|b [|? ?]]]; [done..| |done]. exists (Node a b). split; [done|].
    assert (levels fuel 2 ints = ints) as -> by (by destruct fuel).
    destruct ints as [|x [|y k]]; simpl in *; [lia..|]. by injection E as -> ->.
  - destruct fuel as [|fuel]; [lia|]. cbn [levels].
    assert (2 ^ S (S m) = 2 * 2 ^ S m)%nat as E2 by (simpl; lia).
    assert (1 < 2 ^ S m)%nat by (pose proof (pow2_ge (S m)); lia).
    rewrite (proj2 (Nat.ltb_lt _ _)) by lia. cbv zeta.
    assert (2 ^ S (S m) / 2 = 2 ^ S m)%nat as -> by (rewrite E2, Nat.mul_comm; by apply Nat.div_mul).
    apply IH; [lia|rewrite level_loop_length; lia|].
    rewrite pair_trees_root, <- E, E2.
    apply (level_loop_spec (2 ^ S m) ints 0 ints); [done|done|lia].
Qed.

Lemma build_leaves k l : length l = (2 ^ k)%nat ->
  exists t, build k l = [t] /\ leaves t = concat (map leaves l).
Proof.
  revert l. induction k as [|k IH]; intros l Hl.
  { destruct l as [|t [|? ?]]; simpl in Hl; try lia. exists t. simpl. by rewrite app_nil_r. }
  cbn [build]. assert (length l = 2 * 2 ^ k)%nat as Hl2 by (simpl in *; lia).
  destruct (IH (pair_trees l)) as (t & Ht & Hv); [by apply pair_trees_length|].
  exists t. split; [done|]. rewrite Hv. apply pair_trees_leaves. by exists (2 ^ k)%nat.
Qed.

Lemma map_leaves_Leaf l : concat (map leaves (map Leaf l)) = l.
Proof. induction l as [|h l IH]; [done|]. simpl. by rewrite IH. Qed.

Lemma map_root_Leaf l : map root (map Leaf l) = l.
Proof. induction l as [|h l IH]; [done|]. simpl. by rewrite IH. Qed.

(** The numbers of a tree hash: a power of two [cnt], and [keep] hashes that
    are leaves of the next level already. *)
Record shape (count cnt keep m : nat) : Prop := {
  shape_cnt : cnt = (2 ^ S m)%nat;
  shape_keep : keep = (2 * cnt - count)%nat;
  shape_count : (cnt <= count <= 2 * cnt)%nat;
  shape_rest : (count - keep = 2 * (cnt - keep))%nat }.

Lemma shape_of count : (2 <= count)%nat -> Z.of_nat count <= 2 ^ 63 ->
  exists m, let cnt := if (count =? 2)%nat then 2%nat else Z.to_nat (tree_hash_cnt (Z.of_nat count)) in
  shape count cnt (2 * cnt - count) m.
Proof.
  intros H2 Hc. destruct (Nat.eqb_spec count 2) as [->|Hn].
  { exists O. split; simpl; lia. }
  destruct (tree_hash_cnt_spec (Z.of_nat count)) as (m & Hm & -> & Hb); [lia|].
  exists (Z.to_nat (m - 1)).
  assert (Z.to_nat (2 ^ m) = 2 ^ S (Z.to_nat (m - 1)))%nat as E.
  { apply Nat2Z.inj. rewrite Z2Nat.id, Nat2Z.inj_pow by lia. f_equal. lia. }
  split; [done|done|lia|lia].
Qed.

Lemma subtrees_shape hashes cnt keep m : shape (length hashes) cnt keep m ->
  let subtrees := map Leaf (take keep hashes) ++ pair_trees (map Leaf (drop keep hashes)) in
  length subtrees = (2 ^ S m)%nat /\ concat (map leaves subtrees) = hashes /\
  map root subtrees = take keep hashes ++ pair_hashes (drop keep hashes).
Proof.
  intros [E1 E2 E3 E4]. cbv zeta. rewrite length_app, length_map, length_take.
  rewrite (pair_trees_length _ (cnt - keep)) by (rewrite length_map, length_drop; lia).
  rewrite !map_app, concat_app, map_leaves_Leaf, map_root_Leaf, pair_trees_root, map_root_Leaf.
  rewrite pair_trees_leaves, map_leaves_Leaf, take_drop.
  - split; [lia|done].
  - rewrite length_map, length_drop. by exists (cnt - keep)%nat.
Qed.

Lemma hash_tree_leaves hashes : (2 <= length hashes)%nat -> zlen hashes <= 2 ^ 63 ->
  leaves (hash_tree hashes) = hashes.
Proof.
  intros H2 Hc. destruct (shape_of _ H2 Hc) as [m Hs]. unfold hash_tree. cbv zeta in *.
  destruct (subtrees_shape _ _ _ _ Hs) as (Hl & Hv & _). pose proof (shape_cnt _ _ _ _ Hs) as Hcnt.
  rewrite Hcnt at 1. rewrite Nat.log2_pow2 by lia.
  destruct (build_leaves _ _ Hl) as (t & -> & ->). done.
Qed.

Lemma tree_hash_root hashes : (2 <= length hashes)%nat -> zlen hashes <= 2 ^ 63 ->
  tree_hash hashes = Some (root (hash_tree hashes)).
Proof.
  intros H2 Hc. destruct (shape_of _ H2 Hc) as [m Hs]. unfold hash_tree, tree_hash. cbv zeta in *.
  destruct (Nat.eqb_spec (length hashes) 0); [lia|]. destruct (Nat.eqb_spec (length hashes) 1); [lia|].
  destruct (Nat.eqb_spec (length hashes) 2) as [E|E].
  { destruct hashes as [|a [|b [|? ?]]]; done. }
  set (cnt := Z.to_nat (tree_hash_cnt _)) in *. destruct (subtrees_shape _ _ _ _ Hs) as (Hl & _ & Hr).
  destruct Hs as [E1 _ E3 E4]. set (keep := (2 * cnt - length hashes)%nat) in *.
  set (ints := take keep hashes ++ _).
  assert (length ints = cnt) as Hi by (unfold ints; rewrite length_app, length_take, length_replicate; lia).
  rewrite E1, Nat.log2_pow2 by lia.
  destruct (levels_build m (2 ^ S m) (leaf_loop (2 ^ S m - keep) hashes keep keep ints)
    (map Leaf (take keep hashes) ++ pair_trees (map Leaf (drop keep hashes)))) as (t & -> & ->).
  - pose proof (pow2_ge (S m)). lia.
  - rewrite leaf_loop_length. lia.
  - rewrite Hr, <- E1. replace cnt with (keep + (cnt - keep))%nat at 1 by lia.
    rewrite leaf_loop_spec by (rewrite ?length_drop; lia). unfold ints.
    rewrite take_app_length' by (rewrite length_take; lia).
    by rewrite (take_ge (drop keep hashes)) by (rewrite length_drop; lia).
  - done.
Qed.

(** ** Binding *)

(** Two different strings, one of each list, with the same digest.  The lists
    are those of what is hashed for two given objects, so this names the
    collision: it is no statement on all strings. *)
Definition collide (xs ys : list blob) : Prop := exists x y, x ∈ xs /\ y ∈ ys /\ x <> y /\ cn_fast_hash x = cn_fast_hash y.

Lemma collide_mono xs ys xs' ys' : xs ⊆ xs' -> ys ⊆ ys' -> collide xs ys -> collide xs' ys'.
Proof. intros Hx Hy (x & y & ? & ? & ?). exists x, y. auto. Qed.

Lemma collide_sym xs ys : collide xs ys -> collide ys xs.
Proof. intros (x & y & ? & ? & ? & ?). by exists y, x. Qed.

Lemma cn_fast_hash_bind x y xs ys : x ∈ xs -> y ∈ ys -> cn_fast_hash x = cn_fast_hash y -> x = y \/ collide xs ys.
Proof. intros Hx Hy E. destruct (decide (x = y)); [by left|right; by exists x, y]. Qed.

(** The test of it. *)
Definition apart (xs ys : list blob) : bool :=
  let digests := (fun y => (y, cn_fast_hash y)) <$> ys in
  forallb (fun x => let h := cn_fast_hash x in forallb (fun d => bool_decide (x = d.1) || negb (bool_decide (h = d.2))) digests) xs.

Lemma apart_ok xs ys : apart xs ys = true -> ~ collide xs ys.
Proof.
  unfold apart. cbv zeta. rewrite forallb_forall. intros HF (x & y & Hx & Hy & Hne & E).
  specialize (HF x (proj1 (list_elem_of_In _ _) Hx)). rewrite forallb_forall in HF.
  specialize (HF (y, cn_fast_hash y)). cbn in HF. rewrite (bool_decide_eq_false_2 _ Hne), (bool_decide_eq_true_2 _ E) in HF.
  discriminate HF. apply list_elem_of_In, list_elem_of_fmap. by exists y.
Qed.

Lemma distinct_apart xs : NoDup (cn_fast_hash <$> xs) -> ~ collide xs xs.
Proof.
  intros Hn (x & y & [i Hi]%list_elem_of_lookup & [j Hj]%list_elem_of_lookup & Hne & E). apply Hne.
  assert (i = j) as -> by (apply (NoDup_lookup _ i j (cn_fast_hash x) Hn); rewrite list_lookup_fmap, ?Hi, ?Hj; cbn; congruence). congruence.
Qed.

(** The strings hashed on the way to the root. *)
Fixpoint node_inputs (t : tree) : list blob :=
  match t with
  | Leaf _ => []
  | Node l r => (root l ++ root r) :: node_inputs l ++ node_inputs r
  end.

(** What [tree_hash] hashes; a single hash is its own root. *)
Definition tree_inputs (hashes : list blob) : list blob :=
  if (length hashes <=? 1)%nat then [] else node_inputs (hash_tree hashes).

Inductive same_shape : tree -> tree -> Prop :=
  | shape_leaf a b : same_shape (Leaf a) (Leaf b)
  | shape_node l l' r r' : same_shape l l' -> same_shape r r' -> same_shape (Node l r) (Node l' r').

Lemma pair_trees_same l k : Forall2 same_shape l k -> Forall2 same_shape (pair_trees l) (pair_trees k).
Proof.
  revert k. induction l as [l IH] using (induction_ltof1 _ (@length tree)); unfold ltof in IH.
  intros k HF. destruct HF as [|a a' l k Ha HF]; [constructor|].
  destruct HF as [|b b' l k Hb HF]; simpl; constructor; [by constructor|]. apply IH; [simpl; lia|done].
Qed.

Lemma build_same n l k : Forall2 same_shape l k -> Forall2 same_shape (build n l) (build n k).
Proof. revert l k. induction n; intros l k HF; simpl; [done|]. auto using pair_trees_same. Qed.

Lemma map_Leaf_same l k : length l = length k -> Forall2 same_shape (map Leaf l) (map Leaf k).
Proof.
  revert k. induction l as [|a l IH]; intros [|b k] Hl; simpl in *; try done; constructor; [constructor|].
  apply IH. lia.
Qed.

Lemma hash_tree_same l k : length l = length k -> same_shape (hash_tree l) (hash_tree k).
Proof.
  intros Hl. unfold hash_tree. rewrite Hl. cbv zeta.
  set (n := Nat.log2 _). set (keep := (_ - length k)%nat).
  pose proof (build_same n (map Leaf (take keep l) ++ pair_trees (map Leaf (drop keep l)))
    (map Leaf (take keep k) ++ pair_trees (map Leaf (drop keep k)))) as HF.
  destruct HF; [|constructor|done].
  apply Forall2_app; [|apply pair_trees_same]; apply map_Leaf_same;
    rewrite ?length_take, ?length_drop; lia.
Qed.

Lemma root_length t : Forall (fun h => length h = HASH_SIZE) (leaves t) -> length (root t) = HASH_SIZE.
Proof. destruct t; simpl; [by intros [? _]%Forall_cons|]. intros _. apply cn_fast_hash_ok. Qed.

Lemma root_binding t t' : same_shape t t' ->
  Forall (fun h => length h = HASH_SIZE) (leaves t) -> Forall (fun h => length h = HASH_SIZE) (leaves t') ->
  root t = root t' ->
  leaves t = leaves t' \/ collide (node_inputs t) (node_inputs t').
Proof.
  induction 1 as [a b|l l' r r' Hl IHl Hr IHr]; simpl; [intros _ _ ->; by left|].
  intros [H1 H2]%Forall_app [H3 H4]%Forall_app E.
  eapply cn_fast_hash_bind in E as [E'|E']; [|right; exact E'|apply list_elem_of_here..].
  apply app_inj_1 in E' as [E1 E2]; [|by rewrite !root_length].
  destruct (IHl H1 H3 E1) as [-> |Hc]; [|right; eapply collide_mono, Hc; set_solver].
  destruct (IHr H2 H4 E2) as [-> |Hc]; [by left|right; eapply collide_mono, Hc; set_solver].
Qed.

Lemma tree_hash_bind l k :
  (1 <= length l)%nat -> zlen l <= 2 ^ 63 -> length l = length k ->
  Forall (fun h => length h = HASH_SIZE) l -> Forall (fun h => length h = HASH_SIZE) k ->
  tree_hash l = tree_hash k ->
  l = k \/ collide (tree_inputs l) (tree_inputs k).
Proof.
  intros H1 Hc Hlen Hl Hk. destruct (decide (length l = 1%nat)) as [E1|Hne].
  { destruct l as [|a [|? ?]]; simpl in E1; try lia. destruct k as [|b [|? ?]]; simpl in Hlen; try lia.
    intros [= ->]. by left. }
  assert (zlen l = zlen k) by (unfold zlen; lia).
  rewrite !tree_hash_root by lia. intros [= E].
  unfold tree_inputs. rewrite !(proj2 (Nat.leb_gt _ _)) by lia.
  rewrite <- (hash_tree_leaves l) at 1 by lia. rewrite <- (hash_tree_leaves k) at 1 by lia.
  apply root_binding; [by apply hash_tree_same|by rewrite hash_tree_leaves by lia..|done].
Qed.

Lemma tree_hash_pod l : (1 <= length l)%nat -> zlen l <= 2 ^ 63 ->
  Forall (fun h => length h = HASH_SIZE) l ->
  exists r, tree_hash l = Some r /\ length r = HASH_SIZE.
Proof.
  intros H1 Hc HF. destruct (decide (length l = 1%nat)) as [E1|Hne].
  { destruct l as [|a [|? ?]]; simpl in E1; try lia. exists a. by apply Forall_cons in HF as [? _]. }
  rewrite tree_hash_root by lia. eexists. split; [done|].
  apply root_length. by rewrite hash_tree_leaves by lia.
Qed.

(** ** Properties *)

(** for every count the assertions admit, the loop of [tree_hash_cnt] ends
    and returns a power of two, the largest one strictly below the count; on a
    count that is itself a power of two this is half of it, not
    [1 << floor(log2(count))]. *)
Theorem tree_hash_cnt_pow2 count : 3 <= count <= 2 ^ 28 ->
  exists m, 1 <= m /\ tree_hash_cnt count = 2 ^ m /\ 2 ^ m < count <= 2 ^ (m + 1).
Proof.
  intros Hc. destruct (tree_hash_cnt_spec count) as (m & ? & ? & ?); [lia|].
  exists m. rewrite Z.pow_add_r by lia. change (2 ^ 1) with 2. lia.
Qed.

Lemma tree_hash_cnt_pow2_witness :
  exists m, 1 <= m /\ tree_hash_cnt 514 = 2 ^ m /\ 2 ^ m < 514 <= 2 ^ (m + 1).
Proof. apply (tree_hash_cnt_pow2 514). lia. Defined.

(** C35: [tree_hash], with its buffer overwritten in place, computes the root of
    a binary hash tree whose leaves, from left to right, are exactly the hashes
    given. *)
Theorem tree_hash_correct hashes : (2 <= length hashes)%nat -> zlen hashes <= 2 ^ 28 ->
  tree_hash hashes = Some (root (hash_tree hashes)) /\ leaves (hash_tree hashes) = hashes.
Proof. intros H2 Hc. split; [apply tree_hash_root|apply hash_tree_leaves]; lia. Qed.

Lemma tree_hash_correct_witness :
  let l := [[1]; [2]; [3]; [4]; [5]] in
  tree_hash l = Some (root (hash_tree l)) /\ leaves (hash_tree l) = l.
Proof. apply (tree_hash_correct [[1]; [2]; [3]; [4]; [5]]); unfold zlen; simpl; lia. Defined.

(** C34: the root binds the transactions.  Two vectors of 32-byte hashes of the
    same length have the same root exactly when they are equal, as long as no
    string hashed for the first has the digest of a different string hashed for
    the second; both lists of strings are written out. *)
Theorem tree_hash_binding l k :
  (2 <= length l)%nat -> zlen l <= 2 ^ 28 -> length l = length k ->
  Forall (fun h => length h = HASH_SIZE) l -> Forall (fun h => length h = HASH_SIZE) k ->
  ~ collide (tree_inputs l) (tree_inputs k) ->
  tree_hash l = tree_hash k <-> l = k.
Proof.
  intros H2 Hc Hlen Hl Hk Hno. split; [|by intros ->]. intros E.
  apply tree_hash_bind in E as [|]; [done|done|lia|lia|done..].
Qed.

Lemma tree_hash_binding_witness :
  let l := [replicate 32 1; replicate 32 2; replicate 32 3] in
  let k := [replicate 32 1; replicate 32 3; replicate 32 2] in
  tree_hash l <> tree_hash k.
Proof.
  intros l k E. cut (l = k); [discriminate|]. revert E. apply tree_hash_binding; try (unfold zlen; simpl; lia); try by_decide.
  apply apart_ok. vm_compute. reflexivity.
Defined.
