(* ===== verification/HardFork.v ===== *)
(** * Hard fork voting

    Model of src/cryptonote_basic/hardfork.cpp: the table of forks, the rolling
    window of votes with its per-version counters, and the operations that add
    a block, check a block and rebuild the state from the chain.  The parts of
    [BlockchainDB] the class uses are a record: the blocks of the chain and the
    hard fork version stored per height; an absent entry is the exception the
    database throws, [None].  The fork tables of blockchain.cpp are here too. *)
From Stdlib Require Import ZArith Lia Bool.
From stdpp Require Import prelude gmap.
From S2P Require Import Prelude CryptonoteBasic.
Local Open Scope Z_scope.

Record BlockchainDB := Db { db_blocks : list block; db_hf : gmap Z Z }.
Definition db_height (db : BlockchainDB) : Z := zlen (db_blocks db).
Definition get_block_from_height (db : BlockchainDB) (h : Z) : option block :=
  if h <? 0 then None else db_blocks db !! Z.to_nat h.
Definition set_hard_fork_version (db : BlockchainDB) (h v : Z) : BlockchainDB :=
  Db (db_blocks db) (<[h := v]> (db_hf db)).
Definition get_hard_fork_version (db : BlockchainDB) (h : Z) : option Z := db_hf db !! h.

Record Params := MkParams { p_version : Z; p_height : Z; p_threshold : Z; p_time : Z }.
#[export] Instance Params_inhabited : Inhabited Params := populate (MkParams 0 0 0 0).

Record HardFork := MkHardFork {
  original_version : Z; original_version_till_height : Z;
  window_size : Z; default_threshold_percent : Z;
  heights : list Params;
  versions : list Z;            (* the votes in the window, oldest first *)
  last_versions : list Z;       (* one counter per version number *)
  current_fork_index : nat }.

Definition set_heights (hf : HardFork) (l : list Params) : HardFork :=
  MkHardFork (original_version hf) (original_version_till_height hf) (window_size hf)
    (default_threshold_percent hf) l (versions hf) (last_versions hf) (current_fork_index hf).
Definition set_window (hf : HardFork) (vs lv : list Z) : HardFork :=
  MkHardFork (original_version hf) (original_version_till_height hf) (window_size hf)
    (default_threshold_percent hf) (heights hf) vs lv (current_fork_index hf).
Definition set_index (hf : HardFork) (i : nat) : HardFork :=
  MkHardFork (original_version hf) (original_version_till_height hf) (window_size hf)
    (default_threshold_percent hf) (heights hf) (versions hf) (last_versions hf) i.

Definition get_block_vote (b : block) : Z :=
  if minor_version (hdr b) =? 0 then 1 else minor_version (hdr b).
Definition block_get_version (b : block) : Z := major_version (hdr b).

(** The constructor throws on a bad window or threshold. *)
Definition HardFork_new (orig till window thr : Z) : option HardFork :=
  if window =? 0 then None
  else if 100 <? thr then None
  else Some (MkHardFork orig till window thr [] [] (replicate 256 0) 0).

Definition add_fork (hf : HardFork) (version height threshold time : Z) : bool * HardFork :=
  if version =? 0 then (false, hf)
  else if match last (heights hf) with
          | Some p => (version <=? p_version p) || (height <=? p_height p) || (time <=? p_time p)
          | None => false
          end then (false, hf)
  else if 100 <? threshold then (false, hf)
  else (true, set_heights hf (heights hf ++ [MkParams version height threshold time])).

Definition get_effective_version (hf : HardFork) (voting_version : Z) : Z :=
  match last (heights hf) with
  | Some p => if p_version p <? voting_version then p_version p else voting_version
  | None => voting_version
  end.

Definition fork_version (hf : HardFork) (i : nat) : Z := p_version (heights hf !!! i).

Definition do_check (hf : HardFork) (block_version voting_version : Z) : bool :=
  (block_version =? fork_version hf (current_fork_index hf))
  && (fork_version hf (current_fork_index hf) <=? voting_version).

Definition check (hf : HardFork) (b : block) : bool := do_check hf (block_get_version b) (get_block_vote b).

(** The loop of [get_voted_fork_index], from the last fork down to the current one. *)
Fixpoint voted_loop (hf : HardFork) (n : nat) (height acc : Z) : nat :=
  match n with
  | O => current_fork_index hf
  | S n' =>
      if (current_fork_index hf <? n)%nat then
        let p := heights hf !!! n in
        let acc := u32 (acc + last_versions hf !!! Z.to_nat (p_version p)) in
        let threshold := u32 (u64 (window_size hf * p_threshold p + 99) / 100) in
        if (p_height p <=? height) && (threshold <=? acc) then n
        else voted_loop hf n' height acc
      else current_fork_index hf
  end.

Definition get_voted_fork_index (hf : HardFork) (height : Z) : nat :=
  voted_loop hf (length (heights hf) - 1) height 0.

Definition do_check_for_height (hf : HardFork) (block_version voting_version height : Z) : bool :=
  let fork_index := get_voted_fork_index hf height in
  (block_version =? fork_version hf fork_index) && (fork_version hf fork_index <=? voting_version).

Definition check_for_height (hf : HardFork) (b : block) (height : Z) : bool :=
  do_check_for_height hf (block_get_version b) (get_block_vote b) height.

(** Counters are [unsigned int]. *)
Definition bump (lv : list Z) (v d : Z) : list Z :=
  <[Z.to_nat v := u32 (lv !!! Z.to_nat v + d)]> lv.

(** [while (versions.size() >= window_size)] drop the oldest vote. *)
Fixpoint shrink (fuel : nat) (window : Z) (vs lv : list Z) : list Z * list Z :=
  match fuel, vs with
  | S fuel, old :: vs' => if window <=? zlen vs then shrink fuel window vs' (bump lv old (-1)) else (vs, lv)
  | _, _ => (vs, lv)
  end.

Definition push_vote (hf : HardFork) (v : Z) : HardFork :=
  set_window hf (versions hf ++ [v]) (bump (last_versions hf) v 1).

(** [uint8_t voted = get_voted_fork_index(height); if (voted > current) ...] *)
Definition advance (hf : HardFork) (height : Z) : HardFork :=
  let voted := Z.to_nat (u8 (Z.of_nat (get_voted_fork_index hf height))) in
  if (current_fork_index hf <? voted)%nat then set_index hf voted else hf.

Definition add_votes (hf : HardFork) (db : BlockchainDB) (block_version voting_version height : Z)
  : bool * HardFork * BlockchainDB :=
  if negb (do_check hf block_version voting_version) then (false, hf, db)
  else
    let db := set_hard_fork_version db height (fork_version hf (current_fork_index hf)) in
    let voting_version := get_effective_version hf voting_version in
    let '(vs, lv) := shrink (length (versions hf)) (window_size hf) (versions hf) (last_versions hf) in
    let hf := push_vote (set_window hf vs lv) voting_version in
    (true, advance hf (u64 (height + 1)), db).

Definition add (hf : HardFork) (db : BlockchainDB) (b : block) (height : Z) : bool * HardFork * BlockchainDB :=
  add_votes hf db (block_get_version b) (get_block_vote b) height.

Definition clear_window (hf : HardFork) : HardFork := set_window hf [] (replicate 256 0).

(** Votes of the blocks at heights [h, h + n). *)
Fixpoint push_blocks (n : nat) (hf : HardFork) (db : BlockchainDB) (h : Z) : option HardFork :=
  match n with
  | O => Some hf
  | S n => match get_block_from_height db h with
           | None => None
           | Some b => push_blocks n (push_vote hf (get_effective_version hf (get_block_vote b))) db (h + 1)
           end
  end.

(** [add] of the blocks at heights [h, h + n), its result ignored. *)
Fixpoint add_blocks (n : nat) (hf : HardFork) (db : BlockchainDB) (h : Z) : option (HardFork * BlockchainDB) :=
  match n with
  | O => Some (hf, db)
  | S n => match get_block_from_height db h with
           | None => None
           | Some b => let '(_, hf, db) := add hf db b h in add_blocks n hf db (h + 1)
           end
  end.

(** [while (current_fork_index > 0 && heights[current_fork_index].version > v) --current_fork_index] *)
Fixpoint lower_index (hf : HardFork) (v : Z) (i : nat) : nat :=
  match i with
  | O => O
  | S i' => if v <? fork_version hf i then lower_index hf v i' else i
  end.

Definition reorganize_from_block_height (hf : HardFork) (db : BlockchainDB) (height : Z)
  : option (bool * HardFork * BlockchainDB) :=
  if db_height db <=? height then Some (false, hf, db)
  else
    let hf := clear_window hf in
    let rescan_height := if window_size hf - 1 <=? height then height - (window_size hf - 1) else 0 in
    match (if height =? 0 then Some (original_version hf) else get_hard_fork_version db height) with
    | None => None
    | Some start_version =>
        let hf := set_index hf (lower_index hf start_version (current_fork_index hf)) in
        match push_blocks (Z.to_nat (height + 1 - rescan_height)) hf db rescan_height with
        | None => None
        | Some hf =>
            let hf := advance hf (height + 1) in
            match add_blocks (Z.to_nat (db_height db - (height + 1))) hf db (height + 1) with
            | None => None
            | Some (hf, db) => Some (true, hf, db)
            end
        end
    end.

Definition reorganize_from_chain_height (hf : HardFork) (db : BlockchainDB) (height : Z)
  : option (bool * HardFork * BlockchainDB) :=
  if height =? 0 then Some (false, hf, db) else reorganize_from_block_height hf db (height - 1).

(** [while (i + 1 < heights.size() && heights[i].version != lastv) ++i] *)
Fixpoint seek_version (fuel : nat) (hf : HardFork) (lastv : Z) (i : nat) : nat :=
  match fuel with
  | O => i
  | S fuel => if (i + 1 <? length (heights hf))%nat && negb (fork_version hf i =? lastv)
              then seek_version fuel hf lastv (i + 1) else i
  end.

Definition rescan_from_block_height (hf : HardFork) (db : BlockchainDB) (height : Z)
  : option (bool * HardFork) :=
  if db_height db <=? height then Some (false, hf)
  else
    match push_blocks (Z.to_nat (db_height db - height)) (clear_window hf) db height with
    | None => None
    | Some hf =>
        match get_hard_fork_version db (db_height db - 1) with
        | None => None
        | Some lastv =>
            let hf := set_index hf (seek_version (length (heights hf)) hf lastv 0) in
            Some (true, advance hf (db_height db))
        end
    end.

Definition rescan_from_chain_height (hf : HardFork) (db : BlockchainDB) (height : Z) : option (bool * HardFork) :=
  if height =? 0 then Some (false, hf) else rescan_from_block_height hf db (height - 1).

Definition init (hf : HardFork) (db : BlockchainDB) : option (HardFork * BlockchainDB) :=
  let hf := match heights hf with
            | [] => set_heights hf [MkParams (original_version hf) 0 0 0]
            | _ => hf
            end in
  let hf := set_index (clear_window hf) 0 in
  let height := if window_size hf <? db_height db then db_height db - (window_size hf - 1) else 1 in
  match get_hard_fork_version db 0 with
  | None =>
      match reorganize_from_chain_height hf db 1 with
      | None => None
      | Some (_, hf, db) => Some (hf, set_hard_fork_version db 0 (original_version hf))
      end
  | Some _ =>
      match rescan_from_chain_height hf db height with
      | None => None
      | Some (_, hf) => Some (hf, db)
      end
  end.

Definition get_current_version (hf : HardFork) : Z := fork_version hf (current_fork_index hf).
Definition get_ideal_version (hf : HardFork) : Z := fork_version hf (length (heights hf) - 1).

Fixpoint ideal_loop (hf : HardFork) (n : nat) (height : Z) : Z :=
  match n with
  | O => original_version hf
  | S n' => if p_height (heights hf !!! n) <=? height then fork_version hf n else ideal_loop hf n' height
  end.
Definition get_ideal_version_at (hf : HardFork) (height : Z) : Z :=
  ideal_loop hf (length (heights hf) - 1) height.

Definition get (hf : HardFork) (db : BlockchainDB) (height : Z) : option Z :=
  if db_height db <? height then Some 255
  else if height =? db_height db then Some (get_current_version hf)
  else get_hard_fork_version db height.

Fixpoint earliest_loop (l : list Params) (version height : Z) : Z :=
  match l with
  | [] => height
  | p :: l => if version <=? p_version p then earliest_loop l version (p_height p) else height
  end.
Definition get_earliest_ideal_height_for_version (hf : HardFork) (version : Z) : Z :=
  earliest_loop (rev (heights hf)) version 18446744073709551615.

Definition get_voting_info (hf : HardFork) (version : Z) : bool * Z * Z * Z * Z * Z :=
  let window := u32 (zlen (versions hf)) in
  let votes := foldl (fun votes n => u32 (votes + last_versions hf !!! n)) 0
                 (seq (Z.to_nat version) (256 - Z.to_nat version)) in
  (version <=? get_current_version hf, window, votes,
   u32 (window * p_threshold (heights hf !!! current_fork_index hf) + 99) / 100,
   get_earliest_ideal_height_for_version hf version, get_ideal_version hf).

(** ** The fork tables of src/cryptonote_core/blockchain.cpp *)
Definition HF_BLOCK_HEIGHT_PROOF_OF_STAKE : Z := 800000.
Definition mainnet_hard_forks : list Params :=
  [MkParams 1 0 0 1531875600; MkParams 7 1 0 1531962000; MkParams 8 95085 0 1538524800;
   MkParams 9 106000 0 1539550195; MkParams 10 136000 0 1540145330; MkParams 11 137000 0 1540146330;
   MkParams 12 281000 0 1549310115; MkParams 13 HF_BLOCK_HEIGHT_PROOF_OF_STAKE 0 1561310115].

(** The loop of [Blockchain::init]: the results of [add_fork] are ignored. *)
Definition add_forks (hf : HardFork) (l : list Params) : HardFork :=
  foldl (fun hf p => (add_fork hf (p_version p) (p_height p) (p_threshold p) (p_time p)).2) hf l.

(** [get_next_version]: from the last fork down, with the fork after each. *)
Fixpoint next_loop (l : list Params) (after : option Params) (orig height : Z) : Z :=
  match l with
  | [] => orig
  | p :: l => if p_height p <=? height then p_version (default p after)
              else next_loop l (Some p) orig height
  end.
Definition get_next_version (hf : HardFork) (db : BlockchainDB) : Z :=
  next_loop (rev (heights hf)) None (original_version hf) (db_height db).

(** ** Invariant *)
Definition count (v : Z) (l : list Z) : Z := Z.of_nat (count_occ Z.eq_dec l v).

Record table_wf (l : list Params) : Prop := {
  tw_sorted i j : (i < j < length l)%nat ->
    p_version (l !!! i) < p_version (l !!! j) /\ p_height (l !!! i) < p_height (l !!! j) /\
    p_time (l !!! i) < p_time (l !!! j);
  tw_range i : (i < length l)%nat ->
    1 <= p_version (l !!! i) <= 255 /\ 0 <= p_threshold (l !!! i) <= 100 }.

Record hf_wf (hf : HardFork) : Prop := {
  wf_table : table_wf (heights hf);
  wf_index : (current_fork_index hf < length (heights hf))%nat;
  wf_window : 1 <= window_size hf < 2 ^ 32;
  wf_len : length (last_versions hf) = 256%nat;
  wf_votes : Forall is_u8 (versions hf);
  wf_count v : is_u8 v -> last_versions hf !!! Z.to_nat v = count v (versions hf);
  wf_size : zlen (versions hf) <= window_size hf }.

(** ** Counters *)
Lemma count_nonneg v l : 0 <= count v l.
Proof. unfold count. lia. Qed.

Lemma count_cons v x l : count v (x :: l) = (if Z.eq_dec x v then 1 else 0) + count v l.
Proof. unfold count. simpl. destruct (Z.eq_dec x v); lia. Qed.

Lemma count_snoc v x l : count v (l ++ [x]) = count v l + (if Z.eq_dec x v then 1 else 0).
Proof. unfold count. rewrite count_occ_app. simpl. destruct (Z.eq_dec x v); lia. Qed.

Lemma count_le v l : count v l <= zlen l.
Proof. unfold count, zlen. pose proof (count_occ_bound Z.eq_dec v l). lia. Qed.

Lemma lookup_bump lv v w d : is_u8 v -> is_u8 w -> length lv = 256%nat ->
  bump lv v d !!! Z.to_nat w =
    if Z.eq_dec v w then u32 (lv !!! Z.to_nat w + d) else lv !!! Z.to_nat w.
Proof.
  intros Hv Hw Hl. unfold bump, in_range in *. destruct (Z.eq_dec v w) as [-> |Hne].
  - rewrite list_lookup_total_insert_eq; [done|]. lia.
  - rewrite list_lookup_total_insert_ne; [done|]. lia.
Qed.

(** The counters agree with a window of fewer than 2^32 votes. *)
Definition counts (vs lv : list Z) : Prop :=
  length lv = 256%nat /\ Forall is_u8 vs /\ zlen vs < 2 ^ 32 /\
  forall v, is_u8 v -> lv !!! Z.to_nat v = count v vs.

Lemma counts_pop old vs lv : counts (old :: vs) lv ->
  1 <= lv !!! Z.to_nat old /\ counts vs (bump lv old (-1)).
Proof.
  intros (Hl & HF & Hz & Hc). apply Forall_cons in HF as [Ho HF]. split.
  { rewrite Hc, count_cons by done. destruct (Z.eq_dec old old); [|done]. pose proof (count_nonneg old vs). lia. }
  split; [unfold bump; by rewrite length_insert|]. rewrite zlen_cons in Hz. split; [done|]. split; [lia|].
  intros v Hv. rewrite lookup_bump, Hc, count_cons by done.
  destruct (Z.eq_dec old v); [|lia]. rewrite wrap_small; [lia|].
  pose proof (count_nonneg v vs). pose proof (count_le v vs). unfold in_range. lia.
Qed.

Lemma counts_push v vs lv : counts vs lv -> is_u8 v -> zlen vs + 1 < 2 ^ 32 ->
  counts (vs ++ [v]) (bump lv v 1).
Proof.
  intros (Hl & HF & Hz & Hc) Hv Hn. split; [unfold bump; by rewrite length_insert|].
  split; [apply Forall_app; split; [done|by constructor]|]. split; [rewrite zlen_app; change (zlen [v]) with 1; lia|].
  intros w Hw. rewrite lookup_bump, Hc, count_snoc by done. destruct (Z.eq_dec v w); [|lia].
  apply wrap_small. pose proof (count_nonneg w vs). pose proof (count_le w vs). unfold in_range. lia.
Qed.

(** The window after dropping: the newest [window - 1] votes are kept. *)
Lemma shrink_spec fuel window vs lv : 1 <= window -> (length vs <= fuel)%nat -> counts vs lv ->
  exists lv', shrink fuel window vs lv = (drop (Z.to_nat (zlen vs - (window - 1))) vs, lv') /\
    counts (drop (Z.to_nat (zlen vs - (window - 1))) vs) lv'.
Proof.
  intros Hw. revert fuel lv. induction vs as [|old vs IH]; intros fuel lv Hf Hc.
  { exists lv. rewrite drop_nil. by destruct fuel. }
  destruct fuel as [|fuel]; simpl in Hf; [lia|]. cbn [shrink]. rewrite zlen_cons.
  destruct (Z.leb_spec window (1 + zlen vs)) as [H|H].
  - destruct (IH fuel (bump lv old (-1))) as (lv' & E & Hc'); [lia|by apply counts_pop|].
    exists lv'. replace (Z.to_nat (1 + zlen vs - (window - 1))) with (S (Z.to_nat (zlen vs - (window - 1)))) by lia.
    done.
  - exists lv. by replace (Z.to_nat (1 + zlen vs - (window - 1))) with O by lia.
Qed.

(** ** The fork table *)
Lemma table_version_ge l i : table_wf l -> (i < length l)%nat -> Z.of_nat i + 1 <= p_version (l !!! i).
Proof.
  intros Hw. induction i as [|i IH]; intros Hi.
  - pose proof (tw_range _ Hw 0 Hi). lia.
  - pose proof (tw_sorted _ Hw i (S i)). lia.
Qed.

(** Version numbers are distinct and fit a byte, so the table has at most 255 entries. *)
Lemma table_length l : table_wf l -> (length l <= 255)%nat.
Proof.
  intros Hw. destruct (length l) as [|n] eqn:E; [lia|].
  pose proof (table_version_ge l n Hw). pose proof (tw_range _ Hw n). lia.
Qed.

Lemma table_snoc l p : table_wf l -> 1 <= p_version p <= 255 -> 0 <= p_threshold p <= 100 ->
  (forall q, last l = Some q -> p_version q < p_version p /\ p_height q < p_height p /\ p_time q < p_time p) ->
  table_wf (l ++ [p]).
Proof.
  intros Hw Hv Ht Hq.
  assert (forall i, (i < length l)%nat -> p_version (l !!! i) < p_version p /\
    p_height (l !!! i) < p_height p /\ p_time (l !!! i) < p_time p) as Hlt.
  { intros i Hi. destruct (last l) as [q|] eqn:E; [|apply last_None in E as ->; simpl in Hi; lia].
    specialize (Hq q eq_refl). apply last_Some in E as [l' ->]. rewrite length_app in *. simpl in *.
    destruct (decide (i = length l')) as [-> |Hne].
    - by rewrite list_lookup_total_middle.
    - pose proof (tw_sorted _ Hw i (length l')) as Hs. rewrite length_app, (list_lookup_total_middle l' [] q (length l') eq_refl) in Hs.
      simpl in Hs. lia. }
  split.
  - intros i j Hij. rewrite length_app in Hij. simpl in Hij. rewrite (lookup_total_app_l _ _ i) by lia.
    destruct (decide (j = length l)) as [-> |Hne].
    + rewrite list_lookup_total_middle by done. apply Hlt. lia.
    + rewrite lookup_total_app_l by lia. apply (tw_sorted _ Hw). lia.
  - intros i Hi. rewrite length_app in Hi. simpl in Hi. destruct (decide (i = length l)) as [-> |Hne].
    + by rewrite list_lookup_total_middle.
    + rewrite lookup_total_app_l by lia. apply (tw_range _ Hw). lia.
Qed.

Lemma add_fork_wf hf v h thr t : table_wf (heights hf) -> is_u8 v -> 0 <= thr ->
  table_wf (heights (add_fork hf v h thr t).2).
Proof.
  intros Hw Hv Ht. unfold add_fork. destruct (Z.eqb_spec v 0); [done|].
  destruct (match last (heights hf) with Some _ => _ | None => _ end) eqn:E; [done|].
  destruct (Z.ltb_spec 100 thr); [done|]. simpl. unfold in_range in Hv.
  apply table_snoc; simpl; [done|lia|lia|]. intros q Hq. rewrite Hq in E. lia.
Qed.

(** ** The vote *)

(** Votes in the window for fork [m] or a later one of the table. *)
Definition supporters (hf : HardFork) (m : nat) : Z :=
  zlen (filter (fun v => v ∈ map p_version (drop m (heights hf))) (versions hf)).

(** Fork [m] may activate at [height]: its height is reached, and its share of
    the window, rounded up, votes for it. *)
Definition eligible (hf : HardFork) (height : Z) (m : nat) : Prop :=
  p_height (heights hf !!! m) <= height /\
  (window_size hf * p_threshold (heights hf !!! m) + 99) / 100 <= supporters hf m.

Lemma filter_elem_cons x k vs : x ∉ k ->
  zlen (filter (fun v => v ∈ x :: k) vs) = count x vs + zlen (filter (fun v => v ∈ k) vs).
Proof.
  intros Hx. induction vs as [|v vs IH]; [done|]. rewrite !filter_cons, count_cons.
  destruct (Z.eq_dec v x) as [-> |Hne].
  - rewrite decide_True by (left; done). rewrite decide_False by done. rewrite zlen_cons, IH. lia.
  - destruct (decide (v ∈ k)) as [Hk|Hk].
    + rewrite decide_True by (right; done). rewrite !zlen_cons, IH. lia.
    + rewrite decide_False by (by intros [?|?]%elem_of_cons). rewrite IH. lia.
Qed.

Lemma drop_lookup_total {A} `{Inhabited A} (l : list A) n : (n < length l)%nat ->
  drop n l = l !!! n :: drop (S n) l.
Proof. intros Hn. apply drop_S. by apply list_lookup_lookup_total_lt. Qed.

Lemma supporters_S hf n : table_wf (heights hf) -> (n < length (heights hf))%nat ->
  supporters hf n = count (fork_version hf n) (versions hf) + supporters hf (S n).
Proof.
  intros Hw Hn. unfold supporters. rewrite (drop_lookup_total (heights hf) n Hn). simpl map.
  apply filter_elem_cons. intros (p & Hp & Hin)%list_elem_of_fmap.
  apply list_elem_of_lookup in Hin as [i Hi]. rewrite lookup_drop in Hi.
  pose proof (lookup_lt_Some _ _ _ Hi). apply list_lookup_total_correct in Hi.
  destruct (tw_sorted _ Hw n (S n + i)) as [Hlt _]; [lia|]. rewrite Hi in Hlt. unfold fork_version in Hp. lia.
Qed.

Lemma supporters_bound hf n : 0 <= supporters hf n <= zlen (versions hf).
Proof.
  unfold supporters. split; [apply zlen_nonneg|]. unfold zlen.
  pose proof (length_filter (fun v => v ∈ map p_version (drop n (heights hf))) (versions hf)). lia.
Qed.

Lemma threshold_exact w t : 1 <= w < 2 ^ 32 -> 0 <= t <= 100 ->
  u32 (u64 (w * t + 99) / 100) = (w * t + 99) / 100.
Proof.
  intros Hw Ht. rewrite (wrap_small 64) by (unfold in_range; nia). apply wrap_small.
  split; [apply Z.div_pos; nia|]. apply Z.div_lt_upper_bound; nia.
Qed.

Definition voted_spec (hf : HardFork) (height : Z) (r : nat) : Prop :=
  (forall m, (r < m < length (heights hf))%nat -> ~ eligible hf height m) /\
  (r = current_fork_index hf \/ (current_fork_index hf < r < length (heights hf))%nat /\ eligible hf height r).

Lemma voted_loop_spec hf n height : hf_wf hf -> (n < length (heights hf))%nat ->
  (current_fork_index hf <= n)%nat ->
  (forall m, (n < m < length (heights hf))%nat -> ~ eligible hf height m) ->
  voted_spec hf height (voted_loop hf n height (supporters hf (S n))).
Proof.
  intros Hw. induction n as [|n IH]; intros Hn Hc Hm; cbn [voted_loop].
  { split; [|by left]. intros m Hm'. apply Hm. lia. }
  destruct (Nat.ltb_spec (current_fork_index hf) (S n)) as [Hlt|Hge].
  2: { split; [|by left]. intros m Hm'. apply Hm. lia. }
  pose proof (tw_range _ (wf_table _ Hw) _ Hn) as Hr. pose proof (wf_window _ Hw).
  pose proof (wf_size _ Hw). pose proof (supporters_bound hf (S n)).
  cbv zeta. rewrite threshold_exact by lia.
  rewrite (wf_count _ Hw) by (unfold in_range; lia). fold (fork_version hf (S n)).
  rewrite (Z.add_comm (supporters hf (S (S n)))), <- supporters_S by (done || apply (wf_table _ Hw)).
  rewrite wrap_small by (unfold in_range; lia).
  destruct (_ && _) eqn:E.
  - split; [done|]. right. split; [done|]. unfold eligible. lia.
  - apply IH; [lia|lia|]. intros m Hm'. destruct (decide (m = S n)) as [-> |]; [|apply Hm; lia].
    unfold eligible. lia.
Qed.

Lemma get_voted_fork_index_spec hf height : hf_wf hf ->
  voted_spec hf height (get_voted_fork_index hf height).
Proof.
  intros Hw. unfold get_voted_fork_index. pose proof (wf_index _ Hw).
  replace 0 with (supporters hf (S (length (heights hf) - 1))).
  - apply voted_loop_spec; [done|lia|lia|]. intros m Hm. lia.
  - unfold supporters. rewrite drop_ge by lia. simpl.
    induction (versions hf) as [|v vs IH]; [done|]. rewrite filter_cons_False; [done|]. apply not_elem_of_nil.
Qed.

Lemma voted_bounds hf height : hf_wf hf ->
  (current_fork_index hf <= get_voted_fork_index hf height < length (heights hf))%nat.
Proof. intros Hw. destruct (get_voted_fork_index_spec hf height Hw) as [_ [-> |[? _]]]; pose proof (wf_index _ Hw); lia. Qed.

(** The conversion of the voted index to [uint8_t] loses nothing. *)
Lemma advance_eq hf height : hf_wf hf -> advance hf height = set_index hf (get_voted_fork_index hf height).
Proof.
  intros Hw. pose proof (voted_bounds hf height Hw). pose proof (table_length _ (wf_table _ Hw)).
  unfold advance. rewrite wrap_small by (unfold in_range; lia). rewrite Nat2Z.id.
  destruct (Nat.ltb_spec (current_fork_index hf) (get_voted_fork_index hf height)); [done|].
  replace (get_voted_fork_index hf height) with (current_fork_index hf) by lia. by destruct hf.
Qed.

Lemma set_index_wf hf i : hf_wf hf -> (i < length (heights hf))%nat -> hf_wf (set_index hf i).
Proof. intros [] Hi. by split. Qed.

Lemma advance_wf hf height : hf_wf hf -> hf_wf (advance hf height).
Proof. intros Hw. rewrite advance_eq by done. apply set_index_wf; [done|]. by apply voted_bounds. Qed.

Lemma effective_u8 hf v : table_wf (heights hf) -> is_u8 v -> is_u8 (get_effective_version hf v).
Proof.
  intros Hw Hv. unfold get_effective_version. destruct (last (heights hf)) as [p|] eqn:E; [|done].
  apply last_Some in E as [l E]. pose proof (tw_range _ Hw (length l)) as Hr.
  rewrite E, length_app, list_lookup_total_middle in Hr by done. simpl in Hr.
  case_match; [|done]. unfold in_range in *. lia.
Qed.

Definition keep_last (n : Z) (l : list Z) : list Z := drop (Z.to_nat (zlen l - n)) l.

(** What a successful [add] does. *)
Lemma add_votes_window hf db bv vv height : hf_wf hf -> is_u8 vv -> do_check hf bv vv = true ->
  exists hf1, hf_wf hf1 /\ heights hf1 = heights hf /\ window_size hf1 = window_size hf /\
    current_fork_index hf1 = current_fork_index hf /\
    versions hf1 = keep_last (window_size hf) (versions hf ++ [get_effective_version hf vv]) /\
    add_votes hf db bv vv height =
      (true, set_index hf1 (get_voted_fork_index hf1 (u64 (height + 1))),
       set_hard_fork_version db height (get_current_version hf)).
Proof.
  intros Hw Hvv Hc. unfold add_votes. rewrite Hc. simpl negb. cbv iota zeta.
  pose proof (effective_u8 hf vv (wf_table _ Hw) Hvv) as He. pose proof (wf_window _ Hw) as Hwin.
  pose proof (wf_size _ Hw) as Hsz.
  destruct (shrink_spec (length (versions hf)) (window_size hf) (versions hf) (last_versions hf))
    as (lv & -> & Hcnt); [lia|done|destruct Hw; split_and!; try done; lia|].
  set (vs := drop _ _) in *. assert (zlen vs <= window_size hf - 1) as Hvs.
  { unfold vs, zlen in *. rewrite length_drop. lia. }
  set (hf1 := push_vote (set_window hf vs lv) (get_effective_version hf vv)).
  assert (counts (versions hf1) (last_versions hf1)) as (H1 & H2 & H3 & H4) by (apply (counts_push _ vs lv); [done|done|lia]).
  assert (hf_wf hf1) as Hw1.
  { split; try done; [apply (wf_table _ Hw)|apply (wf_index _ Hw)|].
    simpl. rewrite zlen_app. change (zlen [get_effective_version hf vv]) with 1. lia. }
  exists hf1. split; [done|]. repeat split; try done.
  - simpl. unfold keep_last. rewrite zlen_app. change (zlen [get_effective_version hf vv]) with 1.
    unfold vs. rewrite drop_app_le by (unfold zlen in *; lia). do 2 f_equal. lia.
  - by rewrite advance_eq by done.
Qed.

Lemma add_votes_true hf db bv vv height : hf_wf hf -> is_u8 vv -> 0 <= height < 2 ^ 64 - 1 ->
  do_check hf bv vv = true ->
  exists hf1, hf_wf hf1 /\ heights hf1 = heights hf /\ window_size hf1 = window_size hf /\
    current_fork_index hf1 = current_fork_index hf /\
    versions hf1 = keep_last (window_size hf) (versions hf ++ [get_effective_version hf vv]) /\
    add_votes hf db bv vv height =
      (true, set_index hf1 (get_voted_fork_index hf1 (height + 1)),
       set_hard_fork_version db height (get_current_version hf)).
Proof.
  intros Hw Hvv Hh Hc. rewrite <- (wrap_small 64 (height + 1)) by (unfold in_range; lia). by apply add_votes_window.
Qed.

Lemma clear_window_wf hf : table_wf (heights hf) -> heights hf <> [] -> 1 <= window_size hf < 2 ^ 32 ->
  hf_wf (set_index (clear_window hf) 0).
Proof.
  intros Hw Hne Hwin. split; try done.
  - destruct (heights hf) eqn:E; [done|]. simpl. rewrite E. simpl. lia.
  - intros v Hv. change (replicate 256 0 !!! Z.to_nat v = 0). unfold in_range in Hv.
    by rewrite lookup_total_replicate_2 by lia.
  - simpl. change (zlen (@nil Z)) with 0. lia.
Qed.

Lemma add_forks_wf hf l : table_wf (heights hf) ->
  Forall (fun p => is_u8 (p_version p) /\ 0 <= p_threshold p) l -> table_wf (heights (add_forks hf l)).
Proof.
  revert hf. unfold add_forks. induction l as [|p l IH]; intros hf Hw HF; simpl; [done|].
  apply Forall_cons in HF as [[Hv Ht] HF]. apply IH; [|done]. by apply add_fork_wf.
Qed.

Lemma table_wf_nil : table_wf [].
Proof. split; simpl; lia. Qed.

(** ** The window and the chain *)
Definition chain_votes (hf : HardFork) (db : BlockchainDB) : list Z :=
  keep_last (window_size hf) (map (fun b => get_effective_version hf (get_block_vote b)) (db_blocks db)).

Lemma keep_last_snoc n l x : 1 <= n -> keep_last n (keep_last n l ++ [x]) = keep_last n (l ++ [x]).
Proof.
  intros Hn. unfold keep_last. rewrite !zlen_app. change (zlen [x]) with 1.
  pose proof (zlen_nonneg l). unfold zlen at 1. rewrite length_drop.
  destruct (Z.le_gt_cases (zlen l) n).
  - replace (Z.to_nat (zlen l - n)) with O by lia. rewrite drop_0, Nat.sub_0_r. fold (zlen l). done.
  - assert (Z.of_nat (length l - Z.to_nat (zlen l - n)) = n) as -> by (unfold zlen in *; lia).
    replace (Z.to_nat (n + 1 - n)) with 1%nat by lia.
    rewrite !drop_app_le by (rewrite ?length_drop; unfold zlen in *; lia).
    rewrite drop_drop. do 2 f_equal. lia.
Qed.

Lemma push_blocks_spec n hf db h : 0 <= h -> h + Z.of_nat n <= db_height db ->
  exists hf', push_blocks n hf db h = Some hf' /\ heights hf' = heights hf /\
    window_size hf' = window_size hf /\
    versions hf' = versions hf ++
      map (fun b => get_effective_version hf (get_block_vote b)) (take n (drop (Z.to_nat h) (db_blocks db))).
Proof.
  revert hf h. induction n as [|n IH]; intros hf h Hh Hn; simpl.
  { exists hf. by rewrite app_nil_r. }
  unfold get_block_from_height. destruct (Z.ltb_spec h 0); [lia|]. unfold db_height, zlen in Hn.
  destruct (lookup_lt_is_Some_2 (db_blocks db) (Z.to_nat h)) as [b Hb]; [lia|]. rewrite Hb.
  destruct (IH (push_vote hf (get_effective_version hf (get_block_vote b))) (h + 1))
    as (hf' & E0 & E1 & E2 & E3); [lia|unfold db_height, zlen; lia|].
  exists hf'. split; [done|]. split; [done|]. split; [done|]. rewrite E3. simpl.
  rewrite (drop_S _ _ _ Hb), firstn_cons. simpl. rewrite <- app_assoc. simpl. do 3 f_equal.
  by replace (Z.to_nat (h + 1)) with (S (Z.to_nat h)) by lia.
Qed.

(** ** Properties *)

(** C32: [HardFork::add].  From a well-formed state, whatever the block: the
    result is that of [check]; a rejected block changes nothing; an accepted
    one leaves a well-formed state whose window is the old window and the
    block's effective vote cut to the newest [window_size] votes, records the
    version in force at this height, never lowers the current fork, and makes
    current exactly the last fork of the table that is eligible at the next
    height.  No counter underflows, and the [uint8_t] conversion of the voted
    index is exact. *)
Theorem hardfork_add hf db b height :
  hf_wf hf -> is_u8 (minor_version (hdr b)) -> 0 <= height < 2 ^ 64 - 1 ->
  let '(r, hf', db') := add hf db b height in
  r = check hf b /\ hf_wf hf' /\
  (r = false -> hf' = hf /\ db' = db) /\
  (r = true ->
    versions hf' = keep_last (window_size hf) (versions hf ++ [get_effective_version hf (get_block_vote b)]) /\
    db' = set_hard_fork_version db height (get_current_version hf) /\
    (current_fork_index hf <= current_fork_index hf')%nat /\
    voted_spec (set_index hf' (current_fork_index hf)) (height + 1) (current_fork_index hf')).
Proof.
  intros Hw Hm Hh. unfold add, check.
  assert (is_u8 (get_block_vote b)) as Hv by (unfold get_block_vote; by case_match).
  destruct (do_check hf (block_get_version b) (get_block_vote b)) eqn:Hc.
  - destruct (add_votes_true hf db (block_get_version b) (get_block_vote b) height Hw Hv Hh Hc)
      as (hf1 & Hw1 & E1 & E2 & E3 & E4 & ->).
    pose proof (voted_bounds hf1 (height + 1) Hw1). rewrite E3 in *.
    split; [done|]. split; [apply set_index_wf; [done|lia]|]. split; [done|]. intros _.
    split; [done|]. split; [done|]. split; [simpl; lia|].
    pose proof (get_voted_fork_index_spec hf1 (height + 1) Hw1) as Hs.
    replace (set_index (set_index hf1 _) _) with hf1; [done|]. rewrite <- E3. by destruct hf1.
  - unfold add_votes. rewrite Hc. simpl. done.
Qed.

Lemma version_mono hf i j : table_wf (heights hf) -> (i <= j < length (heights hf))%nat -> fork_version hf i <= fork_version hf j.
Proof. intros Hw Hij. unfold fork_version. destruct (decide (i = j)) as [->|]; [lia|]. pose proof (tw_sorted _ Hw i j). lia. Qed.

Lemma current_le_ideal hf : hf_wf hf -> get_current_version hf <= get_ideal_version hf.
Proof. intros Hw. pose proof (wf_index _ Hw). apply version_mono; [apply Hw|lia]. Qed.

(** The version in force never goes back when a block is added. *)
Lemma hardfork_add_keeps hf db b height : hf_wf hf -> is_u8 (minor_version (hdr b)) ->
  let '(_, hf', db') := add hf db b height in
  hf_wf hf' /\ heights hf' = heights hf /\ window_size hf' = window_size hf /\ db_blocks db' = db_blocks db /\
  get_current_version hf <= get_current_version hf'.
Proof.
  intros Hw Hm. unfold add. assert (is_u8 (get_block_vote b)) as Hv by (unfold get_block_vote; by case_match).
  destruct (do_check hf (block_get_version b) (get_block_vote b)) eqn:Hc; [|unfold add_votes; rewrite Hc; simpl; repeat (split; [done|]); lia].
  destruct (add_votes_window hf db (block_get_version b) (get_block_vote b) height Hw Hv Hc) as (hf1 & Hw1 & E1 & E2 & E3 & E4 & ->).
  pose proof (voted_bounds hf1 (u64 (height + 1)) Hw1) as Hb. split; [apply set_index_wf; [done|lia]|]. do 3 (split; [done|]).
  unfold get_current_version. cbn [current_fork_index set_index]. change (fork_version (set_index hf1 ?i)) with (fork_version hf1).
  unfold fork_version at 1. rewrite <- E1. rewrite <- E3. apply version_mono; [apply Hw1|lia].
Qed.

(** ** Reorganising *)
Definition votes_u8 (db : BlockchainDB) : Prop := Forall (fun b => is_u8 (minor_version (hdr b))) (db_blocks db).

Lemma block_from_height_u8 db h b : votes_u8 db -> get_block_from_height db h = Some b -> is_u8 (minor_version (hdr b)).
Proof. unfold get_block_from_height. case_match; [done|]. intros Hu Hb. exact (Forall_lookup_1 _ _ _ _ Hu Hb). Qed.

Lemma push_blocks_wf n hf db h hf' : hf_wf hf -> votes_u8 db -> zlen (versions hf) + Z.of_nat n <= window_size hf ->
  push_blocks n hf db h = Some hf' -> hf_wf hf' /\ heights hf' = heights hf /\ window_size hf' = window_size hf.
Proof.
  intros Hw Hu. revert hf Hw h. induction n as [|n IH]; intros hf Hw h Hn; cbn [push_blocks]; [by intros [= <-]|].
  destruct (get_block_from_height db h) as [b|] eqn:Eb; [|done]. apply block_from_height_u8 in Eb; [|done].
  assert (is_u8 (get_block_vote b)) as Hv by (unfold get_block_vote; by case_match).
  pose proof (effective_u8 hf (get_block_vote b) (wf_table _ Hw) Hv) as He. set (v := get_effective_version hf (get_block_vote b)) in *.
  assert (zlen (versions hf ++ [v]) = zlen (versions hf) + 1) as El by (rewrite zlen_app; done).
  assert (hf_wf (push_vote hf v)) as Hp.
  { pose proof (wf_window _ Hw). destruct (counts_push v (versions hf) (last_versions hf)) as (H1 & H2 & H3 & H4);
      [destruct Hw; split_and!; try done; lia|done|lia|].
    split; try done; [apply Hw|apply Hw|]. cbn. rewrite El. lia. }
  intros E. apply IH in E; [exact E|exact Hp|]. cbn. rewrite El. lia.
Qed.

Lemma add_blocks_wf n hf db h hf' db' : hf_wf hf -> votes_u8 db -> add_blocks n hf db h = Some (hf', db') ->
  hf_wf hf' /\ heights hf' = heights hf /\ db_blocks db' = db_blocks db.
Proof.
  revert hf db h. induction n as [|n IH]; intros hf db h Hw Hu; cbn [add_blocks]; [by intros [= <- <-]|].
  destruct (get_block_from_height db h) as [b|] eqn:Eb; [|done]. apply block_from_height_u8 in Eb; [|done].
  pose proof (hardfork_add_keeps hf db b h Hw Eb) as Hk. destruct (add hf db b h) as [[r hf1] db1]. destruct Hk as (H1 & H2 & _ & H3 & _).
  intros (E1 & E2 & E3)%IH; [|done|unfold votes_u8; by rewrite H3]. split; [done|]. split; congruence.
Qed.

(** A fork to version [v] or later is due from the first block on, without a vote. *)
Definition early_fork (v : Z) (hf : HardFork) : Prop := exists i, (i < length (heights hf))%nat /\
  v <= fork_version hf i /\ p_height (heights hf !!! i) <= 1 /\ p_threshold (heights hf !!! i) = 0.

Lemma early_fork_heights v hf hf' : heights hf' = heights hf -> early_fork v hf -> early_fork v hf'.
Proof. intros E. unfold early_fork, fork_version. by rewrite E. Qed.

Lemma advance_early v hf h : hf_wf hf -> early_fork v hf -> 1 <= h -> v <= get_current_version (advance hf h).
Proof.
  intros Hw (i & Hi & Hv & Hp & Ht) Hh. rewrite advance_eq by done. change (v <= fork_version hf (get_voted_fork_index hf h)).
  destruct (get_voted_fork_index_spec hf h Hw) as [Hno _]. pose proof (voted_bounds hf h Hw) as Hb.
  etrans; [exact Hv|]. apply version_mono; [apply Hw|]. split; [|lia]. destruct (decide (get_voted_fork_index hf h < i)%nat) as [Hlt|]; [|lia].
  destruct (Hno i); [lia|]. split; [lia|]. rewrite Ht, Z.mul_0_r. apply supporters_bound.
Qed.

(** Rebuilding the state from the chain keeps that floor. *)
Lemma add_blocks_mono n hf db h hf' db' : hf_wf hf -> votes_u8 db -> add_blocks n hf db h = Some (hf', db') ->
  get_current_version hf <= get_current_version hf'.
Proof.
  revert hf db h. induction n as [|n IH]; intros hf db h Hw Hu; cbn [add_blocks]; [by intros [= <- <-]|].
  destruct (get_block_from_height db h) as [b|] eqn:Eb; [|done]. apply block_from_height_u8 in Eb; [|done].
  pose proof (hardfork_add_keeps hf db b h Hw Eb) as Hk. destruct (add hf db b h) as [[r hf1] db1]. destruct Hk as (H1 & _ & _ & H3 & H4).
  intros E. apply IH in E; [lia|done|unfold votes_u8; by rewrite H3].
Qed.

Lemma reorganize_wf hf db h r hf' db' : hf_wf hf -> votes_u8 db -> reorganize_from_chain_height hf db h = Some (r, hf', db') ->
  hf_wf hf' /\ heights hf' = heights hf /\ db_blocks db' = db_blocks db /\
  (forall v, early_fork v hf -> v <= get_current_version hf -> 0 <= h -> v <= get_current_version hf').
Proof.
  intros Hw Hu. unfold reorganize_from_chain_height, reorganize_from_block_height. destruct (Z.eqb_spec h 0) as [|Hh0]; [by intros [= _ <- <-]|].
  destruct (Z.leb_spec (db_height db) (h - 1)); [by intros [= _ <- <-]|]. cbv zeta.
  destruct (if h - 1 =? 0 then _ else _) as [v|]; [|done]. pose proof (wf_window _ Hw) as Hwin.
  assert (heights hf <> []) as Hne by (intros E; pose proof (wf_index _ Hw) as Hi; rewrite E in Hi; cbn in Hi; lia).
  set (i := lower_index _ _ _). set (n := Z.to_nat _).
  assert (hf_wf (set_index (clear_window hf) i)) as Hw0.
  { apply (set_index_wf (set_index (clear_window hf) 0)); [apply clear_window_wf; [apply Hw|done|lia]|].
    change (i < length (heights hf))%nat. pose proof (wf_index _ Hw). enough (i <= current_fork_index hf)%nat by lia. unfold i. cbn [clear_window set_window current_fork_index].
    induction (current_fork_index hf) as [|j IH]; cbn [lower_index]; [done|]. case_match; lia. }
  destruct (push_blocks n _ db _) as [hf1|] eqn:Ep; [|done]. apply push_blocks_wf in Ep as (Hw1 & E1 & E2); [|done|done|].
  2: { cbn [versions window_size set_index clear_window set_window]. change (zlen (@nil Z)) with 0. unfold n. cbn [window_size clear_window set_window].
       destruct (Z.leb_spec (window_size hf - 1) (h - 1)); lia. }
  destruct (add_blocks _ _ db _) as [[hf2 db2]|] eqn:Ea; [|done]. intros [= _ <- <-].
  pose proof (add_blocks_mono _ _ _ _ _ _ (advance_wf _ _ Hw1) Hu Ea) as Hmono.
  apply add_blocks_wf in Ea as (Hw2 & E3 & E4); [|by apply advance_wf|done]. split; [done|]. split; [|split; [done|]].
  - rewrite E3, advance_eq by done. exact E1.
  - intros u He _ Hh. etrans; [|exact Hmono]. apply advance_early; [done| |lia]. by eapply early_fork_heights.
Qed.

(** A node on the main network, and the first blocks. *)
Definition example_hf : HardFork :=
  set_index (clear_window (add_forks (MkHardFork 1 1 10080 80 [] [] [] 0) mainnet_hard_forks)) 0.
Definition versioned_block (major minor : Z) : block :=
  Block (Header major minor 0 (replicate 32 0) 0) set_null [] None.

Lemma example_hf_wf : hf_wf example_hf.
Proof.
  apply clear_window_wf; [|vm_compute; done|simpl; lia].
  apply add_forks_wf; [apply table_wf_nil|by_decide].
Qed.

Lemma example_hf_early : early_fork 2 example_hf.
Proof. exists 1%nat. split; [cbn; lia|]. by vm_compute. Qed.

Lemma hardfork_add_witness :
  let b := versioned_block 1 1 in
  let '(r, hf', db') := add example_hf (Db [] ∅) b 0 in
  r = check example_hf b /\ hf_wf hf' /\
  (r = false -> hf' = example_hf /\ db' = Db [] ∅) /\
  (r = true ->
    versions hf' = keep_last (window_size example_hf)
                     (versions example_hf ++ [get_effective_version example_hf (get_block_vote b)]) /\
    db' = set_hard_fork_version (Db [] ∅) 0 (get_current_version example_hf) /\
    (current_fork_index example_hf <= current_fork_index hf')%nat /\
    voted_spec (set_index hf' (current_fork_index example_hf)) (0 + 1) (current_fork_index hf')).
Proof. apply (hardfork_add example_hf); [apply example_hf_wf|by_decide|lia]. Defined.

Lemma versions_advance hf h : versions (advance hf h) = versions hf.
Proof. unfold advance. by case_match. Qed.

(** The height [init] rescans from. *)
Definition init_height (hf : HardFork) (db : BlockchainDB) : Z :=
  if window_size hf <? db_height db then db_height db - (window_size hf - 1) else 1.

(** a restart does not change the vote.  The window that [init] rebuilds
    from a chain whose fork versions are stored is the effective votes of the
    newest [window_size] blocks, and that is also the window a running node
    gets by cutting its window after each added block. *)
Theorem rescan_window hf db v :
  1 <= window_size hf -> 0 < db_height db -> get_hard_fork_version db (db_height db - 1) = Some v ->
  (exists hf', rescan_from_chain_height hf db (init_height hf db) = Some (true, hf') /\
     versions hf' = chain_votes hf db) /\
  (forall b, chain_votes hf (Db (db_blocks db ++ [b]) (db_hf db)) =
     keep_last (window_size hf) (chain_votes hf db ++ [get_effective_version hf (get_block_vote b)])).
Proof.
  intros Hw Hpos Hv. split.
  2: { intros b. unfold chain_votes. simpl. rewrite map_app. simpl. by rewrite keep_last_snoc by lia. }
  unfold rescan_from_chain_height, rescan_from_block_height. set (h := init_height hf db).
  assert (1 <= h <= db_height db /\ h - 1 = Z.max 0 (db_height db - window_size hf)) as [Hh Eh]
    by (unfold h, init_height; case_match; lia).
  destruct (Z.eqb_spec h 0); [lia|]. destruct (Z.leb_spec (db_height db) (h - 1)); [lia|].
  destruct (push_blocks_spec (Z.to_nat (db_height db - (h - 1))) (clear_window hf) db (h - 1))
    as (hf1 & -> & E1 & E2 & E3); [lia|lia|].
  rewrite Hv. eexists. split; [done|]. rewrite versions_advance. simpl. rewrite E3. simpl.
  unfold chain_votes, keep_last. unfold zlen at 1. rewrite length_map. fold (zlen (db_blocks db)). fold (db_height db).
  rewrite take_ge by (rewrite length_drop; unfold db_height, zlen in *; lia).
  rewrite <- skipn_map. f_equal. lia.
Qed.

Lemma rescan_window_witness :
  let db := Db [versioned_block 1 1; versioned_block 7 13] {[1 := 7]} in
  (exists hf', rescan_from_chain_height example_hf db (init_height example_hf db) = Some (true, hf') /\
     versions hf' = chain_votes example_hf db) /\
  (forall b, chain_votes example_hf (Db (db_blocks db ++ [b]) (db_hf db)) =
     keep_last (window_size example_hf)
       (chain_votes example_hf db ++ [get_effective_version example_hf (get_block_vote b)])).
Proof.
  apply (rescan_window example_hf (Db [versioned_block 1 1; versioned_block 7 13] {[1 := 7]}) 7);
    [simpl; lia|vm_compute; reflexivity|vm_compute; reflexivity].
Defined.

Lemma ideal_loop_spec hf n height :
  (exists m, (0 < m <= n)%nat /\ p_height (heights hf !!! m) <= height /\ ideal_loop hf n height = fork_version hf m /\
     forall k, (m < k <= n)%nat -> height < p_height (heights hf !!! k)) \/
  (ideal_loop hf n height = original_version hf /\
     forall k, (0 < k <= n)%nat -> height < p_height (heights hf !!! k)).
Proof.
  induction n as [|n IH]; simpl; [right; split; [done|lia]|].
  destruct (Z.leb_spec (p_height (heights hf !!! S n)) height) as [H|H].
  { left. exists (S n). split; [lia|]. split; [done|]. split; [done|]. lia. }
  assert (forall k, (k = S n \/ (k <= n)%nat) <-> (k <= S n)%nat) as Hk by lia.
  destruct IH as [(m & Hm & Hp & -> & Hn)|[-> Hn]]; [left; exists m|right]; repeat split; try done; try lia.
  - intros k Hkn. destruct (decide (k = S n)) as [-> |]; [done|]. apply Hn. lia.
  - intros k Hkn. destruct (decide (k = S n)) as [-> |]; [done|]. apply Hn. lia.
Qed.

(** with the zero thresholds of the shipped fork tables the version in
    force depends on the height alone.  After any accepted block the current
    version is [get_ideal_version] of the next height, whatever was voted,
    provided the fork current before was due by then. *)
Theorem zero_threshold_version hf db b height :
  hf_wf hf -> is_u8 (minor_version (hdr b)) -> 0 <= height < 2 ^ 64 - 1 ->
  (forall i, (i < length (heights hf))%nat -> p_threshold (heights hf !!! i) = 0) ->
  fork_version hf 0 = original_version hf ->
  p_height (heights hf !!! current_fork_index hf) <= height + 1 ->
  check hf b = true ->
  get_current_version (add hf db b height).1.2 = get_ideal_version_at hf (height + 1).
Proof.
  intros Hw Hm Hh Ht Ho Hd Hc. unfold add.
  assert (is_u8 (get_block_vote b)) as Hv by (unfold get_block_vote; by case_match).
  destruct (add_votes_true hf db (block_get_version b) (get_block_vote b) height Hw Hv Hh Hc)
    as (hf1 & Hw1 & E1 & E2 & E3 & E4 & ->). simpl.
  destruct (get_voted_fork_index_spec hf1 (height + 1) Hw1) as [Hno Hr].
  pose proof (voted_bounds hf1 (height + 1) Hw1) as Hb. set (r := get_voted_fork_index _ _) in *.
  unfold get_current_version, fork_version, eligible in *. simpl. rewrite E1, E2, E3 in *.
  assert (p_height (heights hf !!! r) <= height + 1) as Hle by (destruct Hr as [-> |[_ [? _]]]; done).
  assert (forall m, (r < m < length (heights hf))%nat -> height + 1 < p_height (heights hf !!! m)) as Hgt.
  { intros m Hm'. destruct (Z.lt_ge_cases (height + 1) (p_height (heights hf !!! m))) as [|Hge]; [done|].
    exfalso. apply (Hno m Hm'). rewrite Ht by lia. rewrite Z.mul_0_r. split; [lia|].
    pose proof (supporters_bound hf1 m). change ((0 + 99) / 100) with 0. lia. }
  unfold get_ideal_version_at.
  destruct (ideal_loop_spec hf (length (heights hf) - 1) (height + 1)) as [(m & Hm1 & Hp & -> & Hn)|[-> Hn]].
  - destruct (decide (m = r)) as [-> |Hne]; [done|]. destruct (decide (r < m)%nat) as [Hlt|].
    + specialize (Hgt m). lia.
    + specialize (Hn r). lia.
  - destruct (decide (r = 0)%nat) as [-> |Hne]; [done|]. specialize (Hn r). lia.
Qed.

Lemma zero_threshold_version_witness :
  get_current_version (add example_hf (Db [] ∅) (versioned_block 1 13) 0).1.2
    = get_ideal_version_at example_hf (0 + 1).
Proof.
  apply zero_threshold_version;
    [apply example_hf_wf|by_decide|lia| |reflexivity|vm_compute; discriminate|reflexivity].
  intros i Hi. change (length (heights example_hf)) with 8%nat in Hi.
  do 8 (destruct i as [|i]; [reflexivity|]). lia.
Defined.
