(* ===== verification/IntUtil.v ===== *)
(** * Wide integer helpers

    Model of src/common/int-util.h: 64 by 64 bit multiplication, division of a
    128-bit number by a 32-bit one, and rotations. *)
From Stdlib Require Import ZArith Lia Bool.
From stdpp Require Import prelude.
From S2P Require Import Prelude.
Local Open Scope Z_scope.

Definition rol32 (x r : Z) : Z :=
  Z.lor (u32 (Z.shiftl x (Z.land r 31))) (Z.shiftr x (Z.land (- r) 31)).
Definition rol64 (x r : Z) : Z :=
  Z.lor (u64 (Z.shiftl x (Z.land r 63))) (Z.shiftr x (Z.land (- r) 63)).

Definition hi_dword (val : Z) : Z := Z.shiftr val 32.
Definition lo_dword (val : Z) : Z := Z.land val 4294967295.

(** Result: the low and the high word of the product. *)
Definition mul128 (multiplier multiplicand : Z) : Z * Z :=
  let a := hi_dword multiplier in
  let b := lo_dword multiplier in
  let c := hi_dword multiplicand in
  let d := lo_dword multiplicand in
  let ac := u64 (a * c) in
  let ad := u64 (a * d) in
  let bc := u64 (b * c) in
  let bd := u64 (b * d) in
  let adbc := u64 (ad + bc) in
  let adbc_carry := if adbc <? ad then 1 else 0 in
  let product_lo := u64 (bd + u64 (Z.shiftl adbc 32)) in
  let product_lo_carry := if product_lo <? bd then 1 else 0 in
  let product_hi := u64 (u64 (u64 (ac + Z.shiftr adbc 32) + u64 (Z.shiftl adbc_carry 32)) + product_lo_carry) in
  (product_lo, product_hi).

(** Result: the quotient and the new remainder. *)
Definition div_with_reminder (dividend divisor remainder : Z) : Z * Z :=
  let dividend := Z.lor dividend (u64 (Z.shiftl remainder 32)) in
  (dividend / divisor, u32 (dividend mod divisor)).

(** Result: the remainder, and the high and low words of the quotient. *)
Definition div128_32 (dividend_hi dividend_lo divisor : Z) : Z * Z * Z :=
  let '(q3, r) := div_with_reminder (hi_dword dividend_hi) divisor 0 in
  let '(q2, r) := div_with_reminder (lo_dword dividend_hi) divisor r in
  let '(q1, r) := div_with_reminder (hi_dword dividend_lo) divisor r in
  let '(q0, r) := div_with_reminder (lo_dword dividend_lo) divisor r in
  (r, Z.lor (u64 (Z.shiftl q3 32)) q2, Z.lor (u64 (Z.shiftl q1 32)) q0).

(** ** Halves *)
Lemma dwords x : is_u64 x ->
  x = hi_dword x * 2 ^ 32 + lo_dword x /\ is_u32 (hi_dword x) /\ is_u32 (lo_dword x).
Proof.
  unfold in_range, hi_dword, lo_dword. intros Hx. rewrite Z.shiftr_div_pow2, land_ffffffff by lia.
  pose proof (Z.div_mod x (2 ^ 32)). pose proof (Z.mod_pos_bound x (2 ^ 32)).
  repeat split; lia.
Qed.

Lemma mul32_bound a b : is_u32 a -> is_u32 b -> 0 <= a * b <= 2 ^ 64 - 2 * 2 ^ 32 + 1.
Proof. unfold in_range. intros. nia. Qed.

(** A 64-bit word shifted up by 32 keeps its low half. *)
Lemma shiftl32 x : u64 (Z.shiftl x 32) = (x mod 2 ^ 32) * 2 ^ 32.
Proof.
  unfold wrap. rewrite Z.shiftl_mul_pow2 by lia. change (2 ^ 64) with (2 ^ 32 * 2 ^ 32).
  by rewrite Z.mul_mod_distr_r by lia.
Qed.

Lemma u64_add_carry x y : is_u64 x -> is_u64 y ->
  u64 (x + y) = x + y - (if u64 (x + y) <? x then 2 ^ 64 else 0) /\ is_u64 (u64 (x + y)).
Proof.
  intros Hx Hy. split; [|by apply wrap_range]. unfold in_range in *.
  destruct (Z.lt_ge_cases (x + y) (2 ^ 64)).
  - rewrite wrap_small by (unfold in_range; lia). case_match; lia.
  - assert (u64 (x + y) = x + y - 2 ^ 64) as -> by (symmetry; apply Z.mod_unique with 1; lia).
    case_match; lia.
Qed.

Lemma mul128_correct a b : is_u64 a -> is_u64 b ->
  let '(lo, hi) := mul128 a b in is_u64 lo /\ is_u64 hi /\ lo + hi * 2 ^ 64 = a * b.
Proof.
  intros Ha Hb. destruct (dwords a Ha) as (Ea & Ha1 & Ha0), (dwords b Hb) as (Eb & Hb1 & Hb0).
  unfold mul128. set (a1 := hi_dword a) in *. set (a0 := lo_dword a) in *.
  set (b1 := hi_dword b) in *. set (b0 := lo_dword b) in *.
  pose proof (mul32_bound a1 b1 Ha1 Hb1). pose proof (mul32_bound a1 b0 Ha1 Hb0).
  pose proof (mul32_bound a0 b1 Ha0 Hb1). pose proof (mul32_bound a0 b0 Ha0 Hb0).
  assert (a * b = a1 * b1 * 2 ^ 64 + (a1 * b0 + a0 * b1) * 2 ^ 32 + a0 * b0) as E
    by (rewrite Ea, Eb; ring).
  rewrite !(wrap_small 64 (_ * _)) by (unfold in_range; lia).
  set (p11 := a1 * b1) in *. set (p10 := a1 * b0) in *. set (p01 := a0 * b1) in *. set (p00 := a0 * b0) in *.
  destruct (u64_add_carry p10 p01) as [E1 R1]; [unfold in_range; lia..|].
  set (m := u64 (p10 + p01)) in *. rewrite shiftl32.
  pose proof (Z.div_mod m (2 ^ 32)). pose proof (Z.mod_pos_bound m (2 ^ 32)).
  assert (0 <= m / 2 ^ 32 < 2 ^ 32) by (unfold in_range in R1; split; [apply Z.div_pos; lia|apply Z.div_lt_upper_bound; lia]).
  destruct (u64_add_carry p00 (m mod 2 ^ 32 * 2 ^ 32)) as [E2 R2]; [unfold in_range; lia..|].
  set (lo := u64 (p00 + m mod 2 ^ 32 * 2 ^ 32)) in *.
  rewrite (Z.shiftr_div_pow2 m) by lia. rewrite shiftl32.
  set (c1 := if m <? p10 then 1 else 0) in *. set (c2 := if lo <? p00 then 1 else 0).
  assert (m = p10 + p01 - c1 * 2 ^ 64 /\ lo = p00 + m mod 2 ^ 32 * 2 ^ 32 - c2 * 2 ^ 64 /\
    (0 <= c1 <= 1) /\ 0 <= c2 <= 1) as (E1' & E2' & Hc1 & Hc2).
  { unfold c1, c2. destruct (m <? p10), (lo <? p00); lia. }
  rewrite (Z.mod_small c1) by lia. cbv zeta.
  rewrite (wrap_add_l 64 _ (c1 * 2 ^ 32)), (wrap_add_l 64 _ c2).
  rewrite (wrap_small 64 (p11 + m / 2 ^ 32 + c1 * 2 ^ 32 + c2)) by (unfold in_range in *; lia).
  split; [done|]. unfold in_range in *. lia.
Qed.

Lemma lor_mul32 l h : is_u32 l -> Z.lor l (h * 2 ^ 32) = h * 2 ^ 32 + l.
Proof.
  unfold in_range. intros Hl. pose proof (lor_shiftl_add l h 32) as E.
  rewrite Z.shiftl_mul_pow2 in E by lia. lia.
Qed.

(** One step of the long division. *)
Lemma div_step dw d r : is_u32 dw -> 0 < d < 2 ^ 32 -> 0 <= r < d ->
  exists q r', div_with_reminder dw d r = (q, r') /\ is_u32 q /\ 0 <= r' < d /\
    r * 2 ^ 32 + dw = q * d + r'.
Proof.
  unfold in_range. intros Hdw Hd Hr. unfold div_with_reminder.
  assert (u64 (Z.shiftl r 32) = r * 2 ^ 32) as -> by (rewrite shiftl32, Z.mod_small; lia).
  rewrite lor_mul32 by (unfold in_range; lia).
  set (x := r * 2 ^ 32 + dw). pose proof (Z.div_mod x d ltac:(lia)) as E.
  pose proof (Z.mod_pos_bound x d ltac:(lia)) as Hm.
  assert (0 <= x / d < 2 ^ 32) as Hq.
  { split; [apply Z.div_pos; lia|]. apply Z.div_lt_upper_bound; unfold x; nia. }
  exists (x / d), (x mod d). generalize dependent (x / d). intros q E Hq. generalize dependent (x mod d).
  intros m E Hm. rewrite wrap_small by (unfold in_range; lia). split; [done|lia].
Qed.

Lemma join_dwords h l : is_u32 h -> is_u32 l ->
  Z.lor (u64 (Z.shiftl h 32)) l = h * 2 ^ 32 + l.
Proof.
  intros Hh Hl. unfold in_range in *. rewrite shiftl32, Z.mod_small by lia.
  by rewrite Z.lor_comm, lor_mul32.
Qed.

(** ** Properties *)

(** schoolbook multiplication is exact: the two words of [mul128] are in
    range and denote the product, for all 64-bit arguments. *)
Theorem mul128_exact a b : is_u64 a -> is_u64 b ->
  let '(lo, hi) := mul128 a b in is_u64 lo /\ is_u64 hi /\ lo + hi * 2 ^ 64 = a * b.
Proof. apply mul128_correct. Qed.

Lemma mul128_exact_witness :
  let '(lo, hi) := mul128 18446744073709551615 18446744073709551615 in
  is_u64 lo /\ is_u64 hi /\ lo + hi * 2 ^ 64 = 18446744073709551615 * 18446744073709551615.
Proof. apply (mul128_exact 18446744073709551615 18446744073709551615); by_decide. Defined.

Lemma div128_32_correct hi lo d : is_u64 hi -> is_u64 lo -> 0 < d < 2 ^ 32 ->
  let '(r, qhi, qlo) := div128_32 hi lo d in
  is_u64 qhi /\ is_u64 qlo /\ 0 <= r < d /\ hi * 2 ^ 64 + lo = (qhi * 2 ^ 64 + qlo) * d + r.
Proof.
  intros Hhi Hlo Hd. destruct (dwords hi Hhi) as (Eh & Hh1 & Hh0), (dwords lo Hlo) as (El & Hl1 & Hl0).
  unfold div128_32.
  destruct (div_step (hi_dword hi) d 0) as (q3 & r3 & -> & Hq3 & Hr3 & E3); [done|done|lia|].
  destruct (div_step (lo_dword hi) d r3) as (q2 & r2 & -> & Hq2 & Hr2 & E2); [done..|].
  destruct (div_step (hi_dword lo) d r2) as (q1 & r1 & -> & Hq1 & Hr1 & E1); [done..|].
  destruct (div_step (lo_dword lo) d r1) as (q0 & r0 & -> & Hq0 & Hr0 & E0); [done..|].
  rewrite !join_dwords by done. unfold in_range in *. split; [lia|]. split; [lia|]. split; [done|].
  rewrite Eh, El. replace (hi_dword hi) with (q3 * d + r3) by lia. nia.
Qed.

(** the long division in base 2^32 of [div128_32] is Euclidean division of
    the 128-bit dividend by any non-zero 32-bit divisor. *)
Theorem div128_32_exact hi lo d : is_u64 hi -> is_u64 lo -> 0 < d < 2 ^ 32 ->
  let '(r, qhi, qlo) := div128_32 hi lo d in
  is_u64 qhi /\ is_u64 qlo /\ 0 <= r < d /\ hi * 2 ^ 64 + lo = (qhi * 2 ^ 64 + qlo) * d + r.
Proof. apply div128_32_correct. Qed.

Lemma div128_32_exact_witness :
  let '(r, qhi, qlo) := div128_32 5 7 1000 in
  is_u64 qhi /\ is_u64 qlo /\ 0 <= r < 1000 /\ 5 * 2 ^ 64 + 7 = (qhi * 2 ^ 64 + qlo) * 1000 + r.
Proof. apply (div128_32_exact 5 7 1000); [by_decide|by_decide|lia]. Defined.
