(* ===== verification/Difficulty.v ===== *)
(** * Proof of work targets

    Model of src/cryptonote_basic/difficulty.cpp: the comparison of a hash with
    a difficulty ([check_hash], with both versions of [mul]), the original
    retargeting [next_difficulty], the integer LWMA of [next_difficulty_V8] and
    the LWMA in [double] arithmetic of its successors, computed with the
    Standard Library's specification of IEEE 754.  A signed overflow, a
    division of integers by zero or a conversion of a value out of range is
    [None]. *)
From Stdlib Require Import ZArith Lia Bool Sorted SpecFloat.
From stdpp Require Import prelude sorting.
From S2P Require Import Prelude IntUtil Keccak.
Local Open Scope Z_scope.

Definition DIFFICULTY_WINDOW : nat := 720.
Definition DIFFICULTY_CUT : nat := 60.
Definition DIFFICULTY_TARGET_V8 : Z := 60.
Definition DIFFICULTY_WINDOW_V8 : Z := 120.
Definition HF_VERSION_LWMA_DIFFICULTY_BLOCK_HEIGHT : Z := 95085.
Definition HF_VERSION_LWMA_STARTING_DIFFICULTY : Z := 30000000.

(** The portable [mul]. Result: low and high word. *)
Definition mul_portable (a b : Z) : Z * Z :=
  let aLow := Z.land a 0xFFFFFFFF in
  let aHigh := Z.shiftr a 32 in
  let bLow := Z.land b 0xFFFFFFFF in
  let bHigh := Z.shiftr b 32 in
  let res := u64 (aLow * bLow) in
  let lowRes1 := Z.land res 0xFFFFFFFF in
  let carry := Z.shiftr res 32 in
  let res := u64 (u64 (aHigh * bLow) + carry) in
  let highResHigh1 := Z.shiftr res 32 in
  let highResLow1 := Z.land res 0xFFFFFFFF in
  let res := u64 (aLow * bHigh) in
  let lowRes2 := Z.land res 0xFFFFFFFF in
  let carry := Z.shiftr res 32 in
  let res := u64 (u64 (aHigh * bHigh) + carry) in
  let highResHigh2 := Z.shiftr res 32 in
  let highResLow2 := Z.land res 0xFFFFFFFF in
  let r := u64 (highResLow1 + lowRes2) in
  let carry := Z.shiftr r 32 in
  let low := Z.lor (u64 (Z.shiftl r 32)) lowRes1 in
  let r := u64 (u64 (highResHigh1 + highResLow2) + carry) in
  let d3 := Z.land r 0xFFFFFFFF in
  let carry := Z.shiftr r 32 in
  let r := u64 (highResHigh2 + carry) in
  (low, Z.lor d3 (u64 (Z.shiftl r 32))).

(** On x86-64. *)
Definition mul (a b : Z) : Z * Z := mul128 a b.

Definition cadd (a b : Z) : bool := u64 (a + b) <? a.
Definition cadc (a b : Z) (c : bool) : bool :=
  (u64 (a + b) <? a) || (c && (u64 (a + b) =? 18446744073709551615)).

(** The hash as four little-endian words. *)
Definition check_hash (hash : blob) (difficulty : Z) : bool :=
  let w := load_words 4 hash in
  let '(top, high) := mul (w !!! 3%nat) difficulty in
  if negb (high =? 0) then false
  else
    let '(_, cur) := mul (w !!! 0%nat) difficulty in
    let '(low, high) := mul (w !!! 1%nat) difficulty in
    let carry := cadd cur low in
    let cur := high in
    let '(low, high) := mul (w !!! 2%nat) difficulty in
    let carry := cadc cur low carry in
    let carry := cadc high top carry in
    negb carry.

(** The window of sorted timestamps that is left after cutting outliers. *)
Definition cut (length : nat) : nat * nat :=
  if (length <=? DIFFICULTY_WINDOW - 2 * DIFFICULTY_CUT)%nat then (0%nat, length)
  else
    let cut_begin := ((length - (DIFFICULTY_WINDOW - 2 * DIFFICULTY_CUT) + 1) / 2)%nat in
    (cut_begin, (cut_begin + (DIFFICULTY_WINDOW - 2 * DIFFICULTY_CUT))%nat).

(** [std::sort] *)
Definition sort (l : list Z) : list Z := merge_sort Z.le l.

Definition next_difficulty (timestamps cumulative_difficulties : list Z) (target_seconds : Z) : Z :=
  let '(timestamps, cumulative_difficulties) :=
    if (DIFFICULTY_WINDOW <? length timestamps)%nat
    then (take DIFFICULTY_WINDOW timestamps, take DIFFICULTY_WINDOW cumulative_difficulties)
    else (timestamps, cumulative_difficulties) in
  let length := length timestamps in
  if (length <=? 1)%nat then 1
  else
    let timestamps := sort timestamps in
    let '(cut_begin, cut_end) := cut length in
    let time_span := u64 (timestamps !!! (cut_end - 1)%nat - timestamps !!! cut_begin) in
    let time_span := if time_span =? 0 then 1 else time_span in
    let total_work := u64 (cumulative_difficulties !!! (cut_end - 1)%nat
                           - cumulative_difficulties !!! cut_begin) in
    let '(low, high) := mul total_work target_seconds in
    if negb (high =? 0) || (u64 (u64 (low + time_span) - 1) <? low) then 0
    else u64 (u64 (low + time_span) - 1) / time_span.

(** [int64_t] arithmetic: out of range is undefined behaviour. *)
Definition s64 (z : Z) : option Z := if (- 2 ^ 63 <=? z) && (z <? 2 ^ 63) then Some z else None.
Definition sadd (a b : Z) : option Z := s64 (a + b).
Definition ssub (a b : Z) : option Z := s64 (a - b).
Definition smul (a b : Z) : option Z := s64 (a * b).
Definition sdiv (a b : Z) : option Z := if b =? 0 then None else s64 (Z.quot a b).

Fixpoint lwma_loop (n : nat) (i N T : Z) (timestamps : list Z) (L sum_3_ST : Z) : option (Z * Z) :=
  match n with
  | O => Some (L, sum_3_ST)
  | S n =>
      ST ← ssub (i64 (timestamps !!! Z.to_nat i)) (i64 (timestamps !!! Z.to_nat (i - 1)));
      let ST := Z.max (-5 * T) (Z.min ST (6 * T)) in
      STi ← smul ST i;
      L ← sadd L STi;
      sum_3_ST ← (if N - 3 <? i then sadd sum_3_ST ST else Some sum_3_ST);
      lwma_loop n (i + 1) N T timestamps L sum_3_ST
  end.

Definition next_difficulty_V8 (timestamps cumulative_difficulties : list Z) (block_height : Z) : option Z :=
  let T := DIFFICULTY_TARGET_V8 in
  let N := DIFFICULTY_WINDOW_V8 in
  let difficulty_guess := HF_VERSION_LWMA_STARTING_DIFFICULTY in
  if zlen timestamps <=? 10 then Some difficulty_guess
  else if block_height <=? HF_VERSION_LWMA_DIFFICULTY_BLOCK_HEIGHT + (N + 1) then Some difficulty_guess
  else
    let N := if zlen timestamps <? N + 1 then zlen timestamps - 1 else N in
    '(L, sum_3_ST) ← lwma_loop (Z.to_nat N) 1 N T timestamps 0 0;
    let cd := fun i => cumulative_difficulties !!! Z.to_nat i in
    a ← smul (i64 (u64 (cd N - cd 0))) T;
    a ← smul a (N + 1);
    a ← smul a 99;
    d ← smul (100 * 2) L;
    next_D ← sdiv a d;
    let prev_D := i64 (u64 (cd N - cd (N - 1))) in
    p67 ← smul prev_D 67;
    p150 ← smul prev_D 150;
    let next_D := Z.max (Z.quot p67 100) (Z.min next_D (Z.quot p150 100)) in
    if sum_3_ST <? Z.quot (8 * T) 10
    then p108 ← smul prev_D 108; Some (u64 (Z.max next_D (Z.quot p108 100)))
    else Some (u64 next_D).

(** ** LWMA in double precision *)
Definition DIFFICULTY_WINDOW_V9 : Z := 120.
Definition DIFFICULTY_WINDOW_V10 : Z := 120.
Definition DIFFICULTY_WINDOW_V12 : Z := 120.
Definition DIFFICULTY_WINDOW_V13 : Z := 120.
Definition CRYPTONOTE_BLOCK_FUTURE_TIME_LIMIT_V9 : Z := 60 * 4.

(** [double]: 53 bits of precision, exponents below 1024. *)
Abbreviation double_add := (SFadd 53 1024).
Abbreviation double_mul := (SFmul 53 1024).
Abbreviation double_quot := (SFdiv 53 1024).
Definition double_of (z : Z) : spec_float := binary_normalize 53 1024 z 0 false.
Definition double_0 : spec_float := S754_zero false.

(** A finite value as [m * 2^e]. *)
Definition finite (x : spec_float) : option (Z * Z) :=
  match x with
  | S754_zero _ => Some (0, 0)
  | S754_finite s m e => Some (if s then Z.neg m else Z.pos m, e)
  | _ => None
  end.

(** [boost::math::round]: to the nearest, halves away from zero. *)
Definition double_round (x : spec_float) : option Z :=
  '(m, e) ← finite x;
  Some (if 0 <=? e then m * 2 ^ e else Z.sgn m * ((2 * Z.abs m + 2 ^ (- e)) / 2 ^ (1 - e))).

(** [static_cast<uint64_t>]. *)
Definition double_to_u64 (x : spec_float) : option Z :=
  '(m, e) ← finite x;
  let z := if 0 <=? e then m * 2 ^ e else Z.quot m (2 ^ (- e)) in
  if (0 <=? z) && (z <? 2 ^ 64) then Some z else None.

(** The loop of the four variants, which differ in how they [bound] a solve
    time. *)
Fixpoint lwma_sums (bound : Z -> Z) (n : nat) (i : Z) (k : spec_float) (timestamps cumulative_difficulties : list Z)
  (LWMA sum_inverse_D : spec_float) : option (spec_float * spec_float) :=
  match n with
  | O => Some (LWMA, sum_inverse_D)
  | S n =>
      solveTime ← ssub (i64 (timestamps !!! Z.to_nat i)) (i64 (timestamps !!! Z.to_nat (i - 1)));
      let solveTime := bound solveTime in
      let difficulty := u64 (cumulative_difficulties !!! Z.to_nat i - cumulative_difficulties !!! Z.to_nat (i - 1)) in
      lwma_sums bound n (i + 1) k timestamps cumulative_difficulties
        (double_add LWMA (double_quot (double_of (i64 (solveTime * i))) k))
        (double_add sum_inverse_D (double_quot (double_of 1) (double_of difficulty)))
  end.

Definition next_difficulty_lwma (bound : Z -> Z) (window : Z) (timestamps cumulative_difficulties : list Z) (target_seconds : Z)
  : option Z :=
  let T := i64 target_seconds in
  if zlen timestamps <? 4 then Some 1
  else
    let N := if zlen timestamps <? window + 1 then zlen timestamps - 1 else window in
    let adjust := double_quot (double_of 998) (double_of 1000) in
    let k := double_of (N * (N + 1) / 2) in
    '(LWMA, sum_inverse_D) ← lwma_sums bound (Z.to_nat N) 1 k timestamps cumulative_difficulties double_0 double_0;
    let harmonic_mean_D := double_quot (double_of N) sum_inverse_D in
    r ← double_round LWMA;
    r ← s64 r;
    let LWMA := if r <? Z.quot T 4 then double_of (Z.quot T 4) else LWMA in
    double_to_u64 (double_mul (double_quot (double_mul harmonic_mean_D (double_of T)) LWMA) adjust).

Definition bound_V9 (T solveTime : Z) : Z := Z.min (T * 10) (Z.max solveTime (- CRYPTONOTE_BLOCK_FUTURE_TIME_LIMIT_V9)).
Definition bound_V10 (T solveTime : Z) : Z := Z.min (T * 10) solveTime.

Definition next_difficulty_V9 (timestamps cumulative_difficulties : list Z) (target_seconds : Z) : option Z :=
  next_difficulty_lwma (bound_V9 (i64 target_seconds)) DIFFICULTY_WINDOW_V9 timestamps cumulative_difficulties target_seconds.
Definition next_difficulty_V10 (timestamps cumulative_difficulties : list Z) (target_seconds : Z) : option Z :=
  next_difficulty_lwma (bound_V10 (i64 target_seconds)) DIFFICULTY_WINDOW_V10 timestamps cumulative_difficulties target_seconds.
Definition next_difficulty_V12 (timestamps cumulative_difficulties : list Z) (target_seconds : Z) : option Z :=
  next_difficulty_lwma (bound_V10 (i64 target_seconds)) DIFFICULTY_WINDOW_V12 timestamps cumulative_difficulties target_seconds.

(** The last variant computes the same and then returns the constant 1, which
    makes the computation dead code. *)
Definition next_difficulty_V13 (timestamps cumulative_difficulties : list Z) (target_seconds : Z) : Z :=
  let next_difficulty :=
    next_difficulty_lwma (bound_V10 (i64 target_seconds)) DIFFICULTY_WINDOW_V13 timestamps cumulative_difficulties target_seconds in
  let next_difficulty := 1 in
  next_difficulty.

(** ** 64 by 64 bit products *)
Lemma split32 x : is_u64 x -> exists h l, Z.shiftr x 32 = h /\ Z.land x 0xFFFFFFFF = l /\
  x = h * 2 ^ 32 + l /\ is_u32 h /\ is_u32 l.
Proof. intros (E & Hh & Hl)%dwords. exists (hi_dword x), (lo_dword x). done. Qed.

Lemma mul_portable_correct a b : is_u64 a -> is_u64 b ->
  let '(lo, hi) := mul_portable a b in is_u64 lo /\ is_u64 hi /\ lo + hi * 2 ^ 64 = a * b.
Proof.
  intros Ha Hb. unfold mul_portable.
  destruct (split32 a Ha) as (a1 & a0 & -> & -> & Ea & Ha1 & Ha0).
  destruct (split32 b Hb) as (b1 & b0 & -> & -> & Eb & Hb1 & Hb0).
  pose proof (mul32_bound a1 b1 Ha1 Hb1). pose proof (mul32_bound a1 b0 Ha1 Hb0).
  pose proof (mul32_bound a0 b1 Ha0 Hb1). pose proof (mul32_bound a0 b0 Ha0 Hb0).
  assert (a * b = a1 * b1 * 2 ^ 64 + (a1 * b0 + a0 * b1) * 2 ^ 32 + a0 * b0) as E by (rewrite Ea, Eb; ring).
  rewrite E. clear E Ea Eb Ha Hb. rewrite !(wrap_small 64 (_ * _)) by (unfold in_range; lia).
  generalize dependent (a1 * b1). intros p11 H11. generalize dependent (a1 * b0). intros p10 H10.
  generalize dependent (a0 * b1). intros p01 H01. generalize dependent (a0 * b0). intros p00 H00.
  clear a a1 a0 b b1 b0 Ha1 Ha0 Hb1 Hb0.
  destruct (split32 p00) as (c0 & l1 & -> & -> & E0 & R0 & R0'); [unfold in_range; lia|]. unfold in_range in R0, R0'.
  rewrite (wrap_small 64 (p10 + c0)) by (unfold in_range; lia).
  destruct (split32 (p10 + c0)) as (hh1 & hl1 & -> & -> & E1 & R1 & R1'); [unfold in_range; lia|]. unfold in_range in R1, R1'.
  destruct (split32 p01) as (c1 & l2 & -> & -> & E2 & R2 & R2'); [unfold in_range; lia|]. unfold in_range in R2, R2'.
  rewrite (wrap_small 64 (p11 + c1)) by (unfold in_range; lia).
  destruct (split32 (p11 + c1)) as (hh2 & hl2 & -> & -> & E3 & R3 & R3'); [unfold in_range; lia|]. unfold in_range in R3, R3'.
  rewrite (wrap_small 64 (hl1 + l2)) by (unfold in_range; lia). rewrite (wrap_small 64 (hh1 + hl2)) by (unfold in_range; lia).
  rewrite shiftl32.
  destruct (split32 (hl1 + l2)) as (c2 & m2 & -> & F2 & E4 & R4 & R4'); [unfold in_range; lia|].
  rewrite land_ffffffff in F2. rewrite F2. unfold in_range in R4, R4'.
  rewrite (wrap_small 64 (hh1 + hl2 + c2)) by (unfold in_range; lia).
  destruct (split32 (hh1 + hl2 + c2)) as (c3 & d3 & -> & -> & E5 & R5 & R5'); [unfold in_range; lia|]. unfold in_range in R5, R5'.
  assert (0 <= hh2 + c3 < 2 ^ 32) as R6 by lia.
  rewrite (wrap_small 64 (hh2 + c3)) by (unfold in_range; lia). rewrite shiftl32, (Z.mod_small (hh2 + c3)) by lia.
  rewrite Z.lor_comm, !lor_mul32 by (unfold in_range; lia). unfold in_range. lia.
Qed.

(** ** The hash as a number *)
Lemma le_word_range b : bytes_ok b -> 0 <= le_word b < 256 ^ Z.of_nat (length b).
Proof.
  induction 1 as [|x b Hx Hb IH]; [simpl; lia|]. cbn [le_word length]. unfold in_range in Hx.
  rewrite Nat2Z.inj_succ, Z.pow_succ_r by lia. lia.
Qed.

Lemma le_word_app a b : le_word (a ++ b) = le_word a + 256 ^ Z.of_nat (length a) * le_word b.
Proof.
  induction a as [|x a IH]; simpl app; [simpl length; cbn [le_word]; lia|]. cbn [le_word length].
  rewrite IH, Nat2Z.inj_succ, Z.pow_succ_r by lia. ring.
Qed.

Lemma hash_words h : pod_ok 32 h -> exists w0 w1 w2 w3, load_words 4 h = [w0; w1; w2; w3] /\
  is_u64 w0 /\ is_u64 w1 /\ is_u64 w2 /\ is_u64 w3 /\
  le_word h = w0 + w1 * 2 ^ 64 + w2 * 2 ^ 128 + w3 * 2 ^ 192.
Proof.
  intros [Hl Hb]. do 32 (destruct h as [|? h]; [done|]). destruct h; [|done].
  eexists _, _, _, _. split; [cbn [load_words take drop firstn skipn]; reflexivity|].
  unfold bytes_ok in Hb. rewrite !Forall_cons in Hb. unfold in_range in *.
  cbn [le_word take firstn]. repeat split; lia.
Qed.

Lemma cadc_spec a b (c : bool) : is_u64 a -> is_u64 b ->
  exists s, is_u64 s /\ a + b + (if c then 1 else 0) = s + (if cadc a b c then 2 ^ 64 else 0).
Proof.
  intros Ha Hb. destruct (u64_add_carry a b Ha Hb) as [E R]. unfold cadc, in_range in *.
  set (t := u64 (a + b)) in *. exists (u64 (t + if c then 1 else 0)). split; [by apply wrap_range|].
  destruct (Z.ltb_spec t a) as [Hlt|Hge]; simpl.
  - destruct c; rewrite wrap_small by (unfold in_range; lia); lia.
  - destruct c; simpl; [|rewrite wrap_small by (unfold in_range; lia); lia].
    destruct (Z.eqb_spec t 18446744073709551615) as [E'|E'].
    + rewrite E'. change (u64 (18446744073709551615 + 1)) with 0. lia.
    + rewrite wrap_small by (unfold in_range; lia). lia.
Qed.

Lemma check_hash_spec h d : pod_ok 32 h -> is_u64 d ->
  check_hash h d = true <-> le_word h * d < 2 ^ 256.
Proof.
  intros Hh Hd. destruct (hash_words h Hh) as (w0 & w1 & w2 & w3 & E & H0 & H1 & H2 & H3 & ->).
  unfold check_hash, mul. rewrite E. cbn [lookup_total list_lookup_total].
  pose proof (mul128_correct w3 d H3 Hd) as M3. destruct (mul128 w3 d) as [top high3], M3 as (T1 & T2 & T3).
  pose proof (mul128_correct w0 d H0 Hd) as M0. destruct (mul128 w0 d) as [low0 cur], M0 as (A1 & A2 & A3).
  pose proof (mul128_correct w1 d H1 Hd) as M1. destruct (mul128 w1 d) as [low1 high1], M1 as (B1 & B2 & B3).
  pose proof (mul128_correct w2 d H2 Hd) as M2. destruct (mul128 w2 d) as [low2 high2], M2 as (C1 & C2 & C3).
  rewrite !Z.mul_add_distr_r. rewrite <- !(Z.mul_comm d), !Z.mul_assoc, !(Z.mul_comm d), <- A3, <- B3, <- C3, <- T3.
  unfold in_range in T1, T2, A1, A2, B1, B2, C1, C2.
  destruct (Z.eqb_spec high3 0) as [-> |Hne]; simpl negb; cbv iota; [|split; [done|lia]].
  destruct (cadc_spec cur low1 false) as (s1 & S1 & F1); [done..|].
  assert (cadd cur low1 = cadc cur low1 false) as -> by (unfold cadd, cadc; by rewrite orb_false_r).
  destruct (cadc_spec high1 low2 (cadc cur low1 false)) as (s2 & S2 & F2); [done..|].
  destruct (cadc_spec high2 top (cadc high1 low2 (cadc cur low1 false))) as (s3 & S3 & F3); [done..|].
  unfold in_range in S1, S2, S3.
  destruct (cadc high2 top _), (cadc high1 low2 _), (cadc cur low1 _); simpl negb; split; intros; try done; lia.
Qed.

(** ** Retargeting *)
Lemma cut_bounds n : (2 <= n <= DIFFICULTY_WINDOW)%nat ->
  let '(b, e) := cut n in (b + 2 <= e <= n)%nat.
Proof.
  unfold cut, DIFFICULTY_WINDOW, DIFFICULTY_CUT. intros Hn.
  destruct (Nat.leb_spec n (720 - 2 * 60)); [lia|].
  change (720 - 2 * 60)%nat with 600%nat in *.
  pose proof (Nat.div_mod (n - 600 + 1) 2). pose proof (Nat.mod_upper_bound (n - 600 + 1) 2). lia.
Qed.

Lemma sorted_lookup l i j : StronglySorted Z.le l -> (i <= j < length l)%nat -> l !!! i <= l !!! j.
Proof.
  intros Hs. revert i j. induction Hs as [|x l Hs IH HF]; intros i j Hij; [simpl in Hij; lia|].
  destruct i as [|i], j as [|j]; simpl in *; [lia| |lia|apply IH; lia].
  rewrite Forall_forall in HF. apply HF, list_elem_of_lookup_total_2. lia.
Qed.

Lemma sort_spec l : Forall is_u64 l ->
  StronglySorted Z.le (sort l) /\ length (sort l) = length l /\ Forall is_u64 (sort l).
Proof.
  intros HF. pose proof (merge_sort_Permutation Z.le l) as HP. split; [|split].
  - apply Sorted_StronglySorted; [intros x y z; lia|]. apply Sorted_merge_sort. intros x y. lia.
  - by apply Permutation_length.
  - by rewrite HP.
Qed.

Lemma lookup_u64 l i : Forall is_u64 l -> (i < length l)%nat -> is_u64 (l !!! i).
Proof. intros HF Hi. rewrite Forall_forall in HF. apply HF. by apply list_elem_of_lookup_total_2. Qed.

Lemma next_difficulty_div work target span : is_u64 work -> is_u64 target -> 1 <= span < 2 ^ 64 ->
  (let '(low, high) := mul work target in
   if negb (high =? 0) || (u64 (u64 (low + span) - 1) <? low) then 0
   else u64 (u64 (low + span) - 1) / span) =
  if work * target + span - 1 <? 2 ^ 64 then (work * target + span - 1) / span else 0.
Proof.
  intros Hw Ht Hs. unfold mul. pose proof (mul128_correct work target Hw Ht) as M.
  destruct (mul128 work target) as [low high], M as (L & H & <-). unfold in_range in *.
  rewrite wrap_sub_l. destruct (Z.eqb_spec high 0) as [-> |Hne]; simpl negb; cbn [orb].
  - rewrite Z.mul_0_l, Z.add_0_r.
    destruct (Z.ltb_spec (low + span - 1) (2 ^ 64)) as [Hlt|Hge].
    + rewrite wrap_small by (unfold in_range; lia). rewrite (proj2 (Z.ltb_ge _ _)) by lia. done.
    + assert (u64 (low + span - 1) = low + span - 1 - 2 ^ 64) as -> by (symmetry; apply Z.mod_unique with 1; lia).
      by rewrite (proj2 (Z.ltb_lt _ _)) by lia.
  - rewrite (proj2 (Z.ltb_ge _ _)) by lia. done.
Qed.

(** ** Properties *)

(** proof of work.  [check_hash] accepts exactly when the 256-bit
    little-endian value of the hash times the difficulty does not overflow 256
    bits; the carries between the four words are complete. *)
Theorem check_hash_correct h d : pod_ok 32 h -> is_u64 d ->
  check_hash h d = true <-> le_word h * d < 2 ^ 256.
Proof. apply check_hash_spec. Qed.

Lemma check_hash_correct_witness :
  check_hash (replicate 31 0 ++ [16]) 16 = true <-> le_word (replicate 31 0 ++ [16]) * 16 < 2 ^ 256.
Proof. apply check_hash_correct; by_decide. Defined.

(** the portable [mul] and the x86-64 one are the same function on 64-bit
    words. *)
Theorem mul_portable_equiv a b : is_u64 a -> is_u64 b -> mul_portable a b = mul a b.
Proof.
  intros Ha Hb. unfold mul. pose proof (mul128_correct a b Ha Hb) as M.
  pose proof (mul_portable_correct a b Ha Hb) as P.
  destruct (mul128 a b) as [l h], (mul_portable a b) as [l' h'].
  destruct M as (M1 & M2 & M3), P as (P1 & P2 & P3). unfold in_range in *. f_equal; lia.
Qed.

Lemma mul_portable_equiv_witness :
  mul_portable 18446744073709551615 12345678901234567890 = mul 18446744073709551615 12345678901234567890.
Proof. apply mul_portable_equiv; by_decide. Defined.

(** [next_difficulty] over a window of non-decreasing cumulative
    difficulties: the cut keeps at least two blocks inside the window, and the
    result is the work of the cut times the target time, divided by the time
    the cut took (at least one second) and rounded up, or zero exactly when the
    numerator does not fit 64 bits. *)
Theorem next_difficulty_formula ts cds target :
  length ts = length cds -> (2 <= length ts <= DIFFICULTY_WINDOW)%nat ->
  Forall is_u64 ts -> Forall is_u64 cds -> StronglySorted Z.le cds -> is_u64 target ->
  let '(b, e) := cut (length ts) in
  let span := Z.max 1 (sort ts !!! (e - 1)%nat - sort ts !!! b) in
  let work := cds !!! (e - 1)%nat - cds !!! b in
  (b + 2 <= e <= length ts)%nat /\
  next_difficulty ts cds target =
    if work * target + span - 1 <? 2 ^ 64 then (work * target + span - 1) / span else 0.
Proof.
  intros Hl Hn Hts Hcds Hs Ht. pose proof (cut_bounds (length ts) Hn) as Hc. unfold next_difficulty.
  rewrite (proj2 (Nat.ltb_ge _ _)) by lia. rewrite (proj2 (Nat.leb_gt _ _)) by lia.
  destruct (cut (length ts)) as [b e]. cbv zeta. split; [done|].
  destruct (sort_spec ts Hts) as (S1 & S2 & S3).
  pose proof (sorted_lookup (sort ts) b (e - 1) S1 ltac:(lia)) as O1.
  pose proof (sorted_lookup cds b (e - 1) Hs ltac:(lia)) as O2.
  pose proof (lookup_u64 _ b S3 ltac:(lia)). pose proof (lookup_u64 _ (e - 1) S3 ltac:(lia)).
  pose proof (lookup_u64 _ b Hcds ltac:(lia)). pose proof (lookup_u64 _ (e - 1) Hcds ltac:(lia)).
  unfold in_range in *. rewrite !wrap_small by (unfold in_range; lia).
  set (span := if _ =? 0 then 1 else _).
  assert (span = Z.max 1 (sort ts !!! (e - 1)%nat - sort ts !!! b)) as <- by (unfold span; case_match; lia).
  assert (1 <= span < 2 ^ 64) by (unfold span; case_match; lia).
  apply next_difficulty_div; unfold in_range; lia.
Qed.

Lemma next_difficulty_formula_witness :
  let ts := [160; 100; 230] in let cds := [10; 30; 70] in
  let '(b, e) := cut (length ts) in
  let span := Z.max 1 (sort ts !!! (e - 1)%nat - sort ts !!! b) in
  let work := cds !!! (e - 1)%nat - cds !!! b in
  (b + 2 <= e <= length ts)%nat /\
  next_difficulty ts cds 60 = if work * 60 + span - 1 <? 2 ^ 64 then (work * 60 + span - 1) / span else 0.
Proof.
  apply (next_difficulty_formula [160; 100; 230] [10; 30; 70] 60);
    [reflexivity|unfold DIFFICULTY_WINDOW; simpl; lia|by_decide|by_decide| |by_decide].
  repeat constructor; lia.
Defined.

Lemma lwma_loop_constant n i N T t len L : 0 <= T < 2 ^ 32 -> 1 <= i -> i + Z.of_nat n <= Z.of_nat len ->
  lwma_loop n i N T (replicate len t) L 0 = (if decide (- 2 ^ 63 <= L < 2 ^ 63) then Some (L, 0) else
    match n with O => Some (L, 0) | _ => None end).
Proof.
  intros HT. revert i L. induction n as [|n IH]; intros i L Hi Hn; cbn [lwma_loop].
  { by case_decide. }
  rewrite !lookup_total_replicate_2 by lia. unfold ssub, smul, sadd. rewrite Z.sub_diag.
  change (s64 0) with (Some 0). cbn [mbind option_bind].
  replace (Z.max (-5 * T) (Z.min 0 (6 * T))) with 0 by lia. rewrite Z.mul_0_l.
  change (s64 0) with (Some 0). change (s64 (0 + 0)) with (Some 0). cbn [mbind option_bind].
  rewrite Z.add_0_r. unfold s64. case_decide as HL.
  - assert ((- 2 ^ 63 <=? L) && (L <? 2 ^ 63) = true) as -> by lia. cbn [mbind option_bind].
    destruct (N - 3 <? i); cbn [mbind option_bind]; rewrite IH by lia; by rewrite decide_True.
  - assert ((- 2 ^ 63 <=? L) && (L <? 2 ^ 63) = false) as -> by lia. done.
Qed.

(** [next_difficulty_V8] divides by a weighted sum of solve times that can
    be zero: on any window of equal timestamps past the activation height the
    call has no result (division by zero). *)
Theorem next_difficulty_V8_div_zero t cds h :
  HF_VERSION_LWMA_DIFFICULTY_BLOCK_HEIGHT + 121 < h ->
  next_difficulty_V8 (replicate 121 t) cds h = None.
Proof.
  intros Hh. unfold next_difficulty_V8.
  change (zlen (replicate 121 t)) with 121. change (121 <=? 10) with false.
  change (DIFFICULTY_WINDOW_V8 + 1) with 121. rewrite (proj2 (Z.leb_gt _ _)) by lia.
  change (121 <? 121) with false. cbv iota zeta.
  rewrite lwma_loop_constant; [|by unfold DIFFICULTY_TARGET_V8|lia|done].
  rewrite decide_True by lia. simpl mbind.
  destruct (smul _ _) as [a|]; [|done]. simpl. destruct (smul a _) as [a'|]; [|done]. simpl.
  destruct (smul a' 99); done.
Qed.

Lemma next_difficulty_V8_div_zero_witness : next_difficulty_V8 (replicate 121 1538524800) [] 100000 = None.
Proof. apply next_difficulty_V8_div_zero. reflexivity. Defined.

Lemma smul_range a b c : smul a b = Some c -> c = a * b /\ - 2 ^ 63 <= c < 2 ^ 63.
Proof. unfold smul, s64. case_match; [|done]. intros [= <-]. lia. Qed.

Lemma smul_some a b c : smul a b = Some c -> c = a * b.
Proof. by intros [? _]%smul_range. Qed.

(** the limits of LWMA-2 hold.  Whenever [next_difficulty_V8] computes a new
    difficulty from a window whose last block has non-negative work [prev_D],
    the result lies between 67% and 150% of it (both rounded down). *)
Theorem next_difficulty_V8_limits ts cds h d :
  next_difficulty_V8 ts cds h = Some d -> 10 < zlen ts ->
  HF_VERSION_LWMA_DIFFICULTY_BLOCK_HEIGHT + 121 < h ->
  let N := if zlen ts <? 121 then zlen ts - 1 else 120 in
  let prev_D := i64 (u64 (cds !!! Z.to_nat N - cds !!! Z.to_nat (N - 1))) in
  0 <= prev_D -> prev_D * 67 / 100 <= d <= prev_D * 150 / 100.
Proof.
  intros Hd Hts Hh N prev_D Hp. unfold next_difficulty_V8 in Hd.
  change DIFFICULTY_WINDOW_V8 with 120 in Hd. change (120 + 1) with 121 in Hd.
  rewrite !(proj2 (Z.leb_gt _ _)) in Hd by lia. cbv beta zeta in Hd. fold N in Hd.
  apply bind_Some in Hd as ([L s3] & _ & Hd). apply bind_Some in Hd as (a1 & _ & Hd).
  apply bind_Some in Hd as (a2 & _ & Hd). apply bind_Some in Hd as (a3 & _ & Hd).
  apply bind_Some in Hd as (a4 & _ & Hd). apply bind_Some in Hd as (next & _ & Hd). fold prev_D in Hd.
  apply bind_Some in Hd as (p67 & ->%smul_some & Hd). apply bind_Some in Hd as (p150 & E150 & Hd).
  clearbody prev_D. apply smul_range in E150 as [-> ?]. 
  rewrite (Z.quot_div_nonneg (prev_D * 67)), (Z.quot_div_nonneg (prev_D * 150)) in Hd by lia.
  pose proof (Z.div_le_mono (prev_D * 67) (prev_D * 150) 100). pose proof (Z.div_pos (prev_D * 67) 100).
  pose proof (Z.div_le_mono (prev_D * 108) (prev_D * 150) 100).
  pose proof (Z.div_lt_upper_bound (prev_D * 150) 100 (2 ^ 63)).
  destruct (s3 <? _).
  - apply bind_Some in Hd as (p108 & ->%smul_some & Hd).
    injection Hd as <-. rewrite (Z.quot_div_nonneg (prev_D * 108)) by lia.
    rewrite wrap_small by (unfold in_range; lia). lia.
  - injection Hd as <-. rewrite wrap_small by (unfold in_range; lia). lia.
Qed.

Lemma next_difficulty_V8_limits_witness :
  let ts := map (fun n => 1538524800 + 60 * Z.of_nat n) (seq 0 121) in
  let cds := map (fun n => 1000 * Z.of_nat n) (seq 0 121) in
  let N := if zlen ts <? 121 then zlen ts - 1 else 120 in
  let prev_D := i64 (u64 (cds !!! Z.to_nat N - cds !!! Z.to_nat (N - 1))) in
  prev_D * 67 / 100 <= 990 <= prev_D * 150 / 100.
Proof.
  apply (next_difficulty_V8_limits (map (fun n => 1538524800 + 60 * Z.of_nat n) (seq 0 121))
    (map (fun n => 1000 * Z.of_nat n) (seq 0 121)) 100000 990);
    [vm_compute; reflexivity|vm_compute; reflexivity|vm_compute; reflexivity|vm_compute; discriminate].
Defined.

(** ** The variants in double precision *)
Lemma lwma_sums_bound b1 b2 n i k ts ds L D : (forall s, In s ((fun j => i64 (ts !!! j) - i64 (ts !!! (j - 1)%nat)) <$> seq (Z.to_nat i) n) -> b1 s = b2 s) ->
  1 <= i -> lwma_sums b1 n i k ts ds L D = lwma_sums b2 n i k ts ds L D.
Proof.
  revert i L D. induction n as [|n IH]; intros i L D Hb Hi; [done|]. cbn [lwma_sums].
  replace (Z.to_nat (i - 1)) with (Z.to_nat i - 1)%nat by lia.
  unfold ssub, s64. destruct (_ && _); [|done]. cbn [mbind option_bind].
  rewrite (Hb (_ - _)) by (cbn [seq fmap list_fmap]; by left). apply IH; [|lia].
  intros s Hs. apply Hb. cbn [seq fmap list_fmap]. right. by replace (S (Z.to_nat i)) with (Z.to_nat (i + 1)) by lia.
Qed.

(** [next_difficulty_V9] and its successor agree as long as no block is dated
    more than four minutes before its parent. *)
Lemma next_difficulty_V9_V10 ts ds T : (forall j, (0 < j < length ts)%nat -> - 240 <= i64 (ts !!! j) - i64 (ts !!! (j - 1)%nat)) ->
  next_difficulty_V9 ts ds T = next_difficulty_V10 ts ds T.
Proof.
  intros Ht. unfold next_difficulty_V9, next_difficulty_V10, next_difficulty_lwma, DIFFICULTY_WINDOW_V9, DIFFICULTY_WINDOW_V10.
  destruct (Z.ltb_spec (zlen ts) 4); [done|]. cbv zeta. rewrite (lwma_sums_bound _ (bound_V10 (i64 T))); [done| |lia].
  intros s (j & <- & Hj%in_seq)%in_map_iff. unfold bound_V9, bound_V10, CRYPTONOTE_BLOCK_FUTURE_TIME_LIMIT_V9.
  specialize (Ht j). unfold zlen in *. destruct (Z.ltb_spec (Z.of_nat (length ts)) (120 + 1)); lia.
Qed.

(** A chain of constant difficulty, on schedule: the retargeting loses
    two per mille to the adjustment factor, and one to rounding. *)
Lemma next_difficulty_V10_steady :
  next_difficulty_V10 ((fun i => 60 * Z.of_nat i) <$> seq 0 121) ((fun i => 100000 * Z.of_nat i) <$> seq 0 121) 60 = Some 99799 /\
  next_difficulty_V12 ((fun i => 60 * Z.of_nat i) <$> seq 0 121) ((fun i => 100000 * Z.of_nat i) <$> seq 0 121) 120 = Some 199599.
Proof. split; vm_compute; reflexivity. Qed.
