(* ===== verification/Hashing.v ===== *)
(** * Transaction and block identifiers

    Model of the hashing half of src/cryptonote_basic/cryptonote_format_utils.cpp:
    prefix, prunable and whole transaction hashes, the cached variants that
    store their result in the object, the Merkle root of a block, the hashing
    blob and the block id. *)
From Stdlib Require Import ZArith Lia Bool.
From stdpp Require Import prelude.
From S2P Require Import Prelude Varint Archive Rct CryptonoteBasic Keccak TreeHash.
Local Open Scope Z_scope.
Local Open Scope archive_scope.

#[local] Opaque cn_fast_hash.

Definition null_hash : blob := replicate 32 0.

Definition get_blob_hash (b : blob) : blob := cn_fast_hash b.

(** [get_object_hash] and [get_object_blobsize] *)
Definition get_object_hash {A} (c : codec A) (o : A) : blob :=
  get_blob_hash (t_serializable_object_to_blob c o).
Definition get_object_blobsize {A} (c : codec A) (o : A) : Z :=
  zlen (t_serializable_object_to_blob c o).

Definition get_transaction_prefix_hash (p : transaction_prefix) : blob :=
  cn_fast_hash (c_store transaction_prefix_codec p).1.

(** The members that [serialize_rctsig_base] stores. *)
Definition rctsig_base (r : rctSig) := (rct_type r, (txnFee r, (pseudoOuts r, (ecdhInfo r, outPk r)))).

(** The stores of the two halves of the RingCT signature of a transaction. *)
Definition rctsig_base_store (t : transaction) : writer :=
  let p := tx_prefix t in let r := rct_signatures t in
  c_store (rctSigBase_codec (length (vin p)) (length (vout p)))
    (rctsig_base r).

Definition rctsig_prunable_store (t : transaction) : writer :=
  let p := tx_prefix t in let r := rct_signatures t in
  c_store (rctSigPrunable_codec (rct_type r) (length (vin p)) (length (vout p)) (rct_mixin (vin p)))
    (rct_p r).

Definition calculate_transaction_prunable_hash (t : transaction) : option blob :=
  if version (tx_prefix t) =? 1 then None
  else
    let ss := rctsig_prunable_store t in
    if ss.2 then Some (get_blob_hash ss.1) else None.

(** A thrown exception is [None]. *)
Definition get_pruned_transaction_hash (t : transaction) (pruned_data_hash : blob) : option blob :=
  if negb (1 <? version (tx_prefix t)) then None
  else
    let ss := rctsig_base_store t in
    if ss.2
    then Some (cn_fast_hash (get_transaction_prefix_hash (tx_prefix t) ++ get_blob_hash ss.1 ++ pruned_data_hash))
    else None.

(** The hash of a transaction; [blob_size] is computed when asked for. *)
Definition calculate_transaction_hash (t : transaction) : option blob :=
  if version (tx_prefix t) =? 1 then Some (get_object_hash transaction_codec t)
  else
    let ss := rctsig_base_store t in
    if negb ss.2 then None
    else
      match (if rct_type (rct_signatures t) =? RCTTypeNull then Some null_hash
             else calculate_transaction_prunable_hash t) with
      | None => None
      | Some h2 =>
          Some (cn_fast_hash (get_transaction_prefix_hash (tx_prefix t) ++ get_blob_hash ss.1 ++ h2))
      end.

Definition set_tx_cache (t : transaction) (h : option blob) (sz : option Z) : transaction :=
  Transaction (tx_prefix t) (signatures t) (rct_signatures t) h sz.

(** [get_transaction_hash(t, res, blob_size)]: the hash (or failure), the size
    when [want_size], and the object with its caches filled. *)
Definition get_transaction_hash (want_size : bool) (t : transaction) : option (blob * Z) * transaction :=
  match tx_hash t with
  | Some h =>
      if want_size then
        match tx_blob_size t with
        | Some sz => (Some (h, sz), t)
        | None => let sz := get_object_blobsize transaction_codec t in
                  (Some (h, sz), set_tx_cache t (Some h) (Some sz))
        end
      else (Some (h, 0), t)
  | None =>
      match calculate_transaction_hash t with
      | None => (None, t)
      | Some h =>
          if want_size then
            let sz := get_object_blobsize transaction_codec t in
            (Some (h, sz), set_tx_cache t (Some h) (Some sz))
          else (Some (h, 0), set_tx_cache t (Some h) (tx_blob_size t))
      end
  end.

Definition set_miner_tx (b : block) (t : transaction) : block := Block (hdr b) t (tx_hashes b) (b_hash b).

(** The Merkle root; the result of the hash call is ignored, and the miner
    transaction keeps the cache it fills. *)
Definition get_tx_tree_hash (b : block) : option blob * block :=
  let '(r, t) := get_transaction_hash true (miner_tx b) in
  let h := match r with Some (h, _) => h | None => null_hash end in
  (tree_hash (h :: tx_hashes b), set_miner_tx b t).

Definition get_block_hashing_blob (b : block) : option blob * block :=
  let blob := t_serializable_object_to_blob block_header_codec (hdr b) in
  let '(root, b) := get_tx_tree_hash b in
  (match root with
   | Some r => Some (blob ++ r ++ get_varint_data (zlen (tx_hashes b) + 1))
   | None => None
   end, b).

(** The hashing blob is serialized as a string before it is hashed. *)
Definition calculate_block_hash (b : block) : option blob * block :=
  let '(hb, b) := get_block_hashing_blob b in
  (match hb with Some hb => Some (get_object_hash string_codec hb) | None => None end, b).

Definition set_block_hash (b : block) (h : option blob) : block := Block (hdr b) (miner_tx b) (tx_hashes b) h.

Definition get_block_hash (b : block) : option blob * block :=
  match b_hash b with
  | Some h => (Some h, b)
  | None =>
      match calculate_block_hash b with
      | (None, b) => (None, b)
      | (Some h, b) => (Some h, set_block_hash b (Some h))
      end
  end.

Definition parse_and_validate_block_from_blob (b_blob : blob) : option block :=
  match parse_binary block_codec b_blob with
  | None => None
  | Some b => Some (set_miner_tx (block_invalidate_hashes b) (tx_invalidate_hashes (miner_tx b)))
  end.

Definition is_coinbase (tx : transaction) : bool :=
  match vin (tx_prefix tx) with [txin_gen _] => true | _ => false end.

(** [expand_transaction_1]: what it fills in, the destination keys of the
    [outPk] and the commitments [V], is derived from the other fields and not
    serialized; the model keeps its checks. *)
Definition expand_transaction_1 (tx : transaction) (base_only : bool) : bool :=
  let p := tx_prefix tx in
  let rv := rct_signatures tx in
  if (2 <=? version p) && negb (is_coinbase tx) then
    if negb (zlen (outPk rv) =? zlen (vout p)) then false
    else if negb (forallb (fun o => match target o with target_key _ => true | _ => false end) (vout p)) then false
    else if negb base_only && is_rct_bulletproof (rct_type rv) then
      match bulletproofs (rct_p rv) with
      | [bp] =>
          if zlen (bp_L bp) <? 6 then false
          else negb (Z.shiftl 1 (zlen (bp_L bp) - 6) <? zlen (vout p))
      | _ => false
      end
    else true
  else true.

Definition parse_and_validate_tx_from_blob (tx_blob : blob) : option transaction :=
  tx ← parse_binary transaction_codec tx_blob;
  if negb (expand_transaction_1 tx false) then None else Some (tx_invalidate_hashes tx).

Definition block_to_blob (b : block) : blob := t_serializable_object_to_blob block_codec b.
Definition tx_to_blob (t : transaction) : blob := t_serializable_object_to_blob transaction_codec t.

(** [get_block_height]: the height in the coinbase input, 0 when there is none. *)
Definition get_block_height (b : block) : Z :=
  match vin (tx_prefix (miner_tx b)) with
  | [txin_gen h] => h
  | _ => 0
  end.

(** ** Caches *)
Definition tx_cache_ok (t : transaction) : Prop :=
  (forall h, tx_hash t = Some h -> calculate_transaction_hash t = Some h) /\
  (forall sz, tx_blob_size t = Some sz -> sz = get_object_blobsize transaction_codec t).

Definition same_tx (t t' : transaction) : Prop := tx_invalidate_hashes t = tx_invalidate_hashes t'.

Lemma get_transaction_hash_spec w t : tx_cache_ok t ->
  let '(r, t') := get_transaction_hash w t in
  option_map fst r = calculate_transaction_hash t /\ tx_cache_ok t' /\ same_tx t t' /\
  (w = true -> forall h sz, r = Some (h, sz) -> sz = get_object_blobsize transaction_codec t).
Proof.
  intros [Hh Hs]. unfold get_transaction_hash. destruct (tx_hash t) as [h|] eqn:E.
  - specialize (Hh h eq_refl). assert (tx_cache_ok t) as Ht by (split; [by rewrite E; intros ? [= <-]|done]).
    destruct w.
    + destruct (tx_blob_size t) as [sz|] eqn:Es.
      * split; [by rewrite Hh|]. split; [done|]. split; [done|]. intros _ ? ? [= <- <-]. by apply Hs.
      * split; [by rewrite Hh|]. split; [split; simpl; [by intros ? [= <-]|by intros ? [= <-]]|].
        split; [done|]. by intros _ ? ? [= <- <-].
    + split; [by rewrite Hh|]. done.
  - destruct (calculate_transaction_hash t) as [h|] eqn:Ec.
    + destruct w; (split; [done|]); (split; [split; simpl|split; [done|]]); try by intros ? [= <-].
      * by intros _ ? ? [= <- <-].
      * apply Hs.
      * done.
    + split; [done|]. split; [split; [by rewrite E|done]|]. done.
Qed.

(** The block id as a function of the content alone. *)
Definition block_txs (b : block) : list blob :=
  default null_hash (calculate_transaction_hash (miner_tx b)) :: tx_hashes b.

Definition block_id (b : block) : option blob :=
  match tree_hash (block_txs b) with
  | Some root =>
      Some (get_object_hash string_codec
              (t_serializable_object_to_blob block_header_codec (hdr b) ++ root ++
               get_varint_data (zlen (tx_hashes b) + 1)))
  | None => None
  end.

Definition block_cache_ok (b : block) : Prop :=
  tx_cache_ok (miner_tx b) /\ (forall h, b_hash b = Some h -> block_id b = Some h).

Definition same_block (b b' : block) : Prop :=
  hdr b = hdr b' /\ tx_hashes b = tx_hashes b' /\ same_tx (miner_tx b) (miner_tx b').

Lemma same_tx_calculate t t' : same_tx t t' -> calculate_transaction_hash t = calculate_transaction_hash t'.
Proof.
  intros E. change (calculate_transaction_hash (tx_invalidate_hashes t) = calculate_transaction_hash (tx_invalidate_hashes t')).
  by rewrite E.
Qed.

Lemma same_block_id b b' : same_block b b' -> block_id b = block_id b'.
Proof.
  intros (E1 & E2 & E3%same_tx_calculate). unfold block_id, block_txs. by rewrite E1, E2, E3.
Qed.

Lemma calculate_block_hash_spec b : tx_cache_ok (miner_tx b) ->
  let '(r, b') := calculate_block_hash b in
  r = block_id b /\ same_block b b' /\ b_hash b' = b_hash b /\ tx_cache_ok (miner_tx b').
Proof.
  intros Hc. unfold calculate_block_hash, get_block_hashing_blob, get_tx_tree_hash, block_id, block_txs.
  pose proof (get_transaction_hash_spec true (miner_tx b) Hc) as Hs.
  destruct (get_transaction_hash true (miner_tx b)) as [r t], Hs as (<- & Ht & Hsame & _). simpl.
  assert (match r with Some (h, _) => h | None => null_hash end = default null_hash (option_map fst r)) as ->
    by by destruct r as [[]|].
  by destruct (tree_hash _).
Qed.

Lemma get_block_hash_spec b : block_cache_ok b ->
  let '(r, b') := get_block_hash b in r = block_id b /\ block_cache_ok b' /\ same_block b b'.
Proof.
  intros [Ht Hh]. unfold get_block_hash. destruct (b_hash b) as [h|] eqn:E.
  { rewrite (Hh h eq_refl). split; [done|]. split; [split; [done|by rewrite E; intros ? [= <-]; apply Hh]|done]. }
  pose proof (calculate_block_hash_spec b Ht) as Hs.
  destruct (calculate_block_hash b) as [[h|] b'], Hs as (Hid & Hsame & Hb & Ht'); rewrite Hid.
  - split; [done|]. split; [|done]. split; [done|]. intros h' [= <-].
    by rewrite <- (same_block_id b).
  - split; [done|]. split; [|done]. split; [done|]. by rewrite Hb, E.
Qed.

(** ** Identifiers bind the content *)
Lemma app_32 (x x' y y' : blob) : length x = 32%nat -> length x' = 32%nat -> x ++ y = x' ++ y' -> x = x' /\ y = y'.
Proof. intros. apply app_inj_1; [congruence|done]. Qed.

Lemma hash_length x : length (cn_fast_hash x) = 32%nat.
Proof. apply cn_fast_hash_ok. Qed.

Lemma rctsig_base_tx_ok t : tx_ok t -> version (tx_prefix t) <> 1 ->
  is_u8 (rct_type (rct_signatures t)) /\
  rctsig_base_ok (rct_type (rct_signatures t)) (length (vin (tx_prefix t))) (length (vout (tx_prefix t)))
    (txnFee (rct_signatures t), (pseudoOuts (rct_signatures t),
      (ecdhInfo (rct_signatures t), outPk (rct_signatures t)))).
Proof.
  intros (_ & Hb & _) Hv. unfold body_ok in Hb. rewrite (proj2 (Z.eqb_neq _ _)) in Hb by done. simpl in Hb.
  destruct Hb as [_ Hb]. case_match; [by rewrite <- Hb|]. destruct Hb as (? & ? & _). done.
Qed.

Lemma rctsig_prunable_tx_ok t : tx_ok t -> version (tx_prefix t) <> 1 ->
  rctsig_prunable_ok (rct_type (rct_signatures t)) (length (vin (tx_prefix t)))
    (length (vout (tx_prefix t))) (rct_mixin (vin (tx_prefix t))) (rct_p (rct_signatures t)).
Proof.
  intros (_ & Hb & _) Hv. unfold body_ok in Hb. rewrite (proj2 (Z.eqb_neq _ _)) in Hb by done. simpl in Hb.
  destruct Hb as [_ Hb]. case_match; [by rewrite <- Hb|]. destruct Hb as (_ & _ & ?). done.
Qed.

Definition prunable_hash (t : transaction) : blob :=
  if rct_type (rct_signatures t) =? RCTTypeNull then null_hash
  else get_blob_hash (rctsig_prunable_store t).1.

Definition prunable_inputs (t : transaction) : list blob :=
  if rct_type (rct_signatures t) =? RCTTypeNull then [] else [(rctsig_prunable_store t).1].

(** The strings hashed for a transaction: the whole of a version 1 one; the
    prefix, the base, the prunable half and the three digests of a later one. *)
Definition transaction_inputs (t : transaction) : list blob :=
  if version (tx_prefix t) =? 1 then [t_serializable_object_to_blob transaction_codec t]
  else
    (get_transaction_prefix_hash (tx_prefix t) ++ get_blob_hash (rctsig_base_store t).1 ++ prunable_hash t) ::
    t_serializable_object_to_blob transaction_prefix_codec (tx_prefix t) :: (rctsig_base_store t).1 :: prunable_inputs t.

(** The hash of a well-formed transaction always exists. *)
Lemma calculate_transaction_hash_ok t : tx_ok t ->
  calculate_transaction_hash t = Some
    (if version (tx_prefix t) =? 1 then get_object_hash transaction_codec t
     else cn_fast_hash (get_transaction_prefix_hash (tx_prefix t) ++
            get_blob_hash (rctsig_base_store t).1 ++ prunable_hash t)).
Proof.
  intros Ht. unfold calculate_transaction_hash, prunable_hash.
  destruct (Z.eqb_spec (version (tx_prefix t)) 1) as [E|E]; [done|].
  assert ((rctsig_base_store t).2 = true) as ->.
  { apply (codec_store_true (c := rctSigBase_codec _ _)). by apply rctsig_base_tx_ok. }
  simpl negb. cbv iota. destruct (rct_type (rct_signatures t) =? RCTTypeNull); [done|].
  unfold calculate_transaction_prunable_hash. rewrite (proj2 (Z.eqb_neq _ _)) by done.
  assert ((rctsig_prunable_store t).2 = true) as ->; [|done].
  apply (codec_store_true (c := rctSigPrunable_codec _ _ _ _)). by apply rctsig_prunable_tx_ok.
Qed.

Lemma tx_eq t t' : tx_ok t -> tx_ok t' -> version (tx_prefix t) <> 1 ->
  tx_prefix t = tx_prefix t' -> rct_signatures t = rct_signatures t' -> t = t'.
Proof.
  intros (_ & Hb & E1 & E2) (_ & Hb' & E3 & E4) Hv Ep Er. destruct t, t'. simpl in *. subst.
  unfold body_ok in *. rewrite (proj2 (Z.eqb_neq _ _)) in Hb, Hb' by done. simpl in *.
  destruct Hb as [<- _], Hb' as [<- _]. done.
Qed.

Lemma prunable_hash_length t : length (prunable_hash t) = 32%nat.
Proof. unfold prunable_hash. case_match; [done|apply hash_length]. Qed.

(** The prunable hash determines the prunable half, given the rest. *)
Lemma prunable_bind t t' : tx_ok t -> tx_ok t' -> version (tx_prefix t) <> 1 ->
  tx_prefix t = tx_prefix t' -> rct_type (rct_signatures t) = rct_type (rct_signatures t') ->
  prunable_hash t = prunable_hash t' -> rct_p (rct_signatures t) = rct_p (rct_signatures t') \/ collide (prunable_inputs t) (prunable_inputs t').
Proof.
  intros Ht Ht' Hv Ep Et. pose proof (rctsig_prunable_tx_ok t Ht Hv) as H1.
  pose proof (rctsig_prunable_tx_ok t' Ht' ltac:(by rewrite <- Ep)) as H2. unfold prunable_hash, prunable_inputs.
  rewrite <- Et. rewrite <- Ep, <- Et in H2. destruct (_ =? _) eqn:En.
  - intros _. left. unfold rctsig_prunable_ok in *. rewrite En in *. by rewrite H1, H2.
  - intros E. eapply cn_fast_hash_bind in E as [E|Hc]; [|right; exact Hc|apply list_elem_of_here..]. left. unfold rctsig_prunable_store in E.
    rewrite <- Ep, <- Et in E. by apply (codec_inj_nil (rctSigPrunable_codec _ _ _ _) _ _ _ H1 H2) in E.
Qed.

Lemma transaction_hash_bind t t' h : tx_ok t -> tx_ok t' ->
  (version (tx_prefix t) = 1 <-> version (tx_prefix t') = 1) ->
  calculate_transaction_hash t = Some h -> calculate_transaction_hash t' = Some h ->
  t = t' \/ collide (transaction_inputs t) (transaction_inputs t').
Proof.
  intros Ht Ht' Hv. rewrite !calculate_transaction_hash_ok by done. intros [= <-] [= E]. unfold transaction_inputs.
  destruct (Z.eqb_spec (version (tx_prefix t)) 1) as [E1|E1],
    (Z.eqb_spec (version (tx_prefix t')) 1) as [E1'|E1']; try (exfalso; tauto).
  { symmetry in E. eapply cn_fast_hash_bind in E as [E|Hc]; [|right; exact Hc|apply list_elem_of_here..]. left.
    by apply (codec_inj_nil transaction_codec tx_ok). }
  set (xs := (_ ++ _) :: _ :: _ :: prunable_inputs t). set (ys := _ :: _ :: _ :: prunable_inputs t').
  assert (forall x y, x ∈ xs -> y ∈ ys -> cn_fast_hash y = cn_fast_hash x -> y = x \/ collide xs ys) as Hbind.
  { intros x y Hx Hy E'. destruct (cn_fast_hash_bind x y xs ys Hx Hy (eq_sym E')); [by left|by right]. }
  apply Hbind in E as [E|?]; [|by right|apply list_elem_of_here..].
  apply app_32 in E as [Ep E]; [|apply hash_length..].
  apply app_32 in E as [Eb Er]; [|apply hash_length..].
  apply Hbind in Ep as [Ep|?]; [|by right|unfold xs, ys; set_solver..].
  apply (codec_inj_nil transaction_prefix_codec prefix_ok) in Ep; [|apply Ht'|apply Ht].
  apply Hbind in Eb as [Eb|?]; [|by right|unfold xs, ys; set_solver..]. unfold rctsig_base_store in Eb. rewrite <- Ep in Eb.
  pose proof (rctsig_base_tx_ok t Ht E1) as B. pose proof (rctsig_base_tx_ok t' Ht' E1') as B'.
  rewrite <- Ep in B. 
  pose proof (codec_inj_nil (rctSigBase_codec (length (vin (tx_prefix t'))) (length (vout (tx_prefix t'))))
    _ (rctsig_base (rct_signatures t')) (rctsig_base (rct_signatures t)) B' B Eb) as [= Ety Efee Epo Eec Eop].
  destruct (prunable_bind t' t Ht' Ht E1' Ep Ety Er) as [Epr|Hc]; [|right; apply collide_sym; eapply collide_mono, Hc; unfold xs, ys; set_solver].
  left. apply tx_eq; [done..|]. destruct (rct_signatures t), (rct_signatures t'). simpl in *. by subst.
Qed.

Lemma block_txs_ok b : block_ok b -> Forall (fun h => length h = HASH_SIZE) (block_txs b).
Proof.
  intros (_ & Ht & [Hx _] & _). unfold block_txs. constructor.
  - rewrite calculate_transaction_hash_ok by done. simpl. case_match; apply hash_length.
  - eapply Forall_impl; [done|]. by intros ? [? _].
Qed.

Definition hashing_blob (b : block) (root : blob) : blob :=
  t_serializable_object_to_blob block_header_codec (hdr b) ++ root ++ get_varint_data (zlen (tx_hashes b) + 1).

(** The strings hashed for a block: the hashing blob behind its length, the inner
    nodes of the transaction tree, those of the miner transaction. *)
Definition block_inputs (b : block) : list blob :=
  t_serializable_object_to_blob string_codec (hashing_blob b (default null_hash (tree_hash (block_txs b)))) ::
  tree_inputs (block_txs b) ++ transaction_inputs (miner_tx b).

Lemma header_length_bound h : header_ok h -> zlen (t_serializable_object_to_blob block_header_codec h) <= 66.
Proof.
  intros (H1 & H2 & H3 & H4 & H5). unfold t_serializable_object_to_blob, block_header_codec, iso_codec.
  destruct h as [maj min ts prev n]. unfold pair_codec, bind_codec. cbn [c_store fst snd hdr] in *.
  rewrite ?wseq_true by done. simpl. rewrite ?zlen_app. unfold serialize_varint_store.
  pose proof (zlen_write_varint_64 maj (in_range_mono 8 64 _ ltac:(lia) H1)).
  pose proof (zlen_write_varint_64 min (in_range_mono 8 64 _ ltac:(lia) H2)).
  pose proof (zlen_write_varint_64 ts H3). destruct H4 as [H4 _]. simpl in *. unfold zlen at 4. rewrite H4.
  rewrite ?zlen_cons, ?zlen_nil. lia.
Qed.

Lemma hashing_blob_string b root : block_ok b -> zlen (tx_hashes b) < 2 ^ 28 -> length root = HASH_SIZE ->
  bytes_ok root -> string_ok (hashing_blob b root).
Proof.
  intros (Hh & _ & _ & _) Hn Hr Hb. unfold hashing_blob, get_varint_data, string_ok.
  pose proof (zlen_nonneg (tx_hashes b)) as Hz.
  assert (is_u64 (zlen (tx_hashes b) + 1)) as Hc by (unfold in_range; lia). split.
  - rewrite !bytes_ok_app. split; [by apply (codec_store_bytes (c := block_header_codec))|].
    split; [done|]. apply write_varint_bytes. lia.
  - pose proof (header_length_bound _ Hh). pose proof (zlen_write_varint_64 _ Hc).
    rewrite !zlen_app. unfold zlen at 2. rewrite Hr.
    pose proof (zlen_nonneg (t_serializable_object_to_blob block_header_codec (hdr b))).
    pose proof (zlen_nonneg (write_varint (zlen (tx_hashes b) + 1))). unfold in_range, HASH_SIZE. lia.
Qed.

Lemma write_varint_inj i j : is_u64 i -> is_u64 j -> write_varint i = write_varint j -> i = j.
Proof. apply (codec_inj_nil (varint_codec 64) is_u64). Qed.

Lemma tree_root_bytes l r : Forall hash_ok l -> tree_hash l = Some r -> zlen l <= 2 ^ 63 -> bytes_ok r.
Proof.
  intros HF E Hz. destruct l as [|a [|b l]]; [done| |].
  - injection E as <-. by apply Forall_cons in HF as [[_ ?] _].
  - rewrite tree_hash_root in E by (simpl; lia || done). injection E as <-.
    pose proof (hash_tree_leaves (a :: b :: l)) as HL. destruct (hash_tree (a :: b :: l)); simpl.
    + specialize (HL ltac:(simpl; lia) Hz). done.
    + apply cn_fast_hash_ok.
Qed.

Lemma block_txs_pod b : block_ok b -> Forall hash_ok (block_txs b).
Proof.
  intros (_ & Ht & [Hx _] & _). unfold block_txs. constructor; [|done].
  rewrite calculate_transaction_hash_ok by done. simpl. case_match; apply cn_fast_hash_ok.
Qed.

Lemma block_id_some b : block_ok b -> zlen (tx_hashes b) < 2 ^ 28 ->
  exists root, tree_hash (block_txs b) = Some root /\ length root = HASH_SIZE /\
    string_ok (hashing_blob b root) /\ block_id b = Some (get_object_hash string_codec (hashing_blob b root)).
Proof.
  intros Hb Hn. assert (zlen (block_txs b) <= 2 ^ 63) as Hz by (unfold block_txs; rewrite zlen_cons; lia).
  destruct (tree_hash_pod (block_txs b)) as (r & E & Hl); [simpl; lia|done|by apply block_txs_ok|].
  exists r. split; [done|]. split; [done|]. split.
  - apply hashing_blob_string; [done..|]. by apply (tree_root_bytes (block_txs b)); [apply block_txs_pod| |].
  - unfold block_id. by rewrite E.
Qed.

Lemma block_id_bind b b' : block_ok b -> block_ok b' ->
  zlen (tx_hashes b) < 2 ^ 28 -> zlen (tx_hashes b') < 2 ^ 28 ->
  (version (tx_prefix (miner_tx b)) = 1 <-> version (tx_prefix (miner_tx b')) = 1) ->
  block_id b = block_id b' -> b = b' \/ collide (block_inputs b) (block_inputs b').
Proof.
  intros Hb Hb' Hn Hn' Hv. destruct (block_id_some b Hb Hn) as (r & Er & Hr & Hs & ->).
  destruct (block_id_some b' Hb' Hn') as (r' & Er' & Hr' & Hs' & ->). intros [= E].
  unfold block_inputs. rewrite Er, Er'. cbn [default].
  eapply cn_fast_hash_bind in E as [E|Hc]; [|right; exact Hc|apply list_elem_of_here..].
  apply (codec_inj_nil string_codec string_ok) in E; [|done..].
  apply (codec_inj block_header_codec header_ok) in E as [Eh E]; [|apply Hb|apply Hb'].
  apply app_32 in E as [-> E]; [|done..].
  apply write_varint_inj in E;
    [|pose proof (zlen_nonneg (tx_hashes b)); unfold in_range; lia
     |pose proof (zlen_nonneg (tx_hashes b')); unfold in_range; lia].
  destruct (tree_hash_bind (block_txs b) (block_txs b')) as [Ex|Hc]; [| | | | | | |right; eapply collide_mono, Hc; set_solver].
  - simpl. lia.
  - unfold block_txs. rewrite zlen_cons. lia.
  - simpl. unfold zlen in E. lia.
  - by apply block_txs_ok.
  - by apply block_txs_ok.
  - by rewrite Er, Er'.
  - destruct Hb as (_ & Ht & _ & Hc), Hb' as (_ & Ht' & _ & Hc'). injection Ex as Ex Exs.
    rewrite !calculate_transaction_hash_ok in Ex by done. simpl in Ex.
    destruct (transaction_hash_bind (miner_tx b) (miner_tx b')
      (default null_hash (calculate_transaction_hash (miner_tx b)))) as [Em|Hk]; [done..| | | |right; eapply collide_mono, Hk; set_solver].
    + by rewrite calculate_transaction_hash_ok.
    + rewrite !calculate_transaction_hash_ok by done. simpl. by rewrite Ex.
    + left. destruct b, b'. simpl in *. by subst.
Qed.

(** ** Properties *)

(** the caches are transparent.  On a block whose caches are coherent,
    [get_block_hash] returns the hash of the header, the Merkle root and the
    transaction count computed from the content alone, whether it was cached or
    not; it changes nothing of the block but its caches, and leaves them
    coherent, the miner transaction's included. *)
Theorem get_block_hash_cache b : block_cache_ok b ->
  let '(r, b') := get_block_hash b in
  r = block_id b /\ block_cache_ok b' /\ same_block b b'.
Proof. apply get_block_hash_spec. Qed.

Lemma get_block_hash_cache_witness :
  let '(r, b') := get_block_hash example_block in
  r = block_id example_block /\ block_cache_ok b' /\ same_block example_block b'.
Proof. apply (get_block_hash_cache example_block). split; [split|]; intros ? [=]. Defined.

(** C23: a block id identifies the block.  Two well-formed blocks (as parsing
    leaves them) with the same kind of miner transaction have the same id exactly
    when they are equal, in every byte of the header, of the miner transaction
    with its signatures and of the transaction list, as long as no string hashed
    for the one has the digest of a different string hashed for the other. *)
Theorem block_id_binding b b' : block_ok b -> block_ok b' ->
  zlen (tx_hashes b) < 2 ^ 28 -> zlen (tx_hashes b') < 2 ^ 28 ->
  (version (tx_prefix (miner_tx b)) = 1 <-> version (tx_prefix (miner_tx b')) = 1) ->
  ~ collide (block_inputs b) (block_inputs b') ->
  (get_block_hash b).1 = (get_block_hash b').1 <-> b = b'.
Proof.
  assert (forall c, block_ok c -> (get_block_hash c).1 = block_id c) as H.
  { intros c (_ & (_ & _ & H1 & H2) & _ & H3). pose proof (get_block_hash_spec c) as Hs.
    destruct (get_block_hash c). apply Hs. split; [split; [by rewrite H1|by rewrite H2]|by rewrite H3]. }
  intros Hb Hb' Hn Hn' Hv Hno. rewrite !H by done. split; [|by intros ->].
  intros E. by apply block_id_bind in E as [|].
Qed.

(** Another nonce gives another id. *)
Definition plain_block (n : Z) : block :=
  Block (Header 1 1 0 (replicate 32 0) n) (Transaction (Prefix 1 60 [txin_gen 0] [Tx_out 5 (target_key (replicate 32 3))] []) [[]] rct_null None None) [] None.

Lemma block_id_binding_witness : (get_block_hash (plain_block 1)).1 <> (get_block_hash (plain_block 2)).1.
Proof.
  assert (forall n, n = 1 \/ n = 2 -> block_ok (plain_block n)) as H.
  { intros n [->| ->].
    - apply (parse_binary_ok block_codec _ (t_serializable_object_to_blob block_codec (plain_block 1))); [by_decide|vm_compute; reflexivity].
    - apply (parse_binary_ok block_codec _ (t_serializable_object_to_blob block_codec (plain_block 2))); [by_decide|vm_compute; reflexivity]. }
  intros E. cut (plain_block 1 = plain_block 2); [discriminate|]. revert E.
  apply block_id_binding; [apply H; by left|apply H; by right|vm_compute; reflexivity|vm_compute; reflexivity|reflexivity|].
  apply apart_ok. vm_compute. reflexivity.
Defined.
