(* ===== verification/RctSigs.v ===== *)
(** * RingCT signatures

    Model of src/ringct/rctSigs.cpp: the Borromean range proofs, the ring
    signatures (MLSAG), the creation, verification and decoding of the signature
    of a confidential transaction, over the curve of RctOps.v.  Bulletproofs
    (src/ringct/bulletproofs.cc) are the class [Bulletproofs].  The device is the
    default one (src/device/device_default.cpp).  The random numbers are blocks of
    bytes [rnd]; a function that draws some is given the number of blocks drawn
    before. *)
From Stdlib Require Import ZArith Lia Bool.
From stdpp Require Import prelude.
From S2P Require Import Prelude Archive Rct Keccak Limbs Scalar RctOps CryptonoteBasic Hashing.
Local Open Scope Z_scope.

#[local] Opaque cn_fast_hash.

(** A destination and a mask, or the secrets behind them. *)
Abbreviation ctkey := (blob * blob)%type.

(** [boroSig] is stored as one blob. *)
Record boroSig := BoroSig { s0 : list blob; s1 : list blob; ee : blob }.
Fixpoint keys_of (n : nat) (b : blob) : list blob :=
  match n with
  | O => []
  | S n => take 32 b :: keys_of n (drop 32 b)
  end.
Definition boro_of (b : blob) : boroSig :=
  BoroSig (keys_of 64 b) (keys_of 64 (drop (64 * 32) b)) (take 32 (drop (128 * 32) b)).
Definition boro_to (bb : boroSig) : blob := concat (s0 bb) ++ concat (s1 bb) ++ ee bb.

(** What is filled in around the stored part: the message, the ring, the
    destinations of the outputs, and the key images of each MLSAG. *)
Record rct_full := RctFull { f_sig : rctSig; message : blob; mixRing : list (list ctkey); out_dests : list blob; f_II : list (list blob) }.

(** ** Random numbers *)
Definition gen (A : Type) : Type := nat -> option (A * nat).
Definition gret {A} (a : A) : gen A := fun n => Some (a, n).
Definition gbind {A B} (m : gen A) (k : A -> gen B) : gen B := fun n => '(a, n) ← m n; k a n.
Definition lift {A} (o : option A) : gen A := fun n => a ← o; Some (a, n).
Declare Scope gen_scope.
Delimit Scope gen_scope with gen.
Notation "x <~ m ;; k" := (gbind m (fun x => k)) (at level 100, m at next level, right associativity) : gen_scope.
Local Open Scope gen_scope.

Fixpoint gmapM {A B} (f : A -> gen B) (l : list A) : gen (list B) :=
  match l with
  | [] => gret []
  | a :: l => b <~ f a;; bs <~ gmapM f l;; gret (b :: bs)
  end.

Section random.
Variable rnd : nat -> blob.
Definition skGen : gen blob := random32_unbiased 1 rnd.
End random.

Class Bulletproofs := {
  (** the proof for amounts and masks, with the random numbers it draws *)
  bulletproof_PROVE : list Z -> list blob -> gen Bulletproof;
  (** [None] is an exception *)
  bulletproof_VERIFY : list Bulletproof -> option bool
}.

Section bulletproofs.
Context `{Bulletproofs} (rnd : nat -> blob).

Definition skvGen (rows : nat) : gen (list blob) := if bool_decide (0 < rows)%nat then gmapM (fun _ => skGen rnd) (seq 0 rows) else lift None.
(** The proof, its commitments and the masks. *)
Definition proveRangeBulletproof (amounts : list Z) : gen (Bulletproof * list blob * list blob) :=
  masks <~ skvGen (length amounts);; proof <~ bulletproof_PROVE amounts masks;;
  if bool_decide (length (bp_V proof) = length amounts) then gret (proof, bp_V proof, masks) else lift None.
Definition verBulletproof (proofs : list Bulletproof) : bool := default false (bulletproof_VERIFY proofs).
End bulletproofs.

Section sigs.
Context `{Curve} (rnd : nat -> blob).

(** ** Borromean ring signatures *)

(** One of the 64 rings: the secret, the two public keys, and which is known. *)
Record ring := Ring { r_x : blob; r_P1 : blob; r_P2 : blob; r_index : Z }.

(** The first loop: alpha, [s1] where it is drawn, and [L[1]]. *)
Definition boro_commit (r : ring) : gen (blob * blob * blob) :=
  alpha <~ skGen rnd;; L <~ lift (scalarmultBase alpha);;
  if r_index r =? 0 then
    s1 <~ skGen rnd;; c <~ lift (hash_to_scalar [L]);; L1 <~ lift (addKeys2 s1 c (r_P2 r));; gret (alpha, s1, L1)
  else gret (alpha, zero_key, L).

(** The second loop: [s0] and [s1]. *)
Definition boro_respond (ee : blob) (x : ring * (blob * blob * blob)) : gen (blob * blob) :=
  let '(r, (alpha, s1, _)) := x in
  if r_index r =? 0 then s0 <~ lift (sc_mulsub (r_x r) ee alpha);; gret (s0, s1)
  else
    s0 <~ skGen rnd;; LL <~ lift (addKeys2 s0 ee (r_P1 r));; cc <~ lift (hash_to_scalar [LL]);;
    s1 <~ lift (sc_mulsub (r_x r) cc alpha);; gret (s0, s1).

Definition genBorromean (rings : list ring) : gen boroSig :=
  commits <~ gmapM boro_commit rings;;
  ee <~ lift (hash_to_scalar (snd <$> commits));;
  ss <~ gmapM (boro_respond ee) (zip rings commits);;
  gret (BoroSig (fst <$> ss) (snd <$> ss) ee).

Fixpoint boro_check (ee : blob) (s0 s1 : list blob) (P1 P2 : list point) : option (list blob) :=
  match s0, s1, P1, P2 with
  | a :: s0, b :: s1, p1 :: P1, p2 :: P2 =>
      let LL := ge_tobytes (ge_double_scalarmult_base_vartime ee p1 a) in
      chash ← hash_to_scalar [LL];
      rest ← boro_check ee s0 s1 P1 P2;
      Some (ge_tobytes (ge_double_scalarmult_base_vartime chash p2 b) :: rest)
  | _, _, _, _ => Some []
  end.

Definition verifyBorromean (bb : boroSig) (P1 P2 : list point) : bool :=
  match Lv1 ← boro_check (ee bb) (s0 bb) (s1 bb) P1 P2; hash_to_scalar Lv1 with
  | Some eeComputed => equalKeys eeComputed (ee bb)
  | None => false
  end.

(** ** Range proofs *)
Record range_state := RangeState { rs_rings : list ring; rs_C : blob; rs_mask : blob }.

Definition range_bit (h2 : blob) (b : Z) (st : range_state) : gen range_state :=
  ai <~ skGen rnd;;
  Ci <~ lift (if b =? 0 then scalarmultBase ai else addKeys1 ai h2);;
  CiH <~ lift (subKeys Ci h2);;
  mask <~ lift (sc_add (rs_mask st) ai);;
  C <~ lift (addKeys (rs_C st) Ci);;
  gret (RangeState (rs_rings st ++ [Ring ai Ci CiH b]) C mask).

Fixpoint range_bits (h2 : list blob) (bits : list Z) (st : range_state) : gen range_state :=
  match h2, bits with
  | h :: h2, b :: bits => st <~ range_bit h b st;; range_bits h2 bits st
  | _, _ => gret st
  end.

(** The proof, the commitment and its mask. *)
Definition proveRange (amount : Z) : gen (rangeSig * blob * blob) :=
  st <~ range_bits H2 (d2b amount) (RangeState [] identity_key zero_key);;
  asig <~ genBorromean (rs_rings st);;
  gret (RangeSig (boro_to asig) (concat (r_P1 <$> rs_rings st)), rs_C st, rs_mask st).

Fixpoint range_points (h2 Ci : list blob) (Ctmp : point) : option (list point * list point * point) :=
  match h2, Ci with
  | h :: h2, c :: Ci =>
      p3 ← ge_frombytes_vartime h; asCi ← ge_frombytes_vartime c;
      '(P1, P2, Ctmp) ← range_points h2 Ci (ge_add Ctmp asCi);
      Some (asCi :: P1, ge_sub asCi p3 :: P2, Ctmp)
  | _, _ => Some ([], [], Ctmp)
  end.

Definition verRange (C : blob) (rs : rangeSig) : bool :=
  match range_points H2 (keys_of 64 (Ci rs)) ge_identity with
  | Some (asCi, CiH, Ctmp) => if negb (equalKeys C (ge_tobytes Ctmp)) then false else verifyBorromean (boro_of (asig rs)) asCi CiH
  | None => false
  end.
End sigs.

(** ** Multilayered linkable ring signatures *)
Record multisig_kLRki := KLRki { kl_k : blob; kl_L : blob; kl_R : blob; kl_ki : blob }.

Section mlsag.
Context `{Curve} (rnd : nat -> blob).

(** [skpkGen], and [device_default::mlsag_prepare] *)
Definition skpkGen : gen (blob * blob) := sk <~ skGen rnd;; pk <~ lift (scalarmultBase sk);; gret (sk, pk).
Definition mlsag_prepare (Hi xx : blob) : gen (blob * blob * blob * blob) :=
  x <~ skpkGen;; aHP <~ lift (scalarmultKey Hi x.1);; II <~ lift (scalarmultKey Hi xx);; gret (x.1, x.2, aHP, II).

(** What a signer computes for a row of its column: alpha, the keys to hash, and
    the key image of a row that may be spent once. *)
Definition sign_ds_row (kLRki : option multisig_kLRki) (x : blob * blob) : gen (blob * list blob * blob) :=
  let '(pk, xx) := x in
  match kLRki with
  | Some m => gret (kl_k m, [pk; kl_L m; kl_R m], kl_ki m)
  | None => y <~ mlsag_prepare (hashToPoint pk) xx;; let '(a, aG, aHP, II) := y in gret (a, [pk; aG; aHP], II)
  end.
Definition sign_row (pk : blob) : gen (blob * list blob) := x <~ skpkGen;; gret (x.1, [pk; x.2]).

(** The keys hashed for a column, from the responses and the challenge. *)
Definition ds_row (c : blob) (x : blob * blob * point) : option (list blob) :=
  let '(s, pk, Ip) := x in L ← addKeys2 s c pk; R ← addKeys3 s (hashToPoint pk) c Ip; Some [pk; L; R].
Definition plain_row (c : blob) (x : blob * blob) : option (list blob) := L ← addKeys2 x.1 c x.2; Some [x.2; L].
Definition column_hash (message : blob) (Ip : list point) (c : blob) (ss pk : list blob) : option blob :=
  let dsRows := length Ip in
  ds ← mapM (ds_row c) (zip (zip ss pk) Ip);
  rest ← mapM (plain_row c) (zip (drop dsRows ss) (drop dsRows pk));
  hash_to_scalar (message :: concat ds ++ concat rest).

(** [while (i != index)]: the responses of the other columns, the challenge at
    the first column, and the last challenge. *)
Fixpoint mlsag_loop (fuel : nat) (message : blob) (pk : list (list blob)) (Ip : list point) (rows index i : nat) (c_old cc : blob) (ss : list (list blob))
  : gen (list (list blob) * blob * blob) :=
  if decide (i = index) then gret (ss, c_old, cc)
  else
    match fuel with
    | O => lift None
    | S fuel =>
        si <~ gmapM (fun _ => skGen rnd) (seq 0 rows);;
        c <~ lift (column_hash message Ip c_old si (pk !!! i));;
        let ss := <[i := si]> ss in
        let i := ((i + 1) mod length pk)%nat in
        mlsag_loop fuel message pk Ip rows index i c (if decide (i = 0)%nat then c else cc) ss
    end.

(** [device_default::mlsag_sign] *)
Definition mlsag_sign (c : blob) (xx alpha : list blob) : option (list blob) := mapM (fun x => sc_mulsub c x.1 x.2) (zip xx alpha).

Definition rectangular (pk : list (list blob)) (rows : nat) : bool := forallb (fun col => bool_decide (length col = rows)) pk.

(** The signature, its key images, and the challenge for the other signers. *)
Definition MLSAG_Gen (message : blob) (pk : list (list blob)) (xx : list blob) (kLRki : option multisig_kLRki) (index dsRows : nat)
  : gen (mgSig * list blob * blob) :=
  let cols := length pk in
  let rows := length (pk !!! 0%nat) in
  if negb (bool_decide (2 <= cols)%nat && bool_decide (index < cols)%nat && bool_decide (1 <= rows)%nat && rectangular pk rows && bool_decide (length xx = rows) &&
           bool_decide (dsRows <= rows)%nat && match kLRki with Some _ => bool_decide (dsRows = 1)%nat | None => true end) then lift None
  else
    let col := pk !!! index in
    ds <~ gmapM (sign_ds_row kLRki) (zip (take dsRows col) (take dsRows xx));;
    let II := snd <$> ds in
    Ip <~ lift (mapM precomp II);;
    rest <~ gmapM sign_row (drop dsRows col);;
    let alpha := ((fun x => x.1.1) <$> ds) ++ (fst <$> rest) in
    c_old <~ lift (hash_to_scalar (message :: concat ((fun x => x.1.2) <$> ds) ++ concat (snd <$> rest)));;
    let i := ((index + 1) mod cols)%nat in
    out <~ mlsag_loop cols message pk Ip rows index i c_old (if decide (i = 0)%nat then c_old else zero_key) (replicate cols (replicate rows zero_key));;
    let '(ss, c, cc) := out in
    si <~ lift (mlsag_sign c xx alpha);;
    gret (MgSig (<[index := si]> ss) cc, II, c).

Fixpoint mlsag_ver_loop (message : blob) (Ip : list point) (cols : list (list blob * list blob)) (c_old : blob) : option blob :=
  match cols with
  | [] => Some c_old
  | (ss, pk) :: cols =>
      if existsb (fun k => bool_decide (hashToPoint k = identity_key)) (take (length Ip) pk) then None
      else c ← column_hash message Ip c_old ss pk; mlsag_ver_loop message Ip cols c
  end.

(** An exception, and a key that hashes to the point at infinity, are [false]:
    both callers catch the exception and answer [false]. *)
Definition MLSAG_Ver (message : blob) (pk : list (list blob)) (rv : mgSig) (II : list blob) (dsRows : nat) : bool :=
  let cols := length pk in
  let rows := length (pk !!! 0%nat) in
  bool_decide (2 <= cols)%nat && bool_decide (1 <= rows)%nat && rectangular pk rows && bool_decide (length II = dsRows) && bool_decide (length (ss rv) = cols) &&
  rectangular (ss rv) rows && bool_decide (dsRows <= rows)%nat && forallb (forallb (fun s => sc_check s =? 0)) (ss rv) && (sc_check (cc rv) =? 0) &&
  match Ip ← mapM precomp II; c_old ← mlsag_ver_loop message Ip (zip (ss rv) pk) (cc rv); sc_sub c_old (cc rv) with
  | Some c => sc_isnonzero c =? 0
  | None => false
  end.

(** ** Ring signatures of inputs *)
Definition matrix_simple (pubs : list ctkey) (C : blob) : option (list (list blob)) :=
  mapM (fun p : ctkey => k ← subKeys p.2 C; Some [p.1; k]) pubs.

Definition proveRctMGSimple (message : blob) (pubs : list ctkey) (inSk : ctkey) (a Cout : blob) (kLRki : option multisig_kLRki) (index : nat)
  : gen (mgSig * list blob * blob) :=
  if bool_decide (pubs = []) then lift None
  else
    s <~ lift (sc_sub inSk.2 a);;
    M <~ lift (matrix_simple pubs Cout);;
    MLSAG_Gen message M [inSk.1; s] kLRki index 1.

Definition verRctMGSimple (message : blob) (mg : mgSig) (II : list blob) (pubs : list ctkey) (C : blob) : bool :=
  negb (bool_decide (pubs = [])) && match matrix_simple pubs C with Some M => MLSAG_Ver message M mg II 1 | None => false end.

(** The last row of the matrix: the commitments of the inputs of a column, less
    those of the outputs and the fee. *)
Fixpoint subKeys_all (A : blob) (l : list blob) : option blob :=
  match l with
  | [] => Some A
  | B :: l => A ← subKeys A B; subKeys_all A l
  end.
Definition matrix_full (pubs : list (list ctkey)) (outPk : list blob) (txnFeeKey : blob) : option (list (list blob)) :=
  mapM (fun col : list ctkey => k ← sumKeys (snd <$> col); k ← subKeys_all k outPk; k ← subKeys k txnFeeKey; Some ((fst <$> col) ++ [k])) pubs.

Definition rectangle (pubs : list (list ctkey)) : bool :=
  match pubs with
  | [] => false
  | col :: rest => bool_decide (1 <= length col)%nat && forallb (fun c => bool_decide (length c = length col)) rest
  end.

Fixpoint sc_sum (f : blob -> blob -> option blob) (acc : blob) (l : list blob) : option blob :=
  match l with
  | [] => Some acc
  | x :: l => acc ← f acc x; sc_sum f acc l
  end.

Definition proveRctMG (message : blob) (pubs : list (list ctkey)) (inSk outSk : list ctkey) (outPk : list blob) (kLRki : option multisig_kLRki) (index : nat) (txnFeeKey : blob)
  : gen (mgSig * list blob * blob) :=
  if negb (rectangle pubs && bool_decide (length inSk = length (pubs !!! 0%nat)) && bool_decide (length outSk = length outPk)) then lift None
  else
    M <~ lift (matrix_full pubs outPk txnFeeKey);;
    s <~ lift (sc_sum sc_add zero_key (snd <$> inSk));;
    s <~ lift (sc_sum sc_sub s (snd <$> outSk));;
    MLSAG_Gen message M ((fst <$> inSk) ++ [s]) kLRki index (length (pubs !!! 0%nat)).

Definition verRctMG (mg : mgSig) (II : list blob) (pubs : list (list ctkey)) (outPk : list blob) (txnFeeKey message : blob) : bool :=
  rectangle pubs && match matrix_full pubs outPk txnFeeKey with Some M => MLSAG_Ver message M mg II (length (pubs !!! 0%nat)) | None => false end.
End mlsag.

(** ** The message that is signed *)

(** [None]: no ring, or the base cannot be stored. *)
Definition get_pre_mlsag_hash (rv : rct_full) : option blob :=
  let sg := f_sig rv in
  match mixRing rv with
  | [] => None
  | col :: _ =>
      let inputs := if is_rct_simple (rct_type sg) then length (mixRing rv) else length col in
      let outputs := length (ecdhInfo sg) in
      let base := c_store (rctSigBase_codec inputs outputs) (rctsig_base sg) in
      if negb base.2 then None
      else
        let kv :=
          if rct_type sg =? RCTTypeBulletproof
          then concat ((fun p => [bp_A p; bp_S p; bp_T1 p; bp_T2 p; bp_taux p; bp_mu p] ++ bp_L p ++ bp_R p ++ [bp_a p; bp_b p; bp_t p]) <$> bulletproofs (rct_p sg))
          else concat ((fun r => [asig r; Ci r]) <$> rangeSigs (rct_p sg)) in
        Some (keys_hash [message rv; get_blob_hash base.1; keys_hash kv])
  end.

(** ** Making and checking a signature *)
Inductive RangeProofType := RangeProofBorromean | RangeProofBulletproof | RangeProofMultiOutputBulletproof | RangeProofPaddedBulletproof.

Section rct.
Context `{Curve, Bulletproofs} (rnd : nat -> blob).

(** One output: range proof, commitment and mask, and the encoded amount. *)
Definition prove_output (amount : Z) : gen (rangeSig * blob * blob) := proveRange rnd amount.
Definition encode_output (x : blob * Z * blob) : option ecdhTuple :=
  let '(mask, amount, amount_key) := x in e ← ecdhEncode mask (d2h amount) amount_key; Some (EcdhTuple e.1 e.2).

Definition genRct (msg : blob) (inSk : list ctkey) (destinations : list blob) (amounts : list Z) (ring : list (list ctkey)) (amount_keys : list blob)
  (kLRki : option multisig_kLRki) (index : nat) : gen (rct_full * list ctkey * blob) :=
  let n := length destinations in
  if negb ((bool_decide (length amounts = n) || bool_decide (length amounts = S n)) && bool_decide (length amount_keys = n) && bool_decide (index < length ring)%nat &&
           forallb (fun col => bool_decide (length col = length inSk)) ring) then lift None
  else
    outs <~ gmapM prove_output (take n amounts);;
    let outPk := (fun o => o.1.2) <$> outs in
    let masks := snd <$> outs in
    ecdh <~ lift (mapM encode_output (zip (zip masks (take n amounts)) amount_keys));;
    let fee := amounts !!! n in
    let fee := if bool_decide (n < length amounts)%nat then fee else 0 in
    let base := RctSig RCTTypeFull fee [] ecdh outPk (RctSigPrunable ((fun o => o.1.1) <$> outs) [] [] []) in
    let rv := RctFull base msg ring destinations [] in
    pre <~ lift (get_pre_mlsag_hash rv);;
    let outSk := (fun m => (zero_key, m)) <$> masks in
    mg <~ proveRctMG rnd pre ring inSk outSk outPk kLRki index (scalarmultH (d2h fee));;
    let '(mg, II, c) := mg in
    gret (RctFull (RctSig RCTTypeFull fee [] ecdh outPk (RctSigPrunable ((fun o => o.1.1) <$> outs) [] [mg] [])) msg ring destinations [II], outSk, c).

(** The loop that proves a batch at a time: twice as many as fit, up to 16. *)
Fixpoint batch_size (fuel : nat) (size left : nat) : nat :=
  match fuel with
  | O => size
  | S fuel => if bool_decide (size * 2 <= left)%nat && bool_decide (size * 2 <= 16)%nat then batch_size fuel (size * 2) left else size
  end.
Fixpoint prove_batches (fuel : nat) (multi : bool) (amounts : list Z) : gen (list (Bulletproof * list blob * list blob)) :=
  match amounts, fuel with
  | [], _ => gret []
  | _, O => lift None
  | _, S fuel =>
      let k := if multi then batch_size 5 1 (length amounts) else 1%nat in
      p <~ proveRangeBulletproof rnd (take k amounts);;
      rest <~ prove_batches fuel multi (drop k amounts);;
      gret (p :: rest)
  end.

(** The proofs, the commitments and the masks of the outputs. *)
Definition prove_outputs (t : RangeProofType) (amounts : list Z) : gen (list rangeSig * list Bulletproof * list blob * list blob) :=
  match t with
  | RangeProofBorromean =>
      outs <~ gmapM prove_output amounts;;
      gret ((fun o => o.1.1) <$> outs, [], (fun o => o.1.2) <$> outs, snd <$> outs)
  | _ =>
      ps <~ match t with
            | RangeProofPaddedBulletproof => p <~ proveRangeBulletproof rnd amounts;; gret [p]
            | RangeProofMultiOutputBulletproof => prove_batches (length amounts) true amounts
            | _ => prove_batches (length amounts) false amounts
            end;;
      outPk <~ lift (mapM scalarmult8 (concat ((fun p => p.1.2) <$> ps)));;
      gret ([], (fun p => p.1.1) <$> ps, outPk, concat (snd <$> ps))
  end.

(** The pseudo outputs: random masks that sum up to those of the outputs. *)
Fixpoint pseudo_outs (amounts : list Z) (sumout sumpouts : blob) : gen (list (blob * blob)) :=
  match amounts with
  | [] => gret []
  | [amount] => a <~ lift (sc_sub sumout sumpouts);; C <~ lift (genC a amount);; gret [(a, C)]
  | amount :: amounts =>
      a <~ skGen rnd;; sumpouts <~ lift (sc_add a sumpouts);; C <~ lift (genC a amount);;
      rest <~ pseudo_outs amounts sumout sumpouts;; gret ((a, C) :: rest)
  end.

Record input := Input { i_sk : ctkey; i_ring : list ctkey; i_a : blob; i_C : blob; i_kLRki : option multisig_kLRki; i_index : nat }.
Definition sign_input (msg : blob) (x : input) : gen (mgSig * list blob * blob) :=
  proveRctMGSimple rnd msg (i_ring x) (i_sk x) (i_a x) (i_C x) (i_kLRki x) (i_index x).

Definition make_inputs (inSk : list ctkey) (ring : list (list ctkey)) (ps : list (blob * blob)) (ks : list (option multisig_kLRki)) (index : list nat) : list input :=
  (fun x => let '((sk, r), ((a, C), (k, i))) := x in Input sk r a C k i) <$> zip (zip inSk ring) (zip ps (zip ks index)).

(** The signature from its parts: the pseudo outputs are in the base or in the
    part that is pruned. *)
Definition simple_sig (t : RangeProofType) (fee : Z) (pouts : list blob) (ecdh : list ecdhTuple) (outPk : list blob) (ranges : list rangeSig) (bps : list Bulletproof) (mgs : list mgSig) : rctSig :=
  let bulletproof := match t with RangeProofBorromean => false | _ => true end in
  RctSig (if bulletproof then RCTTypeBulletproof else RCTTypeSimple) fee (if bulletproof then [] else pouts) ecdh outPk (RctSigPrunable ranges bps mgs (if bulletproof then pouts else [])).

Definition genRctSimple (msg : blob) (inSk : list ctkey) (destinations : list blob) (inamounts outamounts : list Z) (fee : Z) (ring : list (list ctkey))
  (amount_keys : list blob) (kLRki : option (list multisig_kLRki)) (index : list nat) (t : RangeProofType) : gen (rct_full * list ctkey * list blob) :=
  let n := length destinations in
  let m := length inamounts in
  if negb (bool_decide (0 < m)%nat && bool_decide (m = length inSk) && bool_decide (length outamounts = n) && bool_decide (length amount_keys = n) &&
           bool_decide (length index = length inSk) && bool_decide (length ring = length inSk) &&
           forallb (fun x => bool_decide (x.1 < length x.2)%nat) (zip index ring) &&
           match kLRki with Some l => bool_decide (length l = m) | None => true end) then lift None
  else
    proofs <~ prove_outputs t outamounts;;
    let '(ranges, bps, outPk, masks) := proofs in
    sumout <~ lift (sc_sum (fun acc x => sc_add x acc) zero_key masks);;
    ecdh <~ lift (mapM encode_output (zip (zip masks outamounts) amount_keys));;
    ps <~ pseudo_outs inamounts sumout zero_key;;
    let pouts := snd <$> ps in
    let sig := simple_sig t fee pouts ecdh outPk ranges bps in
    full_message <~ lift (get_pre_mlsag_hash (RctFull (sig []) msg ring destinations []));;
    let ks := match kLRki with Some l => Some <$> l | None => replicate m None end in
    let inputs := make_inputs inSk ring ps ks index in
    mgs <~ gmapM (sign_input full_message) inputs;;
    gret (RctFull (sig ((fun g => g.1.1) <$> mgs)) msg ring destinations ((fun g => g.1.2) <$> mgs), (fun x => (zero_key, x)) <$> masks, snd <$> mgs).

(** [verRct(rv, true)] and [verRct(rv, false)] *)
Definition verRct_semantics (sg : rctSig) : bool :=
  (rct_type sg =? RCTTypeFull) && bool_decide (length (outPk sg) = length (rangeSigs (rct_p sg))) && bool_decide (length (outPk sg) = length (ecdhInfo sg)) &&
  bool_decide (length (MGs (rct_p sg)) = 1%nat) && forallb (fun x => verRange x.1 x.2) (zip (outPk sg) (rangeSigs (rct_p sg))).
Definition verRct_full (rv : rct_full) : bool :=
  let sg := f_sig rv in
  (rct_type sg =? RCTTypeFull) &&
  match MGs (rct_p sg), f_II rv, get_pre_mlsag_hash rv with
  | mg :: _, II :: _, Some pre => verRctMG mg II (mixRing rv) (outPk sg) (scalarmultH (d2h (txnFee sg))) pre
  | _, _, _ => false
  end.

(** The checks of the first loop over a group of signatures. *)
Definition simple_shape (sg : rctSig) : bool :=
  let p := rct_p sg in
  if is_rct_bulletproof (rct_type sg) then
    (zlen (outPk sg) =? n_bulletproof_amounts (bulletproofs p)) && bool_decide (length (p_pseudoOuts p) = length (MGs p)) && bool_decide (pseudoOuts sg = []) &&
    bool_decide (length (outPk sg) = length (ecdhInfo sg))
  else
    (rct_type sg =? RCTTypeSimple) && bool_decide (length (outPk sg) = length (rangeSigs p)) && bool_decide (length (pseudoOuts sg) = length (MGs p)) &&
    bool_decide (p_pseudoOuts p = []) && bool_decide (length (outPk sg) = length (ecdhInfo sg)).
Definition pseudo_of (sg : rctSig) : list blob := if is_rct_bulletproof (rct_type sg) then p_pseudoOuts (rct_p sg) else pseudoOuts sg.

(** Inputs against outputs and fee; [None] is an exception. *)
Definition sum_check (sg : rctSig) : option bool :=
  sumOutpks ← addKeys_all (outPk sg);
  sumOutpks ← addKeys sumOutpks (scalarmultH (d2h (txnFee sg)));
  sumPseudoOuts ← addKeys_all (pseudo_of sg);
  Some (equalKeys sumPseudoOuts sumOutpks).

Fixpoint sums_check (rvv : list rctSig) : bool :=
  match rvv with
  | [] => true
  | sg :: rvv => match sum_check sg with Some true => sums_check rvv | _ => false end
  end.

Definition range_proofs (sg : rctSig) : list (blob * rangeSig) :=
  if is_rct_bulletproof (rct_type sg) then [] else zip (outPk sg) (rangeSigs (rct_p sg)).
Definition bullet_proofs (sg : rctSig) : list Bulletproof := if is_rct_bulletproof (rct_type sg) then bulletproofs (rct_p sg) else [].

Definition verRctSemanticsSimple_all (rvv : list rctSig) : bool :=
  let proofs := concat (bullet_proofs <$> rvv) in
  forallb simple_shape rvv && sums_check rvv && (bool_decide (proofs = []) || verBulletproof proofs) &&
  forallb (fun x => verRange x.1 x.2) (concat (range_proofs <$> rvv)).
Definition verRctSemanticsSimple (sg : rctSig) : bool := verRctSemanticsSimple_all [sg].

(** A signature past the end of the vector is [false]. *)
Fixpoint verify_inputs (message : blob) (rings : list (list ctkey)) (pouts : list blob) (mgs : list mgSig) (II : list (list blob)) : bool :=
  match rings, pouts, mgs, II with
  | [], _, _, _ => true
  | pubs :: rings, C :: pouts, mg :: mgs, ki :: II => verRctMGSimple message mg ki pubs C && verify_inputs message rings pouts mgs II
  | _, _, _, _ => false
  end.
Definition verRctNonSemanticsSimple (rv : rct_full) : bool :=
  let sg := f_sig rv in
  is_rct_simple (rct_type sg) && bool_decide (length (pseudo_of sg) = length (mixRing rv)) &&
  match get_pre_mlsag_hash rv with
  | Some message => verify_inputs message (mixRing rv) (pseudo_of sg) (MGs (rct_p sg)) (f_II rv)
  | None => false
  end.

(** ** Reading the amounts *)
Definition decode (sg : rctSig) (sk : blob) (i : nat) : option (Z * blob) :=
  e ← ecdhInfo sg !! i;
  if negb (bool_decide (length (outPk sg) = length (ecdhInfo sg))) then None
  else
    d ← ecdhDecode (Rct.mask e) (Rct.amount e) sk;
    C ← outPk sg !! i;
    if negb ((sc_check d.1 =? 0) && (sc_check d.2 =? 0)) then None
    else Ctmp ← addKeys2 d.1 d.2 key_H; if equalKeys C Ctmp then Some (h2d d.2, d.1) else None.
(** A signature of another type gives the amount 0 ([false]), with the mask left as it was. *)
Definition decodeRct (sg : rctSig) (sk : blob) (i : nat) : option (Z * blob) :=
  if negb (rct_type sg =? RCTTypeFull) then Some (0, zero_key) else decode sg sk i.
Definition decodeRctSimple (sg : rctSig) (sk : blob) (i : nat) : option (Z * blob) :=
  if negb (is_rct_simple (rct_type sg)) then Some (0, zero_key) else decode sg sk i.

(** ** A further signer of a multisignature *)
Definition sign_more (k c secret_key : blob) (index : nat) (mg : mgSig) : option mgSig :=
  diff ← sc_mulsub c secret_key k;
  row ← ss mg !! index;
  match row with
  | [] => None
  | s :: row => s ← sc_add s diff; Some (MgSig (<[index := s :: row]> (ss mg)) (cc mg))
  end.
(** [None] is the answer [false], with nothing changed. *)
Definition signMultisig (sg : rctSig) (indices : list nat) (k msout : list blob) (secret_key : blob) : option rctSig :=
  let p := rct_p sg in
  if negb (rct_type_known (rct_type sg) && bool_decide (length indices = length k) && bool_decide (length k = length (MGs p)) && bool_decide (length k = length msout) &&
           (negb (rct_type sg =? RCTTypeFull) || bool_decide (length (MGs p) = 1%nat)) &&
           forallb (fun x => match ss x.2 !! x.1 with Some (_ :: _) => true | _ => false end) (zip indices (MGs p))) then None
  else
    mgs ← mapM (fun x => let '((k, c), (index, mg)) := x in sign_more k c secret_key index mg) (zip (zip k msout) (zip indices (MGs p)));
    Some (RctSig (rct_type sg) (txnFee sg) (pseudoOuts sg) (ecdhInfo sg) (outPk sg) (RctSigPrunable (rangeSigs p) (bulletproofs p) mgs (p_pseudoOuts p))).
End rct.

(** ** Groups of signatures *)
Lemma sums_check_forall `{Curve} rvv : sums_check rvv = forallb (fun sg => match sum_check sg with Some true => true | _ => false end) rvv.
Proof. induction rvv as [|sg rvv IH]; [done|]. cbn [sums_check forallb]. destruct (sum_check sg) as [[]|]; [exact IH|done..]. Qed.

Lemma forallb_concat {A B} (f : A -> list B) (P : B -> bool) l : forallb P (concat (f <$> l)) = forallb (fun x => forallb P (f x)) l.
Proof. induction l as [|x l IH]; [done|]. cbn [fmap list_fmap concat forallb]. rewrite forallb_app. f_equal. exact IH. Qed.

Lemma forallb_andb {A} (P Q : A -> bool) l : forallb (fun x => P x && Q x) l = forallb P l && forallb Q l.
Proof. induction l as [|x l IH]; [done|]. cbn [forallb]. rewrite IH. by destruct (P x), (Q x), (forallb P l), (forallb Q l). Qed.

(** A group of signatures is accepted exactly when each of them is, if
    bulletproofs are valid together exactly when each of them is. *)
Theorem verRctSemanticsSimple_batch `{Curve, Bulletproofs} rvv : (forall ps, ps <> [] -> verBulletproof ps = forallb (fun p => verBulletproof [p]) ps) ->
  verRctSemanticsSimple_all rvv = forallb verRctSemanticsSimple rvv.
Proof.
  intros Hb. set (bp := fun ps => bool_decide (ps = []) || verBulletproof ps). assert (forall ps, bp ps = forallb (fun p => verBulletproof [p]) ps) as Ebp.
  { intros [|p ps]; [done|]. unfold bp. rewrite bool_decide_eq_false_2 by done. by apply Hb. }
  assert (forall l, verRctSemanticsSimple_all l = forallb simple_shape l && forallb (fun sg => match sum_check sg with Some true => true | _ => false end) l &&
    forallb (fun sg => bp (bullet_proofs sg)) l && forallb (fun sg => forallb (fun x => verRange x.1 x.2) (range_proofs sg)) l) as E.
  { intros l. unfold verRctSemanticsSimple_all. rewrite sums_check_forall, forallb_concat. fold (bp (concat (bullet_proofs <$> l))). rewrite Ebp, forallb_concat. f_equal. f_equal.
    induction l as [|sg l IH]; [done|]. cbn [forallb]. by rewrite IH, Ebp. }
  unfold verRctSemanticsSimple. rewrite E, <- !forallb_andb. induction rvv as [|sg rvv IH]; [done|]. cbn [forallb]. rewrite IH. f_equal. rewrite E. cbn [forallb]. by rewrite !andb_true_r.
Qed.
