(* ===== verification/RctProofs.v ===== *)
(** * Completeness and balance of RingCT signatures

    Theorems about RctSigs.v over any curve with the laws of RctOps.v: what the
    signer makes is accepted, the receiver reads the amounts, a group of
    signatures is accepted when each of its members is, and an accepted signature
    balances. *)
From Stdlib Require Import ZArith Lia Bool.
From stdpp Require Import prelude.
From S2P Require Import Prelude Archive Rct Keccak Limbs Scalar RctOps CryptonoteBasic Hashing RctSigs.
Local Open Scope Z_scope.
Local Open Scope gen_scope.

#[local] Opaque cn_fast_hash.

(** ** Computations that always give a result, and what it satisfies *)
Definition gives {A} (m : gen A) (Q : A -> Prop) : Prop := forall n, exists a n', m n = Some (a, n') /\ Q a.

Lemma gives_ret {A} (a : A) (Q : A -> Prop) : Q a -> gives (gret a) Q.
Proof. intros Ha n. by exists a, n. Qed.
Lemma gives_lift {A} (o : option A) a (Q : A -> Prop) : o = Some a -> Q a -> gives (lift o) Q.
Proof. intros -> Ha n. by exists a, n. Qed.
Lemma gives_bind {A B} (m : gen A) (k : A -> gen B) (P : A -> Prop) (Q : B -> Prop) : gives m P -> (forall a, P a -> gives (k a) Q) -> gives (gbind m k) Q.
Proof. intros Hm Hk n. destruct (Hm n) as (a & n' & E & Ha). unfold gbind. rewrite E. cbn [mbind option_bind]. by apply Hk. Qed.
Lemma gives_bind_lift {A B} (o : option A) a (k : A -> gen B) (Q : B -> Prop) : o = Some a -> gives (k a) Q -> gives (gbind (lift o) k) Q.
Proof. intros E Hk. eapply gives_bind; [apply (gives_lift o a (fun x => x = a)); done|]. by intros ? ->. Qed.
Lemma gives_mono {A} (m : gen A) (P Q : A -> Prop) : gives m P -> (forall a, P a -> Q a) -> gives m Q.
Proof. intros Hm HQ n. destruct (Hm n) as (a & n' & E & Ha). exists a, n'. auto. Qed.

Lemma gives_mapM {A B} (f : A -> gen B) (Q : A -> B -> Prop) l : Forall (fun x => gives (f x) (Q x)) l -> gives (gmapM f l) (Forall2 Q l).
Proof.
  induction 1 as [|x l Hx Hl IH]; [apply gives_ret; constructor|]. cbn [gmapM]. eapply gives_bind; [exact Hx|]. intros b Hb.
  eapply gives_bind; [exact IH|]. intros bs Hbs. apply gives_ret. by constructor.
Qed.

Section proofs.
Context `{CurveLaws} (rnd : nat -> blob) (Hrnd : forall n, pod_ok 32 (rnd n)).

Lemma skGen_gives : gives (skGen rnd) sc_ok.
Proof. intros n. unfold skGen. rewrite random32_first by done. eexists _, _. split; [done|]. apply scalar_sc_ok. Qed.

(** ** Responses *)

(** The response of a signer opens to the nonce. *)
Lemma response x c alpha p : main p -> ge_add (ge_smul (le_word c) (ge_smul (le_word x) p)) (ge_smul (le_word (scalar (le_word alpha - le_word x * le_word c))) p) = ge_smul (le_word alpha) p.
Proof. intros Hp. rewrite le_word_scalar, ge_smul_mod by done. rewrite <- ge_smul_mul, <- ge_smul_plus. f_equal. lia. Qed.

Lemma hash_gives keys : gives (lift (hash_to_scalar keys)) (fun c => hash_to_scalar keys = Some c /\ sc_ok c).
Proof. destruct (hash_to_scalar_some keys) as (c & E & Hc). by eapply gives_lift. Qed.

Lemma mulsub_gives x c alpha : sc_ok x -> sc_ok c -> sc_ok alpha -> gives (lift (sc_mulsub x c alpha)) (fun s => s = scalar (le_word alpha - le_word x * le_word c)).
Proof. intros [Hx _] [Hc _] [Ha _]. eapply gives_lift; [by apply sc_mulsub_correct|done]. Qed.

(** ** Borromean ring signatures *)

(** A ring whose secret is known: of the first key or of the second. *)
Definition ring_ok (r : ring) (p1 p2 : point) : Prop :=
  sc_ok (r_x r) /\ r_P1 r = ge_tobytes p1 /\ r_P2 r = ge_tobytes p2 /\
  if r_index r =? 0 then p1 = ge_smul (le_word (r_x r)) ge_base else p2 = ge_smul (le_word (r_x r)) ge_base.

(** What the two loops give for a ring. *)
Definition commit_ok (p2 : point) (r : ring) (x : blob * blob * blob) : Prop :=
  let '(alpha, s1, L1) := x in sc_ok alpha /\
  let aG := ge_tobytes (ge_smul (le_word alpha) ge_base) in
  if r_index r =? 0 then sc_ok s1 /\ exists c, hash_to_scalar [aG] = Some c /\ sc_ok c /\ L1 = ge_tobytes (ge_double_scalarmult_base_vartime c p2 s1) else L1 = aG.

Definition check_ok (ee : blob) (p1 p2 : point) (L1 : blob) (s : blob * blob) : Prop :=
  sc_ok s.1 /\ sc_ok s.2 /\ exists c, hash_to_scalar [ge_tobytes (ge_double_scalarmult_base_vartime ee p1 s.1)] = Some c /\
    ge_tobytes (ge_double_scalarmult_base_vartime c p2 s.2) = L1.

Lemma boro_commit_gives r p1 p2 : ring_ok r p1 p2 -> gives (boro_commit rnd r) (commit_ok p2 r).
Proof.
  intros (Hx & E1 & E2 & Hi). unfold boro_commit. eapply gives_bind; [apply skGen_gives|]. intros alpha Ha.
  eapply gives_bind_lift; [apply scalarmultBase_spec, Ha|]. unfold commit_ok. destruct (r_index r =? 0) eqn:Ei; [|by apply gives_ret].
  eapply gives_bind; [apply skGen_gives|]. intros s1 Hs. eapply gives_bind; [apply hash_gives|]. intros c [Ec Hc].
  eapply gives_bind_lift; [unfold addKeys2; rewrite E2, ge_frombytes_tobytes; done|]. apply gives_ret. split; [done|]. split; [done|]. by exists c.
Qed.

Lemma boro_respond_gives ee r p1 p2 x : sc_ok ee -> ring_ok r p1 p2 -> commit_ok p2 r x -> gives (boro_respond rnd ee (r, x)) (check_ok ee p1 p2 x.2).
Proof.
  intros He (Hx & E1 & E2 & Hi). destruct x as [[alpha s1] L1]. unfold commit_ok, boro_respond, check_ok. intros [Ha Hr]. cbn [snd]. destruct (r_index r =? 0) eqn:Ei.
  - destruct Hr as (Hs & c & Ec & Hc & ->). eapply gives_bind; [by apply mulsub_gives|]. intros s0 ->. apply gives_ret. cbn [fst snd].
    split; [apply scalar_sc_ok|]. split; [done|]. exists c. split; [|done]. rewrite <- Ec. do 3 f_equal.
    rewrite ge_double_base_spec by (done || apply scalar_sc_ok). rewrite Hi. apply response, ge_order_base.
  - subst L1. eapply gives_bind; [apply skGen_gives|]. intros s0 Hs. eapply gives_bind_lift; [unfold addKeys2; rewrite E1, ge_frombytes_tobytes; done|].
    eapply gives_bind; [apply hash_gives|]. intros c [Ec Hc]. eapply gives_bind; [by apply mulsub_gives|]. intros s1' ->. apply gives_ret. cbn [fst snd].
    split; [done|]. split; [apply scalar_sc_ok|]. exists c. split; [done|]. f_equal. rewrite ge_double_base_spec by (done || apply scalar_sc_ok). rewrite Hi. apply response, ge_order_base.
Qed.

Lemma gmapM_fmap {A B C} (f : B -> gen C) (g : A -> B) l : gmapM f (g <$> l) = gmapM (fun x => f (g x)) l.
Proof. induction l as [|x l IH]; [done|]. cbn [fmap list_fmap gmapM]. rewrite <- IH. done. Qed.

Lemma zip_map_l {A B C} (f : A -> B) (l : list A) (k : list C) : zip (f <$> l) k = (fun w => (f w.1, w.2)) <$> zip l k.
Proof. revert k. induction l as [|x l IH]; intros [|y k]; [done..|]. cbn [fmap list_fmap zip_with fst snd]. rewrite <- IH. done. Qed.

Lemma fmap_zip_l {A B C} (g : A -> B) (l : list A) (k : list C) : (length l <= length k)%nat -> (fun w => g w.1) <$> zip l k = g <$> l.
Proof. intros Hl. change (g ∘ fst <$> zip l k = g <$> l). by rewrite list_fmap_compose, fst_zip. Qed.
Lemma fmap_zip_r {A B C} (g : C -> B) (l : list A) (k : list C) : (length k <= length l)%nat -> (fun w => g w.2) <$> zip l k = g <$> k.
Proof. intros Hl. change (g ∘ snd <$> zip l k = g <$> k). by rewrite list_fmap_compose, snd_zip. Qed.

Lemma boro_check_complete ee (W : list (ring * (point * point) * (blob * blob * blob))) ss : Forall2 (fun w s => check_ok ee w.1.2.1 w.1.2.2 w.2.2 s) W ss ->
  boro_check ee (fst <$> ss) (snd <$> ss) ((fun w => w.1.2.1) <$> W) ((fun w => w.1.2.2) <$> W) = Some ((fun w => w.2.2) <$> W).
Proof.
  induction 1 as [|w s W ss (_ & _ & c & Ec & EL) _ IH]; [done|]. cbn [fmap list_fmap boro_check]. rewrite Ec. cbn [mbind option_bind].
  rewrite IH. cbn [mbind option_bind]. by rewrite EL.
Qed.

Definition rings_ok (T : list (ring * (point * point))) : Prop := Forall (fun t => ring_ok t.1 t.2.1 t.2.2) T.

Lemma genBorromean_gives T : rings_ok T -> gives (genBorromean rnd (fst <$> T)) (fun bb =>
  verifyBorromean bb ((fun t => t.2.1) <$> T) ((fun t => t.2.2) <$> T) = true /\ sc_ok (ee bb) /\
  Forall sc_ok (s0 bb) /\ Forall sc_ok (s1 bb) /\ length (s0 bb) = length T /\ length (s1 bb) = length T).
Proof.
  intros HT. unfold genBorromean. rewrite gmapM_fmap. eapply gives_bind.
  { apply (gives_mapM _ (fun t => commit_ok t.2.2 t.1)). eapply Forall_impl; [exact HT|]. intros t Ht. exact (boro_commit_gives _ _ _ Ht). }
  intros cs Hcs. assert (length T = length cs) as Hl by by eapply Forall2_length. eapply gives_bind; [apply hash_gives|]. intros ee [Ee He].
  assert (zip (fst <$> T) cs = (fun w => (w.1.1, w.2)) <$> zip T cs) as -> by by rewrite zip_map_l.
  rewrite gmapM_fmap. eapply gives_bind.
  { apply (gives_mapM _ (fun w => check_ok ee w.1.2.1 w.1.2.2 w.2.2)). clear Ee Hl. induction Hcs as [|t c T cs Hc _ IH]; [constructor|].
    inversion HT; subst. constructor; [by eapply boro_respond_gives|by apply IH]. }
  intros ss Hss. apply gives_ret. cbn [RctSigs.ee RctSigs.s0 RctSigs.s1]. pose proof (Forall2_length _ _ _ Hss) as Hls. rewrite length_zip_with in Hls.
  assert (Forall (fun s => sc_ok s.1 /\ sc_ok s.2) ss) as Hs by (clear -Hss; induction Hss as [|w s W ss (? & ? & _) _ IH]; by constructor).
  rewrite !Forall_fmap, !length_fmap. split; [|split; [done|split; [eapply Forall_impl; [exact Hs|by intros ? []]|split; [eapply Forall_impl; [exact Hs|by intros ? []]|lia]]]].
  unfold verifyBorromean. cbn [RctSigs.ee RctSigs.s0 RctSigs.s1]. pose proof (boro_check_complete _ _ _ Hss) as E.
  rewrite (fmap_zip_l (fun t => t.2.1)), (fmap_zip_l (fun t => t.2.2)), (fmap_zip_r snd) in E by lia. rewrite E. cbn [mbind option_bind].
  rewrite Ee. by apply bool_decide_eq_true_2.
Qed.

(** ** Range proofs *)

(** The commitment to an amount under a mask. *)
Definition opens (p : point) (mask : blob) (v : Z) : Prop := sc_ok mask /\ p = ge_add (ge_smul (le_word mask) ge_base) (ge_smul v ge_p3_H).

Lemma opens_add p q a b v w : opens p a v -> opens q b w -> exists m, sc_add a b = Some m /\ opens (ge_add p q) m (v + w).
Proof.
  intros [Ha ->] [Hb ->]. exists (scalar (le_word a + le_word b)). split; [apply sc_add_correct; [apply Ha|apply Hb]|]. split; [apply scalar_sc_ok|].
  rewrite le_word_scalar, ge_smul_mod by apply ge_order_base. rewrite !ge_smul_plus. apply ge_add_swap.
Qed.

Lemma range_bit_gives k h b st p v : ge_frombytes_vartime k = Some h -> (b = 0 \/ b = 1) -> forall w, h = ge_smul w ge_p3_H -> rs_C st = ge_tobytes p -> opens p (rs_mask st) v ->
  gives (range_bit rnd k b st) (fun st' => exists r c, ring_ok r c (ge_sub c h) /\ rs_rings st' = rs_rings st ++ [r] /\ r_P1 r = ge_tobytes c /\
    rs_C st' = ge_tobytes (ge_add p c) /\ opens (ge_add p c) (rs_mask st') (v + w * b)).
Proof.
  intros Ek Hb w Eh EC Ho. unfold range_bit. eapply gives_bind; [apply skGen_gives|]. intros ai Ha. set (aG := ge_smul (le_word ai) ge_base).
  set (c := if b =? 0 then aG else ge_add aG h).
  eapply gives_bind_lift; [instantiate (1 := ge_tobytes c)|].
  { unfold c. destruct (b =? 0); [apply scalarmultBase_spec, Ha|]. unfold addKeys1. rewrite scalarmultBase_spec by apply Ha. cbn [mbind option_bind]. unfold addKeys. by rewrite Ek, ge_frombytes_tobytes. }
  eapply gives_bind_lift; [unfold subKeys; rewrite Ek, ge_frombytes_tobytes; done|].
  assert (opens c ai (w * b)) as Hc.
  { split; [done|]. unfold c. destruct Hb as [-> | ->]; cbn [Z.eqb].
    - by rewrite Z.mul_0_r, ge_smul_0, ge_add_0_r.
    - by rewrite Z.mul_1_r, Eh. }
  destruct (opens_add p c (rs_mask st) ai v (w * b) Ho Hc) as (m & Em & Hm). eapply gives_bind_lift; [exact Em|].
  eapply gives_bind_lift; [rewrite EC; apply addKeys_spec|]. apply gives_ret. cbn [rs_rings rs_C rs_mask]. exists (Ring ai (ge_tobytes c) (ge_tobytes (ge_sub c h)) b), c.
  split; [|done]. split; [done|]. cbn [r_x r_P1 r_P2 r_index]. split; [done|]. split; [done|]. unfold c. destruct (b =? 0); [done|].
  by rewrite ge_sub_opp, <- ge_add_assoc, ge_add_opp, ge_add_0_r.
Qed.

Lemma range_bits_gives h2 bits i st p v : (forall j, (j < length bits)%nat -> exists k, h2 !! j = Some k /\ ge_frombytes_vartime k = Some (ge_smul (2 ^ (i + Z.of_nat j)) ge_p3_H)) ->
  0 <= i -> Forall (fun x => x = 0 \/ x = 1) bits -> rs_C st = ge_tobytes p -> opens p (rs_mask st) v ->
  gives (range_bits rnd h2 bits st) (fun st' => exists T q, rings_ok T /\ length T = length bits /\ rs_rings st' = rs_rings st ++ (fst <$> T) /\
    Forall (fun t => r_P1 t.1 = ge_tobytes t.2.1) T /\
    rs_C st' = ge_tobytes q /\ opens q (rs_mask st') (v + 2 ^ i * bits_value bits) /\
    range_points h2 ((fun t => r_P1 t.1) <$> T) p = Some ((fun t => t.2.1) <$> T, (fun t => t.2.2) <$> T, q)).
Proof.
  revert h2 i st p v. induction bits as [|b bits IH]; intros h2 i st p v Hh Hi Hb EC Ho.
  - assert (range_bits rnd h2 [] st = gret st) as -> by by destruct h2. apply gives_ret. exists [], p. cbn [fmap list_fmap bits_value]. rewrite app_nil_r, Z.mul_0_r, Z.add_0_r.
    split; [constructor|]. split; [done|]. split; [done|]. split; [constructor|]. split; [done|]. split; [done|]. by destruct h2.
  - inversion Hb as [|? ? Hb1 Hb2]; subst. destruct (Hh 0%nat) as (k & Ek & Hk); [cbn; lia|]. destruct h2 as [|k' h2]; [done|]. injection Ek as ->. rewrite Z.add_0_r in Hk.
    cbn [range_bits]. eapply gives_bind; [by eapply range_bit_gives|]. intros st' (r & c & Hr & Er & Ec & EC' & Ho').
    eapply gives_mono; [apply (IH h2 (i + 1) st' (ge_add p c) (v + 2 ^ i * b)); [|lia|done|exact EC'|exact Ho']|].
    + intros j Hj. destruct (Hh (S j)) as (k2 & Ek2 & Hk2); [cbn; lia|]. exists k2. split; [done|]. rewrite Hk2. do 3 f_equal. lia.
    + intros st2 (T & q & HT & Hl & Ers & HP & EC2 & Ho2 & Erp). exists ((r, (c, ge_sub c (ge_smul (2 ^ i) ge_p3_H))) :: T), q. split; [by constructor|]. split; [cbn; by rewrite Hl|].
      split; [rewrite Ers, Er; cbn [fmap list_fmap]; by rewrite <- app_assoc|]. split; [by constructor|]. split; [done|]. split.
      * cbn [bits_value]. rewrite Z.pow_add_r in Ho2 by lia. change (2 ^ 1) with 2 in Ho2. replace (v + 2 ^ i * (b + 2 * bits_value bits)) with (v + 2 ^ i * b + 2 ^ i * 2 * bits_value bits) by ring. done.
      * cbn [fmap list_fmap range_points fst snd]. rewrite Hk, Ec, ge_frombytes_tobytes. cbn [mbind option_bind]. rewrite Erp. done.
Qed.

Lemma keys_of_concat l rest : Forall (pod_ok 32) l -> keys_of (length l) (concat l ++ rest) = l.
Proof.
  induction 1 as [|k l [Hk _] Hl IH]; [done|]. cbn [length keys_of concat]. rewrite <- app_assoc, take_app_length', drop_app_length' by done. by rewrite IH.
Qed.

Lemma length_concat_keys l : Forall (pod_ok 32) l -> length (concat l) = (length l * 32)%nat.
Proof. induction 1 as [|k l [Hk _] Hl IH]; [done|]. cbn [concat length]. rewrite length_app, Hk, IH. lia. Qed.

Lemma boro_of_to bb : Forall (pod_ok 32) (s0 bb) -> Forall (pod_ok 32) (s1 bb) -> length (s0 bb) = 64%nat -> length (s1 bb) = 64%nat -> pod_ok 32 (ee bb) -> boro_of (boro_to bb) = bb.
Proof.
  intros H1 H2 L1 L2 [He _]. pose proof (length_concat_keys _ H1) as C1. pose proof (length_concat_keys _ H2) as C2. rewrite L1 in C1. rewrite L2 in C2.
  unfold boro_of, boro_to. destruct bb as [a b e]. cbn [RctSigs.s0 RctSigs.s1 RctSigs.ee] in *. f_equal.
  - rewrite <- L1. by apply keys_of_concat.
  - rewrite drop_app_length' by done. rewrite <- L2. by apply keys_of_concat.
  - rewrite (app_assoc (concat a)), drop_app_length' by (rewrite length_app, C1, C2; done). by apply take_ge; rewrite He.
Qed.

Lemma sc_ok_pod l : Forall sc_ok l -> Forall (pod_ok 32) l.
Proof. intros Hl. eapply Forall_impl; [exact Hl|]. by intros ? []. Qed.

Lemma opens_zero : opens ge_identity zero_key 0.
Proof. split; [by_decide|]. change (le_word zero_key) with 0. by rewrite !ge_smul_0, ge_add_0_l. Qed.

Lemma pod_concat l : Forall (pod_ok 32) l -> pod_ok (length l * 32) (concat l).
Proof. intros Hl. split; [by apply length_concat_keys|]. induction Hl as [|k l [_ Hk] Hl IH]; [constructor|]. apply Forall_app. by split. Qed.

Lemma proveRange_gives amount : is_u64 amount -> gives (proveRange rnd amount) (fun x => let '(rs, C, mask) := x in
  verRange C rs = true /\ rangeSig_ok rs /\ exists p, C = ge_tobytes p /\ opens p mask amount).
Proof.
  intros Ha. destruct (d2b_spec amount Ha) as (Hl & Hb & Hv). unfold proveRange. eapply gives_bind.
  { apply (range_bits_gives H2 (d2b amount) 0 _ ge_identity 0); [|done|done|by rewrite ge_tobytes_identity|apply opens_zero]. rewrite Hl. intros j Hj. rewrite Z.add_0_l. by apply H2_spec. }
  intros st (T & q & HT & HTl & Er & HP & EC & Ho & Erp). cbn [rs_rings app] in Er. rewrite Hl in HTl. rewrite Er.
  eapply gives_bind; [by apply genBorromean_gives|]. intros bb (Hver & He & H0' & H1' & L0 & L1). rewrite HTl in *. apply gives_ret. rewrite EC.
  assert (r_P1 <$> (fst <$> T) = (fun t => r_P1 t.1) <$> T) as EP by by rewrite <- list_fmap_compose. rewrite EP.
  assert (Forall (pod_ok 32) ((fun t => r_P1 t.1) <$> T)) as HPk.
  { apply Forall_fmap. eapply Forall_impl; [exact HP|]. intros t Et. cbn. rewrite Et. apply ge_tobytes_ok. }
  assert (length ((fun t => r_P1 t.1) <$> T) = 64%nat) as HlP by by rewrite length_fmap.
  split; [|split; [split|]]; cbn [asig Ci].
  - unfold verRange. cbn [asig Ci]. rewrite <- (app_nil_r (concat _)), <- HlP at 1. rewrite keys_of_concat, Erp by done. unfold equalKeys. rewrite bool_decide_eq_true_2 by done. cbn [negb].
    rewrite boro_of_to; [done|by apply sc_ok_pod..|done|done|apply He].
  - unfold boro_to. rewrite app_assoc, <- concat_app, <- (app_nil_r (ee bb)). change (ee bb ++ []) with (concat [ee bb]). rewrite <- concat_app.
    change (129 * 32)%nat with ((64 + 64 + 1) * 32)%nat. rewrite <- L0 at 1. rewrite <- L1 at 1. change 1%nat with (length [ee bb]). rewrite <- !length_app. apply pod_concat.
    rewrite !Forall_app. split; [split; by apply sc_ok_pod|]. constructor; [apply He|constructor].
  - rewrite <- HlP. by apply pod_concat.
  - exists q. split; [done|]. rewrite Hv, Z.pow_0_r, Z.mul_1_l, Z.add_0_l in Ho. done.
Qed.

(** ** Ring signatures *)
Definition decodes (k : blob) : Prop := exists p, ge_frombytes_vartime k = Some p.

Lemma decodes_tobytes p : decodes (ge_tobytes p).
Proof. exists p. apply ge_frombytes_tobytes. Qed.

Lemma column_hash_some msg Ip c s col : Forall decodes col -> exists c', column_hash msg Ip c s col = Some c' /\ sc_ok c'.
Proof.
  intros Hc. unfold column_hash.
  assert (is_Some (mapM (ds_row c) (zip (zip s col) Ip))) as [ds ->].
  { apply mapM_is_Some. revert s Ip. induction Hc as [|k col [p Ek] _ IH]; intros [|x s] [|q Ip]; try constructor; [|apply IH].
    unfold compose, ds_row, addKeys2. rewrite Ek. cbn [mbind option_bind]. destruct (hashToPoint_main k) as (h & -> & _). unfold addKeys3. rewrite ge_frombytes_tobytes. cbn [mbind option_bind]. done. }
  assert (is_Some (mapM (plain_row c) (zip (drop (length Ip) s) (drop (length Ip) col)))) as [rest ->].
  { apply mapM_is_Some. apply (Forall_drop _ (length Ip)) in Hc. revert Hc. generalize (drop (length Ip) col), (drop (length Ip) s). intros l l'. intros Hl. revert l'.
    induction Hl as [|k l [p Ek] _ IH]; intros [|x l']; try constructor; [|apply IH]. unfold compose, plain_row, addKeys2. cbn [fst snd]. rewrite Ek. cbn [mbind option_bind]. done. }
  cbn [mbind option_bind]. apply hash_to_scalar_some.
Qed.

Section loop.
Variables (msg : blob) (pk : list (list blob)) (Ip : list point) (rows index : nat).
Hypothesis Hdec : Forall (Forall decodes) pk.
Hypothesis Hindex : (index < length pk)%nat.

(** The challenges from column [i] on, over [k] columns. *)
Fixpoint chain (ss : list (list blob)) (i k : nat) (c : blob) : option blob :=
  match k with
  | O => Some c
  | S k => c ← column_hash msg Ip c (ss !!! i) (pk !!! i); chain ss (S i) k c
  end.

Lemma chain_app ss i k k' c : chain ss i (k + k') c = chain ss i k c ≫= chain ss (i + k) k'.
Proof using Type.
  clear Hindex. revert i c. induction k as [|k IH]; intros i c; cbn [Nat.add chain]; [cbn; by rewrite Nat.add_0_r|]. destruct (column_hash _ _ _ _ _); [|done]. cbn [mbind option_bind].
  rewrite IH. by replace (S i + k)%nat with (i + S k)%nat by lia.
Qed.

Lemma chain_ext ss ss' i k c : (forall j, (i <= j < i + k)%nat -> ss !!! j = ss' !!! j) -> chain ss i k c = chain ss' i k c.
Proof using Type.
  clear Hindex. revert i c. induction k as [|k IH]; intros i c Hj; [done|]. cbn [chain]. rewrite Hj by lia. destruct (column_hash _ _ _ _ _); [|done]. cbn [mbind option_bind]. apply IH. intros j Hj'. apply Hj. lia.
Qed.

Definition row_ok (s : list blob) : Prop := length s = rows /\ Forall sc_ok s.

(** What a run of the loop over the columns [on] has done. *)
Definition ran (on : nat -> Prop) (ss ss' : list (list blob)) : Prop :=
  length ss' = length ss /\ (forall j, on j -> row_ok (ss' !!! j)) /\ (forall j, ~ on j -> ss' !!! j = ss !!! j).

Lemma pk_decodes i : (i < length pk)%nat -> Forall decodes (pk !!! i).
Proof. intros Hi. rewrite Forall_lookup in Hdec. apply (Hdec i). by apply list_lookup_lookup_total_lt. Qed.

(** One turn of the loop. *)
Lemma loop_step fuel i c cc ss Q : (i < length pk)%nat -> i <> index ->
  (forall si c', row_ok si -> sc_ok c' -> column_hash msg Ip c si (pk !!! i) = Some c' ->
    gives (mlsag_loop rnd fuel msg pk Ip rows index ((i + 1) mod length pk) c' (if decide ((i + 1) mod length pk = 0)%nat then c' else cc) (<[i := si]> ss)) Q) ->
  gives (mlsag_loop rnd (S fuel) msg pk Ip rows index i c cc ss) Q.
Proof.
  intros Hi Hne Hk. cbn [mlsag_loop]. rewrite decide_False by done. eapply gives_bind.
  { apply (gives_mapM _ (fun _ => sc_ok)). apply Forall_true. intros ?. apply skGen_gives. }
  intros si Hsi. assert (row_ok si) as Hrow.
  { pose proof (Forall2_length _ _ _ Hsi) as Hl. rewrite length_seq in Hl. split; [done|]. clear -Hsi. induction Hsi; by constructor. }
  destruct (column_hash_some msg Ip c si (pk !!! i)) as (c' & Ec & Hc'); [by apply pk_decodes|]. eapply gives_bind_lift; [exact Ec|]. by apply Hk.
Qed.

(** The column of a turn joins those of the turns after it. *)
Lemma ran_step (on on' : nat -> Prop) (P : Prop) i si ss ss' k c c1 c2 : (i < length ss)%nat -> row_ok si -> ~ on i -> (forall j, on' j <-> j = i \/ on j) -> (forall j, Decision (on j)) ->
  column_hash msg Ip c si (pk !!! i) = Some c1 -> ran on (<[i := si]> ss) ss' -> chain ss' (i + 1) k c1 = Some c2 -> P -> ran on' ss ss' /\ chain ss' i (S k) c = Some c2 /\ P.
Proof.
  intros Hi Hsi Hn Hon' Hdec' Ec (Hl' & Hon & Hoff) Hch HP. assert (ss' !!! i = si) as Ei by (rewrite Hoff by done; by apply list_lookup_total_insert_eq).
  rewrite length_insert in Hl'. split; [split; [done|split]|split; [|done]].
  - intros j [-> | Hj]%Hon'; [by rewrite Ei|by apply Hon].
  - intros j Hj. rewrite Hon' in Hj. rewrite Hoff by tauto. apply list_lookup_total_insert_ne. intros ->. tauto.
  - cbn [chain]. rewrite Ei, Ec. cbn [mbind option_bind]. by rewrite <- Nat.add_1_r.
Qed.

Lemma loop_up fuel i c cc ss : (i <= index)%nat -> (index - i <= fuel)%nat -> length ss = length pk -> sc_ok c ->
  gives (mlsag_loop rnd fuel msg pk Ip rows index i c cc ss) (fun x => let '(ss', c', cc') := x in
    ran (fun j => i <= j < index)%nat ss ss' /\ chain ss' i (index - i) c = Some c' /\ cc' = cc /\ sc_ok c').
Proof.
  revert i c ss. induction fuel as [|fuel IH]; intros i c ss Hi Hf Hl Hc; (destruct (decide (i = index)) as [->|Hne]; [|try lia]).
  1,2: cbn [mlsag_loop]; rewrite decide_True by done; apply gives_ret; (split; [split; [done|split; [lia|done]]|]); rewrite Nat.sub_diag; done.
  apply loop_step; [lia|done|]. intros si c' Hsi Hc' Ec. rewrite Nat.mod_small by lia. rewrite decide_False by lia.
  eapply gives_mono; [apply IH; [lia|lia|by rewrite length_insert|done]|]. intros [[ss' c2] cc'] (Hran & Hch & -> & Hc2).
  replace (index - i)%nat with (S (index - (i + 1))) by lia. eapply ran_step; [lia|exact Hsi|..|exact Ec|exact Hran|exact Hch|done]; [cbn; lia..|apply _].
Qed.

Lemma loop_around fuel i c cc ss : (index < i < length pk)%nat -> (length pk - i + index <= fuel)%nat -> length ss = length pk -> sc_ok c ->
  gives (mlsag_loop rnd fuel msg pk Ip rows index i c cc ss) (fun x => let '(ss', c', cc') := x in
    ran (fun j => i <= j < length pk \/ j < index)%nat ss ss' /\ chain ss' i (length pk - i) c = Some cc' /\ chain ss' 0 index cc' = Some c' /\ sc_ok cc' /\ sc_ok c').
Proof.
  revert i c ss. induction fuel as [|fuel IH]; intros i c ss Hi Hf Hl Hc; [lia|]. apply loop_step; [lia|lia|]. intros si c' Hsi Hc' Ec.
  destruct (decide (i + 1 = length pk)%nat) as [He|He].
  - rewrite He, Nat.Div0.mod_same by lia. rewrite decide_True by done. eapply gives_mono; [apply loop_up; [lia|lia|by rewrite length_insert|done]|].
    intros [[ss' c2] cc'] (Hran & Hch & -> & Hc2). rewrite Nat.sub_0_r in Hch. replace (length pk - i)%nat with 1%nat by lia. 
    eapply (ran_step (fun j => 0 <= j < index)%nat _ _ i si); [lia|exact Hsi|..|exact Ec|exact Hran|done|done]; [cbn; lia..|apply _].
  - rewrite Nat.mod_small by lia. rewrite decide_False by lia. eapply gives_mono; [apply IH; [lia|lia|by rewrite length_insert|done]|].
    intros [[ss' c2] cc'] (Hran & Hch & Hrest). replace (length pk - i)%nat with (S (length pk - (i + 1))) by lia. 
    eapply ran_step; [lia|exact Hsi|..|exact Ec|exact Hran|exact Hch|done]; [cbn; lia..|apply _].
Qed.
End loop.

(** The loop leaves a ring that any response to the last challenge closes. *)
Lemma loop_closes msg pk Ip rows index c0 : (2 <= length pk)%nat -> (index < length pk)%nat -> Forall (Forall decodes) pk -> sc_ok c0 ->
  let i := ((index + 1) mod length pk)%nat in
  gives (mlsag_loop rnd (length pk) msg pk Ip rows index i c0 (if decide (i = 0)%nat then c0 else zero_key) (replicate (length pk) (replicate rows zero_key)))
    (fun x => let '(ss, c, cc) := x in sc_ok c /\ sc_ok cc /\ length ss = length pk /\ (forall j, (j < length pk)%nat -> j <> index -> row_ok rows (ss !!! j)) /\
      forall si, column_hash msg Ip c si (pk !!! index) = Some c0 -> chain msg pk Ip (<[index := si]> ss) 0 (length pk) cc = Some cc).
Proof.
  intros H2' Hi Hdec Hc0 i.
  assert (forall ss si c cc, length ss = length pk -> chain msg pk Ip ss 0 index cc = Some c -> column_hash msg Ip c si (pk !!! index) = Some c0 ->
    chain msg pk Ip ss (index + 1) (length pk - (index + 1)) c0 = Some cc -> chain msg pk Ip (<[index := si]> ss) 0 (length pk) cc = Some cc) as Hclose.
  { intros ss si c cc Hl Hlow Hcol Hup. replace (length pk) with (index + (1 + (length pk - (index + 1))))%nat by lia. rewrite !chain_app.
    rewrite (chain_ext msg pk Ip _ ss 0) by (intros; apply list_lookup_total_insert_ne; lia). rewrite Hlow. cbn [mbind option_bind Nat.add chain].
    rewrite list_lookup_total_insert_eq by lia. rewrite Hcol. cbn [mbind option_bind].
    rewrite (chain_ext msg pk Ip _ ss) by (intros; apply list_lookup_total_insert_ne; lia). by rewrite <- Nat.add_1_r. }
  destruct (decide (index + 1 = length pk)%nat) as [He|He]; subst i.
  - rewrite He, Nat.Div0.mod_same, decide_True by done. eapply gives_mono; [apply loop_up; [done|done|lia|lia|by rewrite length_replicate|done]|].
    intros [[ss c] cc] ((Hl & Hon & Hoff) & Hch & -> & Hc). rewrite length_replicate in Hl. rewrite Nat.sub_0_r in Hch. split; [done|]. split; [done|]. split; [done|].
    split; [intros j Hj Hn; apply Hon; lia|]. intros si Hsi. apply (Hclose ss si c); [done..|]. by rewrite <- He, Nat.sub_diag.
  - rewrite Nat.mod_small, decide_False by lia. eapply gives_mono; [apply loop_around; [done|lia|lia|lia|by rewrite length_replicate|done]|].
    intros [[ss c] cc] ((Hl & Hon & Hoff) & Hup & Hlow & Hcc & Hc). rewrite length_replicate in Hl. split; [done|]. split; [done|]. split; [done|].
    split; [intros j Hj Hn; apply Hon; lia|]. intros si Hsi. by apply (Hclose ss si c).
Qed.

(** ** The rows of the signer *)

(** The public key, the secret, and the nonce of a row. *)
Definition key_of (k : blob) (x : Z) : Prop := ge_frombytes_vartime k = Some (ge_smul x ge_base).
Definition opened (c s : blob) (A X : Z) : Prop := sc_ok s /\ le_word s = (A - le_word c * X) mod ell.

Lemma opened_smul c s A X p : opened c s A X -> main p -> ge_add (ge_smul (le_word c) (ge_smul X p)) (ge_smul (le_word s) p) = ge_smul A p.
Proof. intros [_ ->] Hp. rewrite ge_smul_mod by done. rewrite <- ge_smul_mul, <- ge_smul_plus. f_equal. lia. Qed.

Lemma plain_row_opened c s k A X : sc_ok c -> key_of k X -> opened c s A X -> plain_row c (s, k) = Some [k; ge_tobytes (ge_smul A ge_base)].
Proof.
  intros Hc Hk Ho. unfold plain_row. cbn [fst snd]. rewrite (addKeys2_spec s c k _ (proj1 Ho) Hc Hk). cbn [mbind option_bind]. by rewrite (opened_smul c s A X _ Ho ge_order_base).
Qed.

Lemma ds_row_opened c s k A X hp : sc_ok c -> key_of k X -> opened c s A X -> hashToPoint k = ge_tobytes hp -> main hp ->
  ds_row c (s, k, ge_smul X hp) = Some [k; ge_tobytes (ge_smul A ge_base); ge_tobytes (ge_smul A hp)].
Proof.
  intros Hc Hk Ho Eh Hm. unfold ds_row. rewrite (addKeys2_spec s c k _ (proj1 Ho) Hc Hk). cbn [mbind option_bind]. rewrite (opened_smul c s A X _ Ho ge_order_base), Eh.
  rewrite (addKeys3_spec s _ c hp _ (proj1 Ho) Hc) by apply ge_frombytes_tobytes. cbn [mbind option_bind]. by rewrite ge_add_comm, (opened_smul c s A X _ Ho Hm).
Qed.

Lemma mulsub_opened c x a : sc_ok c -> sc_ok x -> sc_ok a -> exists s, sc_mulsub c x a = Some s /\ opened c s (le_word a) (le_word x).
Proof.
  intros Hc Hx Ha. eexists. split; [apply sc_mulsub_correct; [apply Hc|apply Hx|apply Ha]|]. split; [apply scalar_sc_ok|]. apply le_word_scalar.
Qed.

Lemma skpkGen_gives : gives (skpkGen rnd) (fun x => sc_ok x.1 /\ x.2 = ge_tobytes (ge_smul (le_word x.1) ge_base)).
Proof.
  unfold skpkGen. eapply gives_bind; [apply skGen_gives|]. intros a Ha. eapply gives_bind_lift; [apply scalarmultBase_spec, Ha|]. by apply gives_ret.
Qed.

Definition row_signed (k : blob) (y : blob * list blob) : Prop := sc_ok y.1 /\ y.2 = [k; ge_tobytes (ge_smul (le_word y.1) ge_base)].
Lemma sign_row_gives k : gives (sign_row rnd k) (row_signed k).
Proof. unfold sign_row. eapply gives_bind; [apply skpkGen_gives|]. intros x [Hx Ex]. apply gives_ret. split; cbn [fst snd]; [done|]. by rewrite Ex. Qed.

Definition ds_signed (kx : blob * blob) (y : blob * list blob * blob) : Prop :=
  let '(a, keys, ki) := y in sc_ok a /\ exists hp, hashToPoint kx.1 = ge_tobytes hp /\ main hp /\ ki = ge_tobytes (ge_smul (le_word kx.2) hp) /\
    keys = [kx.1; ge_tobytes (ge_smul (le_word a) ge_base); ge_tobytes (ge_smul (le_word a) hp)].

Lemma scalarmultKey_spec p a : sc_ok a -> scalarmultKey (ge_tobytes p) a = Some (ge_tobytes (ge_smul (le_word a) p)).
Proof.
  intros [Ha Hl]. unfold scalarmultKey. rewrite ge_frombytes_tobytes. cbn [mbind option_bind]. rewrite ge_scalarmult_spec; [done|done|].
  assert (ell < 2 ^ 255) by by_decide. lia.
Qed.

Lemma sign_ds_row_gives k x : sc_ok x -> gives (sign_ds_row rnd None (k, x)) (ds_signed (k, x)).
Proof.
  intros Hx. destruct (hashToPoint_main k) as (hp & Eh & Hm). unfold sign_ds_row, mlsag_prepare. rewrite Eh. eapply gives_bind.
  - eapply gives_bind; [apply skpkGen_gives|]. intros a [Ha Ea]. eapply gives_bind_lift; [by apply scalarmultKey_spec|]. eapply gives_bind_lift; [by apply scalarmultKey_spec|].
    apply (gives_ret _ (fun y => sc_ok y.1.1.1 /\ y = (y.1.1.1, ge_tobytes (ge_smul (le_word y.1.1.1) ge_base), ge_tobytes (ge_smul (le_word y.1.1.1) hp), ge_tobytes (ge_smul (le_word x) hp)))).
    cbn [fst snd]. by rewrite Ea.
  - intros [[[a aG] aHP] ki] [Ha [= -> -> ->]]. cbn [fst snd] in *. apply gives_ret. split; [done|]. by exists hp.
Qed.

Lemma ds_part col xx ds : Forall2 (fun k x => key_of k (le_word x) /\ sc_ok x) col xx -> Forall2 ds_signed (zip col xx) ds ->
  exists Ip, mapM precomp (snd <$> ds) = Some Ip /\ length Ip = length col /\ forall c, sc_ok c -> exists s, mlsag_sign c xx ((fun y => y.1.1) <$> ds) = Some s /\
    Forall sc_ok s /\ length s = length col /\ mapM (ds_row c) (zip (zip s col) Ip) = Some ((fun y => y.1.2) <$> ds).
Proof.
  intros Hk. revert ds. induction Hk as [|k x col xx [Hk Hx] _ IH]; intros ds Hds.
  - inversion Hds; subst. exists []. split; [done|]. split; [done|]. intros c Hc. by exists [].
  - cbn [zip_with] in Hds. inversion Hds as [|? [[a keys] ki] ? ds' (Ha & hp & Eh & Hm & -> & ->) Hds']; subst. cbn [fst snd] in *. destruct (IH _ Hds') as (Ip & EI & Hl & Hs).
    exists (ge_smul (le_word x) hp :: Ip). split; [|split; [cbn; by rewrite Hl|]].
    + apply mapM_Some. constructor; [apply ge_frombytes_tobytes|by apply mapM_Some].
    + intros c Hc. destruct (Hs c Hc) as (s & Es & Hso & Hsl & Em). destruct (mulsub_opened c x a Hc Hx Ha) as (s1 & E1 & Ho). exists (s1 :: s).
      split; [apply mapM_Some; constructor; [done|by apply mapM_Some]|].
      split; [constructor; [apply Ho|done]|]. split; [cbn; by rewrite Hsl|]. apply mapM_Some. constructor; [by apply ds_row_opened|by apply mapM_Some].
Qed.

Lemma rest_part c col xx rest : sc_ok c -> Forall2 (fun k x => key_of k (le_word x) /\ sc_ok x) col xx -> Forall2 row_signed col rest ->
  exists s, mlsag_sign c xx (fst <$> rest) = Some s /\ Forall sc_ok s /\ length s = length col /\ mapM (plain_row c) (zip s col) = Some (snd <$> rest).
Proof.
  intros Hc Hk. revert rest. induction Hk as [|k x col xx [Hk Hx] _ IH]; intros rest Hr.
  - inversion Hr; subst. by exists [].
  - inversion Hr as [|? [a keys] ? rest' [Ha Ek] Hr']; subst. cbn [fst snd] in *. subst keys. destruct (IH _ Hr') as (s & Es & Hso & Hsl & Em).
    destruct (mulsub_opened c x a Hc Hx Ha) as (s1 & E1 & Ho). exists (s1 :: s). split; [apply mapM_Some; constructor; [done|by apply mapM_Some]|]. split; [constructor; [apply Ho|done]|]. split; [cbn; by rewrite Hsl|].
    apply mapM_Some. constructor; [by eapply plain_row_opened|by apply mapM_Some].
Qed.

Lemma mapM_app_some {A B} (f : A -> option B) l k a b : mapM f l = Some a -> mapM f k = Some b -> mapM f (l ++ k) = Some (a ++ b).
Proof. rewrite !mapM_Some. apply Forall2_app. Qed.

(** ** Verification follows the challenges *)
Definition no_identity (dsRows : nat) (pk : list (list blob)) : Prop := Forall (fun col => Forall (fun k => hashToPoint k <> identity_key) (take dsRows col)) pk.

Lemma ver_loop_chain msg pk Ip ss k : no_identity (length Ip) pk -> length ss = length pk -> forall i c, (i + k = length pk)%nat ->
  mlsag_ver_loop msg Ip (zip (drop i ss) (drop i pk)) c = chain msg pk Ip ss i k c.
Proof.
  intros Hn Hl. induction k as [|k IH]; intros i c Hi.
  - by rewrite (drop_ge pk), (drop_ge ss) by lia.
  - destruct (lookup_lt_is_Some_2 pk i) as [col Ec]; [lia|]. destruct (lookup_lt_is_Some_2 ss i) as [s Es]; [lia|]. rewrite (drop_S _ _ _ Ec), (drop_S _ _ _ Es).
    cbn [zip_with mlsag_ver_loop chain]. assert (existsb (fun k => bool_decide (hashToPoint k = identity_key)) (take (length Ip) col) = false) as ->.
    { apply not_true_is_false. intros (x & Hx & He)%existsb_exists. apply bool_decide_eq_true_1 in He. unfold no_identity in Hn. rewrite Forall_lookup in Hn. specialize (Hn _ _ Ec). rewrite Forall_forall in Hn.
      apply (Hn x); [by apply list_elem_of_In|done]. }
    rewrite (list_lookup_total_correct _ _ _ Ec), (list_lookup_total_correct _ _ _ Es). destruct (column_hash _ _ _ _ _); [|done]. cbn [mbind option_bind]. apply IH. lia.
Qed.

Lemma sc_check_ok s : sc_ok s -> (sc_check s =? 0) = true.
Proof. intros [Hs Hl]. rewrite sc_check_correct by done. by rewrite (proj2 (Z.ltb_lt _ _)). Qed.

Definition matrix_ok (pk : list (list blob)) (rows : nat) : Prop := (2 <= length pk)%nat /\ (1 <= rows)%nat /\ Forall (fun col => length col = rows) pk.

Lemma rectangular_ok pk rows : Forall (fun col => length col = rows) pk -> rectangular pk rows = true.
Proof. intros Hp. apply forallb_forall. intros col Hc. apply bool_decide_eq_true_2. rewrite Forall_forall in Hp. apply Hp. by apply list_elem_of_In. Qed.

Lemma MLSAG_Ver_chain msg pk rows mg II Ip : matrix_ok pk rows -> no_identity (length II) pk -> (length II <= rows)%nat -> mapM precomp II = Some Ip ->
  length (ss mg) = length pk -> Forall (row_ok rows) (ss mg) -> sc_ok (cc mg) -> chain msg pk Ip (ss mg) 0 (length pk) (cc mg) = Some (cc mg) ->
  MLSAG_Ver msg pk mg II (length II) = true.
Proof.
  intros (H2' & H1 & Hrect) Hn HI EI Hl Hrow Hcc Hch. unfold MLSAG_Ver. assert (length (pk !!! 0%nat) = rows) as ->.
  { rewrite Forall_lookup in Hrect. apply (Hrect 0%nat). apply list_lookup_lookup_total_lt. lia. }
  assert (length Ip = length II) as HlI by (symmetry; apply mapM_Some in EI; by eapply Forall2_length). rewrite EI. cbn [mbind option_bind]. rewrite <- HlI in Hn.
  pose proof (ver_loop_chain msg pk Ip (ss mg) (length pk) Hn Hl 0 (cc mg) eq_refl) as E. rewrite !drop_0 in E. rewrite E, Hch. cbn [mbind option_bind].
  rewrite sc_sub_correct, Z.sub_diag by apply Hcc. rewrite sc_isnonzero_correct by apply scalar_ok. rewrite le_word_scalar. cbn [Z.modulo].
  rewrite !bool_decide_eq_true_2 by lia. rewrite rectangular_ok by done. rewrite rectangular_ok by (eapply Forall_impl; [exact Hrow|by intros ? []]).
  rewrite sc_check_ok by done. cbn [andb]. rewrite andb_true_iff; split; [|done]. rewrite andb_true_iff; split; [|done].
  apply forallb_forall. intros r Hr. apply forallb_forall. intros s Hs. apply sc_check_ok. rewrite Forall_forall in Hrow. destruct (Hrow r) as [_ Hf]; [by apply list_elem_of_In|].
  rewrite Forall_forall in Hf. apply Hf. by apply list_elem_of_In.
Qed.

(** ** Making a ring signature *)

(** The key image of a row. *)
Definition key_image_of (k : blob) (x : Z) (ki : blob) : Prop := exists hp, hashToPoint k = ge_tobytes hp /\ ki = ge_tobytes (ge_smul x hp).

Lemma row_total {A} `{Inhabited A} (P : A -> Prop) l i : Forall P l -> (i < length l)%nat -> P (l !!! i).
Proof. intros Hl Hi. rewrite Forall_lookup in Hl. apply (Hl i). by apply list_lookup_lookup_total_lt. Qed.

Lemma rows_ok_insert rows ss index si : (forall j, (j < length ss)%nat -> j <> index -> row_ok rows (ss !!! j)) -> row_ok rows si -> Forall (row_ok rows) (<[index := si]> ss).
Proof.
  intros Hss Hsi. apply Forall_lookup. intros j r Hr. destruct (decide (j = index)) as [->|Hne].
  - apply list_lookup_insert_Some in Hr. destruct Hr as [(_ & -> & _)|[Hn _]]; done.
  - rewrite list_lookup_insert_ne in Hr by done. pose proof (lookup_lt_Some _ _ _ Hr). rewrite <- (list_lookup_total_correct _ _ _ Hr). by apply Hss.
Qed.

(** The response of the signer gives the first challenge back. *)
Lemma column_closes msg col xx ds dsRows : (dsRows <= length col)%nat -> Forall2 (fun k x => key_of k (le_word x) /\ sc_ok x) col xx ->
  Forall2 ds_signed (zip (take dsRows col) (take dsRows xx)) ds ->
  exists Ip, mapM precomp (snd <$> ds) = Some Ip /\ length Ip = dsRows /\ forall rest c, Forall2 row_signed (drop dsRows col) rest -> sc_ok c -> exists si,
    mlsag_sign c xx (((fun y => y.1.1) <$> ds) ++ (fst <$> rest)) = Some si /\ row_ok (length col) si /\
    column_hash msg Ip c si col = hash_to_scalar (msg :: concat ((fun y => y.1.2) <$> ds) ++ concat (snd <$> rest)).
Proof.
  intros Hd Hk Hds. pose proof (Forall2_length _ _ _ Hk) as Hlx. assert (length (take dsRows col) = dsRows) as Hlt by (rewrite length_take; lia).
  destruct (ds_part _ _ _ (Forall2_take _ _ _ dsRows Hk) Hds) as (Ip & EI & HlI & Hs). rewrite Hlt in *. exists Ip. split; [done|]. split; [done|]. intros rest c Hrest Hc.
  destruct (Hs c Hc) as (s & Es & Hso & Hsl & Em). destruct (rest_part c _ _ _ Hc (Forall2_drop _ _ _ dsRows Hk) Hrest) as (s' & Es' & Hso' & Hsl' & Em'). exists (s ++ s').
  assert (length ds = length (take dsRows xx)) as Hlds by (apply Forall2_length in Hds; rewrite length_zip_with in Hds; rewrite !length_take in *; lia).
  split; [|split; [split; [rewrite length_app, Hsl, Hsl', length_drop; lia|by apply Forall_app]|]].
  - unfold mlsag_sign in *. rewrite <- (take_drop dsRows xx), zip_with_app by by rewrite length_fmap. by apply mapM_app_some.
  - unfold column_hash. rewrite HlI, drop_app_length' by done. rewrite Em'. rewrite <- (take_drop dsRows col) at 1. rewrite zip_with_app by lia.
    rewrite <- (app_nil_r Ip), zip_with_app by (rewrite length_zip_with, Hlt; lia). rewrite zip_with_nil_r, app_nil_r, Em. done.
Qed.

Lemma MLSAG_Gen_gives msg pk xx index dsRows rows : matrix_ok pk rows -> (index < length pk)%nat -> Forall (Forall decodes) pk -> no_identity dsRows pk -> (dsRows <= rows)%nat ->
  Forall2 (fun k x => key_of k (le_word x) /\ sc_ok x) (pk !!! index) xx ->
  gives (MLSAG_Gen rnd msg pk xx None index dsRows) (fun x => let '(mg, II, c) := x in MLSAG_Ver msg pk mg II dsRows = true /\
    Forall2 (fun kx => key_image_of kx.1 (le_word kx.2)) (zip (take dsRows (pk !!! index)) (take dsRows xx)) II).
Proof.
  intros Hm Hi Hdec Hn Hd Hk. pose proof Hm as (Hcols & Hrows & Hrect). assert (length (pk !!! index) = rows) as Hcol by by apply (row_total _ _ _ Hrect).
  assert (length (pk !!! 0%nat) = rows) as Hcol0 by (apply (row_total _ _ _ Hrect); lia). pose proof (Forall2_length _ _ _ Hk) as Hlx. rewrite Hcol in Hlx.
  unfold MLSAG_Gen. rewrite Hcol0, !bool_decide_eq_true_2 by lia. rewrite rectangular_ok by done. cbn [andb negb].
  eapply gives_bind.
  { apply (gives_mapM _ ds_signed). apply Forall_forall. intros [k x] Hkx. apply sign_ds_row_gives. apply list_elem_of_lookup in Hkx as (j & Hj).
    apply lookup_zip_with_Some in Hj as (k' & x' & [= -> ->] & _ & Hx). apply lookup_take_Some in Hx as [Hx _]. destruct (Forall2_lookup_r _ _ _ _ _ Hk Hx) as (? & _ & _ & Hx'). done. }
  intros ds Hds. destruct (column_closes msg (pk !!! index) xx ds dsRows ltac:(lia) Hk Hds) as (Ip & EI & HlI & Hcl). rewrite Hcol in Hcl. eapply gives_bind_lift; [exact EI|].
  eapply gives_bind; [apply (gives_mapM _ row_signed), Forall_true, sign_row_gives|]. intros rest Hrest. eapply gives_bind; [apply hash_gives|]. intros c0 [Ec0 Hc0].
  eapply gives_bind; [by apply loop_closes|]. intros [[ss c] cc] (Hc & Hcc & Hl & Hother & Hclose). destruct (Hcl rest c Hrest Hc) as (si & Esi & Hrow & Ecol).
  eapply gives_bind_lift; [exact Esi|]. apply gives_ret. rewrite Ec0 in Ecol. split.
  - assert (length (snd <$> ds) = dsRows) as HlII by (apply mapM_Some, Forall2_length in EI; lia). rewrite <- HlII.
    apply (MLSAG_Ver_chain msg pk rows _ _ Ip); cbn [Rct.ss Rct.cc]; [done|by rewrite HlII|lia|done|by rewrite length_insert| |done|by apply Hclose].
    apply rows_ok_insert; [by rewrite Hl|done].
  - apply Forall2_fmap_r. eapply Forall2_impl; [exact Hds|]. intros kx [[a keys] ki] (_ & hp & Eh & _ & Ek & _). by exists hp.
Qed.

(** ** Inputs *)

(** A member of a ring, and the one that is spent: its secrets and its amount. *)
Definition member_ok (pub : ctkey) : Prop := decodes pub.1 /\ decodes pub.2 /\ hashToPoint pub.1 <> identity_key.
Definition spendable (pub sk : ctkey) (v : Z) : Prop :=
  key_of pub.1 (le_word sk.1) /\ sc_ok sk.1 /\ exists p, ge_frombytes_vartime pub.2 = Some p /\ opens p sk.2 v.

Lemma opens_sub p q z a v w : opens p z v -> opens q a w -> ge_sub p q = ge_add (ge_smul (le_word z - le_word a) ge_base) (ge_smul (v - w) ge_p3_H).
Proof.
  intros [_ ->] [_ ->]. rewrite ge_sub_opp, ge_opp_dist, <- !ge_smul_opp, ge_add_swap, <- !ge_smul_plus. done.
Qed.

Lemma opens_zero_diff p q z a v : opens p z v -> opens q a v -> exists s, sc_sub z a = Some s /\ sc_ok s /\ ge_sub p q = ge_smul (le_word s) ge_base.
Proof.
  intros Hp Hq. eexists. split; [apply sc_sub_correct; [apply Hp|apply Hq]|]. split; [apply scalar_sc_ok|]. rewrite (opens_sub _ _ _ _ _ _ Hp Hq).
  rewrite Z.sub_diag, ge_smul_0, ge_add_0_r, le_word_scalar. by rewrite ge_smul_mod by apply ge_order_base.
Qed.

Lemma matrix_simple_rows pubs q : Forall member_ok pubs ->
  exists M, matrix_simple pubs (ge_tobytes q) = Some M /\ Forall2 (fun pub col => exists p, ge_frombytes_vartime pub.2 = Some p /\ col = [pub.1; ge_tobytes (ge_sub p q)]) pubs M.
Proof.
  induction 1 as [|pub pubs (_ & [p Ep] & _) _ (M & EM & HM)]; [by exists []|]. exists ([pub.1; ge_tobytes (ge_sub p q)] :: M). split; [|constructor; [by exists p|done]].
  apply mapM_Some. constructor; [|by apply mapM_Some]. unfold subKeys. rewrite ge_frombytes_tobytes, Ep. done.
Qed.

Lemma matrix_simple_ok pubs q M : Forall member_ok pubs -> Forall2 (fun pub col => exists p, ge_frombytes_vartime pub.2 = Some p /\ col = [pub.1; ge_tobytes (ge_sub p q)]) pubs M ->
  length M = length pubs /\ Forall (fun col => length col = 2%nat) M /\ Forall (Forall decodes) M /\ no_identity 1 M.
Proof.
  intros Hp HM. split; [symmetry; by eapply Forall2_length|]. induction HM as [|pub col pubs M (p & Ep & ->) _ IH]; [by repeat constructor|].
  inversion Hp as [|? ? (Hd & _ & Hn) Hp']; subst. destruct (IH Hp') as (? & ? & ?). split; [by constructor|]. split; constructor; [|done|by repeat constructor|done].
  constructor; [done|]. constructor; [apply decodes_tobytes|constructor].
Qed.

Lemma proveRctMGSimple_gives msg pubs sk a q v index pub : (2 <= length pubs)%nat -> Forall member_ok pubs -> pubs !! index = Some pub -> spendable pub sk v -> opens q a v ->
  gives (proveRctMGSimple rnd msg pubs sk a (ge_tobytes q) None index) (fun x => let '(mg, II, _) := x in verRctMGSimple msg mg II pubs (ge_tobytes q) = true /\
    exists ki, II = [ki] /\ key_image_of pub.1 (le_word sk.1) ki).
Proof.
  intros Hl Hm Hi (Hk & Hx & p & Ep & Ho) Hq. unfold proveRctMGSimple, verRctMGSimple. rewrite bool_decide_eq_false_2 by (intros ->; cbn in Hl; lia). cbn [negb andb].
  destruct (opens_zero_diff _ _ _ _ _ Ho Hq) as (s & Es & Hs & Ed). eapply gives_bind_lift; [exact Es|].
  destruct (matrix_simple_rows pubs q Hm) as (M & EM & HM). eapply gives_bind_lift; [exact EM|]. rewrite EM. destruct (matrix_simple_ok pubs q M Hm HM) as (HlM & Hrect & Hdec & Hn).
  destruct (Forall2_lookup_l _ _ _ _ _ HM Hi) as (col & Ecol & p' & Ep' & ->). rewrite Ep in Ep'. injection Ep' as <-. pose proof (lookup_lt_Some _ _ _ Hi). 
  pose proof (list_lookup_total_correct _ _ _ Ecol) as Et.
  eapply gives_mono; [apply (MLSAG_Gen_gives msg M _ index 1 2); [split; [lia|split; [lia|done]]|lia|done|done|lia|]|].
  - rewrite Et. constructor; [done|]. constructor; [|constructor]. split; [|done]. unfold key_of. by rewrite ge_frombytes_tobytes, Ed.
  - intros [[mg II] c] [Hv HI]. split; [done|]. rewrite Et in HI. cbn [take zip_with] in HI. inversion HI as [|? ki ? ? Hki HI']; subst. inversion HI'; subst. by exists ki.
Qed.

(** ** All inputs in one signature *)
Definition sumZ (l : list Z) : Z := foldr Z.add 0 l.

Lemma opens_minus p q a b v w : opens p a v -> opens q b w -> exists m, sc_sub a b = Some m /\ opens (ge_sub p q) m (v - w).
Proof.
  intros Hp Hq. eexists. split; [apply sc_sub_correct; [apply Hp|apply Hq]|]. split; [apply scalar_sc_ok|]. rewrite (opens_sub _ _ _ _ _ _ Hp Hq), le_word_scalar.
  by rewrite ge_smul_mod by apply ge_order_base.
Qed.

(** Sums of commitments, with their masks. *)
Lemma sums_open q m v ks sks vs : opens q m v -> Forall2 (fun k y => exists p, ge_frombytes_vartime k = Some p /\ opens p y.1 y.2) ks (zip sks vs) -> length sks = length vs ->
  exists q' m', sumKeys_loop ks (ge_tobytes q) = Some (ge_tobytes q') /\ sc_sum sc_add m sks = Some m' /\ opens q' m' (v + sumZ vs).
Proof.
  revert q m v ks vs. induction sks as [|sk sks IH]; intros q m v ks [|w vs] Hq Hk Hl; try done; cbn [zip_with] in Hk; inversion Hk as [|k ? ks' ? (p & Ep & Hp) Hk']; subst.
  - exists q, m. cbn [sumKeys_loop sc_sum sumZ foldr]. rewrite Z.add_0_r. done.
  - cbn [fst snd] in Hp. destruct (opens_add _ _ _ _ _ _ Hq Hp) as (m1 & Em & Hm). cbn [sumKeys_loop sc_sum]. unfold addKeys at 1. rewrite Ep, ge_frombytes_tobytes, Em. cbn [mbind option_bind].
    destruct (IH _ _ _ _ vs Hm Hk' ltac:(by injection Hl)) as (q' & m' & E1 & E2 & Ho). exists q', m'. split; [exact E1|]. split; [exact E2|]. cbn [sumZ foldr]. fold (sumZ vs). by rewrite Z.add_assoc.
Qed.

Lemma differences_open q m v ks sks vs : opens q m v -> Forall2 (fun k y => exists p, k = ge_tobytes p /\ opens p y.1 y.2) ks (zip sks vs) -> length sks = length vs ->
  exists q' m', subKeys_all (ge_tobytes q) ks = Some (ge_tobytes q') /\ sc_sum sc_sub m sks = Some m' /\ opens q' m' (v - sumZ vs).
Proof.
  revert q m v ks vs. induction sks as [|sk sks IH]; intros q m v ks [|w vs] Hq Hk Hl; try done; cbn [zip_with] in Hk; inversion Hk as [|k ? ks' ? (p & -> & Hp) Hk']; subst.
  - exists q, m. cbn [subKeys_all sc_sum sumZ foldr]. rewrite Z.sub_0_r. done.
  - cbn [fst snd] in Hp. destruct (opens_minus _ _ _ _ _ _ Hq Hp) as (m1 & Em & Hm). cbn [subKeys_all sc_sum]. rewrite subKeys_spec, Em. cbn [mbind option_bind].
    destruct (IH _ _ _ _ vs Hm Hk' ltac:(by injection Hl)) as (q' & m' & E1 & E2 & Ho). exists q', m'. split; [exact E1|]. split; [exact E2|]. cbn [sumZ foldr]. fold (sumZ vs). by replace (v - (w + sumZ vs)) with (v - w - sumZ vs) by lia.
Qed.

(** The last row exists for any column whose keys are points. *)
Lemma sumKeys_some ks q : Forall decodes ks -> exists q', sumKeys_loop ks (ge_tobytes q) = Some (ge_tobytes q').
Proof.
  intros Hk. revert q. induction Hk as [|k ks [p Ep] _ IH]; intros q; [by exists q|]. cbn [sumKeys_loop]. unfold addKeys at 1. rewrite Ep, ge_frombytes_tobytes. cbn [mbind option_bind]. apply IH.
Qed.
Lemma subKeys_all_some ks q : Forall (fun k => exists p, k = ge_tobytes p) ks -> exists q', subKeys_all (ge_tobytes q) ks = Some (ge_tobytes q').
Proof. intros Hk. revert q. induction Hk as [|k ks [p ->] _ IH]; intros q; [by exists q|]. cbn [subKeys_all]. rewrite subKeys_spec. cbn [mbind option_bind]. apply IH. Qed.

Definition full_row (outs : list blob) (fee : point) (col : list ctkey) (row : list blob) : Prop :=
  exists k q, sumKeys (snd <$> col) = Some k /\ subKeys_all k outs = Some (ge_tobytes q) /\ row = (fst <$> col) ++ [ge_tobytes (ge_sub q fee)].

Lemma matrix_full_rows pubs outs fee : Forall (Forall member_ok) pubs -> Forall (fun k => exists p, k = ge_tobytes p) outs ->
  exists M, matrix_full pubs outs (ge_tobytes fee) = Some M /\ Forall2 (full_row outs fee) pubs M.
Proof.
  intros Hp Ho. induction Hp as [|col pubs Hcol _ (M & EM & HM)]; [by exists []|]. destruct (sumKeys_some (snd <$> col) ge_identity) as (q1 & E1).
  { apply Forall_fmap. eapply Forall_impl; [exact Hcol|]. by intros ? (? & ? & ?). }
  destruct (subKeys_all_some outs q1 Ho) as (q2 & E2). rewrite ge_tobytes_identity in E1. exists (((fst <$> col) ++ [ge_tobytes (ge_sub q2 fee)]) :: M). split.
  - apply mapM_Some. constructor; [|by apply mapM_Some]. unfold sumKeys. rewrite E1. cbn [mbind option_bind]. rewrite E2. cbn [mbind option_bind]. by rewrite subKeys_spec.
  - constructor; [|done]. by exists (ge_tobytes q1), q2.
Qed.

Lemma matrix_full_ok pubs outs fee M n : Forall (Forall member_ok) pubs -> Forall (fun col => length col = n) pubs -> Forall2 (full_row outs fee) pubs M ->
  length M = length pubs /\ Forall (fun col => length col = S n) M /\ Forall (Forall decodes) M /\ no_identity n M.
Proof.
  intros Hp Hn HM. split; [symmetry; by eapply Forall2_length|]. induction HM as [|col row pubs M (k & q & E1 & E2 & ->) _ IH]; [by repeat constructor|].
  inversion Hp as [|? ? Hcol Hp']; subst. inversion Hn as [|? ? Hlen Hn']; subst. destruct (IH Hp' Hn') as (? & ? & ?). split; [|split].
  - constructor; [rewrite length_app, length_fmap; cbn; lia|done].
  - constructor; [|done]. apply Forall_app. split; [|constructor; [apply decodes_tobytes|constructor]]. apply Forall_fmap. eapply Forall_impl; [exact Hcol|]. by intros ? (? & ? & ?).
  - constructor; [|done]. rewrite take_app_length' by (symmetry; apply length_fmap). apply Forall_fmap. eapply Forall_impl; [exact Hcol|]. by intros ? (? & ? & ?).
Qed.

Lemma proveRctMG_gives msg pubs col inSk ins outSk outs vs fee index : (2 <= length pubs)%nat -> Forall (Forall member_ok) pubs -> Forall (fun c => length c = length inSk) pubs ->
  (1 <= length inSk)%nat -> pubs !! index = Some col -> Forall2 (fun pub y => spendable pub y.1 y.2) col (zip inSk ins) -> length inSk = length ins ->
  Forall2 (fun k y => exists p, k = ge_tobytes p /\ opens p y.1 y.2) outs (zip (snd <$> outSk) vs) -> length outSk = length vs -> sumZ ins = sumZ vs + fee ->
  gives (proveRctMG rnd msg pubs inSk outSk outs None index (ge_tobytes (ge_smul fee ge_p3_H))) (fun x => let '(mg, II, _) := x in
    verRctMG mg II pubs outs (ge_tobytes (ge_smul fee ge_p3_H)) msg = true /\ Forall2 (fun y => key_image_of y.1.1 (le_word y.2.1)) (zip col inSk) II).
Proof.
  intros H2' Hm Hn H1 Hi Hsp Hlin Hout Hlout Hbal. unfold proveRctMG, verRctMG. assert (length (pubs !!! 0%nat) = length inSk) as E0 by (apply (row_total _ _ _ Hn); lia).
  assert (rectangle pubs = true) as Erect.
  { destruct pubs as [|c0 pubs]; [cbn in H2'; lia|]. cbn in E0. cbn [rectangle]. rewrite bool_decide_eq_true_2 by lia. apply forallb_forall. intros c Hc. apply bool_decide_eq_true_2.
    rewrite E0. inversion Hn as [|? ? _ Hn']; subst. rewrite Forall_forall in Hn'. apply Hn'. by apply list_elem_of_In. }
  assert (length outSk = length outs) as Elo by (apply Forall2_length in Hout; rewrite length_zip_with, length_fmap in Hout; lia).
  rewrite Erect, E0, !bool_decide_eq_true_2 by done. cbn [andb negb].
  destruct (matrix_full_rows pubs outs (ge_smul fee ge_p3_H) Hm) as (M & EM & HM).
  { clear -Hout. revert Hout. generalize (zip (snd <$> outSk) vs). intros l Hl. induction Hl as [|k y ks l (p & -> & _) _ IH]; constructor; [by exists p|done]. }
  destruct (matrix_full_ok _ _ _ _ _ Hm Hn HM) as (HlM & Hrows & Hdec & Hno). rewrite EM. eapply gives_bind_lift; [done|].
  destruct (Forall2_lookup_l _ _ _ _ _ HM Hi) as (row & Erow & k & q & Ek & Eq & ->). pose proof (list_lookup_total_correct _ _ _ Erow) as Et. pose proof (lookup_lt_Some _ _ _ Hi) as Hil.
  assert (length col = length inSk) as Hlc by (rewrite Forall_lookup in Hn; by eapply Hn).
  destruct (sums_open ge_identity zero_key 0 (snd <$> col) (snd <$> inSk) ins opens_zero) as (q1 & m1 & Eq1 & Em1 & Ho1).
  { rewrite zip_map_l. apply Forall2_fmap. eapply Forall2_impl; [exact Hsp|]. intros pub y (_ & _ & Hy). exact Hy. }
  { by rewrite length_fmap. }
  rewrite ge_tobytes_identity in Eq1. unfold sumKeys in Ek. rewrite Eq1 in Ek. injection Ek as <-. eapply gives_bind_lift; [exact Em1|].
  destruct (differences_open q1 m1 _ outs (snd <$> outSk) vs Ho1 Hout) as (q2 & m2 & Eq2 & Em2 & Ho2); [by rewrite length_fmap|]. rewrite Eq2 in Eq. injection Eq as Eq%ge_tobytes_inj. subst q2.
  eapply gives_bind_lift; [exact Em2|]. eapply gives_mono; [apply (MLSAG_Gen_gives msg M _ index (length inSk) (S (length inSk))); [split; [lia|split; [lia|done]]|lia|done|done|lia|]|].
  - rewrite Et. apply Forall2_app.
    + apply Forall2_fmap. clear -Hsp Hlin Hlc. revert Hsp. revert inSk ins Hlin Hlc. induction col as [|pub col IH]; intros [|sk inSk] [|v ins] Hl Hlc Hsp; try done.
      cbn [zip_with] in Hsp. inversion Hsp as [|? ? ? ? (Hk & Hx & _) Hsp']; subst. constructor; [done|]. apply (IH _ ins); [by injection Hl|by injection Hlc|done].
    + constructor; [|constructor]. split; [|apply Ho2]. unfold key_of. rewrite ge_frombytes_tobytes. f_equal. destruct Ho2 as [_ ->].
      rewrite ge_sub_opp, <- ge_smul_opp, <- ge_add_assoc, <- ge_smul_plus. replace (0 + sumZ ins - sumZ vs + - fee) with 0 by lia. by rewrite ge_smul_0, ge_add_0_r.
  - intros [[mg II] c] [Hv HI]. split; [done|]. rewrite Et, !take_app_length' in HI by (rewrite length_fmap; done). rewrite zip_map_l in HI.
    assert (zip col (fst <$> inSk) = (fun w => (w.1, w.2.1)) <$> zip col inSk) as Ez.
    { clear. revert inSk. induction col as [|c col IH]; intros [|s inSk]; [done..|]. cbn [fmap list_fmap zip_with fst snd]. f_equal. apply IH. }
    rewrite Ez in HI. apply (proj1 (Forall2_fmap_l _ _ _ _)) in HI. by apply (proj1 (Forall2_fmap_l _ _ _ _)) in HI.
Qed.

(** ** Sums of commitments *)
Definition commits (k : blob) (y : blob * Z) : Prop := exists p, k = ge_tobytes p /\ opens p y.1 y.2.
Definition total (l : list (blob * Z)) : point := ge_add (ge_smul (sumZ ((fun y => le_word y.1) <$> l)) ge_base) (ge_smul (sumZ (snd <$> l)) ge_p3_H).

Lemma total_cons y l p : opens p y.1 y.2 -> total (y :: l) = ge_add p (total l).
Proof. intros [_ ->]. unfold total. cbn [fmap list_fmap sumZ foldr]. rewrite !ge_smul_plus. apply ge_add_swap. Qed.
Lemma total_nil : total [] = ge_identity.
Proof. unfold total. cbn. by rewrite !ge_smul_0, ge_add_0_l. Qed.

Lemma addKeys_loop_total q ks l : Forall2 commits ks l -> addKeys_loop ks q = Some (ge_add q (total l)).
Proof.
  intros Hk. revert q. induction Hk as [|k y ks l (p & -> & Hp) _ IH]; intros q; [by rewrite total_nil, ge_add_0_r|]. cbn [addKeys_loop]. rewrite ge_frombytes_tobytes. cbn [mbind option_bind].
  by rewrite IH, (total_cons _ _ _ Hp), ge_add_assoc.
Qed.
Lemma addKeys_all_total ks l : Forall2 commits ks l -> addKeys_all ks = Some (ge_tobytes (total l)).
Proof.
  intros [|k y ks' l' (p & -> & Hp) Hk]; [cbn [addKeys_all]; by rewrite total_nil, ge_tobytes_identity|]. cbn [addKeys_all]. rewrite ge_frombytes_tobytes. cbn [mbind option_bind].
  rewrite (addKeys_loop_total _ _ _ Hk). cbn [mbind option_bind]. by rewrite (total_cons _ _ _ Hp).
Qed.

Lemma commits_ok ks l : Forall2 commits ks l -> Forall (pod_ok 32) ks.
Proof. induction 1 as [|k y ks l (p & -> & _) _ IH]; constructor; [apply ge_tobytes_ok|done]. Qed.

Lemma genC_spec a v : sc_ok a -> is_u64 v -> exists C, genC a v = Some C /\ commits C (a, v).
Proof.
  intros Ha Hv. destruct (d2h_spec v Hv) as [[Hp Hl] Hw]. unfold genC, addKeys1. rewrite scalarmultBase_spec by apply Ha. cbn [mbind option_bind].
  rewrite scalarmultH_spec; [|done|assert (ell < 2 ^ 255) by by_decide; lia]. rewrite addKeys_spec, Hw. eexists. split; [done|]. eexists. split; [done|]. by split.
Qed.

Lemma sum_masks acc l : sc_ok acc -> Forall sc_ok l ->
  exists s, sc_sum (fun acc x => sc_add x acc) acc l = Some s /\ sc_ok s /\ le_word s = (le_word acc + sumZ (le_word <$> l)) mod ell.
Proof.
  intros Ha Hl. revert acc Ha. induction Hl as [|x l Hx _ IH]; intros acc Ha.
  - exists acc. split; [done|]. split; [done|]. cbn. rewrite Z.add_0_r, Z.mod_small by by apply sc_ok_nonneg. done.
  - cbn [sc_sum]. rewrite sc_add_correct by (apply Hx || apply Ha). cbn [mbind option_bind]. destruct (IH (scalar (le_word x + le_word acc)) (scalar_sc_ok _)) as (s & E & Hs & Ew).
    exists s. split; [done|]. split; [done|]. rewrite Ew, le_word_scalar, Zplus_mod_idemp_l. cbn [fmap list_fmap sumZ foldr]. f_equal. unfold sumZ. lia.
Qed.

Lemma pseudo_outs_gives amounts sumout sumpouts : amounts <> [] -> Forall (fun v => is_u64 v) amounts -> sc_ok sumout -> sc_ok sumpouts ->
  gives (pseudo_outs rnd amounts sumout sumpouts) (fun ps => Forall2 (fun y v => commits y.2 (y.1, v)) ps amounts /\
    sumZ ((fun y => le_word y.1) <$> ps) mod ell = (le_word sumout - le_word sumpouts) mod ell).
Proof.
  intros Hne Ha Hs. revert sumpouts. induction Ha as [|v amounts Hv Ha IH]; intros sumpouts Hp; [done|]. destruct amounts as [|v' amounts].
  - cbn [pseudo_outs]. eapply gives_bind_lift; [apply sc_sub_correct; [apply Hs|apply Hp]|]. destruct (genC_spec (scalar (le_word sumout - le_word sumpouts)) v (scalar_sc_ok _) Hv) as (C & EC & HC).
    eapply gives_bind_lift; [exact EC|]. apply gives_ret. split; [by repeat constructor|]. cbn [fmap list_fmap sumZ foldr fst]. by rewrite Z.add_0_r, le_word_scalar, Zmod_mod.
  - eapply gives_bind; [apply skGen_gives|]. intros a Ha'. eapply gives_bind_lift; [apply sc_add_correct; [apply Ha'|apply Hp]|]. destruct (genC_spec a v Ha' Hv) as (C & EC & HC).
    eapply gives_bind_lift; [exact EC|]. eapply gives_bind; [apply IH; [done|apply scalar_sc_ok]|]. intros ps [Hps Hsum]. apply gives_ret. split; [by constructor|].
    cbn [fmap list_fmap sumZ foldr fst]. fold (sumZ ((fun y => le_word y.1) <$> ps)). rewrite Z.add_comm, <- Zplus_mod_idemp_l. unfold sumZ, fmap in Hsum |- *. rewrite Hsum, le_word_scalar.
    rewrite Zminus_mod_idemp_r, Zplus_mod_idemp_l. f_equal. lia.
Qed.

(** ** Outputs *)
Definition readable (x : blob * Z * blob) (e : ecdhTuple) : Prop :=
  ecdhTuple_ok e /\ ecdhDecode (Rct.mask e) (Rct.amount e) x.2 = Some (x.1.1, d2h x.1.2).

Lemma encode_outputs l : Forall (fun x : blob * Z * blob => sc_ok x.1.1 /\ is_u64 x.1.2) l -> exists ecdh, mapM encode_output l = Some ecdh /\ Forall2 readable l ecdh.
Proof.
  induction 1 as [|[[m v] k] l [Hm Hv] _ (ecdh & E & He)]; [by exists []|]. cbn [fst snd] in *. destruct (ecdh_roundtrip m (d2h v) k Hm (proj1 (d2h_spec v Hv))) as (a & b & E1 & [Ha _] & [Hb _] & E2).
  exists (EcdhTuple a b :: ecdh). split; [|constructor; [by split|done]]. apply mapM_Some. constructor; [|by apply mapM_Some]. unfold encode_output. by rewrite E1.
Qed.

(** The receiver of an output reads its amount and its mask. *)
Lemma decode_reads sg i m v k C e : ecdhInfo sg !! i = Some e -> outPk sg !! i = Some C -> length (outPk sg) = length (ecdhInfo sg) -> readable (m, v, k) e -> commits C (m, v) -> is_u64 v ->
  decode sg k i = Some (v, m).
Proof.
  intros Ee EC Hl [_ Hd] (p & -> & Hm & Ep) Hv. cbn [fst snd] in *. unfold decode. rewrite Ee. cbn [mbind option_bind]. rewrite bool_decide_eq_true_2 by done. rewrite EC, Hd. cbn [negb mbind option_bind fst snd].
  destruct (d2h_spec v Hv) as [Hs Hw]. rewrite !sc_check_ok by done. cbn [andb negb]. rewrite (addKeys2_spec m (d2h v) key_H ge_p3_H Hm Hs key_H_spec). cbn [mbind option_bind].
  unfold equalKeys. rewrite Hw, h2d_d2h by done. rewrite bool_decide_eq_true_2; [done|]. by rewrite Ep, ge_add_comm.
Qed.

Lemma prove_output_list amounts : Forall (fun v => is_u64 v) amounts ->
  gives (gmapM (prove_output rnd) amounts) (fun outs => forallb (fun x => verRange x.1 x.2) (zip ((fun o => o.1.2) <$> outs) ((fun o => o.1.1) <$> outs)) = true /\
    Forall rangeSig_ok ((fun o => o.1.1) <$> outs) /\ Forall2 commits ((fun o => o.1.2) <$> outs) (zip (snd <$> outs) amounts) /\ length outs = length amounts).
Proof.
  intros Ha. eapply gives_mono.
  { apply (gives_mapM _ (fun v x => let '(rs, C, mask) := x in verRange C rs = true /\ rangeSig_ok rs /\ exists p, C = ge_tobytes p /\ opens p mask v)).
    eapply Forall_impl; [exact Ha|]. intros v Hv. by apply proveRange_gives. }
  intros outs Ho. induction Ho as [|v [[rs C] m] amounts outs (Hv & Hr & Hc) _ IH]; [by repeat constructor|]. inversion Ha; subst. destruct IH as (I1 & I2 & I3 & I4); [done|].
  cbn [fmap list_fmap zip_with forallb fst snd length]. rewrite Hv. cbn [andb]. split; [exact I1|]. split; [by constructor|]. split; [by constructor|by rewrite I4].
Qed.

(** The signature of outputs balances the pseudo outputs. *)
Lemma sum_check_balanced sg li lo : Forall2 commits (pseudo_of sg) li -> Forall2 commits (outPk sg) lo -> is_u64 (txnFee sg) ->
  sumZ ((fun y => le_word y.1) <$> li) mod ell = sumZ ((fun y => le_word y.1) <$> lo) mod ell -> sumZ (snd <$> li) = sumZ (snd <$> lo) + txnFee sg -> sum_check sg = Some true.
Proof.
  intros Hi Ho Hf Hm Hv. unfold sum_check. rewrite (addKeys_all_total _ _ Ho). cbn [mbind option_bind]. destruct (d2h_spec _ Hf) as [[Hp Hl] Hw].
  rewrite scalarmultH_spec; [|done|assert (ell < 2 ^ 255) by by_decide; lia]. rewrite addKeys_spec. cbn [mbind option_bind]. rewrite (addKeys_all_total _ _ Hi). cbn [mbind option_bind].
  f_equal. apply bool_decide_eq_true_2. f_equal. unfold total. rewrite Hw, Hv, ge_smul_plus, ge_add_assoc. do 2 f_equal.
  rewrite <- (ge_smul_mod (sumZ ((fun y => le_word y.1) <$> li))) by apply ge_order_base. rewrite Hm. apply ge_smul_mod, ge_order_base.
Qed.

Lemma pre_mlsag_hash_some rv : is_u8 (rct_type (f_sig rv)) -> mixRing rv <> [] ->
  rctsig_base_ok (rct_type (f_sig rv)) (if is_rct_simple (rct_type (f_sig rv)) then length (mixRing rv) else length (mixRing rv !!! 0%nat)) (length (ecdhInfo (f_sig rv)))
    (txnFee (f_sig rv), (pseudoOuts (f_sig rv), (ecdhInfo (f_sig rv), outPk (f_sig rv)))) ->
  exists h, get_pre_mlsag_hash rv = Some h.
Proof.
  intros Ht Hne Hok. unfold get_pre_mlsag_hash. destruct (mixRing rv) as [|col rings] eqn:Er; [done|]. rewrite (codec_store_true (c := rctSigBase_codec _ _)); [cbn [negb]; by eexists|].
  split; [done|]. exact Hok.
Qed.

(** The receivers of the outputs read their amounts and masks with [dec]. *)
Definition all_read (dec : blob -> nat -> option (Z * blob)) (amounts : list Z) (amount_keys : list blob) (outSk : list ctkey) : Prop :=
  forall i v k, amounts !! i = Some v -> amount_keys !! i = Some k -> exists m, outSk !! i = Some (zero_key, m) /\ dec k i = Some (v, m).

Lemma outputs_read sg amounts amount_keys masks : length (outPk sg) = length (ecdhInfo sg) -> length masks = length amounts -> length amount_keys = length amounts ->
  Forall (fun v => is_u64 v) amounts -> Forall2 commits (outPk sg) (zip masks amounts) -> Forall2 readable (zip (zip masks amounts) amount_keys) (ecdhInfo sg) ->
  all_read (decode sg) amounts amount_keys ((fun m => (zero_key, m)) <$> masks).
Proof.
  intros Hl Hm Hk Ha Hc He i v k Hv Hki. destruct (lookup_lt_is_Some_2 masks i) as [m Em]; [rewrite Hm; by eapply lookup_lt_Some|]. exists m. rewrite list_lookup_fmap, Em. split; [done|].
  assert (zip masks amounts !! i = Some (m, v)) as E1 by (apply lookup_zip_with_Some; by exists m, v).
  assert (zip (zip masks amounts) amount_keys !! i = Some (m, v, k)) as E2 by (apply lookup_zip_with_Some; by exists (m, v), k).
  destruct (Forall2_lookup_r _ _ _ _ _ Hc E1) as (C & EC & HC). destruct (Forall2_lookup_l _ _ _ _ _ He E2) as (e & Ee & Hr).
  eapply decode_reads; [exact Ee|exact EC|done|exact Hr|exact HC|]. rewrite Forall_lookup in Ha. by eapply Ha.
Qed.

Lemma commits_masks ks masks vs : Forall2 commits ks (zip masks vs) -> length masks = length vs -> Forall sc_ok masks /\ length ks = length masks.
Proof.
  intros Hc Hl. split; [|apply Forall2_length in Hc; rewrite length_zip_with in Hc; lia]. revert vs ks Hc Hl. induction masks as [|m masks IH]; intros [|v vs] ks Hc Hl; try done.
  cbn [zip_with] in Hc. inversion Hc as [|? ? ? ? (p & _ & Hm & _) Hc']; subst. constructor; [done|]. eapply IH; [done|]. by injection Hl.
Qed.

Lemma readable_inputs masks vs keys : Forall sc_ok masks -> Forall (fun v => is_u64 v) vs -> Forall (fun x : blob * Z * blob => sc_ok x.1.1 /\ is_u64 x.1.2) (zip (zip masks vs) keys).
Proof.
  intros Hm Hv. apply Forall_lookup. intros i [[m v] k] (mv & k' & [= <- <-] & Hmv & _)%lookup_zip_with_Some. apply lookup_zip_with_Some in Hmv as (m' & v' & [= -> ->] & Em & Ev).
  rewrite Forall_lookup in Hm. rewrite Forall_lookup in Hv. split; [by eapply Hm|by eapply Hv].
Qed.

Lemma readable_ok l e : Forall2 readable l e -> Forall ecdhTuple_ok e.
Proof. induction 1 as [|? ? ? ? [? _] _ IH]; by constructor. Qed.

Definition fee_of (n : nat) (amounts : list Z) : Z := if bool_decide (n < length amounts)%nat then amounts !!! n else 0.

(** a full signature that is made for inputs the signer owns, of any ring of
    two columns or more, with amounts that balance the fee, is accepted, both its
    range proofs and its ring signature; every receiver reads the amount and the
    mask of an output; the key images are those of the keys that are spent. *)
Theorem genRct_complete msg inSk dests amounts ring amount_keys index ins col : let n := length dests in
  length amounts = n \/ length amounts = S n -> length amount_keys = n -> Forall (fun v => is_u64 v) amounts ->
  (2 <= length ring)%nat -> Forall (Forall member_ok) ring -> Forall (fun c => length c = length inSk) ring -> (1 <= length inSk)%nat -> length inSk = length ins ->
  ring !! index = Some col -> Forall2 (fun pub y => spendable pub y.1 y.2) col (zip inSk ins) -> sumZ ins = sumZ (take n amounts) + fee_of n amounts ->
  gives (genRct rnd msg inSk dests amounts ring amount_keys None index) (fun x => let '(rv, outSk, _) := x in
    verRct_semantics (f_sig rv) = true /\ verRct_full rv = true /\ all_read (decodeRct (f_sig rv)) (take n amounts) amount_keys outSk /\
    exists II, f_II rv = [II] /\ Forall2 (fun y => key_image_of y.1.1 (le_word y.2.1)) (zip col inSk) II).
Proof.
  intros n Hla Hlk Hu H2' Hm Hr H1 Hlin Hi Hsp Hbal. unfold genRct. fold n. pose proof (lookup_lt_Some _ _ _ Hi) as Hil.
  assert (bool_decide (length amounts = n) || bool_decide (length amounts = S n) = true) as -> by (destruct Hla as [E|E]; rewrite E; [by rewrite bool_decide_eq_true_2|rewrite (bool_decide_eq_true_2 (S n = S n)) by done; by rewrite orb_true_r]).
  rewrite !bool_decide_eq_true_2 by done. cbn [andb].
  assert (forallb (fun c => bool_decide (length c = length inSk)) ring = true) as -> by (apply forallb_forall; intros c Hc; apply bool_decide_eq_true_2; rewrite Forall_forall in Hr; apply Hr; by apply list_elem_of_In).
  cbn [negb]. set (vs := take n amounts) in *. assert (length vs = n) as Hvs by (unfold vs; rewrite length_take; lia). assert (Forall (fun v => is_u64 v) vs) as Huv by by apply Forall_take.
  eapply gives_bind; [by apply prove_output_list|]. intros outs (Hver & Hrs & Hc & Hlo). rewrite Hvs in Hlo.
  set (fee := if bool_decide _ then _ else 0). assert (is_u64 fee) as Hfee.
  { unfold fee. destruct (bool_decide_reflect (n < length amounts)%nat) as [Hb|_]; [|by_decide]. by apply (row_total _ _ _ Hu). }
  assert (length (snd <$> outs) = length vs) as Hlm by (rewrite length_fmap; lia). destruct (commits_masks _ _ _ Hc Hlm) as [Hmask _].
  destruct (encode_outputs _ (readable_inputs _ _ amount_keys Hmask Huv)) as (ecdh & Eecdh & Hread). eapply gives_bind_lift; [exact Eecdh|].
  assert (length ecdh = n) as Hle by (apply Forall2_length in Hread; rewrite !length_zip_with, length_fmap in Hread; lia).
  destruct (pre_mlsag_hash_some (RctFull (RctSig RCTTypeFull fee [] ecdh ((fun o => o.1.2) <$> outs) (RctSigPrunable ((fun o => o.1.1) <$> outs) [] [] [])) msg ring dests [])) as (pre & Epre).
  { by_decide. } { cbn [mixRing]. intros ->. cbn in H2'. lia. }
  { split; [done|]. split; [done|]. split; [done|]. split; [split; [done|by eapply readable_ok]|]. split; [cbn; rewrite length_fmap; lia|]. by eapply commits_ok. }
  eapply gives_bind_lift; [exact Epre|]. destruct (d2h_spec _ Hfee) as [[Hp Hl] Hw]. rewrite scalarmultH_spec; [|done|assert (ell < 2 ^ 255) by by_decide; lia]. rewrite Hw.
  eapply gives_bind; [apply (proveRctMG_gives pre ring col inSk ins _ _ vs fee index); try done|].
  { rewrite <- list_fmap_compose. unfold compose. cbn [snd]. by rewrite list_fmap_id. } { by rewrite length_fmap. }
  intros [[mg II] c] [Hv HI]. apply gives_ret. cbn [f_sig f_II]. split; [|split; [|split]].
  - unfold verRct_semantics. cbn [rct_type outPk ecdhInfo rct_p rangeSigs MGs]. rewrite !bool_decide_eq_true_2 by (rewrite ?length_fmap; lia). exact Hver.
  - unfold verRct_full. cbn [f_sig rct_type rct_p MGs f_II mixRing outPk txnFee]. unfold get_pre_mlsag_hash in *. cbn [f_sig mixRing message rct_type txnFee pseudoOuts ecdhInfo outPk rct_p bulletproofs rangeSigs] in *.
    unfold rctsig_base in *. cbn [rct_type txnFee pseudoOuts ecdhInfo outPk] in *. rewrite Epre. rewrite scalarmultH_spec, Hw; [exact Hv|done|assert (ell < 2 ^ 255) by by_decide; lia].
  - apply (outputs_read (RctSig RCTTypeFull fee [] ecdh ((fun o => o.1.2) <$> outs) _)); cbn [outPk ecdhInfo]; try done; [rewrite length_fmap|]; lia.
  - by exists II.
Qed.

(** ** Bulletproofs *)

(** An eighth of a commitment. *)
Definition eighth (V : blob) (y : blob * Z) : Prop := exists q, V = ge_tobytes q /\ opens (ge_smul 8 q) y.1 y.2.

(** A proof of 1 to 16 amounts has their commitments, divided by eight, and is
    valid; proofs that are valid are valid together. *)
Class BulletproofsLaws `{Bulletproofs} := {
  bulletproof_complete amounts masks : (1 <= length amounts <= 16)%nat -> Forall (fun v => is_u64 v) amounts -> Forall sc_ok masks -> length masks = length amounts ->
    gives (bulletproof_PROVE amounts masks) (fun p => Forall2 eighth (bp_V p) (zip masks amounts) /\ n_bulletproof_amounts_1 p = zlen amounts /\ bulletproof_VERIFY [p] = Some true);
  bulletproof_batch ps : ps <> [] -> Forall (fun p => bulletproof_VERIFY [p] = Some true) ps -> bulletproof_VERIFY ps = Some true
}.

Section bullets.
Context `{BulletproofsLaws}.

Lemma scalarmult8_eighths V l : Forall2 eighth V l -> exists C, mapM scalarmult8 V = Some C /\ Forall2 commits C l.
Proof.
  induction 1 as [|k y V l (q & -> & Ho) _ (C & E & HC)]; [by exists []|]. exists (ge_tobytes (ge_smul 8 q) :: C). split; [|constructor; [by eexists|done]].
  apply mapM_Some. constructor; [|by apply mapM_Some]. unfold scalarmult8. rewrite ge_frombytes_tobytes. cbn [mbind option_bind]. by rewrite ge_mul8_spec.
Qed.

(** What some proofs show of some amounts. *)
Definition proved (amounts : list Z) (ps : list (Bulletproof * list blob * list blob)) : Prop :=
  Forall2 eighth (concat ((fun p => p.1.2) <$> ps)) (zip (concat (snd <$> ps)) amounts) /\ length (concat (snd <$> ps)) = length amounts /\ Forall sc_ok (concat (snd <$> ps)) /\
  Forall (fun p => bulletproof_VERIFY [p.1.1] = Some true /\ 0 < n_bulletproof_amounts_1 p.1.1) ps /\ sumZ ((fun p => n_bulletproof_amounts_1 p.1.1) <$> ps) = zlen amounts.

Lemma proved_nil : proved [] [].
Proof. by repeat constructor. Qed.

Lemma proved_app a b ps qs : proved a ps -> proved b qs -> proved (a ++ b) (ps ++ qs).
Proof.
  intros (P1 & P2 & P3 & P4 & P5) (Q1 & Q2 & Q3 & Q4 & Q5). unfold proved. rewrite !fmap_app, !concat_app, zip_with_app by done. split; [by apply Forall2_app|]. split; [rewrite !length_app; lia|].
  split; [by apply Forall_app|]. split; [by apply Forall_app|]. unfold sumZ in *. rewrite foldr_app, zlen_app. clear -P5 Q5. rewrite Q5. revert P5. generalize (zlen a).
  induction ((fun p => n_bulletproof_amounts_1 p.1.1) <$> ps) as [|x l IH]; cbn [foldr]; intros z E; [lia|]. rewrite (IH (z - x)); lia.
Qed.

Lemma skvGen_gives n : (0 < n)%nat -> gives (skvGen rnd n) (fun l => Forall sc_ok l /\ length l = n).
Proof.
  intros Hn. unfold skvGen. rewrite bool_decide_eq_true_2 by done. eapply gives_mono; [apply (gives_mapM _ (fun _ => sc_ok)), Forall_true; intros ?; apply skGen_gives|].
  intros l Hl. split; [|apply Forall2_length in Hl; by rewrite length_seq in Hl]. clear -Hl. induction Hl; by constructor.
Qed.

Lemma proveRangeBulletproof_gives amounts : (1 <= length amounts <= 16)%nat -> Forall (fun v => is_u64 v) amounts -> gives (proveRangeBulletproof rnd amounts) (fun p => proved amounts [p]).
Proof.
  intros Hl Ha. unfold proveRangeBulletproof. eapply gives_bind; [apply skvGen_gives; lia|]. intros masks [Hm Hlm]. eapply gives_bind; [by apply bulletproof_complete|].
  intros p (HV & Hn & Hv). pose proof (Forall2_length _ _ _ HV) as HlV. rewrite length_zip_with in HlV. rewrite bool_decide_eq_true_2 by lia. apply gives_ret.
  unfold proved. cbn [fmap list_fmap concat fst snd]. rewrite !app_nil_r. split; [done|]. split; [done|]. split; [done|]. rewrite Hn. split; [|cbn; lia].
  constructor; [|constructor]. split; [done|]. cbn [fst]. rewrite Hn. unfold zlen. lia.
Qed.

Lemma batch_size_bounds fuel size left : (1 <= size <= left)%nat -> (size <= 16)%nat -> (1 <= batch_size fuel size left <= left)%nat /\ (batch_size fuel size left <= 16)%nat.
Proof.
  revert size. induction fuel as [|fuel IH]; intros size Hlo Hhi; cbn [batch_size]; [lia|]. destruct (bool_decide_reflect (size * 2 <= left)%nat); [|cbn [andb]; lia].
  destruct (bool_decide_reflect (size * 2 <= 16)%nat); cbn [andb]; [|lia]. apply IH; lia.
Qed.

(** Five turns of the inner loop are enough. *)
Lemma batch_size_fuel k left : batch_size (5 + k) 1 left = batch_size 5 1 left.
Proof.
  assert (forall s, (16 < s * 2)%nat -> batch_size k s left = s) as Hs.
  { intros s Hs. destruct k; [done|]. cbn [batch_size]. rewrite (bool_decide_eq_false_2 (s * 2 <= 16)%nat) by lia. by rewrite andb_false_r. }
  cbn [batch_size Nat.add]. repeat (case_bool_decide; cbn [andb]; [|done]). lia.
Qed.

Lemma prove_batches_gives fuel multi amounts : (length amounts <= fuel)%nat -> Forall (fun v => is_u64 v) amounts -> gives (prove_batches rnd fuel multi amounts) (proved amounts).
Proof.
  revert amounts. induction fuel as [|fuel IH]; intros amounts Hl Ha.
  - destruct amounts; [|cbn in Hl; lia]. apply gives_ret, proved_nil.
  - destruct amounts as [|v amounts']; [apply gives_ret, proved_nil|]. cbn [prove_batches]. set (k := if multi then _ else _). set (amounts := v :: amounts') in *.
    assert (1 <= k <= length amounts /\ k <= 16)%nat as [Hk Hk'] by (unfold k; destruct multi; [apply batch_size_bounds; cbn; lia|cbn; lia]).
    eapply gives_bind; [apply proveRangeBulletproof_gives; [rewrite length_take; lia|by apply Forall_take]|]. intros p Hp.
    eapply gives_bind; [apply (IH (drop k amounts)); [rewrite length_drop; lia|by apply Forall_drop]|]. intros rest Hrest. apply gives_ret. rewrite <- (take_drop k amounts).
    by apply (proved_app _ _ [p]).
Qed.

Lemma n_bulletproof_amounts_sum (ps : list Bulletproof) n : 0 <= n -> Forall (fun p => 0 < n_bulletproof_amounts_1 p) ps -> n + sumZ (n_bulletproof_amounts_1 <$> ps) < 2 ^ 32 - 1 ->
  n_bulletproof_loop n_bulletproof_amounts_1 ps n = n + sumZ (n_bulletproof_amounts_1 <$> ps).
Proof.
  intros Hn Hp. revert n Hn. induction Hp as [|p ps Hp Hps IH]; intros n Hn Hs; cbn [n_bulletproof_loop]; [cbn; lia|]. cbn [fmap list_fmap sumZ foldr] in Hs |- *.
  fold (sumZ (n_bulletproof_amounts_1 <$> ps)) in *. assert (0 <= sumZ (n_bulletproof_amounts_1 <$> ps)) as H0' by (clear -Hps; induction Hps; cbn [fmap list_fmap sumZ foldr]; unfold sumZ, fmap in *; lia).
  unfold sumZ, fmap in *. rewrite !wrap_small by (unfold in_range; lia). rewrite (proj2 (Z.ltb_lt _ _)) by lia. rewrite (proj2 (Z.eqb_neq _ _)) by lia. cbn [negb]. rewrite IH by lia. lia.
Qed.
End bullets.

(** ** One signature for each input *)
Section simple.
Context `{BulletproofsLaws}.

(** The number of outputs a kind of proof can be made for. *)
Definition provable (t : RangeProofType) (n : nat) : Prop :=
  Z.of_nat n < 2 ^ 32 - 1 /\ match t with RangeProofPaddedBulletproof => (1 <= n <= 16)%nat | _ => True end.

Definition outputs_ok (t : RangeProofType) (amounts : list Z) (x : list rangeSig * list Bulletproof * list blob * list blob) : Prop :=
  let '(ranges, bps, outPk, masks) := x in
  Forall2 commits outPk (zip masks amounts) /\ length masks = length amounts /\
  match t with
  | RangeProofBorromean => bps = [] /\ length ranges = length amounts /\ forallb (fun x => verRange x.1 x.2) (zip outPk ranges) = true
  | _ => ranges = [] /\ n_bulletproof_amounts bps = zlen amounts /\ (bps = [] \/ verBulletproof bps = true)
  end.

Lemma proved_outputs_ok t amounts m : t <> RangeProofBorromean -> zlen amounts < 2 ^ 32 - 1 -> gives m (proved amounts) ->
  gives (ps <~ m;; outPk <~ lift (mapM scalarmult8 (concat ((fun p => p.1.2) <$> ps)));; gret ([], (fun p => p.1.1) <$> ps, outPk, concat (snd <$> ps))) (outputs_ok t amounts).
Proof.
  intros Ht Hn Hm. eapply gives_bind; [exact Hm|]. intros ps (P1 & P2 & P3 & P4 & P5). destruct (scalarmult8_eighths _ _ P1) as (C & EC & HC). eapply gives_bind_lift; [exact EC|]. apply gives_ret.
  unfold outputs_ok. split; [done|]. split; [done|]. assert (((fun p => n_bulletproof_amounts_1 p.1.1) <$> ps) = n_bulletproof_amounts_1 <$> ((fun p => p.1.1) <$> ps)) as E by by rewrite <- list_fmap_compose.
  assert (n_bulletproof_amounts ((fun p => p.1.1) <$> ps) = zlen amounts) as En.
  { unfold n_bulletproof_amounts. rewrite n_bulletproof_amounts_sum, <- E, P5; [lia|lia| |rewrite <- E, P5; lia]. apply Forall_fmap. eapply Forall_impl; [exact P4|]. by intros ? []. }
  assert ((fun p => p.1.1) <$> ps = [] \/ verBulletproof ((fun p => p.1.1) <$> ps) = true) as Ev.
  { destruct ps as [|p ps]; [by left|]. right. unfold verBulletproof. rewrite bulletproof_batch; [done|done|]. apply Forall_fmap. eapply Forall_impl; [exact P4|]. by intros ? []. }
  by destruct t.
Qed.

Lemma prove_outputs_gives t amounts : provable t (length amounts) -> Forall (fun v => is_u64 v) amounts -> gives (prove_outputs rnd t amounts) (outputs_ok t amounts).
Proof.
  intros [Hn Ht] Ha. destruct t; cbn [prove_outputs].
  - eapply gives_bind; [by apply prove_output_list|]. intros outs (Hv & _ & Hc & Hl). apply gives_ret. unfold outputs_ok. rewrite !length_fmap. done.
  - apply proved_outputs_ok; [done|done|]. by apply prove_batches_gives.
  - apply proved_outputs_ok; [done|done|]. by apply prove_batches_gives.
  - apply proved_outputs_ok; [done|done|]. eapply gives_bind; [by apply proveRangeBulletproof_gives|]. intros p Hp. by apply gives_ret.
Qed.

(** What is needed of an input, and what signing it gives. *)
Definition signable (x : input) : Prop := exists v pub, (2 <= length (i_ring x))%nat /\ Forall member_ok (i_ring x) /\ i_ring x !! i_index x = Some pub /\
  spendable pub (i_sk x) v /\ commits (i_C x) (i_a x, v) /\ i_kLRki x = None.
Definition signed (msg : blob) (x : input) (g : mgSig * list blob * blob) : Prop :=
  verRctMGSimple msg g.1.1 g.1.2 (i_ring x) (i_C x) = true /\ exists pub ki, i_ring x !! i_index x = Some pub /\ g.1.2 = [ki] /\ key_image_of pub.1 (le_word (i_sk x).1) ki.

Lemma sign_input_gives msg x : signable x -> gives (sign_input rnd msg x) (signed msg x).
Proof.
  intros (v & pub & Hl & Hm & Hi & Hs & (q & Eq & Ho) & Ek). unfold sign_input. rewrite Eq, Ek. eapply gives_mono; [by eapply proveRctMGSimple_gives|].
  intros [[mg II] c] [Hv (ki & -> & Hki)]. split; cbn [fst snd]; [by rewrite Eq|]. by exists pub, ki.
Qed.

Lemma verify_inputs_signed msg inputs mgs : Forall2 (signed msg) inputs mgs ->
  verify_inputs msg (i_ring <$> inputs) (i_C <$> inputs) ((fun g => g.1.1) <$> mgs) ((fun g => g.1.2) <$> mgs) = true.
Proof. induction 1 as [|x g inputs mgs [Hv _] _ IH]; [done|]. cbn [fmap list_fmap verify_inputs]. rewrite Hv. exact IH. Qed.

(** The inputs of [genRctSimple]. *)
Definition source_ok (sk : ctkey) (ring : list ctkey) (v : Z) (index : nat) : Prop :=
  (2 <= length ring)%nat /\ Forall member_ok ring /\ exists pub, ring !! index = Some pub /\ spendable pub sk v.
Definition sources_ok (inSk : list ctkey) (ring : list (list ctkey)) (amounts : list Z) (index : list nat) : Prop :=
  length ring = length inSk /\ length amounts = length inSk /\ length index = length inSk /\
  forall j sk r v i, inSk !! j = Some sk -> ring !! j = Some r -> amounts !! j = Some v -> index !! j = Some i -> source_ok sk r v i.

Lemma make_inputs_ok inSk ring amounts index ps : sources_ok inSk ring amounts index -> Forall2 (fun y v => commits y.2 (y.1, v)) ps amounts ->
  let inputs := make_inputs inSk ring ps (replicate (length inSk) None) index in
  Forall signable inputs /\ i_ring <$> inputs = ring /\ i_C <$> inputs = snd <$> ps /\ length inputs = length inSk.
Proof.
  intros (L1 & L2 & L3 & Hs) Hps inputs. pose proof (Forall2_length _ _ _ Hps) as L4. split; [|split; [|split]].
  - apply Forall_lookup. intros j x Hx. unfold inputs, make_inputs in Hx. rewrite list_lookup_fmap in Hx. apply fmap_Some in Hx as ([[sk r] [[a C] [k i]]] & Hz & ->).
    apply lookup_zip_with_Some in Hz as (z1 & z2 & [= <- <-] & Hz1 & Hz2). apply lookup_zip_with_Some in Hz1 as (? & ? & [= <- <-] & Hsk & Hr).
    apply lookup_zip_with_Some in Hz2 as (? & z3 & [= <- <-] & Hp & Hz3). apply lookup_zip_with_Some in Hz3 as (? & ? & [= <- <-] & Hk & Hi).
    destruct (Forall2_lookup_l _ _ _ _ _ Hps Hp) as (v & Hv & Hc). destruct (Hs j sk r v i Hsk Hr Hv Hi) as (Hl & Hm & pub & Hpub & Hsp). exists v, pub. apply lookup_replicate in Hk as [-> _]. done.
  - unfold inputs, make_inputs. rewrite <- list_fmap_compose. rewrite (list_fmap_ext _ (fun w => w.1.2)) by (by intros ? [[] [[] []]] ?).
    rewrite (fmap_zip_l snd) by (rewrite !length_zip_with, length_replicate; lia). apply snd_zip. lia.
  - unfold inputs, make_inputs. rewrite <- list_fmap_compose. rewrite (list_fmap_ext _ (fun w => w.2.1.2)) by (by intros ? [[] [[] []]] ?).
    rewrite (fmap_zip_r (fun y => y.1.2)) by (rewrite !length_zip_with, length_replicate; lia). apply (fmap_zip_l snd). rewrite length_zip_with, length_replicate. lia.
  - unfold inputs, make_inputs. rewrite length_fmap, !length_zip_with, length_replicate. lia.
Qed.
(** The key images of the inputs. *)
Definition images_ok (inSk : list ctkey) (ring : list (list ctkey)) (index : list nat) (II : list (list blob)) : Prop :=
  forall j sk r i pub, inSk !! j = Some sk -> ring !! j = Some r -> index !! j = Some i -> r !! i = Some pub ->
    exists ki, II !! j = Some [ki] /\ key_image_of pub.1 (le_word sk.1) ki.

Lemma signed_images msg inSk ring amounts index ps mgs : sources_ok inSk ring amounts index -> length ps = length inSk ->
  Forall2 (signed msg) (make_inputs inSk ring ps (replicate (length inSk) None) index) mgs -> images_ok inSk ring index ((fun g => g.1.2) <$> mgs).
Proof.
  intros (L1 & L2 & L3 & _) L4 Hm j sk r i pub Hsk Hr Hi Hpub. pose proof (lookup_lt_Some _ _ _ Hsk) as Hj. destruct (lookup_lt_is_Some_2 ps j) as [[a C] Hp]; [lia|].
  assert (make_inputs inSk ring ps (replicate (length inSk) None) index !! j = Some (Input sk r a C None i)) as Hx.
  { unfold make_inputs. rewrite list_lookup_fmap. assert (zip (zip inSk ring) (zip ps (zip (replicate (length inSk) (@None multisig_kLRki)) index)) !! j = Some ((sk, r), ((a, C), (None, i)))) as ->; [|done].
    apply lookup_zip_with_Some. eexists _, _. split; [done|]. split; apply lookup_zip_with_Some; eexists _, _; (split; [done|]); [done|]. split; [done|].
    apply lookup_zip_with_Some. eexists _, _. split; [done|]. split; [by apply lookup_replicate|done]. }
  destruct (Forall2_lookup_l _ _ _ _ _ Hm Hx) as (g & Hg & _ & pub' & ki & Hpub' & EI & Hki). cbn [i_ring i_index i_sk] in *. rewrite Hpub in Hpub'. injection Hpub' as <-.
  exists ki. rewrite list_lookup_fmap, Hg. split; [|done]. cbn. by rewrite EI.
Qed.

Lemma simple_sig_semantics t fee pouts ecdh outPk ranges bps mgs masks vs li : outputs_ok t vs (ranges, bps, outPk, masks) -> length ecdh = length vs -> length mgs = length pouts ->
  is_u64 fee -> Forall2 commits pouts li -> sumZ ((fun y => le_word y.1) <$> li) mod ell = sumZ (le_word <$> masks) mod ell -> sumZ (snd <$> li) = sumZ vs + fee ->
  verRctSemanticsSimple (simple_sig t fee pouts ecdh outPk ranges bps mgs) = true.
Proof.
  intros (Hc & Hlm & Ht) Hle Hlg Hfee Hp Hsum Hbal. set (sg := simple_sig _ _ _ _ _ _ _ _). destruct (commits_masks _ _ _ Hc Hlm) as [_ Hlo].
  assert (pseudo_of sg = pouts) as Epo by by destruct t.
  assert (sum_check sg = Some true) as Es.
  { apply (sum_check_balanced sg li (zip masks vs)); [by rewrite Epo|by destruct t|by destruct t| |].
    - rewrite (fmap_zip_l le_word) by lia. done.
    - rewrite (snd_zip masks vs) by lia. by destruct t. }
  unfold verRctSemanticsSimple, verRctSemanticsSimple_all, sums_check. rewrite Es. cbn [fmap list_fmap concat forallb]. rewrite !app_nil_r, !andb_true_r.
  unfold simple_shape. destruct t; cbv beta iota in Ht; unfold sg, simple_sig, range_proofs, bullet_proofs; cbn [is_rct_bulletproof rct_type rct_p Rct.outPk pseudoOuts p_pseudoOuts MGs rangeSigs bulletproofs ecdhInfo].
  1: { destruct Ht as (-> & Hr & Hv). change (is_rct_bulletproof RCTTypeSimple) with false. cbv iota. rewrite !bool_decide_eq_true_2 by (done || lia). rewrite Hv. done. }
  all: destruct Ht as (-> & Hn & Hv); change (is_rct_bulletproof RCTTypeBulletproof) with true; cbv iota; rewrite Hn, (proj2 (Z.eqb_eq _ _)) by (unfold zlen; lia);
    rewrite !(bool_decide_eq_true_2 (length _ = length _)) by (done || lia); rewrite (bool_decide_eq_true_2 (@nil blob = [])) by done;
    (destruct Hv as [-> | ->]; [done|by rewrite orb_true_r]).
Qed.
Lemma sources_index inSk ring amounts index : sources_ok inSk ring amounts index -> forallb (fun x : nat * list ctkey => bool_decide (x.1 < length x.2)%nat) (zip index ring) = true.
Proof.
  intros (L1 & L2 & L3 & Hsrc). apply forallb_forall. intros [i r] Hx. apply list_elem_of_In, list_elem_of_lookup in Hx as (j & Hj).
  apply lookup_zip_with_Some in Hj as (? & ? & [= <- <-] & Hi & Hr). apply bool_decide_eq_true_2. cbn [fst snd].
  pose proof (lookup_lt_Some _ _ _ Hi). destruct (lookup_lt_is_Some_2 inSk j) as [sk Hsk]; [lia|]. destruct (lookup_lt_is_Some_2 amounts j) as [v Hv]; [lia|].
  destruct (Hsrc j sk r v i Hsk Hr Hv Hi) as (_ & _ & pub & Hpub & _). by eapply lookup_lt_Some.
Qed.

Lemma all_read_simple sg amounts keys outSk : is_rct_simple (rct_type sg) = true -> all_read (decode sg) amounts keys outSk -> all_read (decodeRctSimple sg) amounts keys outSk.
Proof. intros Ht Hr i v k Hv Hk. unfold decodeRctSimple. rewrite Ht. by apply Hr. Qed.

(** The signatures are not part of what is signed. *)
Lemma simple_hash t fee pouts ecdh outPk ranges bps mgs msg ring dests II :
  get_pre_mlsag_hash (RctFull (simple_sig t fee pouts ecdh outPk ranges bps mgs) msg ring dests II) = get_pre_mlsag_hash (RctFull (simple_sig t fee pouts ecdh outPk ranges bps []) msg ring dests []).
Proof. by destruct t. Qed.

Lemma simple_hash_some t fee pouts ecdh outPk ranges bps msg ring dests l : ring <> [] -> is_u64 fee -> length pouts = length ring -> Forall (pod_ok 32) pouts ->
  Forall2 readable l ecdh -> length outPk = length ecdh -> Forall (pod_ok 32) outPk -> exists h, get_pre_mlsag_hash (RctFull (simple_sig t fee pouts ecdh outPk ranges bps []) msg ring dests []) = Some h.
Proof.
  intros Hr Hf Hl Hp He Hlo Ho. apply pre_mlsag_hash_some; [by destruct t|done|]. apply readable_ok in He.
  destruct t; cbn [f_sig simple_sig rct_type txnFee pseudoOuts ecdhInfo Rct.outPk mixRing]; (split; [done|]); (split; [done|]); (split; [done|]); (split; [done|]); done.
Qed.

(** C21: a signature that is made for inputs the signer owns, each in its own ring
    of two members or more, with amounts that balance the fee, is accepted: the
    balance, the range proofs (Borromean, or bulletproofs of each of the three
    arrangements) and the ring signatures; every receiver reads the amount and the
    mask of an output; the key images are those of the keys that are spent. *)
Theorem genRctSimple_complete msg inSk dests inamounts outamounts fee ring amount_keys index t : inSk <> [] -> sources_ok inSk ring inamounts index ->
  length outamounts = length dests -> length amount_keys = length dests -> provable t (length dests) ->
  Forall (fun v => is_u64 v) inamounts -> Forall (fun v => is_u64 v) outamounts -> is_u64 fee -> sumZ inamounts = sumZ outamounts + fee ->
  gives (genRctSimple rnd msg inSk dests inamounts outamounts fee ring amount_keys None index t) (fun x => let '(rv, outSk, _) := x in
    verRctSemanticsSimple (f_sig rv) = true /\ verRctNonSemanticsSimple rv = true /\ all_read (decodeRctSimple (f_sig rv)) outamounts amount_keys outSk /\
    images_ok inSk ring index (f_II rv)).
Proof.
  intros Hne Hsrc Hlo Hlk Hpr Hin Hout Hfee Hbal. pose proof Hsrc as (L1 & L2 & L3 & Hsrc'). assert (0 < length inSk)%nat as Hpos by (destruct inSk; [done|cbn; lia]).
  unfold genRctSimple. rewrite !bool_decide_eq_true_2 by lia. cbn [andb]. rewrite (sources_index _ _ _ _ Hsrc).
  cbn [negb]. eapply gives_bind; [apply prove_outputs_gives; [by rewrite Hlo|done]|]. intros [[[ranges bps] outPk] masks] Ho. pose proof Ho as (Hc & Hlm & _). destruct (commits_masks _ _ _ Hc Hlm) as [Hmask Hlp].
  destruct (sum_masks zero_key masks ltac:(by_decide) Hmask) as (sumout & Esum & Hsum & Ews). change (le_word zero_key) with 0 in Ews. rewrite Z.add_0_l in Ews. eapply gives_bind_lift; [exact Esum|].
  destruct (encode_outputs _ (readable_inputs _ _ amount_keys Hmask Hout)) as (ecdh & Eecdh & Hread). eapply gives_bind_lift; [exact Eecdh|].
  assert (length ecdh = length outamounts) as Hle by (apply Forall2_length in Hread; rewrite !length_zip_with in Hread; lia).
  eapply gives_bind; [apply (pseudo_outs_gives inamounts sumout zero_key); [destruct inamounts; [cbn in L2; lia|done]|done|done|by_decide]|]. intros ps [Hps Eps].
  change (le_word zero_key) with 0 in Eps. rewrite Z.sub_0_r, Ews, Zmod_mod in Eps. pose proof (Forall2_length _ _ _ Hps) as Hlps.
  assert (Forall2 commits (snd <$> ps) (zip (fst <$> ps) inamounts)) as Hpc.
  { clear -Hps. induction Hps as [|y v ps vs Hy _ IH]; [constructor|]. by constructor. }
  destruct (simple_hash_some t fee (snd <$> ps) ecdh outPk ranges bps msg ring dests _ ltac:(intros ->; cbn in L1; lia) Hfee ltac:(rewrite length_fmap; lia) (commits_ok _ _ Hpc) Hread ltac:(lia) (commits_ok _ _ Hc)) as (h & Eh).
  eapply gives_bind_lift; [exact Eh|]. rewrite L2. destruct (make_inputs_ok _ _ _ _ _ Hsrc Hps) as (Hsig & Er & EC & Hli).
  eapply gives_bind; [apply (gives_mapM _ (signed h)); eapply Forall_impl; [exact Hsig|]; intros x Hx; by apply sign_input_gives|]. intros mgs Hmgs. apply gives_ret. cbn [f_sig f_II].
  pose proof (Forall2_length _ _ _ Hmgs) as Hlmg. rewrite Hli in Hlmg. split; [|split; [|split]].
  - eapply (simple_sig_semantics _ _ _ _ _ _ _ _ masks outamounts _ Ho); [done|rewrite !length_fmap; lia|done|exact Hpc| |rewrite snd_zip by (rewrite length_fmap; lia); done].
    rewrite (fmap_zip_l le_word) by (rewrite length_fmap; lia). rewrite <- list_fmap_compose. exact Eps.
  - unfold verRctNonSemanticsSimple. cbn [f_sig mixRing f_II]. rewrite simple_hash, Eh. assert (forall m, pseudo_of (simple_sig t fee (snd <$> ps) ecdh outPk ranges bps m) = snd <$> ps) as -> by by destruct t.
    rewrite bool_decide_eq_true_2 by (rewrite length_fmap; lia). pose proof (verify_inputs_signed _ _ _ Hmgs) as Hv. rewrite Er, EC in Hv. destruct t; exact Hv.
  - apply (all_read_simple (simple_sig t fee (snd <$> ps) ecdh outPk ranges bps _)); [by destruct t|]. apply outputs_read; destruct t; cbn [simple_sig Rct.outPk ecdhInfo]; done || lia.
  - eapply (signed_images h _ _ inamounts _ ps); [done|lia|exact Hmgs].
Qed.
End simple.

(** ** Several signers *)

(** The other signers add their shares, one after the other. *)
Fixpoint sign_all (c : blob) (index : nat) (shares : list (blob * blob)) (mg : mgSig) : option mgSig :=
  match shares with
  | [] => Some mg
  | (k, x) :: shares => mg ← sign_more k c x index mg; sign_all c index shares mg
  end.

Definition share_ok (y : blob * blob) : Prop := sc_ok y.1 /\ sc_ok y.2.
Definition nonces (shares : list (blob * blob)) : Z := sumZ ((fun y => le_word y.1) <$> shares).
Definition secrets (shares : list (blob * blob)) : Z := sumZ ((fun y => le_word y.2) <$> shares).

Lemma sign_all_opened c index shares ss cc s row A X : sc_ok c -> Forall share_ok shares -> (index < length ss)%nat -> opened c s A X ->
  exists s', sign_all c index shares (MgSig (<[index := s :: row]> ss) cc) = Some (MgSig (<[index := s' :: row]> ss) cc) /\ opened c s' (A + nonces shares) (X + secrets shares).
Proof.
  intros Hc Hs Hi. revert s A X. induction Hs as [|[k x] shares [Hk Hx] _ IH]; intros s A X Ho.
  - exists s. split; [done|]. cbn. by rewrite !Z.add_0_r.
  - cbn [sign_all]. unfold sign_more. cbn [fst snd] in *. rewrite sc_mulsub_correct by (apply Hc || apply Hk || apply Hx). cbn [mbind option_bind Rct.ss].
    rewrite list_lookup_insert_eq by done. cbn [mbind option_bind]. rewrite sc_add_correct by (apply Ho || apply scalar_ok). cbn [mbind option_bind Rct.cc]. rewrite list_insert_insert_eq.
    set (s1 := scalar _). destruct (IH s1 (A + le_word k) (X + le_word x)) as (s' & E & Ho').
    + split; [apply scalar_sc_ok|]. unfold s1. rewrite !le_word_scalar. destruct Ho as [_ ->]. rewrite <- Zplus_mod. f_equal. lia.
    + exists s'. split; [exact E|]. unfold nonces, secrets in *. cbn [fmap list_fmap sumZ foldr fst snd]. unfold sumZ, fmap in *. by rewrite !Z.add_assoc.
Qed.

Lemma multisig_ds_row k L R ki key x : gmapM (sign_ds_row rnd (Some (KLRki k L R ki))) [(key, x)] = gret [(k, [key; L; R], ki)].
Proof. reflexivity. Qed.
Lemma gives_bind_ret {A B} (a : A) (k : A -> gen B) (Q : B -> Prop) : gives (k a) Q -> gives (gbind (gret a) k) Q.
Proof. intros Hk n. apply Hk. Qed.

(** C31: a ring signature begun by a signer with a share of the secret and of the
    nonce, and completed by the other signers one after the other, is accepted,
    with the key image of the whole secret. *)
Theorem multisig_complete msg pk xx x0 k0 L R ki index rows shares hp : matrix_ok pk rows -> (index < length pk)%nat -> Forall (Forall decodes) pk -> no_identity 1 pk ->
  Forall share_ok ((k0, x0) :: shares) -> forall key col, pk !!! index = key :: col -> key_of key (secrets ((k0, x0) :: shares)) ->
  Forall2 (fun k x => key_of k (le_word x) /\ sc_ok x) col xx -> hashToPoint key = ge_tobytes hp -> main hp ->
  L = ge_tobytes (ge_smul (nonces ((k0, x0) :: shares)) ge_base) -> R = ge_tobytes (ge_smul (nonces ((k0, x0) :: shares)) hp) -> ki = ge_tobytes (ge_smul (secrets ((k0, x0) :: shares)) hp) ->
  gives (MLSAG_Gen rnd msg pk (x0 :: xx) (Some (KLRki k0 L R ki)) index 1) (fun y => let '(mg, II, c) := y in
    II = [ki] /\ exists mg', sign_all c index shares mg = Some mg' /\ MLSAG_Ver msg pk mg' II 1 = true).
Proof.
  intros Hm Hi Hdec Hn Hsh key col Ecol Hkey Hk Eh Hmain EL ER Eki. pose proof Hm as (Hcols & Hrows & Hrect). inversion Hsh as [|? ? [Hk0 Hx0] Hshares]; subst. cbn [fst snd] in *.
  assert (length (pk !!! index) = rows) as Hcol by by apply (row_total _ _ _ Hrect). rewrite Ecol in Hcol. cbn [length] in Hcol.
  assert (length (pk !!! 0%nat) = rows) as Hcol0 by (apply (row_total _ _ _ Hrect); lia). pose proof (Forall2_length _ _ _ Hk) as Hlx.
  unfold MLSAG_Gen. rewrite Hcol0, !bool_decide_eq_true_2 by (cbn [length]; lia). rewrite rectangular_ok by done. cbn [andb negb]. rewrite Ecol. cbn [take drop zip_with].
  rewrite multisig_ds_row. apply gives_bind_ret. cbn [fmap list_fmap fst snd].
  eapply gives_bind_lift; [apply mapM_Some; constructor; [apply ge_frombytes_tobytes|constructor]|].
  eapply gives_bind; [apply (gives_mapM _ row_signed), Forall_true, sign_row_gives|]. intros rest Hrest. eapply gives_bind; [apply hash_gives|]. intros c0 [Ec0 Hc0].
  eapply gives_bind; [by apply loop_closes|]. intros [[ss c] cc] (Hc & Hcc & Hl & Hother & Hclose).
  destruct (rest_part c _ _ _ Hc Hk Hrest) as (s' & Es' & Hso' & Hsl' & Em'). destruct (mulsub_opened c x0 k0 Hc Hx0 Hk0) as (s & Es & Ho).
  eapply gives_bind_lift; [unfold mlsag_sign; apply mapM_Some; constructor; [exact Es|by apply mapM_Some]|]. apply gives_ret. split; [done|].
  destruct (sign_all_opened c index shares ss cc s s' _ _ Hc Hshares ltac:(lia) Ho) as (s2 & E2 & Ho2). eexists. split; [exact E2|].
  change 1%nat with (length [ge_tobytes (ge_smul (secrets ((k0, x0) :: shares)) hp)]).
  eapply (MLSAG_Ver_chain msg pk rows); cbn [Rct.ss Rct.cc]; [done|done|cbn; lia|apply mapM_Some; constructor; [apply ge_frombytes_tobytes|constructor]|by rewrite length_insert| |done|].
  - apply rows_ok_insert; [by rewrite Hl|]. split; [cbn; lia|]. constructor; [apply Ho2|done].
  - apply Hclose. rewrite <- Ec0, Ecol. unfold column_hash. cbn [length drop]. rewrite !drop_0, Em'. cbn [zip_with]. rewrite zip_with_nil_r.
    assert (mapM (ds_row c) [(s2, key, ge_smul (secrets ((k0, x0) :: shares)) hp)] = Some [[key; ge_tobytes (ge_smul (nonces ((k0, x0) :: shares)) ge_base); ge_tobytes (ge_smul (nonces ((k0, x0) :: shares)) hp)]]) as ->; [|done].
    apply mapM_Some. constructor; [|constructor]. by apply ds_row_opened.
Qed.

(** ** What an accepted signature shows *)

(** The pseudo outputs and the outputs with the fee have the same sum. *)
Lemma sum_check_total sg li lo : Forall2 commits (pseudo_of sg) li -> Forall2 commits (outPk sg) lo -> is_u64 (txnFee sg) -> sum_check sg = Some true ->
  total li = ge_add (total lo) (ge_smul (txnFee sg) ge_p3_H).
Proof.
  intros Hi Ho Hf. unfold sum_check. rewrite (addKeys_all_total _ _ Ho). cbn [mbind option_bind]. destruct (d2h_spec _ Hf) as [[Hp Hl] Hw].
  rewrite scalarmultH_spec; [|done|assert (ell < 2 ^ 255) by by_decide; lia]. rewrite addKeys_spec. cbn [mbind option_bind]. rewrite (addKeys_all_total _ _ Hi), Hw. cbn [mbind option_bind].
  intros [= E%bool_decide_eq_true_1]. by apply ge_tobytes_inj.
Qed.

Lemma ge_shift a b c d : ge_add (ge_smul a ge_base) (ge_smul b ge_p3_H) = ge_add (ge_smul c ge_base) (ge_smul d ge_p3_H) -> ge_smul (a - c) ge_base = ge_smul (d - b) ge_p3_H.
Proof.
  intros E. apply (ge_add_cancel (ge_add (ge_smul c ge_base) (ge_smul b ge_p3_H))). rewrite (ge_add_comm (ge_smul c ge_base)), <- ge_add_assoc, <- ge_smul_plus.
  replace (c + (a - c)) with a by lia. rewrite (ge_add_comm (ge_smul b ge_p3_H) (ge_smul a ge_base)), E. rewrite (ge_add_comm (ge_smul b ge_p3_H)), <- ge_add_assoc, <- ge_smul_plus. do 2 f_equal. lia.
Qed.

Lemma verRctSemanticsSimple_sum `{Bulletproofs} sg : verRctSemanticsSimple sg = true -> sum_check sg = Some true.
Proof.
  unfold verRctSemanticsSimple, verRctSemanticsSimple_all, sums_check. destruct (sum_check sg) as [[]|]; [done|..]; rewrite !andb_false_r; done.
Qed.

Lemma sumZ_bound (l : list (blob * Z)) : Forall (fun y => is_u64 y.2) l -> 0 <= sumZ (snd <$> l) <= zlen l * 2 ^ 64.
Proof.
  induction 1 as [|y l Hy _ IH]; [by_decide|]. cbn [fmap list_fmap sumZ foldr]. rewrite zlen_cons. unfold in_range, sumZ, fmap in *. lia.
Qed.

(** C22: when a signature is accepted and its commitments are opened, the amounts
    of the inputs are those of the outputs and the fee, or the openings give a
    multiple of the one base point that is a multiple of the other. *)
Theorem accepted_signature_balances `{Bulletproofs} sg li lo : verRctSemanticsSimple sg = true -> is_u64 (txnFee sg) ->
  Forall2 commits (pseudo_of sg) li -> Forall2 commits (outPk sg) lo -> Forall (fun y => is_u64 y.2) li -> Forall (fun y => is_u64 y.2) lo ->
  zlen li < 2 ^ 128 -> zlen lo < 2 ^ 128 ->
  let x := sumZ ((fun y => le_word y.1) <$> li) - sumZ ((fun y => le_word y.1) <$> lo) in
  let y := sumZ (snd <$> lo) + txnFee sg - sumZ (snd <$> li) in
  y = 0 \/ (y mod ell <> 0 /\ ge_smul x ge_base = ge_smul y ge_p3_H).
Proof.
  intros Hv Hf Hi Ho Ui Uo Bi Bo x y. apply verRctSemanticsSimple_sum, (sum_check_total sg li lo Hi Ho Hf) in Hv. unfold total in Hv. rewrite <- ge_add_assoc, <- ge_smul_plus in Hv.
  apply ge_shift in Hv. fold x y in Hv. destruct (decide (y = 0)) as [->|Hy]; [by left|]. right. split; [|done]. pose proof (sumZ_bound _ Ui). pose proof (sumZ_bound _ Uo).
  assert (2 ^ 128 * 2 ^ 64 + 2 ^ 64 < ell) by by_decide. intros [k Ek]%Z.mod_divide; [|by_decide]. assert (- ell < y < ell) by (unfold y, in_range in *; lia). assert (k = 0) by nia. lia.
Qed.
End proofs.
