(* ===== verification/Crypto.v ===== *)
(** * Keys and signatures

    Model of src/crypto/crypto.cpp: key pairs, the one-time keys of outputs, key
    images, and the signatures on a key, on a derivation and on a ring, over the
    curve of RctOps.v.  A secret key is a scalar of 32 bytes; [None] is [false],
    or the abort of the process where the source has no other answer. *)
From Stdlib Require Import ZArith Lia Bool.
From stdpp Require Import prelude.
From S2P Require Import Prelude Varint Keccak Limbs Scalar RctOps RctSigs RctProofs.
Local Open Scope Z_scope.
Local Open Scope gen_scope.

#[local] Opaque cn_fast_hash.

Definition hash_bytes_to_scalar (data : blob) : option blob := sc_reduce32 (cn_fast_hash data).

Record signature := Signature { sig_c : blob; sig_r : blob }.
(** [s_comm], [s_comm_2] and [rs_comm]: what is hashed. *)
Record s_comm := SComm { sc_h : blob; sc_key : blob; sc_comm : blob }.
Definition s_comm_bytes (b : s_comm) : blob := sc_h b ++ sc_key b ++ sc_comm b.
Record s_comm_2 := SComm2 { s2_msg : blob; s2_D : blob; s2_X : blob; s2_Y : blob }.
Definition s_comm_2_bytes (b : s_comm_2) : blob := s2_msg b ++ s2_D b ++ s2_X b ++ s2_Y b.
Definition rs_comm_bytes (h : blob) (ab : list (blob * blob)) : blob := h ++ concat ((fun x => x.1 ++ x.2) <$> ab).

Section crypto.
Context `{Curve} (rnd : nat -> blob).

Definition random_scalar : gen blob := random32_unbiased 1 rnd.

(** ** Keys *)

(** The public key, the secret key, and the number it was made from. *)
Definition generate_keys (recovery_key : option blob) : gen (blob * blob * blob) :=
  rng <~ match recovery_key with Some r => gret r | None => random_scalar end;;
  sec <~ lift (sc_reduce32 rng);; gret (ge_tobytes (ge_scalarmult_base sec), sec, rng).

Definition check_key (key : blob) : bool := match ge_frombytes_vartime key with Some _ => true | None => false end.
Definition secret_key_to_public_key (sec : blob) : option blob := if negb (sc_check sec =? 0) then None else Some (ge_tobytes (ge_scalarmult_base sec)).

Definition generate_key_derivation (key1 key2 : blob) : option blob :=
  point ← ge_frombytes_vartime key1; Some (ge_tobytes (ge_mul8 (ge_scalarmult key2 point))).
Definition derivation_to_scalar (derivation : blob) (output_index : Z) : option blob := hash_bytes_to_scalar (derivation ++ write_varint output_index).
Definition derive_public_key (derivation : blob) (output_index : Z) (base : blob) : option blob :=
  point1 ← ge_frombytes_vartime base; scalar ← derivation_to_scalar derivation output_index; Some (ge_tobytes (ge_add point1 (ge_scalarmult_base scalar))).
Definition derive_secret_key (derivation : blob) (output_index : Z) (base : blob) : option blob :=
  scalar ← derivation_to_scalar derivation output_index; sc_add base scalar.
Definition derive_subaddress_public_key (out_key derivation : blob) (output_index : Z) : option blob :=
  point1 ← ge_frombytes_vartime out_key; scalar ← derivation_to_scalar derivation output_index; Some (ge_tobytes (ge_sub point1 (ge_scalarmult_base scalar))).

(** ** A signature with a key *)
Definition tiny (k : blob) : bool := le_word (take 4 (drop 28 k)) =? 0.
Definition sign_once (prefix_hash pub sec k : blob) : option (option signature) :=
  if tiny k then Some None
  else
    c ← hash_bytes_to_scalar (s_comm_bytes (SComm prefix_hash pub (ge_tobytes (ge_scalarmult_base k))));
    if sc_isnonzero c =? 0 then Some None
    else r ← sc_mulsub c sec k; if sc_isnonzero r =? 0 then Some None else Some (Some (Signature c r)).
(** [goto try_again], as often as [fuel] allows. *)
Fixpoint generate_signature (fuel : nat) (prefix_hash pub sec : blob) : gen signature :=
  match fuel with
  | O => lift None
  | S fuel =>
      k <~ random_scalar;; o <~ lift (sign_once prefix_hash pub sec k);;
      match o with Some sig => gret sig | None => generate_signature fuel prefix_hash pub sec end
  end.

Definition check_signature (prefix_hash pub : blob) (sig : signature) : bool :=
  match ge_frombytes_vartime pub with
  | None => false
  | Some tmp3 =>
      if negb (sc_check (sig_c sig) =? 0) || negb (sc_check (sig_r sig) =? 0) || (sc_isnonzero (sig_c sig) =? 0) then false
      else
        let comm := ge_tobytes (ge_double_scalarmult_base_vartime (sig_c sig) tmp3 (sig_r sig)) in
        if bool_decide (comm = identity_key) then false
        else
          match c ← hash_bytes_to_scalar (s_comm_bytes (SComm prefix_hash pub comm)); sc_sub c (sig_c sig) with
          | Some c => sc_isnonzero c =? 0
          | None => false
          end
  end.

(** ** A proof that a derivation is right *)
Definition read_optional (B : option blob) : option (option point) :=
  match B with
  | Some B => match ge_frombytes_vartime B with Some p => Some (Some p) | None => None end
  | None => Some None
  end.
Definition generate_tx_proof (prefix_hash R A : blob) (B : option blob) (D r : blob) : gen signature :=
  _ <~ lift (ge_frombytes_vartime R);; A_p3 <~ lift (ge_frombytes_vartime A);;
  B_p3 <~ lift (read_optional B);;
  _ <~ lift (ge_frombytes_vartime D);;
  k <~ random_scalar;;
  let X := match B_p3 with Some B_p3 => ge_scalarmult k B_p3 | None => ge_scalarmult_base k end in
  let Y := ge_scalarmult k A_p3 in
  c <~ lift (hash_bytes_to_scalar (s_comm_2_bytes (SComm2 prefix_hash D (ge_tobytes X) (ge_tobytes Y))));;
  r <~ lift (sc_mulsub c r k);; gret (Signature c r).

(** A product is encoded and read back before it is added. *)
Definition reread (p : point) : option point := ge_frombytes_vartime (ge_tobytes p).
Definition check_tx_proof (prefix_hash R A : blob) (B : option blob) (D : blob) (sig : signature) : bool :=
  let answer :=
    R_p3 ← ge_frombytes_vartime R; A_p3 ← ge_frombytes_vartime A;
    B_p3 ← read_optional B;
    D_p3 ← ge_frombytes_vartime D;
    if negb (sc_check (sig_c sig) =? 0) || negb (sc_check (sig_r sig) =? 0) then None
    else
      cR ← reread (ge_scalarmult (sig_c sig) R_p3);
      rB ← match B_p3 with Some B_p3 => reread (ge_scalarmult (sig_r sig) B_p3) | None => Some (ge_scalarmult_base (sig_r sig)) end;
      let X := ge_add cR rB in
      cD ← reread (ge_scalarmult (sig_c sig) D_p3);
      rA ← reread (ge_scalarmult (sig_r sig) A_p3);
      let Y := ge_add cD rA in
      c2 ← hash_bytes_to_scalar (s_comm_2_bytes (SComm2 prefix_hash D (ge_tobytes X) (ge_tobytes Y)));
      sc_sub c2 (sig_c sig) in
  match answer with Some c2 => sc_isnonzero c2 =? 0 | None => false end.

(** ** Key images and ring signatures *)
Definition hash_to_ec (key : blob) : point := ge_mul8 (ge_fromfe_frombytes_vartime (cn_fast_hash key)).
Definition generate_key_image (pub sec : blob) : blob := ge_tobytes (ge_scalarmult sec (hash_to_ec pub)).

(** The two commitments of a member from its part of the signature. *)
Definition member_ab (image : point) (pub : blob) (sig : signature) : option (blob * blob) :=
  tmp3 ← ge_frombytes_vartime pub;
  Some (ge_tobytes (ge_double_scalarmult_base_vartime (sig_c sig) tmp3 (sig_r sig)),
        ge_tobytes (ge_double_scalarmult_precomp_vartime (sig_r sig) (hash_to_ec pub) (sig_c sig) image)).

Fixpoint ring_loop (image : point) (pubs : list blob) (i sec_index : nat) (sum k : blob) : gen (list signature * list (blob * blob) * blob * blob) :=
  match pubs with
  | [] => gret ([], [], sum, k)
  | pub :: pubs =>
      if decide (i = sec_index) then
        k <~ random_scalar;;
        let ab := (ge_tobytes (ge_scalarmult_base k), ge_tobytes (ge_scalarmult k (hash_to_ec pub))) in
        rest <~ ring_loop image pubs (S i) sec_index sum k;;
        let '(sigs, abs, sum, k) := rest in gret (Signature zero_key zero_key :: sigs, ab :: abs, sum, k)
      else
        c <~ random_scalar;; r <~ random_scalar;;
        ab <~ lift (member_ab image pub (Signature c r));; sum <~ lift (sc_add sum c);;
        rest <~ ring_loop image pubs (S i) sec_index sum k;;
        let '(sigs, abs, sum, k) := rest in gret (Signature c r :: sigs, ab :: abs, sum, k)
  end.

Definition generate_ring_signature (prefix_hash image : blob) (pubs : list blob) (sec : blob) (sec_index : nat) : gen (list signature) :=
  image_unp <~ lift (ge_frombytes_vartime image);;
  out <~ ring_loop image_unp pubs 0 sec_index sc_0 zero_key;;
  let '(sigs, ab, sum, k) := out in
  h <~ lift (hash_bytes_to_scalar (rs_comm_bytes prefix_hash ab));;
  c <~ lift (sc_sub h sum);; r <~ lift (sc_mulsub c sec k);;
  gret (<[sec_index := Signature c r]> sigs).

Fixpoint check_ring_loop (image : point) (pubs : list blob) (sigs : list signature) (sum : blob) : option (list (blob * blob) * blob) :=
  match pubs, sigs with
  | [], _ => Some ([], sum)
  | pub :: pubs, sig :: sigs =>
      if negb (sc_check (sig_c sig) =? 0) || negb (sc_check (sig_r sig) =? 0) then None
      else
        ab ← member_ab image pub sig; sum ← sc_add sum (sig_c sig);
        rest ← check_ring_loop image pubs sigs sum; Some (ab :: rest.1, rest.2)
  | _, _ => None
  end.
Definition check_ring_signature (prefix_hash image : blob) (pubs : list blob) (sigs : list signature) : bool :=
  match image_unp ← ge_frombytes_vartime image; rest ← check_ring_loop image_unp pubs sigs sc_0;
        h ← hash_bytes_to_scalar (rs_comm_bytes prefix_hash rest.1); sc_sub h rest.2 with
  | Some h => sc_isnonzero h =? 0
  | None => false
  end.
End crypto.

Section theorems.
Context `{CurveLaws} (rnd : nat -> blob) (Hrnd : forall n, pod_ok 32 (rnd n)).

Lemma hash_bytes_some data : exists c, hash_bytes_to_scalar data = Some c /\ sc_ok c.
Proof. unfold hash_bytes_to_scalar. rewrite sc_reduce32_correct by apply cn_fast_hash_ok. eexists. split; [done|apply scalar_sc_ok]. Qed.

Lemma derivation_scalar_some d i : exists s, derivation_to_scalar d i = Some s /\ sc_ok s.
Proof. apply hash_bytes_some. Qed.

Lemma scalarmult_ok a p : sc_ok a -> ge_scalarmult a p = ge_smul (le_word a) p.
Proof. intros [Ha Hl]. apply ge_scalarmult_spec; [done|]. assert (ell < 2 ^ 255) by by_decide. lia. Qed.

Lemma derivation_of a p : sc_ok a -> generate_key_derivation (ge_tobytes p) a = Some (ge_tobytes (ge_smul (8 * le_word a) p)).
Proof. intros Ha. unfold generate_key_derivation. rewrite ge_frombytes_tobytes. cbn [mbind option_bind]. by rewrite scalarmult_ok, ge_mul8_spec, <- ge_smul_mul by done. Qed.

Lemma public_of sec : sc_ok sec -> secret_key_to_public_key sec = Some (ge_tobytes (ge_smul (le_word sec) ge_base)).
Proof. intros Hs. unfold secret_key_to_public_key. rewrite sc_check_ok by done. cbn [negb]. by rewrite ge_scalarmult_base_spec. Qed.

(** C29: the key of an output: the sender, with the secret of the transaction and
    the address, and the receiver, with the view secret and the public key of the
    transaction, find one derivation; the receiver's secret key for the output is
    that of the public key the sender makes; from this key the receiver finds the
    spend key of the address. *)
Theorem one_time_keys r a b R A B i : sc_ok r -> sc_ok a -> sc_ok b ->
  secret_key_to_public_key r = Some R -> secret_key_to_public_key a = Some A -> secret_key_to_public_key b = Some B ->
  exists D P x, generate_key_derivation A r = Some D /\ generate_key_derivation R a = Some D /\
    derive_public_key D i B = Some P /\ derive_secret_key D i b = Some x /\ sc_ok x /\ secret_key_to_public_key x = Some P /\
    derive_subaddress_public_key P D i = Some B.
Proof.
  intros Hr Ha Hb. rewrite !public_of by done. intros [= <-] [= <-] [= <-]. set (D := ge_tobytes (ge_smul (8 * le_word r * le_word a) ge_base)). exists D.
  destruct (derivation_scalar_some D i) as (s & Es & Hs). unfold derive_public_key, derive_secret_key, derive_subaddress_public_key. rewrite Es, ge_frombytes_tobytes. cbn [mbind option_bind].
  rewrite ge_scalarmult_base_spec by done. eexists _, _. split; [rewrite derivation_of, <- ge_smul_mul by done; done|].
  split; [rewrite derivation_of, <- ge_smul_mul by done; unfold D; do 3 f_equal; lia|]. split; [done|]. split; [apply sc_add_correct; [apply Hb|apply Hs]|]. split; [apply scalar_sc_ok|]. split.
  - rewrite public_of by apply scalar_sc_ok. rewrite le_word_scalar, ge_smul_mod by apply ge_order_base. by rewrite ge_smul_plus.
  - rewrite ge_frombytes_tobytes. cbn [mbind option_bind]. by rewrite ge_sub_opp, <- ge_add_assoc, ge_add_opp, ge_add_0_r.
Qed.

Lemma generate_keys_gives recovery_key : (forall r, recovery_key = Some r -> pod_ok 32 r) ->
  gives (generate_keys rnd recovery_key) (fun x => sc_ok x.1.2 /\ secret_key_to_public_key x.1.2 = Some x.1.1).
Proof.
  intros Hk. unfold generate_keys. eapply (gives_bind _ _ (pod_ok 32)).
  { destruct recovery_key as [r|]; [apply gives_ret; by apply Hk|]. eapply gives_mono; [by apply skGen_gives|]. by intros ? []. }
  intros rng Hr. eapply gives_bind_lift; [by apply sc_reduce32_correct|]. apply gives_ret. cbn [fst snd]. split; [apply scalar_sc_ok|]. rewrite public_of by apply scalar_sc_ok.
  by rewrite ge_scalarmult_base_spec by apply scalar_sc_ok.
Qed.

(** ** Signatures *)

Lemma nonzero_iff c : sc_ok c -> (sc_isnonzero c =? 0) = (le_word c =? 0).
Proof. intros Hc. rewrite sc_isnonzero_correct by apply Hc. by destruct (le_word c =? 0). Qed.

(** The difference of a challenge with itself. *)
Lemma challenge_matches c : sc_ok c -> match sc_sub c c with Some d => sc_isnonzero d =? 0 | None => false end = true.
Proof. intros Hc. rewrite sc_sub_correct, Z.sub_diag by apply Hc. rewrite nonzero_iff by apply scalar_sc_ok. by rewrite le_word_scalar. Qed.

Lemma tiny_nonzero k : sc_ok k -> tiny k = false -> le_word k <> 0.
Proof.
  intros [[Hl Hb] _] Ht Hz. unfold tiny in Ht. apply Z.eqb_neq in Ht. apply Ht. rewrite <- (take_drop 28 k), le_word_split in Hz.
  pose proof (le_word_nonneg _ (bytes_ok_take 28 k Hb)). pose proof (le_word_nonneg _ (bytes_ok_drop 28 k Hb)).
  assert (zlen (take 28 k) = 28) as E by (unfold zlen; rewrite length_take; lia). rewrite E in *. rewrite take_ge by (rewrite length_drop; lia). change (2 ^ (8 * 28)) with (2 ^ 224) in *. lia.
Qed.

Lemma sign_once_valid prefix_hash pub sec k sig : sc_ok sec -> sc_ok k -> secret_key_to_public_key sec = Some pub -> sign_once prefix_hash pub sec k = Some (Some sig) ->
  check_signature prefix_hash pub sig = true.
Proof.
  intros Hs Hk. rewrite public_of by done. intros [= <-]. unfold sign_once. destruct (tiny k) eqn:Et; [done|]. rewrite ge_scalarmult_base_spec by done.
  set (pub := ge_tobytes (ge_smul (le_word sec) ge_base)). set (comm := ge_tobytes (ge_smul (le_word k) ge_base)).
  destruct (hash_bytes_some (s_comm_bytes (SComm prefix_hash pub comm))) as (c & Ec & Hc). rewrite Ec. cbn [mbind option_bind]. destruct (sc_isnonzero c =? 0) eqn:Ez; [done|].
  destruct (mulsub_opened c sec k Hc Hs Hk) as (r & Er & Ho). rewrite Er. cbn [mbind option_bind]. destruct (sc_isnonzero r =? 0); [done|]. intros [= <-].
  unfold check_signature, pub. rewrite ge_frombytes_tobytes. cbn [sig_c sig_r]. rewrite !sc_check_ok by (done || apply Ho). rewrite Ez. cbn [negb orb].
  rewrite ge_double_base_spec by (done || apply Ho). rewrite (opened_smul c r _ _ _ Ho ge_order_base). fold comm pub. rewrite bool_decide_eq_false_2.
  - rewrite Ec. cbn [mbind option_bind]. by apply challenge_matches.
  - unfold comm. rewrite <- ge_tobytes_identity. intros E%ge_tobytes_inj%ge_base_order. rewrite Z.mod_small in E by by apply sc_ok_nonneg. by apply (tiny_nonzero k).
Qed.

(** A nonce that is not drawn again. *)
Definition good_nonce (prefix_hash pub sec k : blob) : Prop := exists sig, sign_once prefix_hash pub sec k = Some (Some sig).

Lemma sign_once_some prefix_hash pub sec k : sc_ok sec -> sc_ok k -> exists o, sign_once prefix_hash pub sec k = Some o.
Proof.
  intros Hs Hk. unfold sign_once. destruct (tiny k); [by eexists|]. destruct (hash_bytes_some (s_comm_bytes (SComm prefix_hash pub (ge_tobytes (ge_scalarmult_base k))))) as (c & -> & Hc).
  cbn [mbind option_bind]. destruct (_ =? 0); [by eexists|]. destruct (mulsub_opened c sec k Hc Hs Hk) as (r & -> & _). cbn [mbind option_bind]. destruct (_ =? 0); by eexists.
Qed.

(** when one of the random blocks that may be drawn is good, a signature is
    made, and it is accepted. *)
Theorem generate_signature_valid fuel n j prefix_hash pub sec : sc_ok sec -> secret_key_to_public_key sec = Some pub ->
  (n <= j < n + fuel)%nat -> good_nonce prefix_hash pub sec (scalar (le_word (rnd j))) ->
  exists sig n', generate_signature rnd fuel prefix_hash pub sec n = Some (sig, n') /\ (n' <= S j)%nat /\ check_signature prefix_hash pub sig = true.
Proof.
  intros Hs Hp. revert n. induction fuel as [|fuel IH]; intros n Hj Hg; [lia|]. cbn [generate_signature]. unfold gbind at 1, random_scalar at 1. rewrite random32_first by done. cbn [mbind option_bind].
  destruct (sign_once_some prefix_hash pub sec (scalar (le_word (rnd n))) Hs (scalar_sc_ok _)) as (o & Eo). unfold gbind, lift. rewrite Eo. cbn [mbind option_bind]. destruct o as [sig|].
  - exists sig, (S n). split; [done|]. split; [lia|]. eapply sign_once_valid; [exact Hs|apply scalar_sc_ok|exact Hp|exact Eo].
  - apply IH; [|done]. destruct (decide (j = n)) as [->|Hn]; [|lia]. destruct Hg as (sig & Eg). rewrite Eg in Eo. done.
Qed.

(** a proof of a derivation [D] of [A], made with the secret of [R] (of the
    base point, or of [B]), is accepted. *)
Theorem tx_proof_complete prefix_hash A (B : option point) r : sc_ok r -> main A -> (forall p, B = Some p -> main p) ->
  let R := ge_tobytes (ge_smul (le_word r) (default ge_base B)) in
  let D := ge_tobytes (ge_smul (le_word r) A) in
  gives (generate_tx_proof rnd prefix_hash R (ge_tobytes A) (ge_tobytes <$> B) D r) (fun sig => check_tx_proof prefix_hash R (ge_tobytes A) (ge_tobytes <$> B) D sig = true).
Proof.
  intros Hr HA HB R D. assert (main (default ge_base B)) as HG by (destruct B as [p|]; [by apply HB|apply ge_order_base]). assert (read_optional (ge_tobytes <$> B) = Some B) as EB by (destruct B; cbn; by rewrite ?ge_frombytes_tobytes).
  unfold generate_tx_proof, R, D. eapply gives_bind_lift; [apply ge_frombytes_tobytes|]. eapply gives_bind_lift; [apply ge_frombytes_tobytes|]. eapply gives_bind_lift; [exact EB|].
  eapply gives_bind_lift; [apply ge_frombytes_tobytes|]. eapply gives_bind; [by apply skGen_gives|]. intros k Hk.
  assert (match B with Some p => ge_scalarmult k p | None => ge_scalarmult_base k end = ge_smul (le_word k) (default ge_base B)) as -> by (destruct B; [by apply scalarmult_ok|by apply ge_scalarmult_base_spec]).
  rewrite scalarmult_ok by done. set (data := s_comm_2_bytes _). destruct (hash_bytes_some data) as (c & Ec & Hc). eapply gives_bind_lift; [exact Ec|].
  destruct (mulsub_opened c r k Hc Hr Hk) as (s & Es & Ho). eapply gives_bind_lift; [exact Es|]. apply gives_ret. unfold check_tx_proof, reread. cbn [sig_c sig_r].
  rewrite EB, !ge_frombytes_tobytes. cbn [mbind option_bind]. rewrite !sc_check_ok by (done || apply Ho). cbn [negb orb]. rewrite !ge_frombytes_tobytes. cbn [mbind option_bind].
  assert (match B with Some p => ge_frombytes_vartime (ge_tobytes (ge_scalarmult s p)) | None => Some (ge_scalarmult_base s) end = Some (ge_smul (le_word s) (default ge_base B))) as ->
    by (destruct B; [rewrite ge_frombytes_tobytes; cbn; by rewrite scalarmult_ok by apply Ho|rewrite ge_scalarmult_base_spec by apply Ho; done]).
  cbn [mbind option_bind]. rewrite !scalarmult_ok by (done || apply Ho).
  rewrite (opened_smul c s _ _ _ Ho HG), (opened_smul c s _ _ _ Ho HA). fold data. rewrite Ec. cbn [mbind option_bind]. by apply challenge_matches.
Qed.

(** ** Ring signatures *)
Lemma member_ab_some image pub sig : decodes pub -> exists ab, member_ab image pub sig = Some ab.
Proof. intros [p Ep]. unfold member_ab. rewrite Ep. by eexists. Qed.

Definition sig_ok (s : signature) : Prop := sc_ok (sig_c s) /\ sc_ok (sig_r s).

(** What the check makes of a part of the ring: the commitments, and the sum. *)
Definition checks (image : point) (pubs : list blob) (sigs : list signature) (ab : list (blob * blob)) (z : Z) : Prop :=
  forall s0, sc_ok s0 -> exists s1, check_ring_loop image pubs sigs s0 = Some (ab, s1) /\ sc_ok s1 /\ le_word s1 = (le_word s0 + z) mod ell.

Lemma checks_nil image : checks image [] [] [] 0.
Proof. intros s0 H0'. exists s0. split; [done|]. split; [done|]. by rewrite Z.add_0_r, Z.mod_small by by apply sc_ok_nonneg. Qed.

Lemma checks_cons image pub pubs sig sigs ab abs z : sig_ok sig -> member_ab image pub sig = Some ab -> checks image pubs sigs abs z ->
  checks image (pub :: pubs) (sig :: sigs) (ab :: abs) (le_word (sig_c sig) + z).
Proof.
  intros [Hc Hr] Em Hch s0 H0'. destruct (Hch (scalar (le_word s0 + le_word (sig_c sig))) (scalar_sc_ok _)) as (s1 & E1 & Hs1 & Ew). exists s1. split; [|split; [done|]].
  - cbn [check_ring_loop]. rewrite !sc_check_ok by done. cbn [negb orb]. rewrite Em. cbn [mbind option_bind]. rewrite sc_add_correct by (apply H0' || apply Hc). cbn [mbind option_bind]. by rewrite E1.
  - rewrite Ew, le_word_scalar, Zplus_mod_idemp_l. f_equal. lia.
Qed.

Lemma checks_mod image pubs sigs ab z z' : z mod ell = z' mod ell -> checks image pubs sigs ab z -> checks image pubs sigs ab z'.
Proof. intros E Hch s0 H0'. destruct (Hch s0 H0') as (s1 & E1 & Hs1 & Ew). exists s1. split; [done|]. split; [done|]. by rewrite Ew, <- (Zplus_mod_idemp_r z), E, Zplus_mod_idemp_r. Qed.

(** The members after the signer. *)
Lemma ring_loop_after image pubs i sec_index sum k : (sec_index < i)%nat -> Forall decodes pubs -> sc_ok sum ->
  gives (ring_loop rnd image pubs i sec_index sum k) (fun x => let '(sigs, ab, sum', k') := x in
    k' = k /\ sc_ok sum' /\ length sigs = length pubs /\ checks image pubs sigs ab (le_word sum' - le_word sum)).
Proof.
  intros Hi Hd. revert i sum Hi. induction Hd as [|pub pubs Hpub _ IH]; intros i sum Hi Hs; cbn [ring_loop].
  - apply gives_ret. split; [done|]. split; [done|]. split; [done|]. rewrite Z.sub_diag. apply checks_nil.
  - rewrite decide_False by lia. eapply gives_bind; [by apply skGen_gives|]. intros c Hc. eapply gives_bind; [by apply skGen_gives|]. intros r Hr.
    destruct (member_ab_some image pub (Signature c r) Hpub) as (ab & Eab). eapply gives_bind_lift; [exact Eab|]. eapply gives_bind_lift; [apply sc_add_correct; [apply Hs|apply Hc]|].
    eapply gives_bind; [apply IH; [lia|apply scalar_sc_ok]|]. intros [[[sigs abs] sum'] k'] (-> & Hs' & Hl & Hch). apply gives_ret. split; [done|]. split; [done|]. split; [cbn; by rewrite Hl|].
    eapply checks_mod; [|by apply (checks_cons _ _ _ (Signature c r)); [..|exact Hch]]. cbn [sig_c]. rewrite le_word_scalar. rewrite Z.add_sub_assoc, Zminus_mod_idemp_r. f_equal. lia.
Qed.

(** The whole ring: any response that opens to the nonce closes it. *)
Lemma ring_loop_closes image hp x pubs i sec_index sum k pub : (i <= sec_index)%nat -> pubs !! (sec_index - i)%nat = Some pub -> Forall decodes pubs -> sc_ok sum ->
  key_of pub x -> hash_to_ec pub = hp -> main hp -> image = ge_smul x hp ->
  gives (ring_loop rnd image pubs i sec_index sum k) (fun y => let '(sigs, ab, sum', k') := y in
    sc_ok k' /\ sc_ok sum' /\ length sigs = length pubs /\
    forall c r, sc_ok c -> opened c r (le_word k') x -> checks image pubs (<[(sec_index - i)%nat := Signature c r]> sigs) ab (le_word sum' - le_word sum + le_word c)).
Proof.
  intros Hi Hp Hd Hs Hk Eh Hm ->. revert i sum Hi Hp Hs. induction Hd as [|pub' pubs Hpub Hd IH]; intros i sum Hi Hp Hs; [done|]. cbn [ring_loop]. destruct (decide (i = sec_index)) as [->|Hne].
  - rewrite Nat.sub_diag in Hp. injection Hp as ->. eapply gives_bind; [by apply skGen_gives|]. intros k0 Hk0. eapply gives_bind; [apply ring_loop_after; [lia|done|done]|].
    intros [[[sigs abs] sum'] k'] (-> & Hs' & Hl & Hch). apply gives_ret. split; [done|]. split; [done|]. split; [cbn; by rewrite Hl|]. intros c r Hc Ho. rewrite Nat.sub_diag. cbn [list_insert].
    rewrite Z.add_comm. change (le_word c) with (le_word (sig_c (Signature c r))). apply (checks_cons _ _ _ (Signature c r)); [split; [done|apply Ho]| |done].
    unfold member_ab. rewrite Hk. cbn [mbind option_bind sig_c sig_r]. rewrite Eh. rewrite ge_double_base_spec, ge_double_precomp_spec by (done || apply Ho).
    rewrite (opened_smul c r _ _ _ Ho ge_order_base), (ge_add_comm (ge_smul (le_word r) hp)), (opened_smul c r _ _ _ Ho Hm). by rewrite ge_scalarmult_base_spec, scalarmult_ok.
  - replace (sec_index - i)%nat with (S (sec_index - S i)) in Hp by lia. cbn in Hp. eapply gives_bind; [by apply skGen_gives|]. intros c Hc. eapply gives_bind; [by apply skGen_gives|]. intros r Hr.
    destruct (member_ab_some (ge_smul x hp) pub' (Signature c r) Hpub) as (ab & Eab). eapply gives_bind_lift; [exact Eab|]. eapply gives_bind_lift; [apply sc_add_correct; [apply Hs|apply Hc]|].
    eapply gives_bind; [apply IH; [lia|done|apply scalar_sc_ok]|]. intros [[[sigs abs] sum'] k'] (Hk' & Hs' & Hl & Hch). apply gives_ret. split; [done|]. split; [done|]. split; [cbn; by rewrite Hl|].
    intros c1 r1 Hc1 Ho1. replace (sec_index - i)%nat with (S (sec_index - S i)) by lia. cbn [list_insert].
    eapply checks_mod; [|by apply (checks_cons _ _ _ (Signature c r)); [..|apply (Hch c1 r1)]]. cbn [sig_c]. rewrite le_word_scalar.
    replace (le_word c + (le_word sum' - (le_word sum + le_word c) mod ell + le_word c1)) with (le_word c + le_word sum' + le_word c1 - (le_word sum + le_word c) mod ell) by lia. rewrite Zminus_mod_idemp_r. f_equal. lia.
Qed.

(** C30: a ring signature made with the secret key of a member of the ring, and
    the key image of this key, is accepted. *)
Theorem ring_signature_complete prefix_hash pubs sec sec_index pub : sc_ok sec -> Forall decodes pubs -> pubs !! sec_index = Some pub -> secret_key_to_public_key sec = Some pub ->
  let image := generate_key_image pub sec in
  gives (generate_ring_signature rnd prefix_hash image pubs sec sec_index) (fun sigs => length sigs = length pubs /\ check_ring_signature prefix_hash image pubs sigs = true).
Proof.
  intros Hs Hd Hp Epub image. rewrite public_of in Epub by done. injection Epub as <-. set (pub := ge_tobytes _) in *. set (hp := hash_to_ec pub).
  assert (main hp) as Hm by (unfold hp, hash_to_ec; rewrite ge_mul8_spec; apply ge_order_8). assert (image = ge_tobytes (ge_smul (le_word sec) hp)) as Ei by (unfold image, generate_key_image; by rewrite scalarmult_ok).
  assert (key_of pub (le_word sec)) as Hk by apply ge_frombytes_tobytes. unfold generate_ring_signature, check_ring_signature. rewrite Ei, ge_frombytes_tobytes. eapply gives_bind_lift; [done|].
  assert (sc_ok sc_0) as H0' by by_decide. eapply gives_bind; [eapply (ring_loop_closes _ hp (le_word sec) pubs 0 sec_index sc_0 zero_key pub); try done; [lia|by rewrite Nat.sub_0_r]|].
  intros [[[sigs ab] sum] k] (Hk' & Hs' & Hl & Hch). destruct (hash_bytes_some (rs_comm_bytes prefix_hash ab)) as (h & Eh & Hh). eapply gives_bind_lift; [exact Eh|].
  eapply gives_bind_lift; [apply sc_sub_correct; [apply Hh|apply Hs']|]. set (c := scalar _). assert (sc_ok c) as Hc by apply scalar_sc_ok.
  destruct (mulsub_opened c sec k Hc Hs Hk') as (r & Er & Ho). eapply gives_bind_lift; [exact Er|]. apply gives_ret. split; [by rewrite length_insert|].
  destruct (Hch c r Hc Ho sc_0 H0') as (s1 & E1 & Hs1 & Ew). rewrite Nat.sub_0_r in E1. cbn [mbind option_bind]. rewrite E1. cbn [mbind option_bind fst snd]. rewrite Eh. cbn [mbind option_bind].
  assert (s1 = h) as ->; [|by apply challenge_matches]. rewrite <- (sc_ok_scalar s1 Hs1), <- (sc_ok_scalar h Hh). unfold scalar. f_equal. rewrite Ew. change (le_word sc_0) with 0.
  unfold c. rewrite le_word_scalar. rewrite Zmod_mod, Z.sub_0_r, Z.add_0_l, Zplus_mod_idemp_r. f_equal. lia.
Qed.
End theorems.
