(* ===== verification/RctModel.v ===== *)
(** * A group with the laws of the curve

    The residues modulo the order of the scalars, with encodings of 32 bytes: an
    instance of [CurveLaws] (and of [BulletproofsLaws]), so that the theorems of
    RctProofs.v are not about nothing.  It is no part of the program. *)
From Stdlib Require Import ZArith Lia Bool.
From stdpp Require Import prelude.
From S2P Require Import Prelude Archive Rct Keccak Limbs Scalar RctOps CryptonoteBasic Hashing RctSigs RctProofs Crypto.
Local Open Scope Z_scope.
Local Open Scope gen_scope.

#[local] Opaque cn_fast_hash.

Definition reduced_z (z : Z) : Prop := 0 <= z < ell.
#[export] Instance reduced_z_dec z : Decision (reduced_z z).
Proof. unfold reduced_z. apply _. Defined.
#[export] Instance sc_ok_dec b : Decision (sc_ok b).
Proof. unfold sc_ok, pod_ok, bytes_ok. apply _. Defined.

Lemma reduced_mod z : reduced_z (z mod ell).
Proof. apply Z.mod_pos_bound. by_decide. Qed.
Definition residue : Type := dsig reduced_z.
Definition res (z : Z) : residue := dexist (z mod ell) (reduced_mod z).

Lemma res_eq x y : x mod ell = y mod ell -> res x = res y.
Proof. intros E. by apply dsig_eq. Qed.
Lemma res_self (p : residue) : res (`p) = p.
Proof. apply dsig_eq. cbn. apply Z.mod_small. apply (proj2_dsig p). Qed.
Lemma res_val z : proj1_sig (res z) = z mod ell.
Proof. done. Qed.

(** The identity is encoded as 1. *)
Definition res_tobytes (p : residue) : blob := scalar (`p + 1).
Definition res_frombytes (b : blob) : option residue := if bool_decide (sc_ok b) then Some (res (le_word b - 1)) else None.

Definition res_add (p q : residue) : residue := res (`p + `q).
Definition res_sub (p q : residue) : residue := res (`p - `q).
Definition res_opp (p : residue) : residue := res (- `p).
Definition res_smul (x : Z) (p : residue) : residue := res (x * `p).

#[local] Instance residues : Curve := {
  point := residue;
  ge_frombytes_vartime := res_frombytes;
  ge_tobytes := res_tobytes;
  ge_add := res_add;
  ge_sub := res_sub;
  ge_identity := res 0;
  ge_p3_H := res 5;
  ge_scalarmult a p := res_smul (le_word a) p;
  ge_scalarmult_base a := res_smul (le_word a) (res 1);
  ge_double_scalarmult_base_vartime a p b := res_add (res_smul (le_word a) p) (res_smul (le_word b) (res 1));
  ge_double_scalarmult_precomp_vartime a p b q := res_add (res_smul (le_word a) p) (res_smul (le_word b) q);
  ge_mul8 p := res_smul 8 p;
  ge_fromfe_frombytes_vartime _ := res 1;
  key_G := res_tobytes (res 1);
  key_H := res_tobytes (res 5);
  H2 := (fun i => res_tobytes (res_smul (2 ^ Z.of_nat i) (res 5))) <$> seq 0 64
}.

Lemma res_frombytes_tobytes p : res_frombytes (res_tobytes p) = Some p.
Proof.
  unfold res_frombytes, res_tobytes. rewrite bool_decide_eq_true_2 by apply scalar_sc_ok. f_equal. rewrite le_word_scalar. rewrite <- (res_self p) at 2. apply res_eq.
  rewrite Zminus_mod_idemp_l. f_equal. lia.
Qed.

(** Equations between residues are equations between integers modulo the order. *)
Ltac residues := intros; apply res_eq; rewrite ?res_val;
  repeat (rewrite Zplus_mod_idemp_l || rewrite Zplus_mod_idemp_r || rewrite Zminus_mod_idemp_l || rewrite Zminus_mod_idemp_r || rewrite Zmult_mod_idemp_r || rewrite Zmult_mod_idemp_l);
  f_equal; ring.

#[local] Instance residues_laws : @CurveLaws residues.
Proof.
  refine (@Build_CurveLaws residues res_opp res_smul (res 1) _ _ _ _ _ _ _ _ _ _ _ _ _ _ _ _ _ _ _ _ _ _); cbn [residues point ge_frombytes_vartime ge_tobytes ge_add ge_sub ge_identity ge_p3_H ge_scalarmult ge_scalarmult_base ge_double_scalarmult_base_vartime ge_double_scalarmult_precomp_vartime ge_mul8 key_G key_H H2]; unfold res_add, res_sub, res_opp, res_smul.
  all: try by residues.
  - intros p. rewrite <- (res_self p) at 2. apply res_eq. by rewrite res_val.
  - intros p. rewrite Z.mul_1_l. apply res_self.
  - intros x E. apply (f_equal proj1_sig) in E. rewrite !res_val, Zmult_mod_idemp_r, Z.mul_1_r in E. exact E.
  - intros p. apply res_eq. by rewrite Z.mul_comm, Z_mod_mult.
  - apply res_frombytes_tobytes.
  - intros p. apply scalar_ok.
  - by_decide.
  - apply res_frombytes_tobytes.
  - apply res_frombytes_tobytes.
  - intros i Hi. eexists. split; [|apply res_frombytes_tobytes]. rewrite list_lookup_fmap, lookup_seq_lt by done. done.
Defined.

(** Proofs that show nothing, of the right shape. *)
Definition rounds (n : nat) : nat := if decide (n <= 1)%nat then 6 else if decide (n <= 2)%nat then 7 else if decide (n <= 4)%nat then 8 else if decide (n <= 8)%nat then 9 else 10.
Definition eighth_key (y : blob * Z) : blob := res_tobytes (res (le_word INV_EIGHT * (le_word y.1 + y.2 * 5))).
Definition empty_proof (amounts : list Z) (masks : list blob) : Bulletproof :=
  let L := replicate (rounds (length amounts)) zero_key in
  MkBulletproof (eighth_key <$> zip masks amounts) zero_key zero_key zero_key zero_key zero_key zero_key L L zero_key zero_key zero_key.
#[local] Instance empty_proofs : Bulletproofs := {
  bulletproof_PROVE amounts masks := gret (empty_proof amounts masks);
  bulletproof_VERIFY _ := Some true
}.

Lemma empty_proof_amounts amounts masks : (1 <= length amounts <= 16)%nat -> length masks = length amounts -> n_bulletproof_amounts_1 (empty_proof amounts masks) = zlen amounts.
Proof.
  intros Hn Hm. set (count l v := let p := MkBulletproof (replicate v zero_key) zero_key zero_key zero_key zero_key zero_key zero_key (replicate l zero_key) (replicate l zero_key) zero_key zero_key zero_key in
    n_bulletproof_amounts_1 p). assert (n_bulletproof_amounts_1 (empty_proof amounts masks) = count (rounds (length amounts)) (length amounts)) as ->.
  { unfold count, n_bulletproof_amounts_1, empty_proof, zlen. cbn [bp_L bp_R bp_V]. by rewrite !length_replicate, length_fmap, length_zip_with, Hm, Nat.min_id. }
  unfold zlen. assert (Forall (fun n => count (rounds n) n = Z.of_nat n) (seq 1 16)) as Hall by by_decide. rewrite Forall_forall in Hall. apply Hall. apply elem_of_seq. lia.
Qed.

Lemma eighth_key_opens y : sc_ok y.1 -> eighth (eighth_key y) y.
Proof.
  intros Hy. eexists. split; [done|]. split; [done|]. change (res_smul 8 (res (le_word INV_EIGHT * (le_word y.1 + y.2 * 5))) = res_add (res_smul (le_word y.1) (res 1)) (res_smul y.2 (res 5))).
  unfold res_smul, res_add. apply res_eq. rewrite !res_val. rewrite <- Zplus_mod, !Zmult_mod_idemp_r, Z.mul_assoc, Z.mul_1_r, <- Zplus_mod_idemp_r, Zmult_mod_idemp_r, Zplus_mod_idemp_r.
  rewrite <- Zmult_mod_idemp_l. change ((8 * le_word INV_EIGHT) mod ell) with 1. by rewrite Z.mul_1_l.
Qed.

#[local] Instance empty_proofs_laws : BulletproofsLaws.
Proof.
  split.
  - intros amounts masks Hl Ha Hm Hlm. apply gives_ret. split; [|split; [|done]].
    + cbn [empty_proof bp_V]. apply Forall2_fmap_l. assert (Forall (fun y => sc_ok y.1) (zip masks amounts)) as Hz.
      { apply Forall_lookup. intros i [m v] (m' & v' & [= -> ->] & Hm' & _)%lookup_zip_with_Some. rewrite Forall_lookup in Hm. by eapply Hm. }
      induction Hz as [|y l Hy _ IH]; constructor; [by apply eighth_key_opens|done].
    + by apply empty_proof_amounts.
  - done.
Qed.

(** ** Instances of the theorems *)
Definition some_rnd (n : nat) : blob := le_bytes 32 (7 + Z.of_nat n).
Lemma some_rnd_ok n : pod_ok 32 (some_rnd n).
Proof. apply le_bytes_ok. Qed.

Definition key (x : Z) : blob := ge_tobytes (ge_smul x ge_base).
Definition commitment (z v : Z) : blob := ge_tobytes (ge_add (ge_smul z ge_base) (ge_smul v ge_p3_H)).
Definition pub (x z v : Z) : ctkey := (key x, commitment z v).

Lemma hash_not_identity k : hashToPoint k <> identity_key.
Proof. change (res_tobytes (res_smul 8 (res 1)) <> identity_key). by_decide. Qed.
Lemma pub_member x z v : member_ok (pub x z v).
Proof. split; [apply decodes_tobytes|split; [apply decodes_tobytes|apply hash_not_identity]]. Qed.

Lemma key_is x : key_of (key x) x.
Proof. apply ge_frombytes_tobytes. Qed.
Lemma opens_mask z v : 0 <= z < ell -> opens (ge_add (ge_smul z ge_base) (ge_smul v ge_p3_H)) (scalar z) v.
Proof. intros Hz. split; [apply scalar_sc_ok|]. by rewrite le_word_scalar, Z.mod_small. Qed.
Lemma commitment_is z v : 0 <= z < ell -> commits (commitment z v) (scalar z, v).
Proof. intros Hz. eexists. split; [done|]. by apply opens_mask. Qed.
Lemma pub_spendable x z v : 0 <= x < ell -> 0 <= z < ell -> spendable (pub x z v) (scalar x, scalar z) v.
Proof.
  intros Hx Hz. split; [|split; [apply scalar_sc_ok|]].
  - unfold pub. cbn [fst]. rewrite le_word_scalar, Z.mod_small by done. apply key_is.
  - eexists. split; [apply ge_frombytes_tobytes|by apply opens_mask].
Qed.

Definition some_ring : list ctkey := [pub 3 4 10; pub 5 6 20].
Lemma some_ring_ok : Forall member_ok some_ring.
Proof. constructor; [apply pub_member|]. constructor; [apply pub_member|constructor]. Qed.
Lemma some_sources : sources_ok [(scalar 5, scalar 6)] [some_ring] [20] [1%nat].
Proof.
  split; [done|]. split; [done|]. split; [done|]. intros [|j] sk r v i; [|done]. intros [= <-] [= <-] [= <-] [= <-]. split; [cbn; lia|]. split; [apply some_ring_ok|].
  exists (pub 5 6 20). split; [done|]. apply pub_spendable; by_decide.
Qed.

Lemma genRctSimple_complete_witness :
  gives (genRctSimple some_rnd zero_key [(scalar 5, scalar 6)] [key 9] [20] [15] 5 [some_ring] [key 11] None [1%nat] RangeProofMultiOutputBulletproof) (fun x => let '(rv, outSk, _) := x in
    verRctSemanticsSimple (f_sig rv) = true /\ verRctNonSemanticsSimple rv = true /\ all_read (decodeRctSimple (f_sig rv)) [15] [key 11] outSk /\
    images_ok [(scalar 5, scalar 6)] [some_ring] [1%nat] (f_II rv)).
Proof.
  apply (genRctSimple_complete some_rnd some_rnd_ok zero_key [(scalar 5, scalar 6)] [key 9] [20] [15] 5 [some_ring] [key 11] [1%nat] RangeProofMultiOutputBulletproof);
    [done|apply some_sources|done|done|by_decide|by_decide|by_decide|by_decide|by_decide].
Defined.

Lemma genRct_complete_witness :
  gives (genRct some_rnd zero_key [(scalar 5, scalar 6)] [key 9] [15; 5] [[pub 3 4 10]; [pub 5 6 20]] [key 11] None 1) (fun x => let '(rv, outSk, _) := x in
    verRct_semantics (f_sig rv) = true /\ verRct_full rv = true /\ all_read (decodeRct (f_sig rv)) [15] [key 11] outSk /\
    exists II, f_II rv = [II] /\ Forall2 (fun y => key_image_of y.1.1 (le_word y.2.1)) (zip [pub 5 6 20] [(scalar 5, scalar 6)]) II).
Proof.
  apply (genRct_complete some_rnd some_rnd_ok zero_key [(scalar 5, scalar 6)] [key 9] [15; 5] [[pub 3 4 10]; [pub 5 6 20]] [key 11] 1 [20] [pub 5 6 20]);
    [by right|done|by_decide|done| |by_decide|done|done|done| |by_decide].
  - constructor; [constructor; [apply pub_member|constructor]|]. constructor; [constructor; [apply pub_member|constructor]|constructor].
  - constructor; [|constructor]. apply pub_spendable; by_decide.
Defined.

Definition some_matrix : list (list blob) := [[key 3; key 4]; [key 7; key 6]].
Definition some_hash : point := ge_smul 8 (res 1).
Lemma multisig_complete_witness : let shares := [(scalar 8, scalar 5); (scalar 9, scalar 2)] in
  gives (MLSAG_Gen some_rnd zero_key some_matrix [scalar 5; scalar 6] (Some (KLRki (scalar 8) (key 17) (ge_tobytes (ge_smul 17 some_hash)) (ge_tobytes (ge_smul 7 some_hash)))) 1 1)
    (fun y => let '(mg, II, c) := y in II = [ge_tobytes (ge_smul 7 some_hash)] /\
      exists mg', sign_all c 1 [(scalar 9, scalar 2)] mg = Some mg' /\ MLSAG_Ver zero_key some_matrix mg' II 1 = true).
Proof.
  intros shares. apply (multisig_complete some_rnd some_rnd_ok zero_key some_matrix [scalar 6] (scalar 5) (scalar 8) (key 17) _ _ 1 2 [(scalar 9, scalar 2)] some_hash) with (key := key 7) (col := [key 6]);
    [split; [cbn; lia|split; [lia|by_decide]]|cbn; lia| | | |done|apply key_is| |done|apply ge_order_8|done|done|done].
  - repeat (constructor; [repeat (constructor; [apply decodes_tobytes|]); constructor|]). constructor.
  - repeat (constructor; [constructor; [apply hash_not_identity|constructor]|]). constructor.
  - repeat (constructor; [split; apply scalar_sc_ok|]). constructor.
  - constructor; [|constructor]. split; [|apply scalar_sc_ok]. rewrite le_word_scalar. apply key_is.
Defined.

Definition some_sig : rctSig :=
  RctSig RCTTypeBulletproof 2 [] [EcdhTuple zero_key zero_key] [commitment 1 5] (RctSigPrunable [] [empty_proof [5] [scalar 1]] [MgSig [] zero_key] [commitment 1 7]).

Lemma verRctSemanticsSimple_batch_witness : verRctSemanticsSimple_all [some_sig; some_sig] = forallb verRctSemanticsSimple [some_sig; some_sig].
Proof. apply (verRctSemanticsSimple_batch [some_sig; some_sig]). intros ps _. by induction ps. Defined.

Lemma accepted_signature_balances_witness : let y := 5 + 0 + 2 - (7 + 0) in y = 0 \/ (y mod ell <> 0 /\ ge_smul (1 + 0 - (1 + 0)) ge_base = ge_smul y ge_p3_H).
Proof.
  apply (accepted_signature_balances some_sig [(scalar 1, 7)] [(scalar 1, 5)]); [vm_compute; reflexivity|by_decide| | |by_decide|by_decide|by_decide|by_decide].
  - constructor; [apply commitment_is; by_decide|constructor].
  - constructor; [apply commitment_is; by_decide|constructor].
Defined.

(** ** Keys and signatures *)
Lemma public_scalar x : 0 <= x < ell -> secret_key_to_public_key (scalar x) = Some (key x).
Proof. intros Hx. rewrite public_of by apply scalar_sc_ok. by rewrite le_word_scalar, Z.mod_small. Qed.

Lemma one_time_keys_witness : exists D P x, generate_key_derivation (key 5) (scalar 3) = Some D /\ generate_key_derivation (key 3) (scalar 5) = Some D /\
  derive_public_key D 2 (key 7) = Some P /\ derive_secret_key D 2 (scalar 7) = Some x /\ sc_ok x /\ secret_key_to_public_key x = Some P /\
  derive_subaddress_public_key P D 2 = Some (key 7).
Proof. apply (one_time_keys (scalar 3) (scalar 5) (scalar 7) (key 3) (key 5) (key 7) 2); first [apply scalar_sc_ok|apply public_scalar; by_decide]. Defined.

Definition great_rnd (n : nat) : blob := le_bytes 32 (2 ^ 240 * Z.of_nat n).
Lemma generate_signature_valid_witness : exists sig n', generate_signature great_rnd 2 zero_key (key 5) (scalar 5) 0%nat = Some (sig, n') /\ (n' <= 2)%nat /\ check_signature zero_key (key 5) sig = true.
Proof.
  apply (generate_signature_valid great_rnd (fun n => le_bytes_ok 32 _) 2 0 1 zero_key (key 5) (scalar 5)); [apply scalar_sc_ok|apply public_scalar; by_decide|lia|].
  eexists. vm_compute. reflexivity.
Defined.

Lemma tx_proof_complete_witness : let R := key 3 in let D := ge_tobytes (ge_smul 3 ge_p3_H) in
  gives (generate_tx_proof some_rnd zero_key R (ge_tobytes ge_p3_H) None D (scalar 3)) (fun sig => check_tx_proof zero_key R (ge_tobytes ge_p3_H) None D sig = true).
Proof. apply (tx_proof_complete some_rnd some_rnd_ok zero_key ge_p3_H None (scalar 3)); [apply scalar_sc_ok|apply ge_order_H|done]. Defined.

Lemma ring_signature_complete_witness : let image := generate_key_image (key 5) (scalar 5) in
  gives (generate_ring_signature some_rnd zero_key image [key 3; key 5; key 7] (scalar 5) 1) (fun sigs => length sigs = 3%nat /\ check_ring_signature zero_key image [key 3; key 5; key 7] sigs = true).
Proof.
  apply (ring_signature_complete some_rnd some_rnd_ok zero_key [key 3; key 5; key 7] (scalar 5) 1 (key 5)); [apply scalar_sc_ok| |done|apply public_scalar; by_decide].
  repeat (constructor; [apply decodes_tobytes|]). constructor.
Defined.
