(* ===== verification/Money.v ===== *)
(** * Amounts

    Model of the functions on money of
    src/cryptonote_basic/cryptonote_format_utils.{h,cpp}: printing and parsing
    amounts, sums and their overflow checks, fees, weights, ring member offsets
    and the decomposition of an amount into digits.  64-bit sums wrap. *)
From Stdlib Require Import ZArith Lia Bool.
From stdpp Require Import prelude strings sorting.
From S2P Require Import Prelude StringTools Varint Archive Rct CryptonoteBasic.
Local Open Scope Z_scope.

(** ** Strings of amounts *)

(** [power_integral]: the loop runs [b - 1] times. *)
Definition power_integral (a b : Z) : Z :=
  if b =? 0 then 1 else Nat.iter (Z.to_nat (b - 1)) (fun total => u64 (total * a)) a.

(** [default_decimal_point] is a global that only takes the values 6 and 0. *)
Definition CRYPTONOTE_DISPLAY_DECIMAL_POINT : Z := 6.
Definition set_default_decimal_point (decimal_point : Z) : option Z :=
  if (decimal_point =? 6) || (decimal_point =? 0) then Some decimal_point else None.

(** [get_unit] switches on the default, whatever its argument. *)
Definition get_unit (default_decimal_point decimal_point : Z) : option blob :=
  let _ := if decimal_point =? u32 (-1) then default_decimal_point else decimal_point in
  if default_decimal_point =? 6 then Some (str "xcash"%string)
  else if default_decimal_point =? 0 then Some (str "zachy"%string)
  else None.

Definition point : Z := 46.

Definition print_money (amount decimal_point : Z) : blob :=
  let s := to_string amount in
  let s := if zlen s <? decimal_point + 1 then replicate (Z.to_nat (decimal_point + 1 - zlen s)) 48 ++ s else s in
  if 0 <? decimal_point
  then let n := Z.to_nat (zlen s - decimal_point) in take n s ++ point :: drop n s
  else s.

(** [boost::algorithm::trim] *)
Fixpoint trim_left (s : blob) : blob :=
  match s with
  | c :: s' => if is_space c then trim_left s' else s
  | [] => []
  end.
Definition trim (s : blob) : blob := rev (trim_left (rev (trim_left s))).

Fixpoint find_first_of (c : Z) (s : blob) : option nat :=
  match s with
  | [] => None
  | x :: s => if x =? c then Some O else S <$> find_first_of c s
  end.

(** The loop that drops zeros beyond the supported fraction, on the reversed
    string: [back] is the last character. *)
Fixpoint drop_zeros (decimal_point : Z) (rs : blob) (fraction_size : Z) : blob * Z :=
  match rs with
  | 48 :: rs' => if decimal_point <? fraction_size then drop_zeros decimal_point rs' (fraction_size - 1) else (rs, fraction_size)
  | _ => (rs, fraction_size)
  end.

Definition parse_amount (default_decimal_point : Z) (str_amount_ : blob) : option Z :=
  let str_amount := trim str_amount_ in
  let finish str_amount fraction_size :=
    match str_amount with
    | [] => None
    | _ =>
        let str_amount := if fraction_size <? default_decimal_point
                          then str_amount ++ replicate (Z.to_nat (default_decimal_point - fraction_size)) 48
                          else str_amount in
        get_xtype_from_string str_amount
    end in
  match find_first_of point str_amount with
  | Some point_index =>
      let fraction_size := zlen str_amount - Z.of_nat point_index - 1 in
      let '(rs, fraction_size) := drop_zeros default_decimal_point (rev str_amount) fraction_size in
      if default_decimal_point <? fraction_size then None
      else let s := rev rs in finish (take point_index s ++ drop (S point_index) s) fraction_size
  | None => finish str_amount 0
  end.

(** ** Sums *)
Fixpoint get_inputs_money_amount_loop (l : list txin_v) (money : Z) : option Z :=
  match l with
  | [] => Some money
  | txin_to_key amount _ _ :: l => get_inputs_money_amount_loop l (u64 (money + amount))
  | _ => None
  end.
Definition get_inputs_money_amount (tx : transaction) : option Z :=
  get_inputs_money_amount_loop (vin (tx_prefix tx)) 0.

Definition get_outs_money_amount (tx : transaction) : Z :=
  foldl (fun acc o => u64 (acc + out_amount o)) 0 (vout (tx_prefix tx)).

Definition get_tx_fee (tx : transaction) : option Z :=
  if 1 <? version (tx_prefix tx) then Some (txnFee (rct_signatures tx))
  else
    match get_inputs_money_amount tx with
    | None => None
    | Some amount_in =>
        let amount_out := get_outs_money_amount tx in
        if negb (amount_out <=? amount_in) then None else Some (u64 (amount_in - amount_out))
    end.

Definition is_to_key (i : txin_v) : bool := match i with txin_to_key _ _ _ => true | _ => false end.
Definition check_inputs_types_supported (tx : transaction) : bool := forallb is_to_key (vin (tx_prefix tx)).

(** [check_key] is curve arithmetic (src/crypto/crypto.cpp). *)
Definition check_outs_valid (check_key : blob -> bool) (tx : transaction) : bool :=
  forallb (fun o =>
    match target o with
    | target_key k => negb ((version (tx_prefix tx) =? 1) && negb (0 <? out_amount o)) && check_key k
    | _ => false
    end) (vout (tx_prefix tx)).

Fixpoint check_inputs_overflow_loop (l : list txin_v) (money : Z) : bool :=
  match l with
  | [] => true
  | txin_to_key amount _ _ :: l =>
      if u64 (amount + money) <? money then false else check_inputs_overflow_loop l (u64 (money + amount))
  | _ => false
  end.
Definition check_inputs_overflow (tx : transaction) : bool := check_inputs_overflow_loop (vin (tx_prefix tx)) 0.

Fixpoint check_outs_overflow_loop (l : list tx_out) (money : Z) : bool :=
  match l with
  | [] => true
  | o :: l => if u64 (out_amount o + money) <? money then false else check_outs_overflow_loop l (u64 (money + out_amount o))
  end.
Definition check_outs_overflow (tx : transaction) : bool := check_outs_overflow_loop (vout (tx_prefix tx)) 0.

Definition check_money_overflow (tx : transaction) : bool := check_inputs_overflow tx && check_outs_overflow tx.

(** ** Weight; [None] is an exception *)
Definition get_transaction_weight_of (tx : transaction) (blob_size : Z) : option Z :=
  let rv := rct_signatures tx in
  if version (tx_prefix tx) <? 2 then Some blob_size
  else if negb (is_rct_bulletproof (rct_type rv)) then Some blob_size
  else if zlen (vout (tx_prefix tx)) <=? 2 then Some blob_size
  else
    let bp_base := 368 in
    let n_padded_outputs := n_bulletproof_max_amounts (bulletproofs (rct_p rv)) in
    let nlr := foldl (fun acc bp => u64 (acc + u64 (zlen (bp_L bp) * 2))) 0 (bulletproofs (rct_p rv)) in
    let bp_size := u64 (32 * u64 (9 + nlr)) in
    if negb (bp_size <=? u64 (bp_base * n_padded_outputs)) then None
    else
      let bp_clawback := u64 (u64 (u64 (bp_base * n_padded_outputs) - bp_size) * 4) / 5 in
      if negb (bp_clawback <=? 2 ^ 64 - 1 - blob_size) then None
      else Some (u64 (blob_size + bp_clawback)).

Definition get_transaction_weight (tx : transaction) : option Z :=
  get_transaction_weight_of tx (zlen (t_serializable_object_to_blob transaction_codec tx)).

(** ** Ring member offsets *)
Fixpoint running_sum (prev : Z) (l : list Z) : list Z :=
  match l with
  | [] => []
  | x :: l => let y := u64 (x + prev) in y :: running_sum y l
  end.

Definition relative_output_offsets_to_absolute (off : list Z) : list Z :=
  match off with
  | [] => []
  | x :: l => x :: running_sum x l
  end.

Fixpoint differences (prev : Z) (l : list Z) : list Z :=
  match l with
  | [] => []
  | x :: l => u64 (x - prev) :: differences x l
  end.

Definition absolute_output_offsets_to_relative (off : list Z) : list Z :=
  match merge_sort Z.le off with
  | [] => []
  | x :: l => x :: differences x l
  end.

(** ** Decomposition *)
Definition valid_decomposed_outputs : list Z :=
  [1; 2; 3; 4; 5; 6; 7; 8; 9;
   10; 20; 30; 40; 50; 60; 70; 80; 90;
   100; 200; 300; 400; 500; 600; 700; 800; 900;
   1000; 2000; 3000; 4000; 5000; 6000; 7000; 8000; 9000;
   10000; 20000; 30000; 40000; 50000; 60000; 70000; 80000; 90000;
   100000; 200000; 300000; 400000; 500000; 600000; 700000; 800000; 900000;
   1000000; 2000000; 3000000; 4000000; 5000000; 6000000; 7000000; 8000000; 9000000;
   10000000; 20000000; 30000000; 40000000; 50000000; 60000000; 70000000; 80000000; 90000000;
   100000000; 200000000; 300000000; 400000000; 500000000; 600000000; 700000000; 800000000; 900000000;
   1000000000; 2000000000; 3000000000; 4000000000; 5000000000; 6000000000; 7000000000; 8000000000; 9000000000;
   10000000000; 20000000000; 30000000000; 40000000000; 50000000000; 60000000000; 70000000000; 80000000000; 90000000000;
   100000000000; 200000000000; 300000000000; 400000000000; 500000000000; 600000000000; 700000000000; 800000000000; 900000000000;
   1000000000000; 2000000000000; 3000000000000; 4000000000000; 5000000000000; 6000000000000; 7000000000000; 8000000000000; 9000000000000;
   10000000000000; 20000000000000; 30000000000000; 40000000000000; 50000000000000; 60000000000000; 70000000000000; 80000000000000; 90000000000000;
   100000000000000; 200000000000000; 300000000000000; 400000000000000; 500000000000000; 600000000000000; 700000000000000; 800000000000000; 900000000000000;
   1000000000000000; 2000000000000000; 3000000000000000; 4000000000000000; 5000000000000000; 6000000000000000; 7000000000000000; 8000000000000000; 9000000000000000;
   10000000000000000; 20000000000000000; 30000000000000000; 40000000000000000; 50000000000000000; 60000000000000000; 70000000000000000; 80000000000000000; 90000000000000000;
   100000000000000000; 200000000000000000; 300000000000000000; 400000000000000000; 500000000000000000; 600000000000000000; 700000000000000000; 800000000000000000; 900000000000000000;
   1000000000000000000; 2000000000000000000; 3000000000000000000; 4000000000000000000; 5000000000000000000; 6000000000000000000; 7000000000000000000; 8000000000000000000; 9000000000000000000;
   10000000000000000000].

(** [std::lower_bound]: the first index in [first, first + len) whose element is
    not less than [v], by halving. *)
Fixpoint lower_bound (fuel : nat) (l : list Z) (v : Z) (first len : nat) : nat :=
  match fuel with
  | O => first
  | S fuel =>
      if (len =? 0)%nat then first
      else
        let half := (len / 2)%nat in
        if l !!! (first + half)%nat <? v then lower_bound fuel l v (first + half + 1) (len - half - 1)
        else lower_bound fuel l v first half
  end.

Definition binary_search (l : list Z) (v : Z) : bool :=
  let i := lower_bound (length l) l v 0 (length l) in
  (i <? length l)%nat && negb (v <? l !!! i).

Definition is_valid_decomposed_amount (amount : Z) : bool := binary_search valid_decomposed_outputs amount.

(** A call of one of the two handlers. *)
Inductive part := chunk_part (chunk : Z) | dust_part (dust : Z).
Definition part_amount (p : part) : Z := match p with chunk_part c => c | dust_part d => d end.

(** The loop; the parts handed out so far are in [acc]. *)
Fixpoint decompose_loop (fuel : nat) (amount order dust dust_threshold : Z) (is_dust_handled : bool) (acc : list part)
  : list part :=
  match fuel with
  | O => acc
  | S fuel =>
      if amount =? 0 then
        if negb is_dust_handled && negb (dust =? 0) then acc ++ [dust_part dust] else acc
      else
        let chunk := u64 (amount mod 10 * order) in
        let amount := amount / 10 in
        let order := u64 (order * 10) in
        if u64 (dust + chunk) <=? dust_threshold
        then decompose_loop fuel amount order (u64 (dust + chunk)) dust_threshold is_dust_handled acc
        else
          let emit := negb is_dust_handled && negb (dust =? 0) in
          let acc := if emit then acc ++ [dust_part dust] else acc in
          let acc := if negb (chunk =? 0) then acc ++ [chunk_part chunk] else acc in
          decompose_loop fuel amount order dust dust_threshold (is_dust_handled || emit) acc
  end.

Definition decompose_amount_into_digits (amount dust_threshold : Z) : list part :=
  if amount =? 0 then [] else decompose_loop 21 amount 1 0 dust_threshold false [].

(** ** Printing and parsing *)
Lemma trim_left_id s : (forall c s', s = c :: s' -> is_space c = false) -> trim_left s = s.
Proof. intros H. destruct s as [|c s]; [done|]. simpl. by rewrite (H c s eq_refl). Qed.

Lemma trim_id s : Forall (fun c => is_space c = false) s -> trim s = s.
Proof.
  intros Hs. unfold trim. rewrite (trim_left_id s), trim_left_id, rev_involutive; [done|..].
  - intros c s' E. rewrite Forall_forall in Hs. apply Hs. apply list_elem_of_In, in_rev. rewrite E. by left.
  - intros c s' ->. by apply Forall_cons in Hs as [? _].
Qed.

Lemma digit_not c : is_digit c = true -> is_space c = false /\ (c =? point) = false.
Proof. unfold is_digit, is_space, point. lia. Qed.

Lemma forallb_digit s : forallb is_digit s = true <-> Forall (fun c => is_digit c = true) s.
Proof. rewrite forallb_forall, Forall_forall. setoid_rewrite list_elem_of_In. done. Qed.

Lemma find_first_of_app s t : Forall (fun c => is_digit c = true) s ->
  find_first_of point (s ++ point :: t) = Some (length s).
Proof.
  induction 1 as [|c s Hc Hs IH]; [done|]. simpl. destruct (digit_not c Hc) as [_ ->]. by rewrite IH.
Qed.

Lemma find_first_of_none s : Forall (fun c => is_digit c = true) s -> find_first_of point s = None.
Proof. induction 1 as [|c s Hc Hs IH]; [done|]. simpl. destruct (digit_not c Hc) as [_ ->]. by rewrite IH. Qed.

Lemma drop_zeros_none dp rs n : (dp <? n) = false -> drop_zeros dp rs n = (rs, n).
Proof. intros H. destruct rs as [|c rs]; [done|]. unfold drop_zeros. rewrite H. repeat case_match; done. Qed.

Lemma decimal_value_zeros n s : decimal_value (replicate n 48 ++ s) 0 = decimal_value s 0.
Proof. rewrite decimal_value_app. f_equal. induction n as [|n IH]; [done|]. exact IH. Qed.

(** The digits of [print_money], with leading zeros up to the unit. *)
Definition padded_digits (amount dp : Z) : blob :=
  let s := to_string amount in
  if zlen s <? dp + 1 then replicate (Z.to_nat (dp + 1 - zlen s)) 48 ++ s else s.

Lemma padded_digits_spec a dp : 0 <= a -> 0 <= dp ->
  let p := padded_digits a dp in
  Forall (fun c => is_digit c = true) p /\ decimal_value p 0 = a /\ dp + 1 <= zlen p.
Proof.
  intros Ha Hd. destruct (to_string_spec a Ha) as (Hv & Hf & _). apply forallb_digit in Hf.
  cbv zeta. unfold padded_digits. destruct (Z.ltb_spec (zlen (to_string a)) (dp + 1)); [|by split_and!; [..|lia]].
  split_and!.
  - apply Forall_app. split; [|done]. by apply Forall_replicate.
  - by rewrite decimal_value_zeros.
  - rewrite zlen_app. unfold zlen at 1. rewrite length_replicate. lia.
Qed.

Lemma get_xtype_digits p a : Forall (fun c => is_digit c = true) p -> decimal_value p 0 = a -> p <> [] ->
  is_u64 a -> get_xtype_from_string p = Some a.
Proof.
  intros Hp Hv Hn Ha. unfold get_xtype_from_string. rewrite (proj2 (forallb_digit p) Hp). cbn [negb].
  destruct p; [done|]. cbv zeta. rewrite Hv. unfold in_range in Ha. by rewrite (proj2 (Z.ltb_lt _ _)) by lia.
Qed.

(** an amount survives printing and parsing.  For every 64-bit amount and
    every decimal point, [parse_amount] of what [print_money] shows is the
    amount. *)
Theorem money_roundtrip (amount dp : Z) : is_u64 amount -> 0 <= dp ->
  parse_amount dp (print_money amount dp) = Some amount.
Proof.
  intros Ha Hd. destruct (padded_digits_spec amount dp) as (Hf & Hv & Hl); [unfold in_range in Ha; lia|done|].
  assert (padded_digits amount dp <> []) as Hn by (intros E; rewrite E, zlen_nil in Hl; lia).
  unfold parse_amount, print_money. fold (padded_digits amount dp). set (p := padded_digits amount dp) in *. cbv zeta.
  assert (Forall (fun c => is_space c = false) p) as Hs.
  { eapply Forall_impl; [exact Hf|]. intros c Hc. by apply digit_not in Hc as [? _]. }
  destruct (Z.ltb_spec 0 dp).
  - set (n := Z.to_nat (zlen p - dp)). assert (n <= length p)%nat by (unfold n, zlen; lia).
    rewrite trim_id by (apply Forall_app; split; [by apply Forall_take|constructor; [done|by apply Forall_drop]]).
    rewrite find_first_of_app by by apply Forall_take. rewrite length_take, Nat.min_l by done.
    assert (zlen (take n p ++ point :: drop n p) - Z.of_nat n - 1 = dp) as ->.
    { rewrite zlen_app, zlen_cons. unfold zlen. rewrite length_take, length_drop. unfold n, zlen in *. lia. }
    rewrite drop_zeros_none by lia. rewrite (proj2 (Z.ltb_ge dp dp)), rev_involutive by lia.
    rewrite take_app_length', drop_app_ge by (rewrite length_take; lia).
    replace (S n - length (take n p))%nat with 1%nat by (rewrite length_take; lia).
    change (drop 1 (point :: drop n p)) with (drop n p). rewrite take_drop.
    destruct p as [|c p'] eqn:Ep; [done|]. rewrite <- Ep in *. by apply get_xtype_digits.
  - rewrite trim_id, find_first_of_none by done.
    destruct p as [|c p'] eqn:Ep; [done|]. rewrite <- Ep in *. by apply get_xtype_digits.
Qed.

Lemma money_roundtrip_witness : parse_amount 6 (print_money 1234567 6) = Some 1234567.
Proof. apply money_roundtrip; by_decide. Defined.

(** ** Sums without overflow *)
Fixpoint sum (l : list Z) : Z := match l with [] => 0 | x :: l => x + sum l end.

Fixpoint input_amounts (l : list txin_v) : option (list Z) :=
  match l with
  | [] => Some []
  | txin_to_key a _ _ :: l => r ← input_amounts l; Some (a :: r)
  | _ => None
  end.
Definition output_amounts (tx : transaction) : list Z := map out_amount (vout (tx_prefix tx)).

Lemma sum_nonneg l : Forall is_u64 l -> 0 <= sum l.
Proof. induction 1 as [|x l Hx Hl IH]; simpl; [lia|]. unfold in_range in Hx. lia. Qed.

Lemma overflow_step x money : is_u64 x -> is_u64 money ->
  (u64 (x + money) <? money) = negb (x + money <? 2 ^ 64) /\ (x + money < 2 ^ 64 -> u64 (money + x) = money + x).
Proof.
  unfold in_range, wrap. intros Hx Hm. split; [|intros; apply Z.mod_small; lia].
  destruct (Z.ltb_spec (x + money) (2 ^ 64)).
  - rewrite Z.mod_small by lia. simpl. lia.
  - rewrite <- (Z.mod_add _ (-1)), Z.mod_small by lia. simpl. lia.
Qed.

Lemma check_outs_overflow_spec l money : Forall is_u64 (map out_amount l) -> is_u64 money ->
  check_outs_overflow_loop l money = (money + sum (map out_amount l) <? 2 ^ 64).
Proof.
  revert money. induction l as [|o l IH]; intros money Hl Hm; simpl; [unfold in_range in Hm; lia|].
  apply Forall_cons in Hl as [Ho Hl]. change (Forall is_u64 (map out_amount l)) in Hl. destruct (overflow_step _ _ Ho Hm) as [-> Hs].
  pose proof (sum_nonneg _ Hl). destruct (Z.ltb_spec (out_amount o + money) (2 ^ 64)); cbn [negb]; [|symmetry; apply Z.ltb_ge; lia].
  rewrite Hs by lia. rewrite IH; [f_equal; lia|done|]. unfold in_range in *. lia.
Qed.

Lemma inputs_none_overflow l money : input_amounts l = None -> check_inputs_overflow_loop l money = false.
Proof.
  revert money. induction l as [|i l IH]; intros money; simpl; [done|]. destruct i; try done.
  destruct (input_amounts l) as [a|]; [done|]. intros _. case_match; [done|by apply IH].
Qed.

Lemma inputs_some_overflow l a money : input_amounts l = Some a -> Forall is_u64 a -> is_u64 money ->
  check_inputs_overflow_loop l money = (money + sum a <? 2 ^ 64).
Proof.
  revert a money. induction l as [|i l IH]; intros a money; simpl.
  { intros [= <-] _ Hm. simpl. unfold in_range in Hm. lia. }
  destruct i as [| | |x offs ki]; try done. destruct (input_amounts l) as [r|]; [|done]. simpl. intros [= <-] Ha Hm.
  apply Forall_cons in Ha as [Hx Hr]. destruct (overflow_step _ _ Hx Hm) as [-> Hs].
  pose proof (sum_nonneg _ Hr). simpl. destruct (Z.ltb_spec (x + money) (2 ^ 64)); cbn [negb]; [|symmetry; apply Z.ltb_ge; lia].
  rewrite Hs by lia. rewrite (IH r); [f_equal; lia|done|done|]. unfold in_range in *. lia.
Qed.

Lemma inputs_sum l a money : input_amounts l = Some a -> Forall is_u64 a -> 0 <= money -> money + sum a < 2 ^ 64 ->
  get_inputs_money_amount_loop l money = Some (money + sum a).
Proof.
  revert a money. induction l as [|i l IH]; intros a money; simpl.
  { intros [= <-] _ _ _. simpl. f_equal. lia. }
  destruct i as [| | |x offs ki]; try done. destruct (input_amounts l) as [r|]; [|done]. simpl. intros [= <-] Ha Hm Hs.
  apply Forall_cons in Ha as [Hx Hr]. pose proof (sum_nonneg _ Hr). simpl in Hs. unfold in_range in Hx.
  rewrite wrap_small by (unfold in_range; lia). rewrite (IH r) by (done || lia). simpl. f_equal. lia.
Qed.

Lemma outs_sum l money : Forall is_u64 (map out_amount l) -> 0 <= money -> money + sum (map out_amount l) < 2 ^ 64 ->
  foldl (fun acc o => u64 (acc + out_amount o)) money l = money + sum (map out_amount l).
Proof.
  revert money. induction l as [|o l IH]; intros money Hl Hm Hs; simpl in *; [lia|].
  apply Forall_cons in Hl as [Ho Hl]. change (Forall is_u64 (map out_amount l)) in Hl. pose proof (sum_nonneg _ Hl). unfold in_range in Ho.
  rewrite wrap_small by (unfold in_range; lia). rewrite IH by (done || lia). lia.
Qed.

(** the overflow checks are exact.  [check_money_overflow] accepts a
    transaction exactly when every input spends a key and neither the true sum
    of the inputs nor that of the outputs reaches 2^64; for an accepted
    transaction the wrapping sums are the true ones, and [get_tx_fee] of
    version 1 is their difference, failing exactly when more is spent than
    there is. *)
Theorem check_money_overflow_iff (tx : transaction) (ins : option (list Z)) :
  ins = input_amounts (vin (tx_prefix tx)) ->
  Forall is_u64 (default [] ins) -> Forall is_u64 (output_amounts tx) ->
  (check_money_overflow tx = true <->
     exists a, ins = Some a /\ sum a < 2 ^ 64 /\ sum (output_amounts tx) < 2 ^ 64) /\
  (forall a, ins = Some a -> check_money_overflow tx = true ->
     get_inputs_money_amount tx = Some (sum a) /\ get_outs_money_amount tx = sum (output_amounts tx) /\
     (version (tx_prefix tx) = 1 ->
        get_tx_fee tx = if sum (output_amounts tx) <=? sum a then Some (sum a - sum (output_amounts tx)) else None)).
Proof.
  intros -> Hi Ho. unfold check_money_overflow, check_inputs_overflow, check_outs_overflow.
  unfold output_amounts in *. rewrite check_outs_overflow_spec by done.
  destruct (input_amounts (vin (tx_prefix tx))) as [a|] eqn:E; simpl in Hi.
  2: { rewrite inputs_none_overflow by done. split; [|done]. split; [done|]. by intros (? & ? & _). }
  rewrite (inputs_some_overflow _ a) by done. rewrite andb_true_iff, !Z.ltb_lt, !Z.add_0_l. split.
  { split; [intros []; by eexists|]. by intros (? & [= <-] & ? & ?). }
  intros ? [= <-] [Ha%Z.ltb_lt Hs%Z.ltb_lt]%andb_true_iff. pose proof (sum_nonneg _ Hi). pose proof (sum_nonneg _ Ho).
  assert (get_inputs_money_amount tx = Some (sum a)) as Ei by (by apply (inputs_sum _ a 0)).
  assert (get_outs_money_amount tx = sum (map out_amount (vout (tx_prefix tx)))) as Eo by (by apply (outs_sum _ 0)).
  split; [done|]. split; [done|]. intros Hv. unfold get_tx_fee. rewrite Hv, Ei, Eo. cbn [Z.ltb Z.compare Pos.compare Pos.compare_cont].
  destruct (Z.leb_spec (sum (map out_amount (vout (tx_prefix tx)))) (sum a)); [|done].
  simpl. by rewrite wrap_small by (unfold in_range; lia).
Qed.

Lemma check_money_overflow_iff_witness :
  let tx := Transaction (Prefix 1 0 [txin_to_key 30 [1] (replicate 32 1)] [Tx_out 7 (target_key (replicate 32 2))] [])
              [] rct_null None None in
  check_money_overflow tx = true /\ get_tx_fee tx = Some 23.
Proof.
  cbv zeta. destruct (check_money_overflow_iff (Transaction (Prefix 1 0 [txin_to_key 30 [1] (replicate 32 1)]
    [Tx_out 7 (target_key (replicate 32 2))] []) [] rct_null None None) (Some [30]))
    as [H1 H2]; [reflexivity|by_decide|by_decide|].
  assert (check_money_overflow (Transaction (Prefix 1 0 [txin_to_key 30 [1] (replicate 32 1)]
    [Tx_out 7 (target_key (replicate 32 2))] []) [] rct_null None None) = true) as E.
  { apply H1. exists [30]. split; [reflexivity|]. by_decide. }
  split; [exact E|]. destruct (H2 [30] eq_refl E) as (_ & _ & H3). rewrite H3 by reflexivity. reflexivity.
Defined.

(** ** The binary search *)
Definition monotone (l : list Z) : Prop := forall i j, (i <= j < length l)%nat -> l !!! i <= l !!! j.

Lemma lower_bound_spec fuel l v first len : monotone l -> (len <= fuel)%nat -> (first + len <= length l)%nat ->
  (forall i, (i < first)%nat -> l !!! i < v) -> (forall i, (first + len <= i < length l)%nat -> v <= l !!! i) ->
  let r := lower_bound fuel l v first len in
  (r <= length l)%nat /\ (forall i, (i < r)%nat -> l !!! i < v) /\ (forall i, (r <= i < length l)%nat -> v <= l !!! i).
Proof.
  intros Hm. revert first len. induction fuel as [|fuel IH]; intros first len Hf Hl Hlo Hhi; cbn [lower_bound]; cbv zeta.
  { assert (len = 0%nat) by lia. split; [lia|]. split; [done|]. intros; apply Hhi; lia. }
  destruct (Nat.eqb_spec len 0) as [->|Hz]; [split; [lia|]; split; [done|]; intros; apply Hhi; lia|].
  assert (len / 2 < len)%nat by (apply Nat.div_lt; lia).
  destruct (Z.ltb_spec (l !!! (first + len / 2)%nat) v) as [Hlt|Hge].
  - apply IH; [lia..| |intros; apply Hhi; lia]. intros i Hi.
    assert (l !!! i <= l !!! (first + len / 2)%nat) by (apply Hm; lia). lia.
  - apply IH; [lia..|done|]. intros i Hi.
    assert (l !!! (first + len / 2)%nat <= l !!! i) by (apply Hm; lia). lia.
Qed.

Lemma binary_search_spec l v : monotone l -> binary_search l v = true <-> v ∈ l.
Proof.
  intros Hm. unfold binary_search.
  destruct (lower_bound_spec (length l) l v 0 (length l) Hm) as (Hr & Hlo & Hhi); [lia..|].
  cbv zeta in *. set (r := lower_bound _ _ _ _ _) in *.
  rewrite andb_true_iff, negb_true_iff, Nat.ltb_lt, Z.ltb_ge. split.
  - intros [Hlt Hle]. specialize (Hhi r ltac:(lia)). replace v with (l !!! r) by lia.
    by apply list_elem_of_lookup_total_2.
  - intros (i & Hi & <-)%list_elem_of_lookup_total_1.
    destruct (Nat.lt_ge_cases i r) as [?|?]; [specialize (Hlo i ltac:(lia)); lia|].
    split; [lia|]. apply Hm. lia.
Qed.

(** The table is the one-digit amounts of 64 bits in increasing order. *)
Lemma valid_decomposed_outputs_eq :
  valid_decomposed_outputs = concat (map (fun j => map (fun d => d * 10 ^ j) (seqZ 1 9)) (seqZ 0 19)) ++ [10 ^ 19].
Proof. vm_compute. reflexivity. Qed.

Lemma sorted_monotone l : Sorted Z.lt l -> monotone l.
Proof.
  intros Hs%Sorted_StronglySorted; [|intros x y z; lia]. induction Hs as [|x l Hs IH Hx]; intros i j Hij; [simpl in *; lia|].
  destruct i as [|i], j as [|j]; simpl in *; [lia| |lia|apply IH; lia].
  rewrite Forall_forall in Hx. enough (x < l !!! j) by lia. apply Hx, list_elem_of_lookup_total_2. lia.
Qed.

Lemma valid_decomposed_sorted : monotone valid_decomposed_outputs.
Proof. apply sorted_monotone. repeat (constructor; [|first [apply HdRel_nil|apply HdRel_cons; reflexivity]]). constructor. Qed.

Lemma is_valid_decomposed_iff c : is_valid_decomposed_amount c = true <-> c ∈ valid_decomposed_outputs.
Proof. unfold is_valid_decomposed_amount. apply binary_search_spec, valid_decomposed_sorted. Qed.

Lemma table_nonneg : Forall (fun x => 0 <= x) valid_decomposed_outputs.
Proof. by_decide. Qed.

Lemma valid_amount_nonneg c : is_valid_decomposed_amount c = true -> 0 <= c.
Proof. rewrite is_valid_decomposed_iff. pose proof table_nonneg as H. rewrite Forall_forall in H. apply H. Qed.

Lemma one_digit_valid d j : 1 <= d <= 9 -> 0 <= j -> d * 10 ^ j < 2 ^ 64 -> is_valid_decomposed_amount (d * 10 ^ j) = true.
Proof.
  intros Hd Hj Hlt. apply is_valid_decomposed_iff.
  rewrite valid_decomposed_outputs_eq. apply elem_of_app.
  assert (j < 20) as Hj20.
  { destruct (Z.lt_ge_cases j 20); [done|]. assert (10 ^ 20 <= 10 ^ j) by (by apply Z.pow_le_mono_r).
    assert (1 * 10 ^ j <= d * 10 ^ j) by (apply Z.mul_le_mono_nonneg_r; lia). change (10 ^ 20) with 100000000000000000000 in *. lia. }
  destruct (decide (j = 19)) as [->|].
  - right. assert (d = 1) as -> by (change (10 ^ 19) with 10000000000000000000 in Hlt; lia). rewrite Z.mul_1_l. by left.
  - left. apply list_elem_of_In, in_concat. exists (map (fun d => d * 10 ^ j) (seqZ 1 9)). split.
    { apply (in_map (fun j => map (fun d => d * 10 ^ j) (seqZ 1 9)) _ j), list_elem_of_In, elem_of_seqZ. lia. }
    apply (in_map (fun d => d * 10 ^ j)), list_elem_of_In, elem_of_seqZ. lia.
Qed.

(** ** The decomposition *)
Lemma decompose_order k amount : 0 <= k -> 0 < amount -> amount * 10 ^ k < 2 ^ 64 ->
  u64 (amount mod 10 * u64 (10 ^ k)) = amount mod 10 * 10 ^ k /\
  amount * 10 ^ k = amount mod 10 * 10 ^ k + (amount / 10) * 10 ^ (k + 1).
Proof.
  intros Hk Ha Hlt. assert (0 < 10 ^ k) by lia.
  pose proof (Z.div_mod amount 10 ltac:(lia)). pose proof (Z.mod_pos_bound amount 10 ltac:(lia)).
  pose proof (Z.div_pos amount 10 ltac:(lia) ltac:(lia)).
  rewrite (wrap_small 64 (10 ^ k)) by (unfold in_range; nia). split.
  - apply wrap_small. unfold in_range. nia.
  - rewrite Z.pow_add_r by lia. nia.
Qed.

Lemma next_order k : 0 <= k -> u64 (u64 (10 ^ k) * 10) = u64 (10 ^ (k + 1)).
Proof. intros Hk. unfold wrap. rewrite Z.mul_mod_idemp_l, Z.pow_add_r by lia. done. Qed.

Lemma div10_bound n amount : 0 <= amount < 10 ^ Z.of_nat (S n) -> 0 <= amount / 10 < 10 ^ Z.of_nat n.
Proof.
  rewrite Nat2Z.inj_succ, Z.pow_succ_r by lia. intros. split; [apply Z.div_pos; lia|]. apply Z.div_lt_upper_bound; lia.
Qed.

(** Once a digit went past the threshold every later digit that is not zero is
    handed out as a chunk. *)
Lemma decompose_blocked n k amount dust thr handled acc :
  0 <= k -> 0 <= amount < 10 ^ Z.of_nat n -> 0 <= dust -> dust + amount * 10 ^ k < 2 ^ 64 -> thr < dust + 10 ^ k ->
  handled = true \/ dust = 0 ->
  exists cs, decompose_loop (S n) amount (u64 (10 ^ k)) dust thr handled acc = acc ++ map chunk_part cs /\
    sum cs = amount * 10 ^ k /\ Forall (fun c => is_valid_decomposed_amount c = true) cs.
Proof.
  intros Hk Hn Hd. revert k amount acc Hk Hn. induction n as [|n IH]; intros k amount acc Hk Hn Hs Ht Hh;
    assert (negb handled && negb (dust =? 0) = false) as He
      by (destruct Hh as [->| ->]; [done|]; rewrite Z.eqb_refl; by destruct handled).
  { cbn [decompose_loop]. rewrite He. assert (amount = 0) as -> by (change (10 ^ Z.of_nat 0) with 1 in Hn; lia). exists []. by rewrite app_nil_r. }
  remember (S n) as m eqn:Em in IH |- *. cbn [decompose_loop]. cbv zeta. rewrite He.
  destruct (Z.eqb_spec amount 0) as [->|Hz]; [exists []; by rewrite app_nil_r|].
  assert (0 < 10 ^ k) by lia. assert (10 ^ k <= 10 ^ (k + 1)) by (apply Z.pow_le_mono_r; lia).
  destruct (decompose_order k amount) as [-> Hsplit]; [lia..|]. rewrite next_order by lia.
  apply div10_bound in Hn as Hn'. pose proof (Z.mod_pos_bound amount 10 ltac:(lia)).
  assert (0 <= amount / 10 * 10 ^ (k + 1)) by nia. assert (0 <= amount mod 10 * 10 ^ k) by nia.
  rewrite (wrap_small 64) by (unfold in_range; lia). rewrite orb_false_r.
  destruct (Z.eqb_spec (amount mod 10 * 10 ^ k) 0) as [Hc|Hc]; cbn [negb].
  - rewrite Hc, Z.add_0_r in *. rewrite Tauto.if_same.
    destruct (IH (k + 1) (amount / 10) acc) as (cs & -> & Hsum & Hv); [lia..|done|]. exists cs. split; [done|]. split; [lia|done].
  - assert (1 <= amount mod 10) by nia.
    replace (dust + amount mod 10 * 10 ^ k <=? thr) with false by (symmetry; apply Z.leb_gt; nia).
    destruct (IH (k + 1) (amount / 10) (acc ++ [chunk_part (amount mod 10 * 10 ^ k)])) as (cs & -> & Hsum & Hv); [lia..|done|].
    exists (amount mod 10 * 10 ^ k :: cs). rewrite <- app_assoc. split; [done|]. split; [simpl; lia|].
    constructor; [|done]. apply one_digit_valid; lia.
Qed.

Definition dust_parts (d : Z) : list part := if d =? 0 then [] else [dust_part d].

Lemma decompose_open n k amount dust thr :
  0 <= k -> 0 <= amount < 10 ^ Z.of_nat n -> 0 <= dust <= thr -> dust + amount * 10 ^ k < 2 ^ 64 ->
  exists d cs, decompose_loop (S n) amount (u64 (10 ^ k)) dust thr false [] = dust_parts d ++ map chunk_part cs /\
    0 <= d <= thr /\ d + sum cs = dust + amount * 10 ^ k /\ Forall (fun c => is_valid_decomposed_amount c = true) cs.
Proof.
  assert (forall dust, (if negb (dust =? 0) then [dust_part dust] else []) = dust_parts dust) as Hp
    by (intros x; unfold dust_parts; by destruct (x =? 0)).
  revert k amount dust. induction n as [|n IH]; intros k amount dust Hk Hn Hd Hs.
  { cbn [decompose_loop andb negb]. rewrite app_nil_l, Hp.
    assert (amount = 0) as -> by (change (10 ^ Z.of_nat 0) with 1 in Hn; lia).
    exists dust, []. rewrite app_nil_r. simpl. split; [done|]. split; [done|]. split; [lia|constructor]. }
  remember (S n) as m eqn:Em in IH |- *. cbn [decompose_loop andb negb]. cbv zeta. rewrite app_nil_l, Hp.
  destruct (Z.eqb_spec amount 0) as [->|Hz].
  { exists dust, []. rewrite app_nil_r. simpl. split; [done|]. split; [done|]. split; [lia|constructor]. }
  assert (0 < 10 ^ k) by lia.
  destruct (decompose_order k amount) as [-> Hsplit]; [lia..|]. rewrite next_order by lia.
  apply div10_bound in Hn as Hn'. pose proof (Z.mod_pos_bound amount 10 ltac:(lia)).
  assert (0 <= amount / 10 * 10 ^ (k + 1)) by nia. assert (0 <= amount mod 10 * 10 ^ k) by nia.
  rewrite (wrap_small 64 (dust + _)) by (unfold in_range; lia).
  destruct (Z.leb_spec (dust + amount mod 10 * 10 ^ k) thr) as [Hle|Hgt].
  { destruct (IH (k + 1) (amount / 10) (dust + amount mod 10 * 10 ^ k)) as (d & cs & -> & Hdr & Hsum & Hv); [lia..|].
    exists d, cs. split; [done|]. split; [done|]. split; [lia|done]. }
  assert (10 ^ (k + 1) = 10 * 10 ^ k) as Hk1 by (rewrite Z.pow_add_r; lia).
  replace (amount mod 10 * 10 ^ k =? 0) with false by (symmetry; apply Z.eqb_neq; lia). cbn [negb]. subst m.
  destruct (decompose_blocked n (k + 1) (amount / 10) dust thr (false || negb (dust =? 0))
    (dust_parts dust ++ [chunk_part (amount mod 10 * 10 ^ k)])) as (cs & -> & Hsum & Hv); [lia|lia|lia|lia|nia| |].
  { destruct (Z.eqb_spec dust 0); [by right|by left]. }
  exists dust, (amount mod 10 * 10 ^ k :: cs). rewrite <- app_assoc. split; [done|]. split; [done|].
  split; [simpl; lia|]. constructor; [|done]. apply one_digit_valid; nia.
Qed.

Lemma decompose_amount_spec (amount dust_threshold : Z) :
  is_u64 amount -> 0 <= dust_threshold ->
  exists d cs, decompose_amount_into_digits amount dust_threshold = dust_parts d ++ map chunk_part cs /\
    0 <= d <= dust_threshold /\ d + sum cs = amount /\ Forall (fun c => is_valid_decomposed_amount c = true) cs.
Proof.
  intros Ha Ht. unfold decompose_amount_into_digits, in_range in *. destruct (Z.eqb_spec amount 0) as [->|Hz].
  { exists 0, []. repeat split; [lia|done|constructor]. }
  destruct (decompose_open 20 0 amount 0 dust_threshold) as (d & cs & E & H); [lia| |lia|lia|].
  { change (10 ^ Z.of_nat 20) with 100000000000000000000. lia. }
  exists d, cs. change (u64 (10 ^ 0)) with 1 in E. rewrite E. split; [done|]. by rewrite Z.add_0_l, Z.mul_1_r in H.
Qed.

(** decomposition into digits.  Every 64-bit amount is handed out
    completely: at most one dust part, at most the threshold and first, then
    one-digit amounts of the table [is_valid_decomposed_amount] looks up; the
    parts sum to the amount, so the dust collected after the dust handler ran
    is always empty and 21 rounds are enough. *)
Theorem decompose_amount_correct (amount dust_threshold : Z) :
  is_u64 amount -> 0 <= dust_threshold ->
  exists d cs, decompose_amount_into_digits amount dust_threshold = dust_parts d ++ map chunk_part cs /\
    0 <= d <= dust_threshold /\ d + sum cs = amount /\ Forall (fun c => is_valid_decomposed_amount c = true) cs.
Proof. apply decompose_amount_spec. Qed.

Lemma decompose_amount_correct_witness :
  is_u64 62387455827 /\ decompose_amount_into_digits 62387455827 2000 =
    [dust_part 827; chunk_part 5000; chunk_part 50000; chunk_part 400000; chunk_part 7000000; chunk_part 80000000;
     chunk_part 300000000; chunk_part 2000000000; chunk_part 60000000000] /\
  exists d cs, decompose_amount_into_digits 62387455827 2000 = dust_parts d ++ map chunk_part cs /\
    0 <= d <= 2000 /\ d + sum cs = 62387455827 /\ Forall (fun c => is_valid_decomposed_amount c = true) cs.
Proof.
  split; [by_decide|]. split; [reflexivity|]. apply (decompose_amount_correct 62387455827 2000); [by_decide|lia].
Defined.

(** ** Ring member offsets *)
Lemma running_differences prev l : Forall is_u64 l -> running_sum prev (differences prev l) = l.
Proof.
  revert prev. induction l as [|x l IH]; intros prev Hl; simpl; [done|]. apply Forall_cons in Hl as [Hx Hl].
  replace (u64 (u64 (x - prev) + prev)) with x; [by rewrite IH|].
  unfold wrap. rewrite Z.add_mod_idemp_l by lia. rewrite Z.sub_add. unfold in_range in Hx. by rewrite Z.mod_small.
Qed.

Lemma differences_running prev l : Forall is_u64 l -> differences prev (running_sum prev l) = l.
Proof.
  revert prev. induction l as [|x l IH]; intros prev Hl; simpl; [done|]. apply Forall_cons in Hl as [Hx Hl]. f_equal; [|by apply IH].
  unfold wrap. rewrite Zminus_mod_idemp_l, Z.add_simpl_r. unfold in_range in Hx. by rewrite Z.mod_small.
Qed.

Lemma running_sum_sorted prev l : Forall is_u64 l -> 0 <= prev -> prev + sum l < 2 ^ 64 ->
  Sorted Z.le (prev :: running_sum prev l).
Proof.
  revert prev. induction l as [|x l IH]; intros prev Hl Hp Hs; [repeat constructor|]. apply Forall_cons in Hl as [Hx Hl].
  pose proof (sum_nonneg _ Hl). simpl in Hs. unfold in_range in Hx. simpl. rewrite wrap_small by (unfold in_range; lia).
  constructor; [apply IH; [done|lia..]|]. constructor. lia.
Qed.

(** the two offset codings are inverse.  Turning absolute ring member
    indices into relative offsets and back yields the same indices in
    increasing order, for any list of 64-bit indices; the other way round the
    offsets come back unchanged when their sum stays below 2^64. *)
Theorem output_offsets_roundtrip (off : list Z) :
  Forall is_u64 off ->
  (let off' := relative_output_offsets_to_absolute (absolute_output_offsets_to_relative off) in
   Sorted Z.le off' /\ off' ≡ₚ off) /\
  (sum off < 2 ^ 64 -> absolute_output_offsets_to_relative (relative_output_offsets_to_absolute off) = off).
Proof.
  intros Hu. split.
  - assert (relative_output_offsets_to_absolute (absolute_output_offsets_to_relative off) = merge_sort Z.le off) as ->.
    { unfold absolute_output_offsets_to_relative. pose proof (merge_sort_Permutation Z.le off) as Hp.
      assert (Forall is_u64 (merge_sort Z.le off)) as Hm by (by rewrite Hp).
      destruct (merge_sort Z.le off) as [|x l]; [done|]. simpl. apply Forall_cons in Hm as [_ Hl]. by rewrite running_differences. }
    split; [apply Sorted_merge_sort; intros x y; lia|apply merge_sort_Permutation].
  - intros Hs. destruct off as [|x l]; [done|]. unfold absolute_output_offsets_to_relative.
    apply Forall_cons in Hu as [Hx Hl]. unfold in_range in Hx. simpl in Hs.
    assert (merge_sort Z.le (relative_output_offsets_to_absolute (x :: l)) = relative_output_offsets_to_absolute (x :: l)) as ->.
    { apply (Sorted_unique Z.le); [apply Sorted_merge_sort; intros y z; lia| |apply merge_sort_Permutation].
      apply running_sum_sorted; [done|lia..]. }
    simpl. by rewrite differences_running.
Qed.

Lemma output_offsets_roundtrip_witness :
  absolute_output_offsets_to_relative [900; 17; 350] = [17; 333; 550] /\
  relative_output_offsets_to_absolute [17; 333; 550] = [17; 350; 900] /\
  absolute_output_offsets_to_relative (relative_output_offsets_to_absolute [17; 333; 550]) = [17; 333; 550].
Proof.
  split; [reflexivity|]. split; [reflexivity|].
  apply (output_offsets_roundtrip [17; 333; 550]); [by_decide|reflexivity].
Defined.
