(* ===== verification/Reward.v ===== *)
(** * Block rewards, coinbase transactions and fees

    Model of [get_min_block_weight] and [get_block_reward]
    (src/cryptonote_basic/cryptonote_basic_impl.cpp), of [median]
    (contrib/epee/include/misc_language.h), of [construct_miner_tx]
    (src/cryptonote_core/cryptonote_tx_utils.cpp), and of the coinbase checks
    and the fee functions of [Blockchain] (src/cryptonote_core/blockchain.cpp):
    [prevalidate_miner_transaction], [validate_miner_transaction],
    [get_dynamic_base_fee] and [check_fee].

    Amounts and weights are 64-bit words; what the functions read of the chain
    is passed as arguments.  The [assert]s of
    [get_block_reward], absent from release builds, are [reward_asserts]. *)
From Stdlib Require Import ZArith Lia Bool.
From stdpp Require Import prelude sorting.
From S2P Require Import Prelude StringTools Varint Archive TxExtra Rct CryptonoteBasic IntUtil Money.
Local Open Scope Z_scope.

Definition MONEY_SUPPLY : Z := 100000000000000000.
Definition EMISSION_SPEED_FACTOR_PER_MINUTE : Z := 19.
Definition FINAL_SUBSIDY_PER_MINUTE : Z := 2000000000.
Definition CRYPTONOTE_REWARD_BLOCKS_WINDOW : Z := 100.
Definition CRYPTONOTE_BLOCK_GRANTED_FULL_REWARD_ZONE_V1 : Z := 20000.
Definition CRYPTONOTE_BLOCK_GRANTED_FULL_REWARD_ZONE_V2 : Z := 60000.
Definition CRYPTONOTE_BLOCK_GRANTED_FULL_REWARD_ZONE_V5 : Z := 300000.
Definition CRYPTONOTE_MINED_MONEY_UNLOCK_WINDOW : Z := 60.
Definition PREMINE_BLOCK_HEIGHT : Z := 1.
Definition PREMINE_BLOCK_REWARD : Z := 40000000000000000.
Definition DIFFICULTY_TARGET_V1 : Z := 60.
Definition DIFFICULTY_TARGET_V12 : Z := 120.
Definition DIFFICULTY_TARGET_V13 : Z := 300.
Definition HF_VERSION_DYNAMIC_FEE : Z := 6.
Definition HF_VERSION_PER_BYTE_FEE : Z := 10.
Definition HF_VERSION_TWO_MINUTE_BLOCK_TIME : Z := 12.
Definition HF_VERSION_PROOF_OF_STAKE : Z := 13.
Definition BASE_REWARD_CLAMP_THRESHOLD : Z := 100.
Definition DEFAULT_DUST_THRESHOLD : Z := 2000.
Definition FEE_PER_KB : Z := 2000.
Definition DYNAMIC_FEE_PER_KB_BASE_FEE : Z := 2000.
Definition DYNAMIC_FEE_PER_KB_BASE_FEE_V5 : Z := 1.
Definition DYNAMIC_FEE_PER_KB_BASE_BLOCK_REWARD : Z := 1000000.
Definition DYNAMIC_FEE_REFERENCE_TRANSACTION_WEIGHT : Z := 3000.
Definition PER_KB_FEE_QUANTIZATION_DECIMALS : Z := 8.
Definition BLOCK_REWARD_OVERESTIMATE : Z := 10 * 1000000000000.

(** ** The block reward *)
Definition get_min_block_weight (version : Z) : Z :=
  if version <? 2 then CRYPTONOTE_BLOCK_GRANTED_FULL_REWARD_ZONE_V1
  else if version <? 5 then CRYPTONOTE_BLOCK_GRANTED_FULL_REWARD_ZONE_V2
  else CRYPTONOTE_BLOCK_GRANTED_FULL_REWARD_ZONE_V5.

Definition target_minutes (version : Z) : Z :=
  if version <? HF_VERSION_TWO_MINUTE_BLOCK_TIME then DIFFICULTY_TARGET_V1 / 60
  else if version <? HF_VERSION_PROOF_OF_STAKE then DIFFICULTY_TARGET_V12 / 60 else DIFFICULTY_TARGET_V13 / 60.

(** The first half of [get_block_reward]: the reward before the penalty. *)
Definition base_reward (already_generated_coins version height : Z) : Z :=
  let emission_speed_factor :=
    if version <? HF_VERSION_PROOF_OF_STAKE then EMISSION_SPEED_FACTOR_PER_MINUTE
    else EMISSION_SPEED_FACTOR_PER_MINUTE - 1 in
  let base_reward :=
    if (height =? PREMINE_BLOCK_HEIGHT) && (already_generated_coins <? PREMINE_BLOCK_REWARD) then PREMINE_BLOCK_REWARD
    else Z.shiftr (u64 (MONEY_SUPPLY - already_generated_coins)) emission_speed_factor in
  if base_reward <? FINAL_SUBSIDY_PER_MINUTE * target_minutes version
  then FINAL_SUBSIDY_PER_MINUTE * target_minutes version else base_reward.

(** [base_reward * (2 * median_weight - current_block_weight) * current_block_weight]
    divided twice by the median, as the high and the low word. *)
Definition penalty_quotient (base_reward median_weight current_block_weight : Z) : Z * Z :=
  let multiplicand := u64 (u64 (2 * median_weight) - current_block_weight) in
  let multiplicand := u64 (multiplicand * current_block_weight) in
  let '(product_lo, product_hi) := mul128 base_reward multiplicand in
  let '(_, reward_hi, reward_lo) := div128_32 product_hi product_lo (u32 median_weight) in
  let '(_, reward_hi, reward_lo) := div128_32 reward_hi reward_lo (u32 median_weight) in
  (reward_hi, reward_lo).

(** [None]: the block is too big. *)
Definition get_block_reward (median_weight current_block_weight already_generated_coins version height : Z) : option Z :=
  let base_reward := base_reward already_generated_coins version height in
  let full_reward_zone := get_min_block_weight version in
  let median_weight := if median_weight <? full_reward_zone then full_reward_zone else median_weight in
  if current_block_weight <=? median_weight then Some base_reward
  else if u64 (2 * median_weight) <? current_block_weight then None
  else Some (penalty_quotient base_reward median_weight current_block_weight).2.

(** The assertions the call makes on its way, which a build with [NDEBUG] leaves
    out: whether all of them hold. *)
Definition reward_asserts (median_weight current_block_weight already_generated_coins version height : Z) : bool :=
  let base_reward := base_reward already_generated_coins version height in
  let full_reward_zone := get_min_block_weight version in
  let median_weight := if median_weight <? full_reward_zone then full_reward_zone else median_weight in
  if current_block_weight <=? median_weight then true
  else if u64 (2 * median_weight) <? current_block_weight then true
  else
    let '(reward_hi, reward_lo) := penalty_quotient base_reward median_weight current_block_weight in
    (median_weight <? 2 ^ 32 - 1) && (current_block_weight <? 2 ^ 32 - 1) && (0 =? reward_hi) && (reward_lo <? base_reward).

(** The update of the emitted coins when a block enters the main chain. *)
Definition next_generated_coins (already_generated_coins base_reward : Z) : Z :=
  if base_reward <? u64 (MONEY_SUPPLY - already_generated_coins)
  then u64 (already_generated_coins + base_reward) else MONEY_SUPPLY.

(** [epee::misc_utils::median] on 64-bit values. *)
Definition median (v : list Z) : Z :=
  match v with
  | [] => 0
  | [x] => x
  | _ =>
      let n := (length v / 2)%nat in
      let v := merge_sort Z.le v in
      if Nat.odd (length v) then v !!! n else u64 (v !!! (n - 1)%nat + v !!! n) / 2
  end.

(** ** Coinbase checks *)
Definition prevalidate_miner_transaction (b : block) (height : Z) : bool :=
  let p := tx_prefix (miner_tx b) in
  match vin p with
  | [txin_gen h] =>
      if negb (h =? height) then false
      else if negb (unlock_time p =? u64 (height + CRYPTONOTE_MINED_MONEY_UNLOCK_WINDOW)) then false
      else check_outs_overflow (miner_tx b)
  | _ => false
  end.

(** Result: the reward generated, and whether the miner claimed less than it
    could.  [weights] are those of the last blocks, [current_version] is that of
    the hard fork state, [height] that of the chain. *)
Definition validate_miner_transaction (b : block) (cumulative_block_weight fee already_generated_coins version : Z)
  (weights : list Z) (height current_version : Z) : option (Z * bool) :=
  let money_in_use := foldl (fun acc o => u64 (acc + out_amount o)) 0 (vout (tx_prefix (miner_tx b))) in
  if (version =? 3) && negb (forallb (fun o => is_valid_decomposed_amount (out_amount o)) (vout (tx_prefix (miner_tx b))))
  then None
  else
    match get_block_reward (median weights) cumulative_block_weight already_generated_coins version height with
    | None => None
    | Some base_reward =>
        if u64 (base_reward + fee) <? money_in_use then None
        else if current_version <? 2 then
          if negb (u64 (base_reward + fee) =? money_in_use) then None else Some (base_reward, false)
        else if negb (u64 (money_in_use - fee) <=? base_reward) then None
        else Some (u64 (money_in_use - fee), negb (u64 (base_reward + fee) =? money_in_use))
    end.

(** ** The coinbase transaction *)

(** The key derivation of src/crypto, on keys of 32 bytes. *)
Class KeyDerivation := {
  generate_key_derivation : blob -> blob -> option blob;
  derive_public_key : blob -> Z -> blob -> option blob
}.

(** The loop that merges the smallest outputs until [max_outs] are left. *)
Fixpoint merge_outs (fuel : nat) (max_outs : Z) (out_amounts : list Z) : list Z :=
  match fuel, out_amounts with
  | S fuel, a :: b :: l => if max_outs <? zlen out_amounts then merge_outs fuel max_outs (u64 (b + a) :: l) else out_amounts
  | _, _ => out_amounts
  end.

(** The output loop, from index [no]; the result is the outputs and [summary_amounts]. *)
Fixpoint miner_outs `{KeyDerivation} (address : account_public_address) (txkey_sec : blob) (out_amounts : list Z) (no summary : Z)
  : option (list tx_out * Z) :=
  match out_amounts with
  | [] => Some ([], summary)
  | a :: l =>
      derivation ← generate_key_derivation (m_view_public_key address) txkey_sec;
      key ← derive_public_key derivation no (m_spend_public_key address);
      '(outs, summary) ← miner_outs address txkey_sec l (no + 1) (u64 (summary + a));
      Some (Tx_out a (target_key key) :: outs, summary)
  end.

(** [txkey] is the fresh key pair, public part first.  Only the prefix of [tx] is set. *)
Definition construct_miner_tx `{KeyDerivation} (txkey : blob * blob)
  (height median_weight already_generated_coins current_block_weight fee : Z) (miner_address : account_public_address)
  (tx : transaction) (extra_nonce : blob) (max_outs hard_fork_version : Z) : option transaction :=
  let extra := add_tx_pub_key_to_extra [] txkey.1 in
  extra ← (if bool_decide (extra_nonce = []) then Some extra
           else let '(r, extra) := add_extra_nonce_to_tx_extra extra extra_nonce in if r then Some extra else None);
  block_reward ← get_block_reward median_weight current_block_weight already_generated_coins hard_fork_version height;
  let block_reward := u64 (block_reward + fee) in
  let block_reward :=
    if (2 <=? hard_fork_version) && (hard_fork_version <? 4)
    then u64 (block_reward - block_reward mod BASE_REWARD_CLAMP_THRESHOLD) else block_reward in
  let out_amounts := map part_amount
    (decompose_amount_into_digits block_reward (if 2 <=? hard_fork_version then 0 else DEFAULT_DUST_THRESHOLD)) in
  if negb (1 <=? max_outs) then None
  else
    out_amounts ← (if (height =? 0) || (4 <=? hard_fork_version) then Some (merge_outs (length out_amounts) max_outs out_amounts)
                   else if zlen out_amounts <=? max_outs then Some out_amounts else None);
    '(outs, summary_amounts) ← miner_outs miner_address txkey.2 out_amounts 0 0;
    if negb (summary_amounts =? block_reward) then None
    else Some (tx_invalidate_hashes (Transaction
      (Prefix (if 4 <=? hard_fork_version then 2 else 1) (u64 (height + CRYPTONOTE_MINED_MONEY_UNLOCK_WINDOW))
         [txin_gen height] outs extra)
      (signatures tx) (rct_signatures tx) (tx_hash tx) (tx_blob_size tx))).

(** ** Fees *)
Definition get_fee_quantization_mask : Z :=
  10 ^ Z.max 0 (CRYPTONOTE_DISPLAY_DECIMAL_POINT - PER_KB_FEE_QUANTIZATION_DECIMALS).

Definition quantize (fee : Z) : Z :=
  let mask := get_fee_quantization_mask in u64 (u64 (u64 (fee + mask) - 1) / mask * mask).

Definition get_dynamic_base_fee (block_reward median_block_weight version : Z) : Z :=
  let min_block_weight := get_min_block_weight version in
  let median_block_weight := if median_block_weight <? min_block_weight then min_block_weight else median_block_weight in
  if HF_VERSION_PER_BYTE_FEE <=? version then
    let '(lo, hi) := mul128 block_reward DYNAMIC_FEE_REFERENCE_TRANSACTION_WEIGHT in
    let '(_, hi, lo) := div128_32 hi lo (u32 min_block_weight) in
    let '(_, hi, lo) := div128_32 hi lo (u32 median_block_weight) in
    lo / 5
  else
    let fee_base := if 5 <=? version then DYNAMIC_FEE_PER_KB_BASE_FEE_V5 else DYNAMIC_FEE_PER_KB_BASE_FEE in
    let unscaled_fee_base := u64 (fee_base * min_block_weight) / median_block_weight in
    let '(lo, hi) := mul128 unscaled_fee_base block_reward in
    let '(_, hi, lo) := div128_32 hi lo (DYNAMIC_FEE_PER_KB_BASE_BLOCK_REWARD / 1000000) in
    let '(_, hi, lo) := div128_32 hi lo 1000000 in
    quantize lo.

(** [limit] is [m_current_block_cumul_weight_limit], [generated] the coins
    emitted up to the top block (0 on an empty chain). *)
Definition check_fee (tx_weight fee version limit generated height : Z) : bool :=
  let reward :=
    if HF_VERSION_DYNAMIC_FEE <=? version
    then (fun r => (r, limit / 2)) <$> get_block_reward (limit / 2) 1 generated version height
    else Some (0, 0) in
  match reward with
  | None => false
  | Some (base_reward, median) =>
      let needed_fee :=
        if HF_VERSION_PER_BYTE_FEE <=? version
        then quantize (u64 (tx_weight * get_dynamic_base_fee base_reward median version))
        else
          let fee_per_kb := if version <? HF_VERSION_DYNAMIC_FEE then FEE_PER_KB
                            else get_dynamic_base_fee base_reward median version in
          u64 (u64 (tx_weight / 1024 + (if negb (tx_weight mod 1024 =? 0) then 1 else 0)) * fee_per_kb) in
      negb (fee <? u64 (needed_fee - needed_fee / 50))
  end.

(** [weights count] are the weights of the last [count] blocks. *)
Definition get_dynamic_base_fee_estimate (grace_blocks version : Z) (weights : Z -> list Z) (generated height : Z) : Z :=
  if version <? HF_VERSION_DYNAMIC_FEE then FEE_PER_KB
  else
    let grace_blocks := if CRYPTONOTE_REWARD_BLOCKS_WINDOW <=? grace_blocks then CRYPTONOTE_REWARD_BLOCKS_WINDOW - 1 else grace_blocks in
    let min_block_weight := get_min_block_weight version in
    let weights := weights (CRYPTONOTE_REWARD_BLOCKS_WINDOW - grace_blocks) ++ replicate (Z.to_nat grace_blocks) min_block_weight in
    let m := median weights in
    let m := if m <=? min_block_weight then min_block_weight else m in
    let base_reward := default BLOCK_REWARD_OVERESTIMATE (get_block_reward m 1 generated version height) in
    get_dynamic_base_fee base_reward m version.

(** ** The reward formula *)
Lemma base_reward_bounds already version height : 0 <= already <= MONEY_SUPPLY ->
  FINAL_SUBSIDY_PER_MINUTE * target_minutes version <= base_reward already version height <= PREMINE_BLOCK_REWARD.
Proof.
  intros Ha. unfold base_reward. cbv zeta.
  assert (FINAL_SUBSIDY_PER_MINUTE * target_minutes version <= PREMINE_BLOCK_REWARD)
    by (unfold target_minutes; repeat case_match; by vm_compute).
  unfold MONEY_SUPPLY, PREMINE_BLOCK_REWARD in *.
  assert (forall k, 18 <= k -> 0 <= Z.shiftr (u64 (100000000000000000 - already)) k <= 40000000000000000) as Hs.
  { intros k Hk. rewrite wrap_small by (unfold in_range; lia). rewrite Z.shiftr_div_pow2 by lia.
    split; [apply Z.div_pos; lia|]. apply Z.div_le_upper_bound; [lia|]. assert (2 ^ 18 <= 2 ^ k) by (apply Z.pow_le_mono_r; lia). lia. }
  assert (forall e c, 18 <= e -> let r := if (c : bool) then 40000000000000000 else Z.shiftr (u64 (100000000000000000 - already)) e in
    0 <= r <= 40000000000000000) as Hr by (intros e [] He; [lia|by apply Hs]).
  specialize (Hr (if version <? HF_VERSION_PROOF_OF_STAKE then EMISSION_SPEED_FACTOR_PER_MINUTE
    else EMISSION_SPEED_FACTOR_PER_MINUTE - 1) ((height =? PREMINE_BLOCK_HEIGHT) && (already <? 40000000000000000))
    ltac:(unfold EMISSION_SPEED_FACTOR_PER_MINUTE; case_match; lia)).
  cbv zeta in Hr. revert Hr. generalize (if (height =? PREMINE_BLOCK_HEIGHT) && (already <? 40000000000000000) then 40000000000000000
    else Z.shiftr (u64 (100000000000000000 - already)) (if version <? HF_VERSION_PROOF_OF_STAKE then EMISSION_SPEED_FACTOR_PER_MINUTE
    else EMISSION_SPEED_FACTOR_PER_MINUTE - 1)). intros r Hr. case_match; lia.
Qed.

Definition reward_zone (median_weight version : Z) : Z := Z.max median_weight (get_min_block_weight version).

Lemma get_min_block_weight_range version : 20000 <= get_min_block_weight version <= 300000.
Proof. unfold get_min_block_weight. repeat case_match; by vm_compute. Qed.

(** The reward of a block of weight [w] when the full reward is [base] and the zone [m]. *)
Definition penalised (base m w : Z) : Z := if w <=? m then base else base * (2 * m - w) * w / (m * m).

Lemma div128_32_twice hi lo d : is_u64 hi -> is_u64 lo -> 0 < d < 2 ^ 32 ->
  let n := hi * 2 ^ 64 + lo in n / (d * d) < 2 ^ 64 ->
  let '(_, hi, lo) := div128_32 hi lo d in
  let '(_, hi, lo) := div128_32 hi lo d in hi = 0 /\ lo = n / (d * d).
Proof.
  intros Hhi Hlo Hd n Hn. pose proof (div128_32_correct hi lo d Hhi Hlo Hd) as H1.
  destruct (div128_32 hi lo d) as [[r1 h1] l1]. destruct H1 as (Hh1 & Hl1 & Hr1 & E1).
  pose proof (div128_32_correct h1 l1 d Hh1 Hl1 Hd) as H2.
  destruct (div128_32 h1 l1 d) as [[r2 h2] l2]. destruct H2 as (Hh2 & Hl2 & Hr2 & E2).
  assert (n / (d * d) = h2 * 2 ^ 64 + l2) as E.
  { rewrite <- Z.div_div by lia. replace (n / d) with (h1 * 2 ^ 64 + l1) by (subst n; rewrite E1, Z.div_add_l, Z.div_small; lia).
    rewrite E2, Z.div_add_l, Z.div_small; lia. }
  unfold in_range in *. rewrite E in *. lia.
Qed.

(** The factor of the penalty is at most one. *)
Lemma penalty_le m w : m < w <= 2 * m -> 0 <= (2 * m - w) * w < m * m.
Proof. intros. assert ((2 * m - w) * w = m * m - (w - m) * (w - m)) by ring. nia. Qed.

Lemma penalised_range base m w : 0 <= base -> 0 < m -> 0 <= w <= 2 * m -> 0 <= penalised base m w <= base.
Proof.
  intros Hb Hm Hw. unfold penalised. destruct (Z.leb_spec w m); [lia|].
  pose proof (penalty_le m w ltac:(lia)). assert (0 < m * m) by nia. rewrite <- Z.mul_assoc. split.
  - apply Z.div_pos; nia.
  - apply Z.div_le_upper_bound; nia.
Qed.

Lemma penalised_antitone base m w w' : 0 <= base -> 0 < m -> 0 <= w' <= w -> w <= 2 * m ->
  penalised base m w <= penalised base m w'.
Proof.
  intros Hb Hm Hw Hw2. unfold penalised at 2. destruct (Z.leb_spec w' m); [apply penalised_range; lia|].
  unfold penalised. rewrite (proj2 (Z.leb_gt w m)) by lia. apply Z.div_le_mono; [nia|]. rewrite <- !Z.mul_assoc.
  apply Z.mul_le_mono_nonneg_l; [done|]. nia.
Qed.

Lemma penalty_quotient_ok base m w : 0 <= base < 2 ^ 64 -> 0 < m < 2 ^ 31 -> m < w <= 2 * m ->
  penalty_quotient base m w = (0, penalised base m w).
Proof.
  intros Hb64 Hz Hw. unfold penalty_quotient. cbv zeta. rewrite (wrap_small 64 (2 * m)) by (unfold in_range; lia).
  pose proof (penalty_le m w ltac:(lia)).
  rewrite (wrap_small 64 (2 * m - w)), (wrap_small 64), (wrap_small 32 m) by (unfold in_range; nia).
  pose proof (mul128_correct base ((2 * m - w) * w) ltac:(unfold in_range; lia) ltac:(unfold in_range; nia)) as Hp.
  destruct (mul128 base ((2 * m - w) * w)) as [plo phi]. destruct Hp as (Hlo & Hhi & Ep).
  pose proof (penalised_range base m w ltac:(lia) ltac:(lia) ltac:(lia)) as Hr. unfold penalised in *.
  rewrite (proj2 (Z.leb_gt _ _)) in * by lia.
  assert (phi * 2 ^ 64 + plo = base * (2 * m - w) * w) as En by lia.
  pose proof (div128_32_twice phi plo m Hhi Hlo ltac:(lia)) as Hd. cbv zeta in Hd. rewrite En in Hd. specialize (Hd ltac:(lia)).
  destruct (div128_32 phi plo m) as [[r1 h1] l1]. destruct (div128_32 h1 l1 m) as [[r2 h2] l2]. by destruct Hd as [-> ->].
Qed.

Lemma base_reward_u64 already version height : 0 <= already <= MONEY_SUPPLY -> 0 < base_reward already version height < 2 ^ 64.
Proof.
  intros Ha. pose proof (base_reward_bounds already version height Ha) as Hb.
  assert (0 < FINAL_SUBSIDY_PER_MINUTE * target_minutes version) by (unfold target_minutes; repeat case_match; by vm_compute).
  unfold PREMINE_BLOCK_REWARD in Hb. lia.
Qed.

Lemma zone_clamp median_weight version : 0 <= median_weight < 2 ^ 31 ->
  (if median_weight <? get_min_block_weight version then get_min_block_weight version else median_weight) = reward_zone median_weight version /\
  20000 <= reward_zone median_weight version < 2 ^ 31.
Proof.
  intros Hm. unfold reward_zone. pose proof (get_min_block_weight_range version).
  destruct (Z.ltb_spec median_weight (get_min_block_weight version)); lia.
Qed.

Lemma get_block_reward_ok median_weight w already version height :
  0 <= median_weight < 2 ^ 31 -> 0 <= w -> 0 <= already <= MONEY_SUPPLY ->
  get_block_reward median_weight w already version height =
    (let m := reward_zone median_weight version in
     if 2 * m <? w then None else Some (penalised (base_reward already version height) m w)).
Proof.
  intros Hm Hw Ha. unfold get_block_reward. cbv zeta. destruct (zone_clamp median_weight version Hm) as [-> Hz].
  set (m := reward_zone median_weight version) in *. rewrite (wrap_small 64 (2 * m)) by (unfold in_range; lia).
  pose proof (base_reward_u64 already version height Ha) as Hb.
  destruct (Z.leb_spec w m); [rewrite (proj2 (Z.ltb_ge _ _)) by lia; unfold penalised; by rewrite (proj2 (Z.leb_le _ _))|].
  destruct (Z.ltb_spec (2 * m) w); [done|]. by rewrite penalty_quotient_ok by lia.
Qed.

Lemma reward_asserts_hold median_weight w already version height :
  0 <= median_weight < 2 ^ 31 -> 0 <= already <= MONEY_SUPPLY -> reward_asserts median_weight w already version height = true.
Proof.
  intros Hm Ha. unfold reward_asserts. cbv zeta. destruct (zone_clamp median_weight version Hm) as [-> Hz].
  set (m := reward_zone median_weight version) in *. rewrite (wrap_small 64 (2 * m)) by (unfold in_range; lia).
  pose proof (base_reward_u64 already version height Ha) as Hb. set (base := base_reward already version height) in *.
  destruct (Z.leb_spec w m); [done|]. destruct (Z.ltb_spec (2 * m) w); [done|]. rewrite penalty_quotient_ok by lia.
  rewrite !andb_true_iff, !Z.ltb_lt. split; [split; [lia|done]|]. unfold penalised. rewrite (proj2 (Z.leb_gt _ _)) by lia.
  pose proof (penalty_le m w ltac:(lia)). apply Z.div_lt_upper_bound; nia.
Qed.

(** C37: the block reward.  For weights below 2^31 and any amount already
    emitted within the supply, [get_block_reward] refuses exactly the blocks
    heavier than twice the zone (the larger of the median and the granted
    zone); up to the zone it pays the full reward, and above it
    base * (2 m - w) * w / m^2 rounded down, the 128-bit products and
    divisions being exact.  The reward never exceeds the full one, which
    lies between the tail subsidy and the premine; a lighter block is never
    paid less; and none of the assertions on the way fails. *)
Theorem get_block_reward_spec median_weight w already version height :
  0 <= median_weight < 2 ^ 31 -> 0 <= w -> 0 <= already <= MONEY_SUPPLY ->
  let m := reward_zone median_weight version in
  let base := base_reward already version height in
  get_block_reward median_weight w already version height =
    (if w <=? m then Some base else if 2 * m <? w then None else Some (base * (2 * m - w) * w / (m * m))) /\
  FINAL_SUBSIDY_PER_MINUTE * target_minutes version <= base <= PREMINE_BLOCK_REWARD /\
  (forall r, get_block_reward median_weight w already version height = Some r ->
     0 <= r <= base /\
     forall w', 0 <= w' <= w -> exists r', get_block_reward median_weight w' already version height = Some r' /\ r <= r') /\
  reward_asserts median_weight w already version height = true.
Proof.
  intros Hm Hw Ha m base. pose proof (get_min_block_weight_range version).
  assert (0 < m) by (unfold m, reward_zone; lia).
  pose proof (base_reward_bounds already version height Ha) as Hb. split_and!; [|apply Hb|apply Hb| |by apply reward_asserts_hold].
  { rewrite get_block_reward_ok by done. cbv zeta. fold m base. unfold penalised.
    destruct (Z.leb_spec w m); [by rewrite (proj2 (Z.ltb_ge _ _)) by lia|done]. }
  assert (0 <= base) as Hb0.
  { subst base. etrans; [|apply Hb]. unfold target_minutes; repeat case_match; by vm_compute. }
  intros r. rewrite get_block_reward_ok by done. cbv zeta. fold m base.
  destruct (Z.ltb_spec (2 * m) w); [done|]. intros Er. apply (inj Some) in Er as <-. split; [by apply penalised_range|].
  intros w' Hw'. rewrite get_block_reward_ok by lia. cbv zeta. fold m base. rewrite (proj2 (Z.ltb_ge _ _)) by lia.
  eexists. split; [done|]. by apply penalised_antitone.
Qed.

Lemma get_block_reward_spec_witness :
  get_block_reward 0 450000 (MONEY_SUPPLY / 2) 13 900000 = Some 143051147460 /\
  exists r', get_block_reward 0 400000 (MONEY_SUPPLY / 2) 13 900000 = Some r' /\ 143051147460 <= r'.
Proof.
  destruct (get_block_reward_spec 0 450000 (MONEY_SUPPLY / 2) 13 900000) as (E & _ & H & _); [lia|lia|by_decide|].
  assert (get_block_reward 0 450000 (MONEY_SUPPLY / 2) 13 900000 = Some 143051147460) as Ev by (rewrite E; reflexivity).
  split; [exact Ev|]. destruct (H _ Ev) as [_ H']. apply H'. lia.
Defined.

(** ** Emission *)
Lemma next_generated_spec already reward : 0 <= already <= MONEY_SUPPLY -> 0 <= reward ->
  next_generated_coins already reward = Z.min (already + reward) MONEY_SUPPLY.
Proof.
  unfold next_generated_coins, MONEY_SUPPLY. intros Ha Hr. rewrite wrap_small by (unfold in_range; lia).
  destruct (Z.ltb_spec reward (100000000000000000 - already)); [|lia].
  rewrite wrap_small by (unfold in_range; lia). lia.
Qed.

(** The coins counted after blocks of the given versions and heights, each
    light enough to claim the full reward. *)
Fixpoint emission (already : Z) (blocks : list (Z * Z)) : Z :=
  match blocks with
  | [] => already
  | (v, h) :: blocks => emission (next_generated_coins already (base_reward already v h)) blocks
  end.

Lemma emission_min already blocks : 0 <= already <= MONEY_SUPPLY ->
  Z.min MONEY_SUPPLY (already + FINAL_SUBSIDY_PER_MINUTE * zlen blocks) <= emission already blocks <= MONEY_SUPPLY /\
  already <= emission already blocks.
Proof.
  revert already. induction blocks as [|[v h] l IH]; intros already Ha; cbn [emission].
  { change (zlen (@nil (Z * Z))) with 0. lia. }
  pose proof (base_reward_bounds already v h Ha) as Hb.
  assert (FINAL_SUBSIDY_PER_MINUTE <= FINAL_SUBSIDY_PER_MINUTE * target_minutes v) as Ht
    by (unfold target_minutes; repeat case_match; by vm_compute).
  assert (0 < FINAL_SUBSIDY_PER_MINUTE) by by vm_compute.
  rewrite next_generated_spec by lia. rewrite zlen_cons. destruct (IH (Z.min (already + base_reward already v h) MONEY_SUPPLY)); lia.
Qed.

(** C38: the emission.  However the versions and heights of the blocks run,
    the counted coins never fall and never pass [MONEY_SUPPLY], so the 64-bit
    subtraction in the reward never wraps; after at most 50,000,000 full
    blocks the supply is reached, and from then on every block pays the tail
    subsidy of its version (the premine height apart). *)
Theorem emission_reaches_supply already blocks v h : 0 <= already <= MONEY_SUPPLY ->
  already <= emission already blocks <= MONEY_SUPPLY /\
  (50000000 <= zlen blocks -> emission already blocks = MONEY_SUPPLY /\
     base_reward (emission already blocks) v h = FINAL_SUBSIDY_PER_MINUTE * target_minutes v).
Proof.
  intros Ha. destruct (emission_min already blocks Ha) as [He Hm]. split; [lia|]. intros Hl.
  assert (emission already blocks = MONEY_SUPPLY) as -> by (unfold FINAL_SUBSIDY_PER_MINUTE, MONEY_SUPPLY in *; lia).
  split; [done|]. unfold base_reward. change (MONEY_SUPPLY <? PREMINE_BLOCK_REWARD) with false. rewrite andb_false_r, Z.sub_diag.
  change (u64 0) with 0. rewrite Z.shiftr_0_l. unfold target_minutes. repeat case_match; done.
Qed.

Lemma emission_reaches_supply_witness :
  emission 40000000000000000 (replicate (Z.to_nat 50000000) (13, 900000)) = MONEY_SUPPLY.
Proof.
  destruct (emission_reaches_supply 40000000000000000 (replicate (Z.to_nat 50000000) (13, 900000)) 13 1) as [_ H]; [by_decide|].
  apply H. unfold zlen. rewrite length_replicate, Z2Nat.id by lia. lia.
Defined.

(** ** The coinbase transaction *)
Lemma merge_outs_one fuel l : (length l <= fuel)%nat -> Forall is_u64 l -> 0 < sum l < 2 ^ 64 ->
  merge_outs fuel 1 l = [sum l].
Proof.
  revert l. induction fuel as [|fuel IH]; intros l Hf Hl Hs; [destruct l; simpl in *; lia|].
  destruct l as [|a [|b l]]; [simpl in *; lia|cbn [merge_outs sum]; f_equal; lia|]. cbn [merge_outs].
  rewrite (proj2 (Z.ltb_lt _ _)) by (rewrite !zlen_cons; pose proof (zlen_nonneg l); lia).
  apply Forall_cons in Hl as [Ha [Hb Hl]%Forall_cons]. pose proof (sum_nonneg _ Hl). cbn [sum] in Hs. unfold in_range in Ha, Hb.
  rewrite wrap_small by (unfold in_range; lia). rewrite IH; [cbn [sum]; f_equal; lia|simpl in *; lia| |cbn [sum]; lia].
  constructor; [unfold in_range; lia|done].
Qed.

Lemma decompose_amounts amount thr : is_u64 amount -> 0 <= thr ->
  let l := map part_amount (decompose_amount_into_digits amount thr) in Forall is_u64 l /\ sum l = amount.
Proof.
  intros Ha Ht. destruct (decompose_amount_spec amount thr Ha Ht) as (d & cs & -> & Hd & Hs & Hv). cbv zeta.
  rewrite List.map_app, List.map_map. simpl. rewrite List.map_id.
  assert (sum (map part_amount (dust_parts d) ++ cs) = amount) as E.
  { rewrite <- Hs. unfold dust_parts. destruct (Z.eqb_spec d 0) as [->|]; simpl; lia. }
  split; [|done].
  assert (Forall (fun x => 0 <= x) (map part_amount (dust_parts d) ++ cs)) as Hp.
  { apply Forall_app. split; [unfold dust_parts; case_match; simpl; repeat constructor; lia|].
    eapply Forall_impl; [exact Hv|]. intros x Hx. by apply valid_amount_nonneg. }
  revert E. generalize (map part_amount (dust_parts d) ++ cs) Hp. clear -Ha. intros l Hp E.
  unfold in_range in *. assert (Forall (fun x => x <= sum l) l /\ 0 <= sum l) as [H _].
  { clear -Hp. induction Hp as [|x l Hx Hl [IH ?]]; simpl; [split; [constructor|lia]|]. split; [|lia].
    constructor; [lia|]. eapply Forall_impl; [exact IH|]. simpl. lia. }
  rewrite E in H. apply Forall_forall. intros x Hx. rewrite Forall_forall in H. rewrite Forall_forall in Hp.
  specialize (H x Hx). specialize (Hp x Hx). cbv beta in *. lia.
Qed.

Lemma get_block_reward_zone m m' w already version height : reward_zone m version = reward_zone m' version ->
  get_block_reward m w already version height = get_block_reward m' w already version height.
Proof.
  assert (forall m, (if m <? get_min_block_weight version then get_min_block_weight version else m) = reward_zone m version) as E
    by (intros x; unfold reward_zone; destruct (Z.ltb_spec x (get_min_block_weight version)); lia).
  intros Hz. unfold get_block_reward. by rewrite !E, Hz.
Qed.

Lemma reward_bounds m w already version height r : 0 <= m < 2 ^ 31 -> 0 <= w -> 0 <= already <= MONEY_SUPPLY ->
  get_block_reward m w already version height = Some r -> 0 <= r <= 40000000000000000.
Proof.
  intros Hm Hw Ha. rewrite get_block_reward_ok by done. cbv zeta. destruct (Z.ltb_spec (2 * reward_zone m version) w); [done|].
  intros Er. apply (inj Some) in Er as <-. pose proof (base_reward_bounds already version height Ha) as Hb.
  assert (0 <= FINAL_SUBSIDY_PER_MINUTE * target_minutes version) by (unfold target_minutes; repeat case_match; by vm_compute).
  unfold PREMINE_BLOCK_REWARD in Hb. pose proof (get_min_block_weight_range version).
  destruct (penalised_range (base_reward already version height) (reward_zone m version) w); [lia|unfold reward_zone; lia|lia|lia].
Qed.

Section construct_miner_tx.
Context `{KeyDerivation}.

Definition nonce_extra (pub extra_nonce : blob) : blob :=
  if bool_decide (extra_nonce = []) then add_tx_pub_key_to_extra [] pub
  else (add_extra_nonce_to_tx_extra (add_tx_pub_key_to_extra [] pub) extra_nonce).2.

Lemma construct_miner_tx_one pub sec height m already w fee address d key tx extra_nonce version r :
  4 <= version -> zlen extra_nonce <= TX_EXTRA_NONCE_MAX_COUNT ->
  generate_key_derivation (m_view_public_key address) sec = Some d ->
  derive_public_key d 0 (m_spend_public_key address) = Some key ->
  get_block_reward m w already version height = Some r -> 0 < r + fee < 2 ^ 64 ->
  construct_miner_tx (pub, sec) height m already w fee address tx extra_nonce 1 version =
    Some (Transaction (Prefix 2 (u64 (height + CRYPTONOTE_MINED_MONEY_UNLOCK_WINDOW)) [txin_gen height]
      [Tx_out (r + fee) (target_key key)] (nonce_extra pub extra_nonce)) (signatures tx) (rct_signatures tx) None None).
Proof.
  intros Hv Hn Hd Hk Hr Hs. unfold construct_miner_tx. cbn [fst snd].
  assert ((if bool_decide (extra_nonce = []) then Some (add_tx_pub_key_to_extra [] pub)
     else let '(r, extra) := add_extra_nonce_to_tx_extra (add_tx_pub_key_to_extra [] pub) extra_nonce in
          if r then Some extra else None) = Some (nonce_extra pub extra_nonce)) as ->.
  { unfold nonce_extra. case_match; [done|]. unfold add_extra_nonce_to_tx_extra. by rewrite (proj2 (Z.leb_le _ _)) by done. }
  cbn [mbind option_bind]. rewrite Hr. cbn [mbind option_bind]. cbv zeta.
  rewrite (wrap_small 64 (r + fee)) by (unfold in_range; lia).
  replace ((2 <=? version) && (version <? 4)) with false by lia. replace (2 <=? version) with true by lia. cbn [negb Z.leb Z.compare Pos.compare Pos.compare_cont].
  replace (4 <=? version) with true by lia. rewrite orb_true_r. cbn [mbind option_bind].
  destruct (decompose_amounts (r + fee) 0) as [Hu Hsum]; [unfold in_range; lia|lia|]. cbv zeta in Hu, Hsum.
  rewrite merge_outs_one by (done || lia). rewrite Hsum. cbn [miner_outs]. rewrite Hd. cbn [mbind option_bind]. rewrite Hk. cbn [mbind option_bind].
  rewrite Z.add_0_l, (wrap_small 64 (r + fee)), Z.eqb_refl by (unfold in_range; lia). done.
Qed.

Lemma payment_valid height m already w fee version r key b weights w' :
  4 <= version -> 0 <= m < 2 ^ 31 -> 0 <= already <= MONEY_SUPPLY -> 0 <= w' <= w -> 0 <= fee < 2 ^ 63 ->
  get_block_reward m w already version height = Some r ->
  reward_zone (median weights) version = reward_zone m version ->
  vin (tx_prefix (miner_tx b)) = [txin_gen height] -> vout (tx_prefix (miner_tx b)) = [Tx_out (r + fee) (target_key key)] ->
  unlock_time (tx_prefix (miner_tx b)) = u64 (height + CRYPTONOTE_MINED_MONEY_UNLOCK_WINDOW) ->
  prevalidate_miner_transaction b height = true /\
  exists partial, validate_miner_transaction b w' fee already version weights height version = Some (r, partial) /\
    (w' = w -> partial = false).
Proof.
  intros Hv Hm Ha Hw Hf Er Hz E1 E2 E3.
  pose proof (reward_bounds m w already version height r Hm ltac:(lia) Ha Er) as Hr0. split.
  { unfold prevalidate_miner_transaction. rewrite E1, E3, !Z.eqb_refl. cbn [negb].
    unfold check_outs_overflow. rewrite E2. cbn [check_outs_overflow_loop out_amount]. rewrite Z.add_0_r, wrap_small by (unfold in_range; lia).
    by rewrite (proj2 (Z.ltb_ge _ _)) by lia. }
  assert (exists r', get_block_reward m w' already version height = Some r' /\ r <= r') as (r' & Er' & Hr).
  { rewrite get_block_reward_ok in Er |- * by (done || lia). cbv zeta in *. pose proof (get_min_block_weight_range version).
    assert (0 < reward_zone m version) by (unfold reward_zone; lia).
    pose proof (base_reward_bounds already version height Ha).
    assert (0 <= FINAL_SUBSIDY_PER_MINUTE * target_minutes version) by (unfold target_minutes; repeat case_match; by vm_compute).
    destruct (Z.ltb_spec (2 * reward_zone m version) w); [done|]. apply (inj Some) in Er as <-.
    rewrite (proj2 (Z.ltb_ge _ _)) by lia. eexists. split; [done|]. apply penalised_antitone; lia. }
  pose proof (reward_bounds m w' already version height r' Hm ltac:(lia) Ha Er'). exists (negb (r' =? r)). split.
  2: { intros ->. rewrite Er in Er'. injection Er' as ->. by rewrite Z.eqb_refl. }
  unfold validate_miner_transaction. rewrite (get_block_reward_zone (median weights) m) by done. rewrite Er', E2. cbn [foldl out_amount].
  rewrite (proj2 (Z.eqb_neq version 3)) by lia. cbn [andb].
  rewrite Z.add_0_l, (wrap_small 64 (r + fee)), (wrap_small 64 (r' + fee)) by (unfold in_range; lia).
  replace (r + fee - fee) with r by lia. rewrite (wrap_small 64 r) by (unfold in_range; lia).
  rewrite (proj2 (Z.ltb_ge (r' + fee) _)), (proj2 (Z.ltb_ge version 2)), (proj2 (Z.leb_le r r')) by lia. cbn [negb]. do 3 f_equal.
  destruct (Z.eqb_spec r' r), (Z.eqb_spec (r' + fee) (r + fee)); lia.
Qed.

(** C27: the coinbase the node builds is the one it accepts.  From version 4
    on, with keys that derive, [construct_miner_tx] returns a transaction with
    one [txin_gen] of the height, one output of reward plus fees and the
    unlock time of a mined output.  A block that carries these (its extra may
    be another one), at the same weight or a lower one, passes
    [prevalidate_miner_transaction] and [validate_miner_transaction] against
    block weights of the same median, and emits exactly the reward; at the
    same weight the reward is claimed in full. *)
Theorem construct_miner_tx_valid pub sec height m already w fee address d key tx extra_nonce version r :
  4 <= version -> zlen extra_nonce <= TX_EXTRA_NONCE_MAX_COUNT ->
  generate_key_derivation (m_view_public_key address) sec = Some d ->
  derive_public_key d 0 (m_spend_public_key address) = Some key ->
  0 <= m < 2 ^ 31 -> 0 <= w -> 0 <= already <= MONEY_SUPPLY -> 0 <= fee < 2 ^ 63 ->
  get_block_reward m w already version height = Some r -> 0 < r + fee ->
  exists t, construct_miner_tx (pub, sec) height m already w fee address tx extra_nonce 1 version = Some t /\
  forall b w' weights,
    vin (tx_prefix (miner_tx b)) = vin (tx_prefix t) -> vout (tx_prefix (miner_tx b)) = vout (tx_prefix t) ->
    unlock_time (tx_prefix (miner_tx b)) = unlock_time (tx_prefix t) ->
    0 <= w' <= w -> reward_zone (median weights) version = reward_zone m version ->
    prevalidate_miner_transaction b height = true /\
    exists partial, validate_miner_transaction b w' fee already version weights height version = Some (r, partial) /\
      (w' = w -> partial = false).
Proof.
  intros Hv Hn Hd Hk Hm Hw Ha Hf Er Hp. pose proof (reward_bounds m w already version height r Hm Hw Ha Er).
  eexists. split; [by eapply construct_miner_tx_one; eauto; lia|]. cbn. intros b w' weights E1 E2 E3 Hw' Hz.
  by eapply payment_valid; eauto; lia.
Qed.
End construct_miner_tx.

(** A derivation that always succeeds. *)
Definition toy_derivation : KeyDerivation := {|
  generate_key_derivation pub sec := Some pub; derive_public_key d no spend := Some spend |}.

Lemma construct_miner_tx_valid_witness :
  let _ := toy_derivation in
  let address := Address (replicate 32 7) (replicate 32 8) in
  exists t, construct_miner_tx (replicate 32 1, replicate 32 2) 900000 300000 (MONEY_SUPPLY / 2) 5000 2300 address set_null [1; 2; 3] 1 13 = Some t /\
    out_amount <$> vout (tx_prefix t) = [190734863281 + 2300].
Proof.
  intros td address.
  destruct (construct_miner_tx_valid (replicate 32 1) (replicate 32 2) 900000 300000 (MONEY_SUPPLY / 2) 5000 2300 address
    (replicate 32 8) (replicate 32 7) set_null [1; 2; 3] 13 190734863281) as (t & E & _);
    [lia|by_decide|reflexivity|reflexivity|lia|lia|by_decide|lia|reflexivity|lia|].
  exists t. split; [exact E|]. vm_compute in E. injection E as <-. reflexivity.
Defined.

(** ** Fees *)
Lemma quantize_id fee : is_u64 fee -> quantize fee = fee.
Proof.
  intros Hf. unfold quantize. change get_fee_quantization_mask with 1. cbv zeta. rewrite Z.div_1_r, Z.mul_1_r.
  unfold wrap. rewrite Z.mod_mod, Zminus_mod_idemp_l, Z.add_simpl_r by lia. by apply (wrap_small 64).
Qed.

Lemma div128_32_chain hi lo d e : is_u64 hi -> is_u64 lo -> 0 < d < 2 ^ 32 -> 0 < e < 2 ^ 32 ->
  let n := hi * 2 ^ 64 + lo in n / d / e < 2 ^ 64 ->
  let '(_, hi, lo) := div128_32 hi lo d in
  let '(_, hi, lo) := div128_32 hi lo e in hi = 0 /\ lo = n / d / e.
Proof.
  intros Hhi Hlo Hd He n Hn. pose proof (div128_32_correct hi lo d Hhi Hlo Hd) as H1.
  destruct (div128_32 hi lo d) as [[r1 h1] l1]. destruct H1 as (Hh1 & Hl1 & Hr1 & E1).
  pose proof (div128_32_correct h1 l1 e Hh1 Hl1 He) as H2.
  destruct (div128_32 h1 l1 e) as [[r2 h2] l2]. destruct H2 as (Hh2 & Hl2 & Hr2 & E2).
  replace (n / d) with (h1 * 2 ^ 64 + l1) in * by (subst n; rewrite E1, Z.div_add_l, Z.div_small; lia).
  replace ((h1 * 2 ^ 64 + l1) / e) with (h2 * 2 ^ 64 + l2) in * by (rewrite E2, Z.div_add_l, Z.div_small; lia).
  unfold in_range in *. lia.
Qed.

Lemma get_dynamic_base_fee_per_byte r m version : HF_VERSION_PER_BYTE_FEE <= version ->
  0 <= r <= 40000000000000000 -> 0 <= m < 2 ^ 31 ->
  get_dynamic_base_fee r m version = r * 3000 / 300000 / reward_zone m version / 5 /\
  0 <= get_dynamic_base_fee r m version <= 266666667.
Proof.
  intros Hv Hr Hm. unfold get_dynamic_base_fee, HF_VERSION_PER_BYTE_FEE in *. cbv zeta.
  assert (get_min_block_weight version = 300000) as Ew.
  { unfold get_min_block_weight. by rewrite (proj2 (Z.ltb_ge version 2)), (proj2 (Z.ltb_ge version 5)) by lia. }
  replace (if m <? get_min_block_weight version then get_min_block_weight version else m) with (reward_zone m version)
    by (unfold reward_zone; destruct (Z.ltb_spec m (get_min_block_weight version)); lia).
  assert (300000 <= reward_zone m version < 2 ^ 31) as Hz by (unfold reward_zone; lia).
  rewrite (proj2 (Z.leb_le 10 version)), Ew by lia. set (z := reward_zone m version) in *. clearbody z.
  pose proof (mul128_correct r 3000 ltac:(unfold in_range; lia) ltac:(by_decide)) as Hp.
  unfold DYNAMIC_FEE_REFERENCE_TRANSACTION_WEIGHT. destruct (mul128 r 3000) as [plo phi]. destruct Hp as (Hlo & Hhi & Ep).
  rewrite (wrap_small 32 300000), (wrap_small 32 z) by (unfold in_range; lia).
  assert (0 <= r * 3000 / 300000 <= 400000000000000) as H1 by (split; [apply Z.div_pos|apply Z.div_le_upper_bound]; lia).
  assert (0 <= r * 3000 / 300000 / z <= 1333333334) as H2 by (split; [apply Z.div_pos|apply Z.div_le_upper_bound]; nia).
  pose proof (div128_32_chain phi plo 300000 z Hhi Hlo ltac:(lia) ltac:(lia)) as Hd. cbv zeta in Hd.
  replace (phi * 2 ^ 64 + plo) with (r * 3000) in Hd by lia. specialize (Hd ltac:(lia)).
  destruct (div128_32 phi plo 300000) as [[r1 h1] l1]. destruct (div128_32 h1 l1 z) as [[r2 h2] l2]. destruct Hd as [_ ->].
  split; [done|]. split; [apply Z.div_pos; lia|]. apply Z.div_le_upper_bound; lia.
Qed.

(** the fee check since version 10.  The fee per byte is the full block
    reward * 3000 / 300000 / zone / 5 in integer division, without overflow;
    a transaction of [tx_weight] bytes is accepted exactly when its fee is at
    least that per byte less the tolerance of a fiftieth.  The rounding to
    the quantization mask changes nothing, since the mask is 1. *)
Theorem check_fee_per_byte tx_weight fee version limit generated height :
  HF_VERSION_PER_BYTE_FEE <= version -> 0 <= limit / 2 < 2 ^ 31 -> 0 <= generated <= MONEY_SUPPLY -> is_u32 tx_weight ->
  let needed := tx_weight * (base_reward generated version height * 3000 / 300000 / reward_zone (limit / 2) version / 5) in
  check_fee tx_weight fee version limit generated height = true <-> needed - needed / 50 <= fee.
Proof.
  intros Hv Hl Hg Hw. unfold in_range in Hw. cbv zeta.
  assert (get_block_reward (limit / 2) 1 generated version height = Some (base_reward generated version height)) as Er.
  { rewrite get_block_reward_ok by (done || lia). cbv zeta. pose proof (get_min_block_weight_range version).
    unfold penalised. by rewrite (proj2 (Z.leb_le 1 _)), (proj2 (Z.ltb_ge _ 1)) by (unfold reward_zone; lia). }
  pose proof (reward_bounds (limit / 2) 1 generated version height _ Hl ltac:(lia) Hg Er) as Hb.
  unfold check_fee. unfold HF_VERSION_DYNAMIC_FEE, HF_VERSION_PER_BYTE_FEE in *.
  rewrite (proj2 (Z.leb_le 6 version)), (proj2 (Z.leb_le 10 version)), Er by lia. cbn [fmap option_fmap option_map].
  destruct (get_dynamic_base_fee_per_byte (base_reward generated version height) (limit / 2) version Hv Hb Hl) as [<- Hf].
  set (f := get_dynamic_base_fee _ _ _) in *. clearbody f. assert (0 <= tx_weight * f < 2 ^ 63) by nia.
  rewrite (wrap_small 64 (tx_weight * f)), quantize_id by (unfold in_range; lia). pose proof (Z.div_pos (tx_weight * f) 50).
  assert (tx_weight * f / 50 <= tx_weight * f) by (apply Z.div_le_upper_bound; lia).
  rewrite wrap_small by (unfold in_range; lia). rewrite negb_true_iff, Z.ltb_ge. done.
Qed.

Lemma check_fee_per_byte_witness :
  check_fee 2500 3113950 13 600000 (MONEY_SUPPLY / 2) 900000 = true /\
  check_fee 2500 3113949 13 600000 (MONEY_SUPPLY / 2) 900000 = false.
Proof.
  split; [|reflexivity].
  apply (check_fee_per_byte 2500 3113950 13 600000 (MONEY_SUPPLY / 2) 900000); by_decide.
Defined.
