(* ===== verification/TxPool.v ===== *)
(** * The transaction pool

    Model of src/cryptonote_core/tx_pool.cpp: admission, the index of spent key
    images, the container sorted by fee rate, pruning, removal, the selection of
    transactions for a block template, validation and start-up.  The pool's
    table, which the code keeps in the database of [Blockchain], is a field of
    the state.  What the pool asks of the chain is the class [PoolChain]; the
    clock is an argument [now].

    [fee / (double)tx_weight] and the float product of
    [template_accept_threshold] are modelled exactly: a binary floating-point
    value is a pair of a mantissa and an exponent. *)
From Stdlib Require Import ZArith Lia Bool.
From stdpp Require Import prelude gmap.
From S2P Require Import Prelude StringTools Varint Archive TxExtra Rct CryptonoteBasic Keccak TreeHash IntUtil Hashing Money Reward.
Local Open Scope Z_scope.

#[local] Opaque cn_fast_hash.

Definition MIN_RELAY_TIME : Z := 60 * 5.
Definition MAX_RELAY_TIME : Z := 60 * 60 * 4.
Definition DEFAULT_TXPOOL_MAX_WEIGHT : Z := 648000000.
Definition CRYPTONOTE_COINBASE_BLOB_RESERVED_SIZE : Z := 600.
Definition CRYPTONOTE_MEMPOOL_TX_LIVETIME : Z := 86400 * 3.
Definition CRYPTONOTE_MEMPOOL_TX_FROM_ALT_BLOCK_LIVETIME : Z := 604800.

(** ** Floating point *)
Record float := Float { mantissa : Z; exponent : Z }.

(** [n / d] rounded to the nearest integer, ties to even. *)
Definition round_half_even (n d : Z) : Z :=
  let q := n / d in
  let r := 2 * (n mod d) in
  if r <? d then q else if d <? r then q + 1 else if Z.even q then q else q + 1.

(** [num / den] rounded to [prec] significant bits; the values at hand are far
    inside the exponent range. *)
Definition round_to (prec num den : Z) : float :=
  if num =? 0 then Float 0 0
  else
    let e := Z.log2 num - Z.log2 den - prec in
    let scaled e := if 0 <=? e then (num, den * 2 ^ e) else (num * 2 ^ (- e), den) in
    let e := if (scaled e).1 / (scaled e).2 <? 2 ^ prec then e else e + 1 in
    Float (round_half_even (scaled e).1 (scaled e).2) e.

Definition float_ltb (a b : float) : bool :=
  let e := Z.min (exponent a) (exponent b) in
  mantissa a * 2 ^ (exponent a - e) <? mantissa b * 2 ^ (exponent b - e).

(** Conversions: [(double)n] of an integer, the quotient of two doubles, and
    truncation to an integer. *)
Definition to_double (n : Z) : float := round_to 53 n 1.
Definition to_float32 (n : Z) : float := round_to 24 n 1.
Definition double_div (a b : float) : float :=
  let '(Float ma ea) := a in
  let '(Float mb eb) := b in
  if ea <=? eb then round_to 53 ma (mb * 2 ^ (eb - ea)) else round_to 53 (ma * 2 ^ (ea - eb)) mb.
Definition float_to_u64 (f : float) : Z :=
  if 0 <=? exponent f then u64 (mantissa f * 2 ^ exponent f) else mantissa f / 2 ^ (- exponent f).

(** ** Helpers *)
Definition get_relay_delay (now received : Z) : Z :=
  let d := Z.quot (now - received + MIN_RELAY_TIME) MIN_RELAY_TIME * MIN_RELAY_TIME in
  u64 (if MAX_RELAY_TIME <? d then MAX_RELAY_TIME else d).

(** [ACCEPT_THRESHOLD] is 1.0f: the product is the amount rounded to a float. *)
Definition template_accept_threshold (amount : Z) : Z := float_to_u64 (to_float32 amount).

Definition get_transaction_weight_limit (version : Z) : Z :=
  if HF_VERSION_PER_BYTE_FEE <=? version
  then u64 (get_min_block_weight version / 2 - CRYPTONOTE_COINBASE_BLOB_RESERVED_SIZE)
  else u64 (get_min_block_weight version - CRYPTONOTE_COINBASE_BLOB_RESERVED_SIZE).

(** ** State *)
Record tx_verification_context := Tvc {
  t_should_be_relayed : bool; t_verifivation_failed : bool; t_verifivation_impossible : bool; t_added_to_pool : bool;
  t_low_mixin : bool; t_double_spend : bool; t_invalid_input : bool; t_invalid_output : bool;
  t_too_big : bool; t_overspend : bool; t_fee_too_low : bool; t_not_rct : bool }.

Definition tvc_zero : tx_verification_context :=
  Tvc false false false false false false false false false false false false.

Inductive tvc_flag := f_relay | f_failed | f_impossible | f_added | f_double_spend | f_invalid_input | f_invalid_output |
  f_too_big | f_overspend | f_fee_too_low | f_low_mixin.

Definition set_flag (f : tvc_flag) (b : bool) (t : tx_verification_context) : tx_verification_context :=
  let '(Tvc a1 a2 a3 a4 a5 a6 a7 a8 a9 a10 a11 a12) := t in
  match f with
  | f_relay => Tvc b a2 a3 a4 a5 a6 a7 a8 a9 a10 a11 a12
  | f_failed => Tvc a1 b a3 a4 a5 a6 a7 a8 a9 a10 a11 a12
  | f_impossible => Tvc a1 a2 b a4 a5 a6 a7 a8 a9 a10 a11 a12
  | f_added => Tvc a1 a2 a3 b a5 a6 a7 a8 a9 a10 a11 a12
  | f_low_mixin => Tvc a1 a2 a3 a4 b a6 a7 a8 a9 a10 a11 a12
  | f_double_spend => Tvc a1 a2 a3 a4 a5 b a7 a8 a9 a10 a11 a12
  | f_invalid_input => Tvc a1 a2 a3 a4 a5 a6 b a8 a9 a10 a11 a12
  | f_invalid_output => Tvc a1 a2 a3 a4 a5 a6 a7 b a9 a10 a11 a12
  | f_too_big => Tvc a1 a2 a3 a4 a5 a6 a7 a8 b a10 a11 a12
  | f_overspend => Tvc a1 a2 a3 a4 a5 a6 a7 a8 a9 b a11 a12
  | f_fee_too_low => Tvc a1 a2 a3 a4 a5 a6 a7 a8 a9 a10 b a12
  end.

Record txpool_tx_meta_t := Meta {
  max_used_block_id : blob; last_failed_id : blob; weight : Z; fee : Z; max_used_block_height : Z;
  last_failed_height : Z; receive_time : Z; last_relayed_time : Z;
  kept_by_block : bool; relayed : bool; do_not_relay : bool; double_spend_seen : bool }.
#[export] Instance txpool_tx_meta_t_eq_dec : EqDecision txpool_tx_meta_t.
Proof. solve_decision. Defined.

Definition sorted_entry : Type := float * Z * blob.
#[export] Instance float_eq_dec : EqDecision float.
Proof. solve_decision. Defined.

Record tx_memory_pool := Pool {
  txpool : gmap blob (txpool_tx_meta_t * blob);   (* the tables txpool_meta and txpool_blob *)
  m_spent_key_images : gmap blob (gset blob);
  m_txs_by_fee_and_receive_time : list sorted_entry;
  m_cookie : Z;
  m_timed_out_transactions : gset blob;
  m_txpool_max_weight : Z;
  m_txpool_weight : Z;
  m_input_cache : gmap blob (bool * tx_verification_context * Z * blob) }.

Definition set_txpool (t : gmap blob (txpool_tx_meta_t * blob)) (p : tx_memory_pool) : tx_memory_pool :=
  Pool t (m_spent_key_images p) (m_txs_by_fee_and_receive_time p) (m_cookie p) (m_timed_out_transactions p)
    (m_txpool_max_weight p) (m_txpool_weight p) (m_input_cache p).
Definition set_images (k : gmap blob (gset blob)) (p : tx_memory_pool) : tx_memory_pool :=
  Pool (txpool p) k (m_txs_by_fee_and_receive_time p) (m_cookie p) (m_timed_out_transactions p)
    (m_txpool_max_weight p) (m_txpool_weight p) (m_input_cache p).
Definition set_sorted (s : list sorted_entry) (p : tx_memory_pool) : tx_memory_pool :=
  Pool (txpool p) (m_spent_key_images p) s (m_cookie p) (m_timed_out_transactions p)
    (m_txpool_max_weight p) (m_txpool_weight p) (m_input_cache p).
Definition bump_cookie (p : tx_memory_pool) : tx_memory_pool :=
  Pool (txpool p) (m_spent_key_images p) (m_txs_by_fee_and_receive_time p) (u64 (m_cookie p + 1)) (m_timed_out_transactions p)
    (m_txpool_max_weight p) (m_txpool_weight p) (m_input_cache p).
Definition set_timed_out (s : gset blob) (p : tx_memory_pool) : tx_memory_pool :=
  Pool (txpool p) (m_spent_key_images p) (m_txs_by_fee_and_receive_time p) (m_cookie p) s
    (m_txpool_max_weight p) (m_txpool_weight p) (m_input_cache p).
Definition set_weight (w : Z) (p : tx_memory_pool) : tx_memory_pool :=
  Pool (txpool p) (m_spent_key_images p) (m_txs_by_fee_and_receive_time p) (m_cookie p) (m_timed_out_transactions p)
    (m_txpool_max_weight p) w (m_input_cache p).
Definition set_cache (c : gmap blob (bool * tx_verification_context * Z * blob)) (p : tx_memory_pool) : tx_memory_pool :=
  Pool (txpool p) (m_spent_key_images p) (m_txs_by_fee_and_receive_time p) (m_cookie p) (m_timed_out_transactions p)
    (m_txpool_max_weight p) (m_txpool_weight p) c.

(** ** The sorted container *)
Definition txCompare (a b : sorted_entry) : bool :=
  let '(fa, ta, ha) := a in
  let '(fb, tb, hb) := b in
  if float_ltb fb fa then true
  else if float_ltb fa fb then false
  else if ta <? tb then true
  else if tb <? ta then false
  else negb (bool_decide (ha = hb)).

(** [emplace]: the descent of the tree ends before the first element the new
    one compares less than; an equal predecessor means it is present. *)
Fixpoint emplace (x : sorted_entry) (l : list sorted_entry) : list sorted_entry :=
  match l with
  | [] => [x]
  | y :: l' => if txCompare x y then x :: l else if txCompare y x then y :: emplace x l' else l
  end.

Definition find_tx_in_sorted_container (p : tx_memory_pool) (id : blob) : option sorted_entry :=
  List.find (fun e => bool_decide (e.2 = id)) (m_txs_by_fee_and_receive_time p).

Fixpoint erase_id (id : blob) (l : list sorted_entry) : list sorted_entry :=
  match l with
  | [] => []
  | e :: l => if bool_decide (e.2 = id) then l else e :: erase_id id l
  end.

(** ** Key images *)

(** [get_transaction_hash(tx)]: the null hash when it cannot be computed. *)
Definition transaction_hash (tx : transaction) : blob :=
  match (get_transaction_hash false tx).1 with Some (h, _) => h | None => null_hash end.

Fixpoint insert_images (id : blob) (kept : bool) (ins : list txin_v) (m : gmap blob (gset blob)) : bool * gmap blob (gset blob) :=
  match ins with
  | [] => (true, m)
  | txin_to_key _ _ k_image :: ins =>
      let kei_image_set := default ∅ (m !! k_image) in
      let m := <[k_image := kei_image_set]> m in
      if negb (kept || bool_decide (kei_image_set = ∅)) then (false, m)
      else if bool_decide (id ∈ kei_image_set) then (false, m)
      else insert_images id kept ins (<[k_image := {[id]} ∪ kei_image_set]> m)
  | _ => (false, m)
  end.

Definition insert_key_images (p : tx_memory_pool) (tx : transaction) (kept : bool) : bool * tx_memory_pool :=
  let '(r, m) := insert_images (transaction_hash tx) kept (vin (tx_prefix tx)) (m_spent_key_images p) in
  if r then (true, bump_cookie (set_images m p)) else (false, set_images m p).

Fixpoint remove_images (id : blob) (ins : list txin_v) (m : gmap blob (gset blob)) : bool * gmap blob (gset blob) :=
  match ins with
  | [] => (true, m)
  | txin_to_key _ _ k_image :: ins =>
      match m !! k_image with
      | None => (false, m)
      | Some key_image_set =>
          if bool_decide (key_image_set = ∅) then (false, m)
          else if negb (bool_decide (id ∈ key_image_set)) then (false, m)
          else
            let key_image_set := key_image_set ∖ {[id]} in
            remove_images id ins (if bool_decide (key_image_set = ∅) then delete k_image m else <[k_image := key_image_set]> m)
      end
  | _ => (false, m)
  end.

Definition remove_transaction_keyimages (p : tx_memory_pool) (tx : transaction) : bool * tx_memory_pool :=
  let '(r, m) := remove_images (transaction_hash tx) (vin (tx_prefix tx)) (m_spent_key_images p) in
  if r then (true, bump_cookie (set_images m p)) else (false, set_images m p).

Definition have_tx_keyimg_as_spent (p : tx_memory_pool) (key_im : blob) : bool := bool_decide (is_Some (m_spent_key_images p !! key_im)).

Fixpoint any_keyimg_spent (p : tx_memory_pool) (ins : list txin_v) : bool :=
  match ins with
  | [] => false
  | txin_to_key _ _ k_image :: ins => if have_tx_keyimg_as_spent p k_image then true else any_keyimg_spent p ins
  | _ => true
  end.
Definition have_tx_keyimges_as_spent (p : tx_memory_pool) (tx : transaction) : bool := any_keyimg_spent p (vin (tx_prefix tx)).

Fixpoint have_images (k_images : gset blob) (ins : list txin_v) : bool :=
  match ins with
  | [] => false
  | txin_to_key _ _ k_image :: ins => if bool_decide (k_image ∈ k_images) then true else have_images k_images ins
  | _ => false
  end.
Definition have_key_images (k_images : gset blob) (tx : transaction) : bool := have_images k_images (vin (tx_prefix tx)).

Fixpoint append_images (k_images : gset blob) (ins : list txin_v) : bool * gset blob :=
  match ins with
  | [] => (true, k_images)
  | txin_to_key _ _ k_image :: ins =>
      if bool_decide (k_image ∈ k_images) then (false, k_images) else append_images ({[k_image]} ∪ k_images) ins
  | _ => (false, k_images)
  end.
Definition append_key_images (k_images : gset blob) (tx : transaction) : bool * gset blob := append_images k_images (vin (tx_prefix tx)).

(** ** The table *)
Definition get_txpool_tx_meta (p : tx_memory_pool) (id : blob) : option txpool_tx_meta_t := fst <$> txpool p !! id.
Definition get_txpool_tx_blob (p : tx_memory_pool) (id : blob) : option blob := snd <$> txpool p !! id.
Definition remove_txpool_tx (p : tx_memory_pool) (id : blob) : tx_memory_pool := set_txpool (delete id (txpool p)) p.

(** [None]: the transaction is already there, an exception. *)
Definition add_txpool_tx (p : tx_memory_pool) (tx : transaction) (meta : txpool_tx_meta_t) : option tx_memory_pool :=
  let txid := transaction_hash tx in
  match txpool p !! txid with
  | Some _ => None
  | None => Some (set_txpool (<[txid := (meta, tx_to_blob tx)]> (txpool p)) p)
  end.

Definition update_txpool_tx (p : tx_memory_pool) (id : blob) (meta : txpool_tx_meta_t) : option tx_memory_pool :=
  match txpool p !! id with
  | None => None
  | Some (_, bd) => Some (set_txpool (<[id := (meta, bd)]> (txpool p)) p)
  end.

(** ** Pruning *)

(** The entries from the last towards the second; the result says whether
    anything changed and whether the loop was left by a return. *)
Fixpoint prune_loop (rest : list sorted_entry) (bytes : Z) (changed : bool) (p : tx_memory_pool) : bool * bool * tx_memory_pool :=
  match rest with
  | [] => (changed, false, p)
  | (rate, time, txid) :: rest =>
      if m_txpool_weight p <=? bytes then (changed, false, p)
      else
        match txpool p !! txid with
        | None => (changed, true, p)
        | Some (meta, txblob) =>
            if kept_by_block meta then prune_loop rest bytes changed p
            else
              match parse_and_validate_tx_from_blob txblob with
              | None => (changed, true, p)
              | Some tx =>
                  let p := remove_txpool_tx p txid in
                  let p := set_weight (u64 (m_txpool_weight p - time)) p in
                  let p := (remove_transaction_keyimages p tx).2 in
                  prune_loop rest bytes true (set_sorted (erase_id txid (m_txs_by_fee_and_receive_time p)) p)
              end
        end
  end.

Definition prune (p : tx_memory_pool) (bytes : Z) : tx_memory_pool :=
  let bytes := if bytes =? 0 then m_txpool_max_weight p else bytes in
  let '(changed, returned, p) := prune_loop (rev (tail (m_txs_by_fee_and_receive_time p))) bytes false p in
  if negb returned && changed then bump_cookie p else p.

(** ** The chain the pool works for *)
Class PoolChain (CS : Type) := {
  pc_check_fee : CS -> Z -> Z -> bool;
  pc_check_tx_outputs : CS -> transaction -> tx_verification_context -> bool * tx_verification_context;
  (** the context, then the height and id of the last block used, which the
      call may have set *)
  pc_check_tx_inputs : CS -> transaction -> bool -> tx_verification_context -> Z -> blob -> bool * tx_verification_context * Z * blob;
  pc_have_tx_keyimges_as_spent : CS -> transaction -> bool;
  pc_have_tx : CS -> blob -> bool;
  pc_current_blockchain_height : CS -> Z;
  pc_get_block_id_by_height : CS -> Z -> blob
}.

Section pool.
Context `{PoolChain CS}.

(** The pool's [check_tx_inputs] with its cache. *)
Definition check_tx_inputs (cs : CS) (p : tx_memory_pool) (tx : transaction) (txid : blob) (kept : bool)
  (tvc : tx_verification_context) (height : Z) (id : blob) : bool * tx_verification_context * Z * blob * tx_memory_pool :=
  match (if kept then None else m_input_cache p !! txid) with
  | Some (r, tvc, height, id) => (r, tvc, height, id, p)
  | None =>
      let '(ret, tvc, height, id) := pc_check_tx_inputs cs tx kept tvc height id in
      (ret, tvc, height, id, if kept then p else set_cache (<[txid := (ret, tvc, height, id)]> (m_input_cache p)) p)
  end.

Definition mark_one (p : tx_memory_pool) (changed : bool) (txid : blob) : tx_memory_pool * bool :=
  match get_txpool_tx_meta p txid with
  | None => (p, changed)
  | Some m =>
      if double_spend_seen m then (p, changed)
      else
        let m := Meta (max_used_block_id m) (last_failed_id m) (weight m) (fee m) (max_used_block_height m)
          (last_failed_height m) (receive_time m) (last_relayed_time m) (kept_by_block m) (relayed m) (do_not_relay m) true in
        (default p (update_txpool_tx p txid m), true)
  end.

Fixpoint mark_loop (ins : list txin_v) (p : tx_memory_pool) (changed : bool) : tx_memory_pool * bool * bool :=
  match ins with
  | [] => (p, changed, false)
  | txin_to_key _ _ k_image :: ins =>
      let '(p, changed) :=
        match m_spent_key_images p !! k_image with
        | None => (p, changed)
        | Some s => foldl (fun '(p, changed) txid => mark_one p changed txid) (p, changed) (elements s)
        end in
      mark_loop ins p changed
  | _ => (p, changed, true)
  end.

Definition mark_double_spend (p : tx_memory_pool) (tx : transaction) : tx_memory_pool :=
  let '(p, changed, returned) := mark_loop (vin (tx_prefix tx)) p false in
  if negb returned && changed then bump_cookie p else p.

Definition fee_rate (fee tx_weight : Z) : float := double_div (to_double fee) (to_double tx_weight).

(** The fee, or the context of the refusal. *)
Definition pool_fee (tx : transaction) (tvc : tx_verification_context) : tx_verification_context + Z :=
  if version (tx_prefix tx) =? 1 then
    match get_inputs_money_amount tx with
    | None => inl (set_flag f_failed true tvc)
    | Some inputs_amount =>
        let outputs_amount := get_outs_money_amount tx in
        if inputs_amount <? outputs_amount then inl (set_flag f_overspend true (set_flag f_failed true tvc))
        else if outputs_amount =? inputs_amount then inl (set_flag f_fee_too_low true (set_flag f_failed true tvc))
        else inr (u64 (inputs_amount - outputs_amount))
    end
  else inr (txnFee (rct_signatures tx)).

(** The insertion shared by both outcomes of the input check; [None] is a
    failed [insert_key_images] or an exception, with the state it leaves. *)
Definition pool_insert (p : tx_memory_pool) (tx : transaction) (id : blob) (meta : txpool_tx_meta_t) (replace : bool)
  : bool * tx_memory_pool :=
  let p := if replace then remove_txpool_tx p (transaction_hash tx) else p in
  match add_txpool_tx p tx meta with
  | None => (false, p)
  | Some p =>
      let '(r, p) := insert_key_images p tx (kept_by_block meta) in
      if r then (true, set_sorted (emplace (fee_rate (fee meta) (weight meta), receive_time meta, id)
                         (m_txs_by_fee_and_receive_time p)) p)
      else (false, p)
  end.

Definition add_tx_id (cs : CS) (now : Z) (p : tx_memory_pool) (tx : transaction) (id : blob) (tx_weight : Z)
  (tvc : tx_verification_context) (kept relay no_relay : bool) (version : Z) : bool * tx_verification_context * tx_memory_pool :=
  if CryptonoteBasic.version (tx_prefix tx) =? 0 then (false, set_flag f_failed true tvc, p)
  else if negb kept && bool_decide (id ∈ m_timed_out_transactions p) then (false, set_flag f_failed true tvc, p)
  else if negb (check_inputs_types_supported tx) then (false, set_flag f_invalid_input true (set_flag f_failed true tvc), p)
  else
    match pool_fee tx tvc with
    | inl tvc => (false, tvc, p)
    | inr fee =>
        if negb kept && negb (pc_check_fee cs tx_weight fee) then (false, set_flag f_fee_too_low true (set_flag f_failed true tvc), p)
        else if (negb kept || (HF_VERSION_PER_BYTE_FEE <=? version)) && (get_transaction_weight_limit version <? tx_weight)
        then (false, set_flag f_too_big true (set_flag f_failed true tvc), p)
        else if negb kept && have_tx_keyimges_as_spent p tx
        then (false, set_flag f_double_spend true (set_flag f_failed true tvc), mark_double_spend p tx)
        else
          let '(outs, tvc) := pc_check_tx_outputs cs tx tvc in
          if negb outs then (false, set_flag f_invalid_output true (set_flag f_failed true tvc), p)
          else
            let tvc := set_flag f_failed true tvc in
            let '(ch_inp_res, tvc, max_height, max_id, p) := check_tx_inputs cs p tx id kept tvc 0 null_hash in
            if negb ch_inp_res && negb kept
            then (false, set_flag f_invalid_input true (set_flag f_failed true tvc), p)
            else
              let meta :=
                if negb ch_inp_res
                then Meta null_hash null_hash tx_weight fee 0 0 now now kept relay no_relay (have_tx_keyimges_as_spent p tx)
                else Meta max_id null_hash tx_weight fee max_height 0 now now kept relay no_relay false in
              let '(r, p) := pool_insert p tx id meta ch_inp_res in
              if negb r then (false, tvc, p)
              else
                let tvc :=
                  if negb ch_inp_res then set_flag f_added true (set_flag f_impossible true tvc)
                  else
                    let tvc := set_flag f_added true tvc in
                    if (0 <? fee) && negb no_relay then set_flag f_relay true tvc else tvc in
                let tvc := set_flag f_failed false tvc in
                let p := bump_cookie (set_weight (u64 (m_txpool_weight p + tx_weight)) p) in
                (true, tvc, prune p (m_txpool_max_weight p))
    end.

(** The other overload; a weight that cannot be computed is an exception, [None]. *)
Definition add_tx (cs : CS) (now : Z) (p : tx_memory_pool) (tx : transaction) (tvc : tx_verification_context)
  (kept relay no_relay : bool) (version : Z) : option (bool * tx_verification_context * tx_memory_pool) :=
  match (get_transaction_hash true tx).1 with
  | None => Some (false, tvc, p)
  | Some (h, blob_size) =>
      if blob_size =? 0 then Some (false, tvc, p)
      else
        tx_weight ← get_transaction_weight_of tx blob_size;
        Some (add_tx_id cs now p tx h tx_weight tvc kept relay no_relay version)
  end.

(** ** Taking and removing *)
Record taken := Taken { k_tx : transaction; k_weight : Z; k_fee : Z; k_relayed : bool; k_do_not_relay : bool; k_double_spend_seen : bool }.

Definition take_tx (p : tx_memory_pool) (id : blob) : option taken * tx_memory_pool :=
  match find_tx_in_sorted_container p id with
  | None => (None, p)
  | Some _ =>
      match txpool p !! id with
      | None => (None, p)
      | Some (meta, txblob) =>
          match parse_and_validate_tx_from_blob txblob with
          | None => (None, p)
          | Some tx =>
              let p := remove_txpool_tx p id in
              let p := set_weight (u64 (m_txpool_weight p - weight meta)) p in
              let p := (remove_transaction_keyimages p tx).2 in
              let p := set_sorted (erase_id id (m_txs_by_fee_and_receive_time p)) p in
              (Some (Taken tx (weight meta) (fee meta) (relayed meta) (do_not_relay meta) (double_spend_seen meta)), bump_cookie p)
          end
      end
  end.

Definition is_stuck (now : Z) (meta : txpool_tx_meta_t) : bool :=
  let tx_age := u64 (now - receive_time meta) in
  ((CRYPTONOTE_MEMPOOL_TX_LIVETIME <? tx_age) && negb (kept_by_block meta)) ||
  ((CRYPTONOTE_MEMPOOL_TX_FROM_ALT_BLOCK_LIVETIME <? tx_age) && kept_by_block meta).

(** Remove one transaction from the table by its blob; a weight that cannot be
    computed throws after the removal, and the handler ignores it. *)
Definition drop_tx (p : tx_memory_pool) (txid : blob) : bool * tx_memory_pool :=
  match get_txpool_tx_blob p txid with
  | None => (false, p)
  | Some bd =>
      match parse_and_validate_tx_from_blob bd with
      | None => (false, p)
      | Some tx =>
          let p := remove_txpool_tx p txid in
          match get_transaction_weight_of tx (zlen bd) with
          | None => (false, p)
          | Some w => (true, (remove_transaction_keyimages (set_weight (u64 (m_txpool_weight p - w)) p) tx).2)
          end
      end
  end.

Definition remove_stuck_transactions (now : Z) (p : tx_memory_pool) : tx_memory_pool :=
  let remove := filter (fun e => is_stuck now e.2.1 = true) (map_to_list (txpool p)) in
  let p := foldl (fun p e => set_timed_out ({[e.1]} ∪ m_timed_out_transactions p)
                               (set_sorted (erase_id e.1 (m_txs_by_fee_and_receive_time p)) p)) p remove in
  match remove with
  | [] => p
  | _ => bump_cookie (foldl (fun p e => (drop_tx p e.1).2) p remove)
  end.

Definition on_blockchain_inc (p : tx_memory_pool) : tx_memory_pool := set_cache ∅ p.
Definition on_blockchain_dec (p : tx_memory_pool) : tx_memory_pool := set_cache ∅ p.
Definition have_tx (p : tx_memory_pool) (id : blob) : bool := bool_decide (is_Some (txpool p !! id)).

(** ** Relaying *)
Definition get_relayable_transactions (now : Z) (p : tx_memory_pool) : list (blob * blob) :=
  omap (fun '(txid, (meta, bd)) =>
    if (0 <? fee meta) && negb (do_not_relay meta) &&
       (get_relay_delay now (receive_time meta) <? u64 (now - last_relayed_time meta)) then
      let max_age := if kept_by_block meta then CRYPTONOTE_MEMPOOL_TX_FROM_ALT_BLOCK_LIVETIME else CRYPTONOTE_MEMPOOL_TX_LIVETIME in
      if u64 (now - receive_time meta) <=? max_age / 2 then Some (txid, bd) else None
    else None) (map_to_list (txpool p)).

Definition set_relayed (now : Z) (p : tx_memory_pool) (txs : list (blob * blob)) : tx_memory_pool :=
  foldl (fun p '(txid, _) =>
    match get_txpool_tx_meta p txid with
    | None => p
    | Some m => default p (update_txpool_tx p txid
        (Meta (max_used_block_id m) (last_failed_id m) (weight m) (fee m) (max_used_block_height m) (last_failed_height m)
           (receive_time m) now (kept_by_block m) true (do_not_relay m) (double_spend_seen m)))
    end) p txs.

(** ** Block templates *)
Definition set_used (m : txpool_tx_meta_t) (height : Z) (id : blob) : txpool_tx_meta_t :=
  Meta id (last_failed_id m) (weight m) (fee m) height (last_failed_height m) (receive_time m) (last_relayed_time m)
    (kept_by_block m) (relayed m) (do_not_relay m) (double_spend_seen m).
Definition set_last_failed (m : txpool_tx_meta_t) (height : Z) (id : blob) : txpool_tx_meta_t :=
  Meta (max_used_block_id m) id (weight m) (fee m) (max_used_block_height m) height (receive_time m) (last_relayed_time m)
    (kept_by_block m) (relayed m) (do_not_relay m) (double_spend_seen m).
Definition set_double_spend_seen (m : txpool_tx_meta_t) : txpool_tx_meta_t :=
  Meta (max_used_block_id m) (last_failed_id m) (weight m) (fee m) (max_used_block_height m) (last_failed_height m)
    (receive_time m) (last_relayed_time m) (kept_by_block m) (relayed m) (do_not_relay m) true.

(** The input check and what follows it; the blob is parsed only where the code
    needs the object, and a parse failure throws, which the caller takes as not
    ready. *)
Definition check_ready (cs : CS) (p : tx_memory_pool) (txd : txpool_tx_meta_t) (txid txblob : blob)
  : option transaction * txpool_tx_meta_t * tx_memory_pool :=
  let parsed := parse_and_validate_tx_from_blob txblob in
  match (m_input_cache p !! txid), parsed with
  | None, None => (None, txd, p)
  | _, _ =>
      let '(r, _, h, id, p) := check_tx_inputs cs p (default set_null parsed) txid false tvc_zero
        (max_used_block_height txd) (max_used_block_id txd) in
      let txd := set_used txd h id in
      if negb r then
        let last := u64 (pc_current_blockchain_height cs - 1) in
        (None, set_last_failed txd last (pc_get_block_id_by_height cs last), p)
      else
        match parsed with
        | None => (None, txd, p)
        | Some tx => if pc_have_tx_keyimges_as_spent cs tx then (None, set_double_spend_seen txd, p) else (Some tx, txd, p)
        end
  end.

(** The transaction when it is ready, and the metadata as updated. *)
Definition is_transaction_ready_to_go (cs : CS) (p : tx_memory_pool) (txd : txpool_tx_meta_t) (txid txblob : blob)
  : option transaction * txpool_tx_meta_t * tx_memory_pool :=
  if bool_decide (max_used_block_id txd = null_hash) then
    if negb (bool_decide (last_failed_id txd = null_hash)) &&
       (last_failed_height txd <? pc_current_blockchain_height cs) &&
       bool_decide (last_failed_id txd = pc_get_block_id_by_height cs (last_failed_height txd))
    then (None, txd, p)
    else check_ready cs p txd txid txblob
  else if pc_current_blockchain_height cs <=? max_used_block_height txd then (None, txd, p)
  else if bool_decide (last_failed_id txd = pc_get_block_id_by_height cs (last_failed_height txd)) then (None, txd, p)
  else check_ready cs p txd txid txblob.

Record fill_state := Fill {
  fl_tx_hashes : list blob; fl_total_weight : Z; fl_fee : Z; fl_best_coinbase : Z; fl_coinbase : Z;
  fl_k_images : gset blob; fl_pool : tx_memory_pool }.

Definition set_fl_coinbase (s : fill_state) (c : Z) : fill_state :=
  Fill (fl_tx_hashes s) (fl_total_weight s) (fl_fee s) (fl_best_coinbase s) c (fl_k_images s) (fl_pool s).
Definition set_fl_pool (s : fill_state) (p : tx_memory_pool) : fill_state :=
  Fill (fl_tx_hashes s) (fl_total_weight s) (fl_fee s) (fl_best_coinbase s) (fl_coinbase s) (fl_k_images s) p.

(** The last part of the loop body: readiness, key images, inclusion. *)
Definition fill_include (cs : CS) (s : fill_state) (txid : blob) (meta : txpool_tx_meta_t) (txblob : blob) : fill_state :=
  let '(ready, meta', p) := is_transaction_ready_to_go cs (fl_pool s) meta txid txblob in
  let p := if bool_decide (meta = meta') then p else default p (update_txpool_tx p txid meta') in
  let s := set_fl_pool s p in
  match ready with
  | None => s
  | Some tx =>
      if have_key_images (fl_k_images s) tx then s
      else Fill (fl_tx_hashes s ++ [txid]) (u64 (fl_total_weight s + weight meta')) (u64 (fl_fee s + fee meta'))
             (fl_coinbase s) (fl_coinbase s) (append_key_images (fl_k_images s) tx).2 p
  end.

Fixpoint fill_loop (cs : CS) (l : list sorted_entry) (median_weight already_generated_coins max_total_weight version height : Z)
  (s : fill_state) : fill_state :=
  match l with
  | [] => s
  | (_, _, txid) :: l =>
      let next := fill_loop cs l median_weight already_generated_coins max_total_weight version height in
      match txpool (fl_pool s) !! txid with
      | None => next s
      | Some (meta, txblob) =>
          if max_total_weight <? u64 (fl_total_weight s + weight meta) then next s
          else if 5 <=? version then
            match get_block_reward median_weight (u64 (fl_total_weight s + weight meta)) already_generated_coins version height with
            | None => next s
            | Some block_reward =>
                let s := set_fl_coinbase s (u64 (u64 (block_reward + fl_fee s) + fee meta)) in
                if fl_coinbase s <? template_accept_threshold (fl_best_coinbase s) then next s
                else next (fill_include cs s txid meta txblob)
            end
          else if median_weight <? fl_total_weight s then s
          else next (fill_include cs s txid meta txblob)
      end
  end.

(** Result: the transactions appended to the block, their weight and fees, the
    expected reward, and the pool. *)
Definition fill_block_template (cs : CS) (p : tx_memory_pool) (tx_hashes : list blob)
  (median_weight already_generated_coins version height : Z) : list blob * Z * Z * Z * tx_memory_pool :=
  let best_coinbase := default 0 (get_block_reward median_weight 0 already_generated_coins version height) in
  let max_total_weight_pre_v5 := u64 (u64 (130 * median_weight) / 100 - CRYPTONOTE_COINBASE_BLOB_RESERVED_SIZE) in
  let max_total_weight_v5 := u64 (u64 (2 * median_weight) - CRYPTONOTE_COINBASE_BLOB_RESERVED_SIZE) in
  let max_total_weight := if 5 <=? version then max_total_weight_v5 else max_total_weight_pre_v5 in
  let s := fill_loop cs (m_txs_by_fee_and_receive_time p) median_weight already_generated_coins max_total_weight version height
             (Fill tx_hashes 0 0 best_coinbase 0 ∅ p) in
  (fl_tx_hashes s, fl_total_weight s, fl_fee s, fl_best_coinbase s, fl_pool s).

(** ** Validation and start-up *)
Definition validate_one (acc : Z * tx_memory_pool) (txid : blob) : Z * tx_memory_pool :=
  let '(n_removed, p) := acc in
  let '(r, p) := drop_tx p txid in
  if r then (n_removed + 1, set_sorted (erase_id txid (m_txs_by_fee_and_receive_time p)) p) else (n_removed, p).

Definition validate (cs : CS) (p : tx_memory_pool) (version : Z) : Z * tx_memory_pool :=
  let tx_weight_limit := get_transaction_weight_limit version in
  let entries := map_to_list (txpool p) in
  let p := set_weight (foldl (fun w e => u64 (w + weight e.2.1)) 0 entries) p in
  let remove := filter (fun e => (tx_weight_limit <? weight e.2.1) || pc_have_tx cs e.1 = true) entries in
  let '(n_removed, p) := foldl (fun acc e => validate_one acc e.1) (0, p) remove in
  (n_removed, if 0 <? n_removed then bump_cookie p else p).

(** One pass of [init]: the entries of one kind, and those to remove; [None]
    when the key images cannot be inserted. *)
Fixpoint init_pass (kept : bool) (l : list (blob * (txpool_tx_meta_t * blob))) (p : tx_memory_pool) (remove : list blob)
  : option (tx_memory_pool * list blob) :=
  match l with
  | [] => Some (p, remove)
  | (txid, (meta, bd)) :: l =>
      if negb (eqb kept (kept_by_block meta)) then init_pass kept l p remove
      else
        match parse_and_validate_tx_from_blob bd with
        | None => init_pass kept l p (remove ++ [txid])
        | Some tx =>
            let '(r, p) := insert_key_images p tx (kept_by_block meta) in
            if negb r then None
            else
              let p := set_sorted (emplace (fee_rate (fee meta) (weight meta), receive_time meta, txid)
                         (m_txs_by_fee_and_receive_time p)) p in
              init_pass kept l (set_weight (u64 (m_txpool_weight p + weight meta)) p) remove
        end
  end.

Definition init (p : tx_memory_pool) (max_txpool_weight : Z) : option tx_memory_pool :=
  let mx := if max_txpool_weight =? 0 then DEFAULT_TXPOOL_MAX_WEIGHT else max_txpool_weight in
  let p := Pool (txpool p) ∅ [] (m_cookie p) (m_timed_out_transactions p) mx 0 (m_input_cache p) in
  let entries := map_to_list (txpool p) in
  '(p, remove) ← init_pass false entries p [];
  '(p, remove) ← init_pass true entries p remove;
  let p := foldl remove_txpool_tx p remove in
  Some (Pool (txpool p) (m_spent_key_images p) (m_txs_by_fee_and_receive_time p) 0 (m_timed_out_transactions p)
          (m_txpool_max_weight p) (m_txpool_weight p) (m_input_cache p)).
End pool.

(** ** The index of key images *)
Fixpoint images_of (ins : list txin_v) : option (list blob) :=
  match ins with
  | [] => Some []
  | txin_to_key _ _ k_image :: ins => r ← images_of ins; Some (k_image :: r)
  | _ => None
  end.
Definition images (tx : transaction) : option (list blob) := images_of (vin (tx_prefix tx)).

(** The transactions recorded for a key image. *)
Definition spenders (m : gmap blob (gset blob)) (k : blob) : gset blob := default ∅ (m !! k).
Definition no_empty (m : gmap blob (gset blob)) : Prop := forall k, m !! k <> Some ∅.

Lemma spenders_insert m k s k' : spenders (<[k := s]> m) k' = if decide (k = k') then s else spenders m k'.
Proof. unfold spenders. destruct (decide (k = k')) as [->|]; [by rewrite lookup_insert_eq|by rewrite lookup_insert_ne]. Qed.
Lemma spenders_delete m k k' : spenders (delete k m) k' = if decide (k = k') then ∅ else spenders m k'.
Proof. unfold spenders. destruct (decide (k = k')) as [->|]; [by rewrite lookup_delete_eq|by rewrite lookup_delete_ne]. Qed.

Lemma insert_images_spec id kept ins ks m : images_of ins = Some ks -> NoDup ks -> no_empty m ->
  (forall k, k ∈ ks -> (id ∉ spenders m k) /\ (kept = false -> spenders m k = ∅)) ->
  exists m', insert_images id kept ins m = (true, m') /\ no_empty m' /\
    forall k x, x ∈ spenders m' k <-> x ∈ spenders m k \/ (x = id /\ k ∈ ks).
Proof.
  revert ks m. induction ins as [|i ins IH]; intros ks m; simpl.
  { intros [= <-] _ Hm _. exists m. split; [done|]. split; [done|]. intros k x. set_solver. }
  destruct i as [| | |a o ki]; try done. destruct (images_of ins) as [r|]; [|done]. intros [= <-] Hnd Hm Hk.
  apply NoDup_cons in Hnd as [Hki Hnd]. destruct (Hk ki ltac:(by left)) as [Hid Hkept]. fold (spenders m ki).
  assert (negb (kept || bool_decide (spenders m ki = ∅)) = false) as ->.
  { destruct kept; [done|]. by rewrite bool_decide_true by auto. }
  rewrite bool_decide_false by done. rewrite insert_insert_eq.
  destruct (IH r (<[ki := {[id]} ∪ spenders m ki]> m)) as (m' & E & Hm' & Hs); [done|done| | |].
  - intros k. destruct (decide (ki = k)) as [->|]; [rewrite lookup_insert_eq; intros [= E]; set_solver|by rewrite lookup_insert_ne].
  - intros k Hin. rewrite spenders_insert. rewrite decide_False by set_solver. apply Hk. by right.
  - exists m'. split; [done|]. split; [done|]. intros k x. rewrite Hs, spenders_insert, elem_of_cons.
    destruct (decide (ki = k)) as [->|]; set_solver.
Qed.

Lemma remove_images_spec id ins ks m : images_of ins = Some ks -> NoDup ks -> no_empty m ->
  (forall k, k ∈ ks -> id ∈ spenders m k) ->
  exists m', remove_images id ins m = (true, m') /\ no_empty m' /\
    forall k x, x ∈ spenders m' k <-> x ∈ spenders m k /\ ~ (x = id /\ k ∈ ks).
Proof.
  revert ks m. induction ins as [|i ins IH]; intros ks m; simpl.
  { intros [= <-] _ Hm _. exists m. split; [done|]. split; [done|]. intros k x. set_solver. }
  destruct i as [| | |a o ki]; try done. destruct (images_of ins) as [r|]; [|done]. intros [= <-] Hnd Hm Hk.
  apply NoDup_cons in Hnd as [Hki Hnd]. pose proof (Hk ki ltac:(by left)) as Hid. unfold spenders in Hid.
  destruct (m !! ki) as [s|] eqn:Es; simpl in Hid; [|set_solver].
  rewrite bool_decide_false by set_solver. rewrite bool_decide_true by done. cbn [negb].
  set (m1 := if bool_decide (s ∖ {[id]} = ∅) then delete ki m else <[ki := s ∖ {[id]}]> m).
  assert (forall k, spenders m1 k = if decide (ki = k) then s ∖ {[id]} else spenders m k) as Hm1.
  { intros k. unfold m1. case_bool_decide as He; [rewrite spenders_delete|by rewrite spenders_insert].
    destruct (decide (ki = k)); [by rewrite He|done]. }
  destruct (IH r m1) as (m' & E & Hm' & Hs); [done|done| | |].
  - intros k. unfold m1. case_bool_decide as He.
    + destruct (decide (ki = k)) as [->|]; [by rewrite lookup_delete_eq|by rewrite lookup_delete_ne].
    + destruct (decide (ki = k)) as [->|]; [rewrite lookup_insert_eq; by intros [= ?]|by rewrite lookup_insert_ne].
  - intros k Hin. rewrite Hm1, decide_False by set_solver. apply Hk. by right.
  - exists m'. split; [done|]. split; [done|]. intros k x. rewrite Hs, Hm1, elem_of_cons.
    destruct (decide (ki = k)) as [<-|]; [unfold spenders; rewrite Es; simpl|]; set_solver.
Qed.

(** ** The invariant of the pool *)
Definition total_weight (m : gmap blob (txpool_tx_meta_t * blob)) : Z := map_fold (fun _ e acc => weight e.1 + acc) 0 m.

Lemma total_weight_insert m id e : m !! id = None -> total_weight (<[id := e]> m) = weight e.1 + total_weight m.
Proof. intros Hm. apply (map_fold_insert_L (fun _ e acc => weight e.1 + acc)); [intros; lia|done]. Qed.

Lemma total_weight_delete m id e : m !! id = Some e -> total_weight m = weight e.1 + total_weight (delete id m).
Proof. intros Hm. rewrite <- (total_weight_insert _ id) by apply lookup_delete_eq. by rewrite insert_delete_id. Qed.

(** What a table entry stands for: a transaction of that id whose inputs all
    spend keys, no key image twice. *)
Definition entry_ok (id : blob) (bd : blob) (ks : list blob) : Prop :=
  exists tx, parse_and_validate_tx_from_blob bd = Some tx /\ transaction_hash tx = id /\ images tx = Some ks /\ NoDup ks.

Record pool_ok (p : tx_memory_pool) : Prop := PoolOk {
  po_ids : NoDup (m_txs_by_fee_and_receive_time p).*2;
  po_sorted : forall id, id ∈ (m_txs_by_fee_and_receive_time p).*2 <-> is_Some (txpool p !! id);
  po_weight : m_txpool_weight p = u64 (total_weight (txpool p));
  po_entries : forall id meta bd, txpool p !! id = Some (meta, bd) -> exists ks, entry_ok id bd ks;
  po_nonempty : no_empty (m_spent_key_images p);
  po_images : forall k id, id ∈ spenders (m_spent_key_images p) k <->
    exists meta bd ks, txpool p !! id = Some (meta, bd) /\ entry_ok id bd ks /\ k ∈ ks }.

Lemma entry_ok_fun id id' bd ks ks' : entry_ok id bd ks -> entry_ok id' bd ks' -> id = id' /\ ks = ks'.
Proof. intros (tx & E & Hid & Hks & _) (tx' & E' & Hid' & Hks' & _). rewrite E in E'. injection E' as <-. rewrite Hks in Hks'. by split; [congruence|injection Hks']. Qed.

Lemma erase_id_spec id l : NoDup l.*2 -> NoDup (erase_id id l).*2 /\ forall x, x ∈ (erase_id id l).*2 <-> x ∈ l.*2 /\ x <> id.
Proof.
  induction l as [|e l IH]; intros Hn; simpl; [split; [done|set_solver]|].
  apply NoDup_cons in Hn as [He Hn]. destruct (IH Hn) as [H1 H2]. case_bool_decide as Hd.
  - subst id. split; [done|]. set_solver.
  - simpl. split; [apply NoDup_cons; split; [rewrite H2; tauto|done]|]. intros x. rewrite !elem_of_cons, H2. naive_solver.
Qed.

Lemma emplace_ids x l : x.2 ∉ l.*2 -> (emplace x l).*2 ≡ₚ x.2 :: l.*2.
Proof.
  induction l as [|y l IH]; intros Hx; simpl; [done|]. destruct (txCompare x y) eqn:E; [done|].
  assert (txCompare y x = true) as ->.
  { destruct x as [[fx tx] hx], y as [[fy ty] hy]. unfold txCompare in *. simpl in Hx.
    destruct (float_ltb fy fx); [done|]. destruct (float_ltb fx fy); [done|]. destruct (tx <? ty) eqn:E1; [done|].
    destruct (ty <? tx); [done|]. rewrite negb_false_iff, bool_decide_eq_true in E. set_solver. }
  simpl. rewrite IH by set_solver. apply perm_swap.
Qed.

Lemma find_sorted_spec p id : is_Some (find_tx_in_sorted_container p id) <-> id ∈ (m_txs_by_fee_and_receive_time p).*2.
Proof.
  unfold find_tx_in_sorted_container. induction (m_txs_by_fee_and_receive_time p) as [|e l IH]; simpl.
  { split; [by intros []|set_solver]. }
  rewrite elem_of_cons. case_bool_decide as Hd; [subst; split; [auto|by eexists]|]. rewrite IH. naive_solver.
Qed.

(** Removing a transaction with its images and its entry keeps the invariant. *)
Lemma remove_keeps p id meta bd tx ks : pool_ok p -> txpool p !! id = Some (meta, bd) ->
  parse_and_validate_tx_from_blob bd = Some tx -> images tx = Some ks ->
  forall w, let p1 := set_weight (u64 (m_txpool_weight p - w)) (remove_txpool_tx p id) in
  let p2 := (remove_transaction_keyimages p1 tx).2 in
  let p3 := set_sorted (erase_id id (m_txs_by_fee_and_receive_time p2)) p2 in
  (remove_transaction_keyimages p1 tx).1 = true /\ txpool p3 = delete id (txpool p) /\
  m_txpool_weight p3 = u64 (m_txpool_weight p - w) /\ (w = weight meta -> pool_ok p3).
Proof.
  intros [Hn Hs Hw He Hne Hi] Ht Hp Hk w. cbv zeta. unfold remove_transaction_keyimages. cbn.
  destruct (He id meta bd Ht) as (ks' & tx' & Hp' & Hid & Hk' & Hnd). rewrite Hp in Hp'. injection Hp' as <-.
  rewrite Hk in Hk'. injection Hk' as <-. rewrite Hid.
  destruct (remove_images_spec id (vin (tx_prefix tx)) ks (m_spent_key_images p)) as (m' & -> & Hm' & Hsp); [done..| |].
  { intros k Hin. apply Hi. exists meta, bd, ks. split; [done|]. split; [|done]. by exists tx. }
  cbn. split; [done|]. split; [done|]. split; [done|]. intros ->.
  destruct (erase_id_spec id (m_txs_by_fee_and_receive_time p) Hn) as [H1 H2]. split; cbn; [done| | | |done|].
  - intros x. rewrite H2, Hs, lookup_delete_is_Some. naive_solver.
  - rewrite Hw, (total_weight_delete _ _ _ Ht), wrap_sub_l. f_equal. simpl. lia.
  - intros x mt b. rewrite lookup_delete_Some. intros [_ Hx]. by eapply He.
  - intros k x. rewrite Hsp, Hi. setoid_rewrite lookup_delete_Some. split.
    + intros [(mt & b & ks1 & E1 & E2 & E3) Hx]. exists mt, b, ks1. split; [|done]. split; [|done]. intros <-. apply Hx.
      split; [done|]. rewrite Ht in E1. injection E1 as <- <-. destruct E2 as (tx1 & E2 & _ & E4 & _). congruence.
    + intros (mt & b & ks1 & [E0 E1] & E2 & E3). split; [by exists mt, b, ks1|]. naive_solver.
Qed.

Lemma bump_ok p : pool_ok p -> pool_ok (bump_cookie p).
Proof. by intros [??????]. Qed.
Lemma set_cache_ok c p : pool_ok p -> pool_ok (set_cache c p).
Proof. by intros [??????]. Qed.

Lemma take_tx_ok p id : pool_ok p ->
  match take_tx p id with
  | (None, p') => txpool p !! id = None /\ p' = p
  | (Some k, p') => exists meta bd, txpool p !! id = Some (meta, bd) /\ txpool p' = delete id (txpool p) /\
      parse_and_validate_tx_from_blob bd = Some (k_tx k) /\ transaction_hash (k_tx k) = id /\
      k_weight k = weight meta /\ k_fee k = fee meta /\ pool_ok p'
  end.
Proof.
  intros Hok. unfold take_tx. pose proof (find_sorted_spec p id) as Hf. rewrite (po_sorted p Hok) in Hf.
  destruct (find_tx_in_sorted_container p id) as [e|].
  2: { split; [|done]. destruct (txpool p !! id); [|done]. by destruct (proj2 Hf ltac:(by eexists)). }
  destruct (txpool p !! id) as [[meta bd]|] eqn:Et; [|by destruct (proj1 Hf ltac:(by eexists))].
  destruct (po_entries p Hok id meta bd Et) as (ks & tx & Hp & Hid & Hk & _). rewrite Hp.
  destruct (remove_keeps p id meta bd tx ks Hok Et Hp Hk (weight meta)) as (_ & H1 & _ & H2). cbv zeta in *.
  exists meta, bd. split; [done|]. split; [exact H1|]. split; [done|]. split; [done|]. split; [done|]. split; [done|]. by apply bump_ok, H2.
Qed.

(** Without an excess of weight pruning does nothing. *)
Lemma prune_light p bytes : m_txpool_weight p <= (if bytes =? 0 then m_txpool_max_weight p else bytes) -> prune p bytes = p.
Proof.
  intros Hw. unfold prune. cbv zeta. set (b := if bytes =? 0 then _ else _) in *.
  assert (forall l, prune_loop l b false p = (false, false, p)) as ->; [|done].
  intros [|[[? ?] ?] l']; simpl; [done|]. by rewrite (proj2 (Z.leb_le _ _)).
Qed.

Lemma pool_insert_ok p tx id meta ks tx' replace : pool_ok p -> txpool p !! id = None ->
  transaction_hash tx = id -> entry_ok id (tx_to_blob tx) ks -> images tx = Some ks ->
  parse_and_validate_tx_from_blob (tx_to_blob tx) = Some tx' ->
  (kept_by_block meta = false -> have_tx_keyimges_as_spent p tx = false) ->
  exists p', pool_insert p tx id meta replace = (true, p') /\
    txpool p' = <[id := (meta, tx_to_blob tx)]> (txpool p) /\ m_txpool_weight p' = m_txpool_weight p /\
    m_txpool_max_weight p' = m_txpool_max_weight p /\ pool_ok (set_weight (u64 (m_txpool_weight p + weight meta)) p').
Proof.
  intros Hok Hnone Hid Hent Hks Hparse Hkept.
  assert ((if replace then remove_txpool_tx p (transaction_hash tx) else p) = p) as Er.
  { destruct replace; [|done]. unfold remove_txpool_tx, set_txpool. rewrite Hid, delete_id by done. by destruct p. }
  unfold pool_insert. cbv zeta. rewrite Er. unfold add_txpool_tx. rewrite Hid, Hnone. cbn [set_txpool].
  destruct Hok as [Hn Hs Hw He Hne Hi]. destruct Hent as (tx1 & E1 & Hid1 & Hks1 & Hnd).
  unfold insert_key_images. cbn. rewrite Hid.
  destruct (insert_images_spec id (kept_by_block meta) (vin (tx_prefix tx)) ks (m_spent_key_images p)) as (m' & -> & Hm' & Hsp); [done|done|done| |].
  { intros k Hin. split; [rewrite Hi; naive_solver|]. intros Hk. specialize (Hkept Hk).
    clear -Hkept Hin Hks Hne. unfold images, have_tx_keyimges_as_spent in *. revert ks Hks Hin.
    induction (vin (tx_prefix tx)) as [|i l IH]; intros ks; simpl in *; [intros [= <-]; set_solver|].
    destruct i as [| | |a o ki]; try done. destruct (images_of l) as [r|]; [|done]. intros [= <-].
    unfold have_tx_keyimg_as_spent in Hkept. case_bool_decide as Hki; [done|]. intros [->|Hin]%elem_of_cons; [|by eapply IH].
    unfold spenders. by rewrite (proj2 (eq_None_not_Some _) Hki). }
  cbn. eexists. split; [done|]. cbn. split; [done|]. split; [done|]. split; [done|].
  assert (id ∉ (m_txs_by_fee_and_receive_time p).*2) as Hnin by (rewrite Hs, Hnone; by intros []).
  pose proof (emplace_ids (fee_rate (fee meta) (weight meta), receive_time meta, id) _ Hnin) as Hperm. simpl in Hperm.
  split; cbn.
  - rewrite Hperm. by constructor.
  - intros x. rewrite Hperm, elem_of_cons, Hs, lookup_insert_is_Some. destruct (decide (id = x)) as [->|]; naive_solver.
  - rewrite total_weight_insert by done. rewrite Hw, wrap_add_l. f_equal. simpl. lia.
  - intros x mt b [[<- [= <- <-]]|[_ Hx]]%lookup_insert_Some; [exists ks; by exists tx1|by eapply He].
  - done.
  - intros k x. rewrite Hsp, Hi. split.
    + intros [(mt & b & ks1 & F1 & F2 & F3)|[-> Hin]].
      * exists mt, b, ks1. rewrite lookup_insert_ne by congruence. done.
      * exists meta, (tx_to_blob tx), ks. rewrite lookup_insert_eq. split; [done|]. split; [by exists tx1|done].
    + intros (mt & b & ks1 & [[<- [= <- <-]]|[_ Hx]]%lookup_insert_Some & F2 & F3).
      * right. split; [done|]. destruct F2 as (tx2 & F2 & _ & F4 & _). congruence.
      * left. by exists mt, b, ks1.
Qed.

(** A change of the metadata that keeps the weight. *)
Lemma update_keeps p id meta meta' bd : pool_ok p -> txpool p !! id = Some (meta, bd) -> weight meta' = weight meta ->
  pool_ok (set_txpool (<[id := (meta', bd)]> (txpool p)) p).
Proof.
  intros [Hn Hs Hw He Hne Hi] Ht E. split; cbn; [done| | | |done|].
  - intros x. rewrite Hs, lookup_insert_is_Some. destruct (decide (id = x)) as [->|]; [rewrite Ht|]; naive_solver.
  - rewrite Hw, (total_weight_delete _ _ _ Ht), <- insert_delete_eq, total_weight_insert by apply lookup_delete_eq. cbn. by rewrite E.
  - intros x mt b [[<- [= <- <-]]|[_ Hx]]%lookup_insert_Some; by eapply He.
  - intros k x. rewrite Hi. split.
    + intros (mt & b & ks & E1 & E2). destruct (decide (id = x)) as [->|].
      * exists meta', bd, ks. rewrite lookup_insert_eq. rewrite Ht in E1. injection E1 as <- <-. done.
      * exists mt, b, ks. by rewrite lookup_insert_ne.
    + intros (mt & b & ks & [[<- [= <- <-]]|[_ Hx]]%lookup_insert_Some & E2); [by exists meta, bd, ks|by exists mt, b, ks].
Qed.

(** The same transactions, with metadata that may differ in flags only. *)
Definition same_txs (p p' : tx_memory_pool) : Prop :=
  (forall id, (fun e => (weight e.1, fee e.1, e.2)) <$> txpool p !! id = (fun e => (weight e.1, fee e.1, e.2)) <$> txpool p' !! id) /\
  m_spent_key_images p = m_spent_key_images p' /\ m_txs_by_fee_and_receive_time p = m_txs_by_fee_and_receive_time p' /\
  m_txpool_weight p = m_txpool_weight p' /\ m_txpool_max_weight p = m_txpool_max_weight p'.
#[export] Instance same_txs_refl : Reflexive same_txs.
Proof. by intros p. Qed.
#[export] Instance same_txs_trans : Transitive same_txs.
Proof.
  intros p q r (H1 & E1) (H2 & E2). split; [intros id; by rewrite H1, H2|]. by destruct E1 as (-> & -> & -> & ->).
Qed.

Lemma update_same p id meta meta' bd : txpool p !! id = Some (meta, bd) -> weight meta' = weight meta -> fee meta' = fee meta ->
  same_txs p (set_txpool (<[id := (meta', bd)]> (txpool p)) p).
Proof.
  intros Ht Ew Ef. split; [|done]. intros x. cbn. destruct (decide (id = x)) as [->|]; [|by rewrite lookup_insert_ne].
  rewrite lookup_insert_eq, Ht. cbn. by rewrite Ew, Ef.
Qed.

(** The transactions decide the total weight and the agreement of the indexes. *)
Lemma same_txs_weight p p' : same_txs p p' -> total_weight (txpool p) = total_weight (txpool p').
Proof.
  intros [E _]. assert (forall m, total_weight m = map_fold (fun _ w acc => w + acc) 0 ((fun e => weight e.1) <$> m)) as H.
  { intros m. unfold total_weight. by rewrite map_fold_fmap. }
  rewrite !H. f_equal. apply map_eq. intros id. rewrite !lookup_fmap. specialize (E id).
  destruct (txpool p !! id), (txpool p' !! id); cbn in *; congruence.
Qed.

Lemma same_txs_ok p p' : same_txs p p' -> pool_ok p -> pool_ok p'.
Proof.
  intros Hsame [Hn Hs Hw He Hne Hi]. pose proof (same_txs_weight _ _ Hsame) as Etw. destruct Hsame as (E & E1 & E2 & E3 & _).
  assert (forall id, snd <$> txpool p !! id = snd <$> txpool p' !! id) as Eb.
  { intros id. specialize (E id). destruct (txpool p !! id), (txpool p' !! id); cbn in *; congruence. }
  split; rewrite <- ?E1, <- ?E2, <- ?E3, <- ?Etw; [done| |done| |done|].
  - intros id. rewrite Hs. specialize (Eb id). destruct (txpool p !! id), (txpool p' !! id); cbn in Eb; [|done|done|]; split; intros []; by eexists.
  - intros id meta bd Ht. specialize (Eb id). rewrite Ht in Eb. destruct (txpool p !! id) as [[m b]|] eqn:E'; simplify_eq/=. by eapply He.
  - intros k id. rewrite Hi. specialize (Eb id). destruct (txpool p !! id) as [[m b]|], (txpool p' !! id) as [[m' b']|]; simplify_eq/=.
    + split; intros (? & ? & ks & [= <- <-] & ?); by eexists _, _, ks.
    + split; intros (? & ? & ? & ? & ?); done.
Qed.

Lemma mark_one_same p changed txid : same_txs p (mark_one p changed txid).1.
Proof.
  unfold mark_one, get_txpool_tx_meta, update_txpool_tx. destruct (txpool p !! txid) as [[m bd]|] eqn:E; [|done]. cbn.
  destruct (double_spend_seen m); [done|]. cbn. by eapply update_same.
Qed.

Lemma mark_double_spend_same p tx : same_txs p (mark_double_spend p tx).
Proof.
  assert (forall l changed, same_txs p (mark_loop l p changed).1.1) as H.
  { intros l. revert p. induction l as [|i l IH]; intros p changed; [done|]. cbn [mark_loop]. destruct i as [| | |a o ki]; [done..|].
    assert (forall s changed, same_txs p (foldl (fun '(p, changed) txid => mark_one p changed txid) (p, changed) s).1) as Hf.
    { intros s. revert p. induction s as [|x s IHs]; intros p c; [done|]. cbn [foldl].
      pose proof (mark_one_same p c x) as H1. destruct (mark_one p c x) as [p1 c1]. by etrans. }
    destruct (m_spent_key_images p !! ki) as [s|]; [|apply IH]. specialize (Hf (elements s) changed).
    destruct (foldl _ _ _) as [p1 c1]. etrans; [exact Hf|apply IH]. }
  unfold mark_double_spend. specialize (H (vin (tx_prefix tx)) false). destruct (mark_loop _ p false) as [[p1 c1] r1].
  case_match; [|done]. etrans; [exact H|done].
Qed.

Lemma mark_double_spend_ok p tx : pool_ok p -> pool_ok (mark_double_spend p tx) /\ same_txs p (mark_double_spend p tx).
Proof. intros Hok. split; [|apply mark_double_spend_same]. eapply same_txs_ok, Hok. apply mark_double_spend_same. Qed.

Lemma keyimges_ext p p' tx : m_spent_key_images p = m_spent_key_images p' ->
  have_tx_keyimges_as_spent p tx = have_tx_keyimges_as_spent p' tx.
Proof.
  intros E. unfold have_tx_keyimges_as_spent. induction (vin (tx_prefix tx)) as [|i l IH]; [done|]. cbn [any_keyimg_spent].
  destruct i; [done..|]. unfold have_tx_keyimg_as_spent. by rewrite E, IH.
Qed.

(** ** The indexes apart from the recorded weight *)

(** The table, the sorted container and the key images agree: with the right
    weight recorded the pool is coherent. *)
Definition indexed (p : tx_memory_pool) : Prop := pool_ok (set_weight (u64 (total_weight (txpool p))) p).

Lemma pool_ok_iff p : pool_ok p <-> indexed p /\ m_txpool_weight p = u64 (total_weight (txpool p)).
Proof.
  unfold indexed. assert (m_txpool_weight p = u64 (total_weight (txpool p)) -> set_weight (u64 (total_weight (txpool p))) p = p) as H.
  { intros <-. by destruct p. }
  split; [|intros [H1 H2]; by rewrite H in H1].
  intros Hok. pose proof (po_weight p Hok) as E. split; [by rewrite H|done].
Qed.

Lemma same_txs_indexed p p' : same_txs p p' -> indexed p -> indexed p'.
Proof.
  intros Hs. unfold indexed. apply same_txs_ok. rewrite (same_txs_weight _ _ Hs). destruct Hs as (E & E1 & E2 & _ & E4). by split.
Qed.

Lemma pool_insert_indexed p tx id meta ks tx' replace : indexed p -> txpool p !! id = None ->
  transaction_hash tx = id -> entry_ok id (tx_to_blob tx) ks -> images tx = Some ks ->
  parse_and_validate_tx_from_blob (tx_to_blob tx) = Some tx' ->
  (kept_by_block meta = false -> have_tx_keyimges_as_spent p tx = false) ->
  exists p', pool_insert p tx id meta replace = (true, p') /\
    txpool p' = <[id := (meta, tx_to_blob tx)]> (txpool p) /\ m_txpool_weight p' = m_txpool_weight p /\
    m_txpool_max_weight p' = m_txpool_max_weight p /\ indexed p'.
Proof.
  intros Hok Hnone Hid Hent Hks Hparse Hkept. set (w := u64 (total_weight (txpool p))).
  destruct (pool_insert_ok (set_weight w p) tx id meta ks tx' replace) as (q & Eq & Et & _ & Em & Hq); [done..|by rewrite (keyimges_ext _ p)|].
  unfold pool_insert, add_txpool_tx, insert_key_images in *. cbn zeta in *.
  set (p1 := if replace then remove_txpool_tx p (transaction_hash tx) else p).
  assert ((if replace then remove_txpool_tx (set_weight w p) (transaction_hash tx) else set_weight w p) = set_weight w p1) as E1 by by destruct replace.
  rewrite E1 in Eq. cbn in Eq. assert (txpool p1 !! transaction_hash tx = None) as E2 by (unfold p1; destruct replace; cbn; [apply lookup_delete_eq|by rewrite Hid]).
  assert (m_txpool_weight p1 = m_txpool_weight p) as E3 by by destruct replace.
  assert (m_txpool_max_weight p1 = m_txpool_max_weight p) as E4 by by destruct replace.
  rewrite E2 in *. cbn in *. destruct (insert_images _ _ _ _) as [[] m]; [|done]. injection Eq as <-. cbn in *. eexists. split; [done|]. cbn.
  split; [done|]. split; [done|]. split; [done|]. apply pool_ok_iff in Hq as [Hq _]. exact Hq.
Qed.

(** Removal, whatever is subtracted from the weight. *)
Lemma remove_indexed p id meta bd tx w : indexed p -> txpool p !! id = Some (meta, bd) -> parse_and_validate_tx_from_blob bd = Some tx ->
  let p1 := set_weight (u64 (m_txpool_weight p - w)) (remove_txpool_tx p id) in
  let p2 := (remove_transaction_keyimages p1 tx).2 in
  let p3 := set_sorted (erase_id id (m_txs_by_fee_and_receive_time p2)) p2 in
  indexed p3 /\ txpool p3 = delete id (txpool p).
Proof.
  intros Hok Ht Hp. cbv zeta. destruct (po_entries _ Hok id meta bd Ht) as (ks & tx' & Hp' & _ & Hk & _).
  rewrite Hp in Hp'. injection Hp' as <-.
  destruct (remove_keeps _ id meta bd tx ks Hok Ht Hp Hk (weight meta)) as (_ & E & _ & H). specialize (H eq_refl). apply pool_ok_iff in H as [H _].
  unfold remove_transaction_keyimages in *. cbn in *. by destruct (remove_images _ _ _) as [[] m].
Qed.

(** Pruning keeps the indexes and what came with a block, and adds nothing. *)
Lemma prune_indexed p bytes : indexed p -> indexed (prune p bytes) /\ txpool (prune p bytes) ⊆ txpool p /\
  forall id e, txpool p !! id = Some e -> kept_by_block e.1 = true -> txpool (prune p bytes) !! id = Some e.
Proof.
  unfold prune. generalize (if bytes =? 0 then m_txpool_max_weight p else bytes) as b.
  assert (forall l b c p, indexed p -> indexed (prune_loop l b c p).2 /\ txpool (prune_loop l b c p).2 ⊆ txpool p /\
    forall id e, txpool p !! id = Some e -> kept_by_block e.1 = true -> txpool (prune_loop l b c p).2 !! id = Some e) as Hl.
  { induction l as [|[[rate time] txid] l IH]; intros b c q Hq; [done|]. cbn [prune_loop]. destruct (_ <=? _); [done|].
    destruct (txpool q !! txid) as [[meta bd]|] eqn:Et; [|done]. destruct (kept_by_block meta) eqn:Ek; [by apply IH|].
    destruct (parse_and_validate_tx_from_blob bd) as [tx|] eqn:Ep; [|done]. cbv zeta.
    destruct (remove_indexed q txid meta bd tx time Hq Et Ep) as [H1 H2]. set (q3 := set_sorted _ _) in *.
    destruct (IH b true q3 H1) as (H3 & H4 & H5). split; [exact H3|]. split.
    - etrans; [exact H4|]. rewrite H2. apply delete_subseteq.
    - intros id e Ee Hke. apply H5; [|done]. rewrite H2, lookup_delete_ne; [done|]. intros ->. rewrite Et in Ee. injection Ee as <-. cbn in Hke. congruence. }
  intros b Hp. specialize (Hl (rev (tail (m_txs_by_fee_and_receive_time p))) b false p Hp). destruct (prune_loop _ b false p) as [[c r] q].
  destruct (negb r && c); [|exact Hl]. destruct Hl as [H1 H2]. split; [exact (bump_ok _ H1)|exact H2].
Qed.

Lemma transaction_hash_clean tx : tx_cache_ok tx -> transaction_hash (tx_invalidate_hashes tx) = transaction_hash tx.
Proof.
  intros Hc. pose proof (get_transaction_hash_spec false tx Hc) as H1.
  assert (tx_cache_ok (tx_invalidate_hashes tx)) as Hc' by by split.
  pose proof (get_transaction_hash_spec false (tx_invalidate_hashes tx) Hc') as H2. unfold transaction_hash.
  destruct (get_transaction_hash false tx) as [r1 t1], (get_transaction_hash false (tx_invalidate_hashes tx)) as [r2 t2].
  destruct H1 as (H1 & _), H2 as (H2 & _). change (calculate_transaction_hash (tx_invalidate_hashes tx)) with (calculate_transaction_hash tx) in H2.
  rewrite <- H1 in H2. by destruct r1 as [[]|], r2 as [[]|]; simplify_eq/=.
Qed.

(** A transaction the pool may hold: well formed, caches coherent, every input
    spends a key, no key image twice. *)
Definition admissible (tx : transaction) (ks : list blob) : Prop :=
  tx_ok (tx_invalidate_hashes tx) /\ tx_cache_ok tx /\ expand_transaction_1 tx false = true /\ images tx = Some ks /\ NoDup ks.

Lemma admissible_entry tx ks : admissible tx ks ->
  parse_and_validate_tx_from_blob (tx_to_blob tx) = Some (tx_invalidate_hashes tx) /\ entry_ok (transaction_hash tx) (tx_to_blob tx) ks.
Proof.
  intros (Hok & Hc & Hx & Hk & Hn).
  assert (parse_and_validate_tx_from_blob (tx_to_blob tx) = Some (tx_invalidate_hashes tx)) as E.
  { unfold parse_and_validate_tx_from_blob. change (tx_to_blob tx) with (tx_to_blob (tx_invalidate_hashes tx)).
    unfold tx_to_blob. rewrite (parse_binary_to_blob transaction_codec _) by done. cbn [mbind option_bind].
    change (expand_transaction_1 (tx_invalidate_hashes tx) false) with (expand_transaction_1 tx false). by rewrite Hx. }
  split; [done|]. exists (tx_invalidate_hashes tx). split; [done|]. split; [|done]. by apply transaction_hash_clean.
Qed.

Section admission.
Context `{PoolChain CS}.

Lemma check_tx_inputs_pool (cs : CS) p tx id kept tvc h i : exists c,
  (check_tx_inputs cs p tx id kept tvc h i).2 = set_cache c p.
Proof.
  assert (p = set_cache (m_input_cache p) p) as E by by destruct p.
  unfold check_tx_inputs. destruct kept.
  - destruct (pc_check_tx_inputs cs tx true tvc h i) as [[[r t] h'] i']. cbn. by eexists.
  - destruct (m_input_cache p !! id) as [[[[r t] h'] i']|]; [cbn; by eexists|].
    destruct (pc_check_tx_inputs cs tx false tvc h i) as [[[r t] h'] i']. cbn. by eexists.
Qed.

(** C24: admission keeps the pool consistent.  When the pool's indexes agree
    (the sorted container and the table hold the same ids, every key image
    maps to exactly the transactions that spend it) and a well-formed transaction
    is offered that is not there yet, [add_tx] leaves them in agreement whatever
    the chain's checks answer and whatever is pruned.  On failure the table still
    holds the same transactions; on success it holds nothing but those and the
    new one, and has lost none that came with a block.  If moreover the recorded
    weight was the sum, it still is on failure, and on success when the new total
    fits, in which case nothing is lost at all. *)
Theorem add_tx_keeps_pool (cs : CS) now p tx ks tx_weight tvc kept relay no_relay version :
  indexed p -> admissible tx ks -> txpool p !! transaction_hash tx = None ->
  let '(r, _, p') := add_tx_id cs now p tx (transaction_hash tx) tx_weight tvc kept relay no_relay version in
  indexed p' /\
  (if r : bool then exists meta, weight meta = tx_weight /\ kept_by_block meta = kept /\
     let full := <[transaction_hash tx := (meta, tx_to_blob tx)]> (txpool p) in
     txpool p' ⊆ full /\ (forall id e, full !! id = Some e -> kept_by_block e.1 = true -> txpool p' !! id = Some e) /\
     (pool_ok p -> 0 <= total_weight full <= m_txpool_max_weight p -> m_txpool_max_weight p < 2 ^ 64 -> pool_ok p' /\ txpool p' = full)
   else same_txs p p' /\ (pool_ok p -> pool_ok p')).
Proof.
  intros Hok Ha Hnone. destruct (admissible_entry tx ks Ha) as [Hparse Hent]. unfold add_tx_id.
  destruct (CryptonoteBasic.version (tx_prefix tx) =? 0); [done|]. destruct (negb kept && bool_decide _); [done|].
  destruct (negb (check_inputs_types_supported tx)); [done|]. destruct (pool_fee tx tvc) as [t|fee]; [done|].
  destruct (negb kept && negb (pc_check_fee cs tx_weight fee)); [done|].
  destruct ((negb kept || _) && _); [done|]. destruct (negb kept && have_tx_keyimges_as_spent p tx) eqn:Es.
  { pose proof (mark_double_spend_same p tx) as Hs. split; [by eapply same_txs_indexed|]. split; [done|]. by apply same_txs_ok. }
  destruct (pc_check_tx_outputs cs tx tvc) as [outs t]. destruct outs; [|done]. cbn [negb].
  destruct (check_tx_inputs_pool cs p tx (transaction_hash tx) kept (set_flag f_failed true t) 0 null_hash) as [c Ec].
  destruct (check_tx_inputs cs p tx (transaction_hash tx) kept _ 0 null_hash) as [[[[ch t1] mh] mi] p1]. cbn in Ec. subst p1.
  assert (indexed (set_cache c p)) as Hok1 by exact (set_cache_ok c _ Hok).
  destruct (negb ch && negb kept) eqn:Ech; [split; [done|]; split; [done|]; apply set_cache_ok|].
  set (meta := if negb ch then _ else _).
  assert (weight meta = tx_weight /\ kept_by_block meta = kept) as [Ew Ek] by (unfold meta; by destruct ch).
  destruct (pool_insert_indexed (set_cache c p) tx (transaction_hash tx) meta ks (tx_invalidate_hashes tx) ch)
    as (p2 & -> & E2 & Ew2 & Em2 & Hok2); [done..|by destruct Ha as (_ & _ & _ & ? & _)|done| |].
  { rewrite Ek. intros ->. destruct ch; [|done]. rewrite (keyimges_ext _ p) by done. exact Es. }
  cbn [negb]. cbn in E2, Ew2, Em2. rewrite Ew2. set (p3 := bump_cookie _).
  assert (indexed p3) as Hok3 by exact (bump_ok _ Hok2).
  destruct (prune_indexed p3 (m_txpool_max_weight p3) Hok3) as (H1 & H2 & H3). change (txpool p3) with (txpool p2) in *. rewrite E2 in *.
  split; [exact H1|]. exists meta. split; [done|]. split; [done|]. split; [exact H2|]. split; [exact H3|].
  intros Hp Hfit Hmax. rewrite total_weight_insert in Hfit by done. cbn [fst] in Hfit.
  assert (pool_ok p3) as Hp3.
  { apply pool_ok_iff. split; [done|]. change (txpool p3) with (txpool p2). rewrite E2, total_weight_insert by done. cbn. rewrite (po_weight p Hp), wrap_add_l, Ew. f_equal. lia. }
  rewrite prune_light; [done|]. change (m_txpool_max_weight p3) with (m_txpool_max_weight p2). rewrite Em2, (po_weight _ Hp3).
  change (txpool p3) with (txpool p2). rewrite E2, total_weight_insert by done. cbn. rewrite wrap_small by (unfold in_range; lia). case_match; lia.
Qed.
End admission.

(** pruning and the recorded weight.  When the last of two transactions
    is pruned, the code subtracts its receive time from the recorded weight
    where its weight is meant: a record that agreed with the table is off by
    the difference afterwards, modulo 2^64. *)
Theorem prune_weight_drift p bytes e rate time id meta bd tx :
  m_txs_by_fee_and_receive_time p = [e; (rate, time, id)] -> 0 < bytes < m_txpool_weight p ->
  txpool p !! id = Some (meta, bd) -> kept_by_block meta = false -> parse_and_validate_tx_from_blob bd = Some tx ->
  m_txpool_weight p = u64 (total_weight (txpool p)) ->
  txpool (prune p bytes) = delete id (txpool p) /\
  m_txpool_weight (prune p bytes) = u64 (total_weight (txpool (prune p bytes)) + (weight meta - time)).
Proof.
  intros Es Hb Ht Hk Hp Hw. unfold prune. rewrite (proj2 (Z.eqb_neq bytes 0)) by lia. rewrite Es. cbn [tail rev app prune_loop].
  rewrite (proj2 (Z.leb_gt _ _)) by lia. rewrite Ht, Hk, Hp. cbn [negb andb].
  unfold remove_transaction_keyimages. destruct (remove_images _ _ _) as [r m].
  assert (u64 (m_txpool_weight p - time) = u64 (total_weight (delete id (txpool p)) + (weight meta - time))) as E.
  { rewrite Hw, wrap_sub_l, (total_weight_delete _ _ _ Ht). f_equal. cbn [fst]. lia. }
  destruct r; cbn; (split; [done|exact E]).
Qed.

Definition small_tx (amount : Z) (k : Z) : transaction :=
  Transaction (Prefix 1 0 [txin_to_key amount [1] (replicate 32 k)] [Tx_out 1 (target_key (replicate 32 k))] [])
    [[replicate 64 0]] rct_null None None.
Definition example_meta (w t : Z) : txpool_tx_meta_t := Meta null_hash null_hash w 5 0 0 t t false false false false.

Lemma prune_weight_drift_witness :
  let p := Pool {[ [1] := (example_meta 400 1700000000, tx_to_blob (small_tx 6 1)); [2] := (example_meta 300 1700000001, tx_to_blob (small_tx 6 2)) ]}
    ∅ [(Float 1 0, 1700000000, [1]); (Float 1 0, 1700000001, [2])] 0 ∅ 600 700 ∅ in
  txpool (prune p 600) = delete [2] (txpool p) /\
  m_txpool_weight (prune p 600) = u64 (total_weight (txpool (prune p 600)) + (300 - 1700000001)).
Proof.
  intros p. apply (prune_weight_drift p 600 (Float 1 0, 1700000000, [1]) (Float 1 0) 1700000001 [2] (example_meta 300 1700000001)
    (tx_to_blob (small_tx 6 2)) (small_tx 6 2)); [reflexivity|cbn; lia|reflexivity|reflexivity|vm_compute; reflexivity|vm_compute; reflexivity].
Defined.

(** ** Filling a block template *)
Lemma have_images_spec s ins ks : images_of ins = Some ks -> have_images s ins = false -> forall k, k ∈ ks -> k ∉ s.
Proof.
  revert ks. induction ins as [|i ins IH]; intros ks; simpl; [intros [= <-]; set_solver|].
  destruct i as [| | |a o ki]; try done. destruct (images_of ins) as [r|]; [|done]. intros [= <-].
  case_bool_decide; [done|]. intros Hh k [->|Hk]%elem_of_cons; [done|]. by eapply IH.
Qed.

Lemma append_images_spec s ins ks : images_of ins = Some ks -> NoDup ks -> (forall k, k ∈ ks -> k ∉ s) ->
  append_images s ins = (true, s ∪ list_to_set ks).
Proof.
  revert s ks. induction ins as [|i ins IH]; intros s ks; simpl; [intros [= <-] _ _; f_equal; set_solver|].
  destruct i as [| | |a o ki]; try done. destruct (images_of ins) as [r|] eqn:Er; [|done]. intros [= <-] [Hki Hnd]%NoDup_cons Hs.
  rewrite bool_decide_false by (apply Hs; by left). rewrite (IH _ r); [|done|done|set_solver]. f_equal. simpl. set_solver.
Qed.

Definition weight_of (p : tx_memory_pool) (id : blob) : Z := from_option (fun e => weight e.1) 0 (txpool p !! id).
Definition fee_of (p : tx_memory_pool) (id : blob) : Z := from_option (fun e => fee e.1) 0 (txpool p !! id).

Lemma same_txs_lookup p p' id meta bd : same_txs p p' -> txpool p' !! id = Some (meta, bd) ->
  exists meta0, txpool p !! id = Some (meta0, bd) /\ weight meta0 = weight meta /\ fee meta0 = fee meta.
Proof.
  intros [Hs _] E. specialize (Hs id). rewrite E in Hs. cbn in Hs. destruct (txpool p !! id) as [[m b]|]; [|done]. simpl in Hs.
  injection Hs as E1 E2 ->. by exists m.
Qed.

Section fill.
Context `{PoolChain CS}.

Lemma ready_spec (cs : CS) p meta id bd : let '(r, meta', p') := is_transaction_ready_to_go cs p meta id bd in
  (exists c, p' = set_cache c p) /\ weight meta' = weight meta /\ fee meta' = fee meta /\
  (forall tx, r = Some tx -> parse_and_validate_tx_from_blob bd = Some tx /\ pc_have_tx_keyimges_as_spent cs tx = false).
Proof.
  assert (exists c, p = set_cache c p) as Hc by (exists (m_input_cache p); by destruct p).
  enough (let '(r, meta', p') := check_ready cs p meta id bd in (exists c, p' = set_cache c p) /\ weight meta' = weight meta /\
    fee meta' = fee meta /\ (forall tx, r = Some tx -> parse_and_validate_tx_from_blob bd = Some tx /\ pc_have_tx_keyimges_as_spent cs tx = false)) as Hch.
  { unfold is_transaction_ready_to_go. destruct (check_ready cs p meta id bd) as [[r m] q]. repeat case_match; simplify_eq/=; done. }
  unfold check_ready. cbv zeta. destruct (check_tx_inputs_pool cs p (default set_null (parse_and_validate_tx_from_blob bd)) id false tvc_zero
    (max_used_block_height meta) (max_used_block_id meta)) as [c Ec].
  destruct (check_tx_inputs cs p _ id false tvc_zero _ _) as [[[[r t] h] i] p1]. cbn in Ec. subst p1.
  assert (let '(r, meta', p') := if negb r then (None, set_last_failed (set_used meta h i) (u64 (pc_current_blockchain_height cs - 1))
       (pc_get_block_id_by_height cs (u64 (pc_current_blockchain_height cs - 1))), set_cache c p)
     else match parse_and_validate_tx_from_blob bd with
          | None => (None, set_used meta h i, set_cache c p)
          | Some tx => if pc_have_tx_keyimges_as_spent cs tx then (None, set_double_spend_seen (set_used meta h i), set_cache c p)
                       else (Some tx, set_used meta h i, set_cache c p) end in
    (exists c, p' = set_cache c p) /\ weight meta' = weight meta /\ fee meta' = fee meta /\
    (forall tx, r = Some tx -> parse_and_validate_tx_from_blob bd = Some tx /\ pc_have_tx_keyimges_as_spent cs tx = false)) as Hgo.
  { destruct r; cbn [negb]; [|by split; [by eexists|]]. destruct (parse_and_validate_tx_from_blob bd) as [tx|]; [|by split; [by eexists|]].
    destruct (pc_have_tx_keyimges_as_spent cs tx) eqn:Es; (split; [by eexists|]; split; [done|]; split; [done|]); [done|]. by intros ? [= <-]. }
  by destruct (m_input_cache p !! id), (parse_and_validate_tx_from_blob bd).
Qed.

(** The input checks a pool remembers: a positive verdict means [valid]. *)
Definition verdicts_ok (valid : transaction -> Prop) (p : tx_memory_pool) : Prop :=
  forall id t h i meta bd tx, m_input_cache p !! id = Some (true, t, h, i) -> txpool p !! id = Some (meta, bd) ->
    parse_and_validate_tx_from_blob bd = Some tx -> valid tx.

Definition verdicts_sound (valid : transaction -> Prop) (cs : CS) : Prop :=
  forall tx h i, (pc_check_tx_inputs cs tx false tvc_zero h i).1.1.1 = true -> valid tx.

Lemma ready_valid valid (cs : CS) p meta id bd : verdicts_sound valid cs -> verdicts_ok valid p -> txpool p !! id = Some (meta, bd) ->
  let '(r, meta', p') := is_transaction_ready_to_go cs p meta id bd in
  verdicts_ok valid p' /\ forall tx, r = Some tx -> valid tx.
Proof.
  intros Hs Hv Ht. enough (let '(r, meta', p') := check_ready cs p meta id bd in verdicts_ok valid p' /\ forall tx, r = Some tx -> valid tx) as Hch.
  { unfold is_transaction_ready_to_go. destruct (check_ready cs p meta id bd) as [[r m] q]. repeat case_match; simplify_eq/=; done. }
  unfold check_ready, check_tx_inputs. cbv zeta. destruct (m_input_cache p !! id) as [[[[r t] h] i]|] eqn:Ec.
  - destruct r; cbn [negb]; [|done]. destruct (parse_and_validate_tx_from_blob bd) as [tx|] eqn:Ep; [|done].
    destruct (pc_have_tx_keyimges_as_spent cs tx); [done|]. split; [done|]. intros ? [= <-]. by eapply Hv.
  - destruct (parse_and_validate_tx_from_blob bd) as [tx|] eqn:Ep; [|done].
    pose proof (Hs tx (max_used_block_height meta) (max_used_block_id meta)) as Hs'.
    change (default set_null (Some tx)) with tx. destruct (pc_check_tx_inputs cs tx false tvc_zero _ _) as [[[r t] h] i]. cbn [fst] in Hs'.
    assert (verdicts_ok valid (set_cache (<[id:=(r, t, h, i)]> (m_input_cache p)) p)) as Hv'.
    { intros id' t' h' i' meta' bd' tx' E1 E2 E3. cbn in E1, E2. destruct (decide (id = id')) as [<-|Hne]; [|rewrite lookup_insert_ne in E1 by done; by eapply Hv].
      rewrite lookup_insert_eq in E1. injection E1 as -> _ _ _. rewrite Ht in E2. injection E2 as <- <-. rewrite Ep in E3. injection E3 as <-. by apply Hs'. }
    destruct r; cbn [negb]; [|done]. destruct (pc_have_tx_keyimges_as_spent cs tx); [done|]. split; [done|]. intros ? [= <-]. by apply Hs'.
Qed.

(** A transaction that may go into a block: its key images [ks] are not spent. *)
Definition selectable (valid : transaction -> Prop) (cs : CS) (p : tx_memory_pool) (id : blob) (ks : list blob) : Prop :=
  exists meta bd tx, txpool p !! id = Some (meta, bd) /\ entry_ok id bd ks /\ parse_and_validate_tx_from_blob bd = Some tx /\
    pc_have_tx_keyimges_as_spent cs tx = false /\ valid tx.

(** The state of the loop after the entries [pre], for the pool [p0] at the start. *)
Definition fill_inv (valid : transaction -> Prop) (cs : CS) (p0 : tx_memory_pool) (h0 : list blob) (mx m already version height : Z) (pre : list blob) (s : fill_state) : Prop :=
  exists sel kss, fl_tx_hashes s = h0 ++ sel /\ sel `sublist_of` pre /\ pool_ok (fl_pool s) /\ same_txs p0 (fl_pool s) /\ verdicts_ok valid (fl_pool s) /\
    fl_total_weight s = u64 (sum (weight_of p0 <$> sel)) /\ fl_fee s = u64 (sum (fee_of p0 <$> sel)) /\
    (sel = [] \/ fl_total_weight s <= mx) /\
    Forall2 (selectable valid cs p0) sel kss /\
    NoDup (concat kss) /\ fl_k_images s = list_to_set (concat kss) /\
    (5 <= version -> fl_best_coinbase s = u64 (default 0 (get_block_reward m (fl_total_weight s) already version height) + fl_fee s)).

Lemma sum_app l k : sum (l ++ k) = sum l + sum k.
Proof. induction l as [|x l IH]; simpl; lia. Qed.

Lemma fill_include_inv valid (cs : CS) p0 h0 mx m already version height pre s id meta bd :
  verdicts_sound valid cs -> pool_ok p0 -> fill_inv valid cs p0 h0 mx m already version height pre s -> id ∉ pre ->
  txpool (fl_pool s) !! id = Some (meta, bd) ->
  u64 (fl_total_weight s + weight meta) <= mx ->
  (5 <= version -> fl_coinbase s = u64 (default 0 (get_block_reward m (u64 (fl_total_weight s + weight meta)) already version height) +
     u64 (fl_fee s + fee meta))) ->
  fill_inv valid cs p0 h0 mx m already version height (pre ++ [id]) (fill_include cs s id meta bd).
Proof.
  intros Hvs Hok0 (sel & kss & E1 & Hsub & Hok & Hsame & Hver & Ew & Ef & Hmx & Hf2 & Hnd & Eki & Hbest) Hid Ht Hle Hcb.
  unfold fill_include. pose proof (ready_spec cs (fl_pool s) meta id bd) as Hr. pose proof (ready_valid valid cs (fl_pool s) meta id bd Hvs Hver Ht) as Hrv.
  destruct (is_transaction_ready_to_go cs (fl_pool s) meta id bd) as [[r meta'] p1]. destruct Hr as ([c ->] & Ew' & Ef' & Hr), Hrv as [Hver1 Hval].
  set (p2 := if bool_decide (meta = meta') then _ else _).
  assert (pool_ok p2 /\ same_txs p0 p2 /\ verdicts_ok valid p2) as (Hok2 & Hsame2 & Hver2).
  { unfold p2. case_bool_decide; [split; [by apply set_cache_ok|split; [by etrans|done]]|]. unfold update_txpool_tx. cbn. rewrite Ht. cbn.
    split; [apply (update_keeps (set_cache c (fl_pool s)) id meta meta' bd); [by apply set_cache_ok|done|done]|].
    split; [etrans; [exact Hsame|]; apply (update_same (set_cache c (fl_pool s)) id meta meta' bd); done|].
    intros id' t h i m' bd' tx E1' E2' E3'. cbn in E1', E2'. destruct (decide (id = id')) as [<-|Hne];
      [rewrite lookup_insert_eq in E2'; injection E2' as <- <-; by eapply Hver1|rewrite lookup_insert_ne in E2' by done; by eapply Hver1]. }
  assert (fill_inv valid cs p0 h0 mx m already version height (pre ++ [id]) (set_fl_pool s p2)) as Hskip.
  { exists sel, kss. cbn. split_and!; try done. by apply sublist_inserts_r. }
  destruct r as [tx|]; [|done]. cbn [fl_k_images set_fl_pool]. destruct (have_key_images (fl_k_images s) tx) eqn:Eh; [done|].
  destruct (same_txs_lookup p0 (fl_pool s) id meta bd Hsame Ht) as (meta0 & Ht0 & Ew0 & Ef0).
  destruct (po_entries p0 Hok0 id meta0 bd Ht0) as (ks & tx' & Hp & Hhash & Hks & Hndk). destruct (Hr tx eq_refl) as [Hp0 Hun]. clear Hr.
  rewrite Hp0 in Hp. injection Hp as <-. pose proof (have_images_spec _ _ _ Hks Eh) as Hdis.
  exists (sel ++ [id]), (kss ++ [ks]). cbn. rewrite app_assoc, <- E1, concat_app, fmap_app, sum_app, fmap_app, sum_app. cbn.
  rewrite app_nil_r. unfold weight_of at 2, fee_of at 2. rewrite Ht0. cbn. rewrite Ew0, Ef0, Ew', Ef', Ew, Ef.
  rewrite !wrap_add_l, !Z.add_0_r. split_and!; try done.
  - by apply sublist_app.
  - right. by rewrite Ew, wrap_add_l in Hle.
  - apply Forall2_app; [done|]. constructor; [|constructor]. exists meta0, bd, tx. split; [done|]. split; [by exists tx|]. split; [done|]. split; [done|]. by apply Hval.
  - apply NoDup_app. split; [done|]. split; [|done]. intros k Hk Hk'. apply (Hdis k Hk'). rewrite Eki. by apply elem_of_list_to_set.
  - unfold append_key_images. rewrite (append_images_spec _ _ ks) by done. rewrite Eki. cbn. by rewrite list_to_set_app_L.
  - intros Hv. specialize (Hcb Hv). by rewrite Ew, Ef, !wrap_add_l in Hcb.
Qed.

Lemma fill_skip valid (cs : CS) p0 h0 mx m already version height pre id s s' :
  fl_tx_hashes s' = fl_tx_hashes s -> fl_total_weight s' = fl_total_weight s -> fl_fee s' = fl_fee s ->
  fl_best_coinbase s' = fl_best_coinbase s -> fl_k_images s' = fl_k_images s -> fl_pool s' = fl_pool s ->
  fill_inv valid cs p0 h0 mx m already version height pre s -> fill_inv valid cs p0 h0 mx m already version height (pre ++ [id]) s'.
Proof.
  intros E1 E2 E3 E4 E5 E6 (sel & kss & H1 & H2 & H3). exists sel, kss. rewrite E1, E2, E3, E4, E5, E6.
  split; [done|]. split; [by apply sublist_inserts_r|done].
Qed.

Lemma fill_loop_inv valid (cs : CS) p0 h0 mx m already version height l pre s :
  verdicts_sound valid cs -> pool_ok p0 -> NoDup (pre ++ l.*2) -> fill_inv valid cs p0 h0 mx m already version height pre s ->
  exists pre', fill_inv valid cs p0 h0 mx m already version height pre' (fill_loop cs l m already mx version height s) /\
    pre' `sublist_of` pre ++ l.*2.
Proof.
  intros Hvs Hok0. revert pre s. induction l as [|[[rate time] id] l IH]; intros pre s Hnd Hinv; cbn [fill_loop].
  { exists pre. split; [done|]. by apply sublist_inserts_r. }
  cbn [fmap list_fmap snd] in *. assert (NoDup ((pre ++ [id]) ++ l.*2)) as Hnd' by by rewrite <- app_assoc.
  assert (forall s, fill_inv valid cs p0 h0 mx m already version height (pre ++ [id]) s ->
    exists pre', fill_inv valid cs p0 h0 mx m already version height pre' (fill_loop cs l m already mx version height s) /\
    pre' `sublist_of` pre ++ id :: l.*2) as Hnext.
  { intros s1 H1. destruct (IH _ _ Hnd' H1) as (pre' & H2 & H3). exists pre'. split; [done|]. by rewrite <- app_assoc in H3. }
  assert (id ∉ pre) as Hid by (apply NoDup_app in Hnd as (_ & Hx & _); intros Hin; apply (Hx id Hin); by left).
  destruct (txpool (fl_pool s) !! id) as [[meta bd]|] eqn:Et; [|apply Hnext; by eapply fill_skip].
  destruct (Z.ltb_spec mx (u64 (fl_total_weight s + weight meta))); [apply Hnext; by eapply fill_skip|].
  destruct (Z.leb_spec 5 version).
  - destruct (get_block_reward m (u64 (fl_total_weight s + weight meta)) already version height) as [r|] eqn:Er;
      [|apply Hnext; by eapply fill_skip].
    destruct (_ <? _); [apply Hnext; by eapply fill_skip|]. apply Hnext, fill_include_inv; [done|done| |done|done|done|].
    + destruct Hinv as (sel & kss & Hinv). by exists sel, kss.
    + intros _. cbn. rewrite Er. cbn. rewrite wrap_add_l, wrap_add_r. f_equal. lia.
  - destruct (m <? fl_total_weight s); [exists pre; split; [done|by apply sublist_inserts_r]|].
    apply Hnext, fill_include_inv; [done..|lia].
Qed.

Lemma fill_block_template_inv valid (cs : CS) p h0 median_weight already version height :
  verdicts_sound valid cs -> verdicts_ok valid p -> pool_ok p -> 0 <= median_weight < 2 ^ 31 -> 0 <= already <= MONEY_SUPPLY ->
  let '(hashes, w, f, expected_reward, p') := fill_block_template cs p h0 median_weight already version height in
  pool_ok p' /\ same_txs p p' /\
  exists sel kss, hashes = h0 ++ sel /\ sel `sublist_of` (m_txs_by_fee_and_receive_time p).*2 /\
    w = u64 (sum (weight_of p <$> sel)) /\ f = u64 (sum (fee_of p <$> sel)) /\
    (sel = [] \/ w <= (if 5 <=? version then u64 (u64 (2 * median_weight) - 600) else u64 (u64 (130 * median_weight) / 100 - 600))) /\
    Forall2 (selectable valid cs p) sel kss /\ NoDup (concat kss) /\
    (5 <= version -> expected_reward = u64 (default 0 (get_block_reward median_weight w already version height) + f)).
Proof.
  intros Hvs Hver Hok Hm Ha. unfold fill_block_template. cbv zeta. set (mx := if 5 <=? version then _ else _).
  destruct (fill_loop_inv valid cs p h0 mx median_weight already version height (m_txs_by_fee_and_receive_time p) []
    (Fill h0 0 0 (default 0 (get_block_reward median_weight 0 already version height)) 0 ∅ p)) as (pre & Hinv & Hsub).
  - done.
  - done.
  - apply po_ids, Hok.
  - exists [], []. cbn. rewrite app_nil_r. split_and!; try done; [by left|by apply NoDup_nil|]. intros _. rewrite Z.add_0_r.
    destruct (get_block_reward median_weight 0 already version height) as [r|] eqn:E; [|done]. cbn.
    pose proof (reward_bounds median_weight 0 already version height r Hm ltac:(lia) Ha E). by rewrite wrap_small by (unfold in_range; lia).
  - destruct Hinv as (sel & kss & E1 & Hs & Hok' & Hsame & _ & Ew & Ef & Hmx & Hf2 & Hnd & _ & Hbest). split; [done|]. split; [done|].
    exists sel, kss. split_and!; try done. by etrans.
Qed.

(** C39: what goes into a block template.  From a consistent pool the
    transactions selected are a subsequence of the container, best fee rate
    first, none twice; no key image is spent twice among them,
    nor already on the chain; the reported
    weight and fee are their sums and the weight respects the limit of the
    version; from version 5 on the expected reward is the block reward at
    that weight plus the fees.  The pool stays consistent and holds the same
    transactions. *)
Theorem fill_block_template_sound (cs : CS) p h0 median_weight already version height :
  pool_ok p -> 0 <= median_weight < 2 ^ 31 -> 0 <= already <= MONEY_SUPPLY ->
  let '(hashes, w, f, expected_reward, p') := fill_block_template cs p h0 median_weight already version height in
  pool_ok p' /\ same_txs p p' /\
  exists sel kss, hashes = h0 ++ sel /\ sel `sublist_of` (m_txs_by_fee_and_receive_time p).*2 /\
    w = u64 (sum (weight_of p <$> sel)) /\ f = u64 (sum (fee_of p <$> sel)) /\
    (sel = [] \/ w <= (if 5 <=? version then u64 (u64 (2 * median_weight) - 600) else u64 (u64 (130 * median_weight) / 100 - 600))) /\
    Forall2 (selectable (fun _ => True) cs p) sel kss /\ NoDup (concat kss) /\
    (5 <= version -> expected_reward = u64 (default 0 (get_block_reward median_weight w already version height) + f)).
Proof. by apply fill_block_template_inv. Qed.
End fill.

(** ** Examples *)
Definition toy_pool_chain : PoolChain unit := {|
  pc_check_fee _ _ _ := true; pc_check_tx_outputs _ _ t := (true, t); pc_check_tx_inputs _ _ _ t h i := (true, t, h, i);
  pc_have_tx_keyimges_as_spent _ _ := false; pc_have_tx _ _ := false; pc_current_blockchain_height _ := 10;
  pc_get_block_id_by_height _ _ := null_hash |}.
Definition empty_pool : tx_memory_pool := Pool ∅ ∅ [] 0 ∅ DEFAULT_TXPOOL_MAX_WEIGHT 0 ∅.

Lemma empty_pool_ok : pool_ok empty_pool.
Proof.
  split; cbn; [by apply NoDup_nil| |done| |by intros k| ].
  - intros id. rewrite lookup_empty. split; [set_solver|by intros []].
  - intros id meta bd. by rewrite lookup_empty.
  - intros k id. unfold spenders. rewrite lookup_empty. cbn. split; [set_solver|]. intros (? & ? & ? & E & _). by rewrite lookup_empty in E.
Qed.

Lemma small_tx_admissible : admissible (small_tx 6 1) [replicate 32 1].
Proof.
  split; [|by split; [by split|split; [reflexivity|split; [reflexivity|apply NoDup_singleton]]]].
  apply (parse_binary_ok transaction_codec _ (tx_to_blob (small_tx 6 1))); [by_decide|vm_compute; reflexivity].
Qed.

(** A pool with one transaction. *)
Definition pool_of (tx : transaction) (meta : txpool_tx_meta_t) : tx_memory_pool :=
  set_weight (weight meta) (pool_insert empty_pool tx (transaction_hash tx) meta false).2.

Lemma empty_pool_unspent tx ks : images tx = Some ks -> have_tx_keyimges_as_spent empty_pool tx = false.
Proof.
  unfold images, have_tx_keyimges_as_spent. generalize (vin (tx_prefix tx)) as ins. intros ins. revert ks.
  induction ins as [|i ins IH]; intros ks; [done|]. cbn [images_of any_keyimg_spent]. destruct i; try done.
  destruct (images_of ins) as [ks'|]; [|done]. intros _. rewrite (IH ks' eq_refl). unfold have_tx_keyimg_as_spent. by rewrite bool_decide_false by by intros [].
Qed.

Lemma pool_of_spec tx meta ks : admissible tx ks -> is_u64 (weight meta) ->
  pool_ok (pool_of tx meta) /\ txpool (pool_of tx meta) = {[ transaction_hash tx := (meta, tx_to_blob tx) ]}.
Proof.
  intros Ha Hw. destruct (admissible_entry _ _ Ha) as [H1 H2]. pose proof Ha as (_ & _ & _ & Hks & _).
  destruct (pool_insert_ok empty_pool tx (transaction_hash tx) meta ks (tx_invalidate_hashes tx) false) as (p & E & Ht & _ & _ & Hok);
    [apply empty_pool_ok|apply lookup_empty|reflexivity|exact H2|exact Hks|exact H1|intros _; by eapply empty_pool_unspent|].
  unfold pool_of. rewrite E. cbn [snd]. replace (weight meta) with (u64 (m_txpool_weight empty_pool + weight meta)) by (cbn [m_txpool_weight empty_pool]; rewrite Z.add_0_l; by apply wrap_small).
  split; [exact Hok|exact Ht].
Qed.

Definition one_tx_pool : tx_memory_pool := pool_of (small_tx 6 1) (example_meta 300 1700000000).

Lemma one_tx_pool_spec : pool_ok one_tx_pool /\
  txpool one_tx_pool = {[ transaction_hash (small_tx 6 1) := (example_meta 300 1700000000, tx_to_blob (small_tx 6 1)) ]}.
Proof. apply (pool_of_spec _ _ _ small_tx_admissible). by_decide. Qed.

(** A transaction that is taken. *)
Lemma add_tx_keeps_pool_witness :
  let _ := toy_pool_chain in
  let tx := small_tx 6 1 in
  exists t p' meta, add_tx_id tt 1700000000 empty_pool tx (transaction_hash tx) 300 tvc_zero false false false 13 = (true, t, p') /\
    pool_ok p' /\ txpool p' = {[transaction_hash tx := (meta, tx_to_blob tx)]}.
Proof.
  intros tc tx.
  pose proof (add_tx_keeps_pool tt 1700000000 empty_pool tx [replicate 32 1] 300 tvc_zero false false false 13
    (proj1 (proj1 (pool_ok_iff _) empty_pool_ok)) small_tx_admissible ltac:(apply lookup_empty)) as H.
  assert ((add_tx_id tt 1700000000 empty_pool tx (transaction_hash tx) 300 tvc_zero false false false 13).1.1 = true) as Hr by (vm_compute; reflexivity).
  destruct (add_tx_id _ _ _ _ _ _ _ _ _ _ _) as [[r t] p']. cbn [fst] in Hr. rewrite Hr in *. clear Hr.
  destruct H as (_ & meta & Ew & _ & _ & _ & H). destruct H as [H1 H2]; [apply empty_pool_ok| |by_decide|].
  - rewrite total_weight_insert by apply lookup_empty. cbn [fst]. rewrite Ew. by_decide.
  - exists t, p', meta. split; [reflexivity|]. split; [exact H1|exact H2].
Defined.

Lemma fill_block_template_sound_witness :
  let _ := toy_pool_chain in
  let '(hashes, w, f, expected_reward, p') := fill_block_template tt one_tx_pool [] 300000 (MONEY_SUPPLY / 2) 13 900000 in
  pool_ok p' /\ expected_reward = u64 (default 0 (get_block_reward 300000 w (MONEY_SUPPLY / 2) 13 900000) + f).
Proof.
  intros tc. pose proof (fill_block_template_sound tt one_tx_pool [] 300000 (MONEY_SUPPLY / 2) 13 900000) as H.
  destruct (fill_block_template tt one_tx_pool [] 300000 (MONEY_SUPPLY / 2) 13 900000) as [[[[hs w] f] e] p'].
  destruct H as (H1 & _ & sel & kss & _ & _ & _ & _ & _ & _ & _ & H2); [apply one_tx_pool_spec|lia|by_decide|].
  split; [exact H1|]. apply H2. lia.
Defined.

(** taking a transaction out.  On a consistent pool [take_tx] fails
    exactly for the ids that are not in the table and then changes nothing;
    otherwise it returns the stored transaction with its weight and fee,
    whose hash is the id asked for, removes that entry alone, and the indexes
    still agree. *)
Theorem take_tx_keeps_pool p id : pool_ok p ->
  match take_tx p id with
  | (None, p') => txpool p !! id = None /\ p' = p
  | (Some k, p') => exists meta bd, txpool p !! id = Some (meta, bd) /\ txpool p' = delete id (txpool p) /\
      parse_and_validate_tx_from_blob bd = Some (k_tx k) /\ transaction_hash (k_tx k) = id /\
      k_weight k = weight meta /\ k_fee k = fee meta /\ pool_ok p'
  end.
Proof. apply take_tx_ok. Qed.

Lemma take_tx_keeps_pool_witness :
  exists k, (take_tx one_tx_pool (transaction_hash (small_tx 6 1))).1 = Some k /\ k_weight k = 300 /\
    txpool (take_tx one_tx_pool (transaction_hash (small_tx 6 1))).2 = delete (transaction_hash (small_tx 6 1)) (txpool one_tx_pool).
Proof.
  destruct one_tx_pool_spec as [Hok Ht].
  pose proof (take_tx_keeps_pool one_tx_pool (transaction_hash (small_tx 6 1)) Hok) as H.
  destruct (take_tx one_tx_pool (transaction_hash (small_tx 6 1))) as [[k|] p'].
  - destruct H as (meta & bd & E & Ed & _ & _ & Ew & _). exists k. split; [reflexivity|]. split; [|exact Ed].
    rewrite Ht, lookup_singleton_eq in E. injection E as <- <-. exact Ew.
  - destruct H as [E _]. rewrite Ht, lookup_singleton_eq in E. discriminate E.
Defined.

(** ** Rounding *)
Lemma round_half_even_error n d : 0 < d -> 2 * Z.abs (round_half_even n d * d - n) <= d.
Proof.
  intros Hd. unfold round_half_even. cbv zeta. pose proof (Z.div_mod n d). pose proof (Z.mod_pos_bound n d Hd).
  destruct (Z.ltb_spec (2 * (n mod d)) d); [nia|]. destruct (Z.ltb_spec d (2 * (n mod d))); [nia|]. case_match; nia.
Qed.

Lemma round_integer prec a : 1 <= prec -> 0 < a ->
  let e := Z.log2 a + 1 - prec in
  round_to prec a 1 = if 0 <=? e then Float (round_half_even a (2 ^ e)) e else Float (round_half_even (a * 2 ^ (- e)) 1) e.
Proof.
  intros Hp Ha e. unfold round_to. rewrite (proj2 (Z.eqb_neq a 0)) by lia. cbv zeta. change (Z.log2 1) with 0.
  pose proof (Z.log2_spec a Ha) as [H1 H2]. set (k := Z.log2 a) in *. pose proof (Z.log2_nonneg a) as Hk. fold k in Hk.
  assert (((if 0 <=? k - 0 - prec then (a, 1 * 2 ^ (k - 0 - prec)) else (a * 2 ^ (- (k - 0 - prec)), 1)).1 /
           (if 0 <=? k - 0 - prec then (a, 1 * 2 ^ (k - 0 - prec)) else (a * 2 ^ (- (k - 0 - prec)), 1)).2 <? 2 ^ prec) = false) as ->.
  { apply Z.ltb_ge. destruct (Z.leb_spec 0 (k - 0 - prec)); cbn.
    - rewrite Z.mul_1_l, Z.sub_0_r in *. apply Z.div_le_lower_bound; [lia|]. rewrite <- Z.pow_add_r by lia.
      by replace (k - prec + prec) with k by lia.
    - rewrite Z.div_1_r. replace (2 ^ prec) with (2 ^ k * 2 ^ (- (k - 0 - prec))) by (rewrite <- Z.pow_add_r by lia; f_equal; lia). nia. }
  replace (k - 0 - prec + 1) with e by lia. rewrite Z.mul_1_l. by destruct (0 <=? e).
Qed.

(** the threshold of the template is a rounded float.  The product with
    1.0f turns the best coinbase into a number of 24 bits: exact below 2^24,
    within one part in 2^24 above, and on either side of the amount.  So a
    transaction that raises the coinbase can be left out: for the best
    coinbase 190734870288 the threshold is 6,384 units higher. *)
Theorem template_accept_threshold_error a : 0 < a < 2 ^ 63 ->
  2 ^ 24 * Z.abs (template_accept_threshold a - a) <= a /\ (a < 2 ^ 24 -> template_accept_threshold a = a) /\
  template_accept_threshold 190734870288 = 190734876672.
Proof.
  intros Ha. unfold template_accept_threshold, to_float32, float_to_u64. rewrite round_integer by lia. cbv zeta.
  pose proof (Z.log2_spec a ltac:(lia)) as [H1 H2]. pose proof (Z.log2_nonneg a). set (k := Z.log2 a) in *.
  assert (k < 63) by (apply (Z.pow_lt_mono_r_iff 2); lia).
  destruct (Z.leb_spec 0 (k + 1 - 24)) as [He|He]; cbn [exponent mantissa].
  - rewrite (proj2 (Z.leb_le 0 _)) by lia. pose proof (round_half_even_error a (2 ^ (k + 1 - 24)) ltac:(lia)) as Herr.
    assert (2 ^ (k + 1 - 24) * 2 ^ 23 = 2 ^ k) as Ep by (rewrite <- Z.pow_add_r by lia; f_equal; lia).
    assert (2 ^ (k + 1 - 24) <= 2 ^ 39) by (apply Z.pow_le_mono_r; lia).
    set (d := 2 ^ (k + 1 - 24)) in *. set (q := round_half_even a d) in *. clearbody q d.
    rewrite wrap_small by (unfold in_range; lia). split; [lia|]. split; [|reflexivity]. intros Hlt.
    assert (k < 24) by (apply (Z.pow_lt_mono_r_iff 2); lia). replace k with 23 in Ep by lia. lia.
  - rewrite (proj2 (Z.leb_gt 0 _)) by lia.
    assert (round_half_even (a * 2 ^ (- (k + 1 - 24))) 1 = a * 2 ^ (- (k + 1 - 24))) as ->.
    { pose proof (round_half_even_error (a * 2 ^ (- (k + 1 - 24))) 1). lia. }
    rewrite Z.div_mul by lia. split; [lia|]. by split.
Qed.

Lemma template_accept_threshold_error_witness :
  2 ^ 24 * Z.abs (template_accept_threshold 190734870288 - 190734870288) <= 190734870288.
Proof. apply (template_accept_threshold_error 190734870288). lia. Defined.

(** ** What every entry of the table satisfies

    A property of the entries that new transactions have is kept by every
    operation, also where the other indices are not coherent. *)
Section entries.
Context `{PoolChain CS}.
Variable P : blob -> blob -> Prop.

Definition all_entries (p : tx_memory_pool) : Prop := forall id meta bd, txpool p !! id = Some (meta, bd) -> P id bd.

Lemma entries_remove p id : all_entries p -> all_entries (remove_txpool_tx p id).
Proof. intros Hp id' meta bd E. cbn in E. apply lookup_delete_Some in E as [_ E]. by eapply Hp. Qed.

Lemma entries_update p id meta : all_entries p -> all_entries (default p (update_txpool_tx p id meta)).
Proof.
  intros Hp. unfold update_txpool_tx. destruct (txpool p !! id) as [[m bd]|] eqn:E; [|done].
  intros id' meta' bd' E'. cbn in E'. apply lookup_insert_Some in E' as [[<- [= <- <-]]|[_ E']]; by eapply Hp.
Qed.

Lemma entries_keyimages p tx kept : all_entries p ->
  all_entries (insert_key_images p tx kept).2 /\ all_entries (remove_transaction_keyimages p tx).2.
Proof.
  intros Hp. unfold insert_key_images, remove_transaction_keyimages.
  destruct (insert_images _ _ _ _) as [[] ?], (remove_images _ _ _) as [[] ?]; by split.
Qed.

Lemma entries_prune p bytes : all_entries p -> all_entries (prune p bytes).
Proof.
  unfold prune. generalize (if bytes =? 0 then m_txpool_max_weight p else bytes) as b. generalize (rev (tail (m_txs_by_fee_and_receive_time p))) as l.
  assert (forall l b c q, all_entries q -> all_entries (prune_loop l b c q).2) as Hl.
  { induction l as [|[[rate time] txid] l IH]; intros b c q Hq; [done|]. cbn [prune_loop]. destruct (_ <=? _); [done|].
    destruct (txpool q !! txid) as [[m bd]|]; [|done]. destruct (kept_by_block m); [by apply IH|].
    destruct (parse_and_validate_tx_from_blob bd) as [tx|]; [|done]. apply IH.
    eapply (entries_keyimages (set_weight _ (remove_txpool_tx q txid)) tx true). by apply (entries_remove q). }
  intros l b Hp. specialize (Hl l b false p Hp). destruct (prune_loop l b false p) as [[c r] q]. by destruct (negb r && c).
Qed.

Lemma entries_mark p tx : all_entries p -> all_entries (mark_double_spend p tx).
Proof.
  assert (forall p c id, all_entries p -> all_entries (mark_one p c id).1) as H1.
  { intros q c id Hq. unfold mark_one. destruct (get_txpool_tx_meta q id); [|done]. destruct (double_spend_seen _); [done|]. by apply entries_update. }
  assert (forall ins p c, all_entries p -> all_entries (mark_loop ins p c).1.1) as H2.
  { induction ins as [|i ins IH]; intros q c Hq; [done|]. destruct i as [| | |a o k]; try done. cbn [mark_loop].
    destruct (m_spent_key_images q !! k) as [s|]; [|by apply IH]. revert q c Hq. induction (elements s) as [|id l IHl]; intros q c Hq; cbn [foldl]; [by apply IH|].
    specialize (H1 q c id Hq). destruct (mark_one q c id) as [q' c']. by apply IHl. }
  intros Hp. unfold mark_double_spend. specialize (H2 (vin (tx_prefix tx)) p false Hp). destruct (mark_loop _ _ _) as [[q c] r]. by destruct (negb r && c).
Qed.

Lemma entries_insert p tx id meta replace : P (transaction_hash tx) (tx_to_blob tx) -> all_entries p -> all_entries (pool_insert p tx id meta replace).2.
Proof.
  intros Ht Hp. unfold pool_insert. set (q := if replace then _ else p). assert (all_entries q) as Hq by (unfold q; destruct replace; [by apply entries_remove|done]).
  unfold add_txpool_tx. destruct (txpool q !! _) eqn:E; [done|]. set (q' := set_txpool _ q).
  assert (all_entries q') as Hq' by (intros id' m bd E'; cbn in E'; apply lookup_insert_Some in E' as [[<- [= <- <-]]|[_ E']]; [done|by eapply Hq]).
  destruct (entries_keyimages q' tx (kept_by_block meta) Hq') as [Hi _]. by destruct (insert_key_images _ _ _) as [[] ?].
Qed.

Lemma entries_check cs p tx id kept tvc h b : all_entries p -> all_entries (check_tx_inputs cs p tx id kept tvc h b).2.
Proof.
  intros Hp. unfold check_tx_inputs. destruct (if kept then None else _) as [[[[r ?] ?] ?]|]; [done|].
  destruct (pc_check_tx_inputs _ _ _ _ _ _) as [[[r ?] ?] ?]. by destruct kept.
Qed.

(** What is added has passed the check of its inputs, unless it comes with a block. *)
Lemma entries_add_tx_id cs now p tx h w tvc kept relay no_relay version :
  (forall t, kept = true \/ (check_tx_inputs cs p tx h kept t 0 null_hash).1.1.1.1 = true -> P (transaction_hash tx) (tx_to_blob tx)) -> all_entries p ->
  all_entries (add_tx_id cs now p tx h w tvc kept relay no_relay version).2.
Proof.
  intros Ht Hp. unfold add_tx_id. destruct (_ =? 0); [done|]. destruct (_ && _); [done|]. destruct (negb _); [done|]. destruct (pool_fee _ _) as [?|fee]; [done|].
  destruct (_ && _); [done|]. destruct (_ && _); [done|]. destruct (_ && have_tx_keyimges_as_spent _ _); [by apply entries_mark|].
  destruct (pc_check_tx_outputs _ _ _) as [[] tvc']; [|done]. cbn [negb]. pose proof (entries_check cs p tx h kept (set_flag f_failed true tvc') 0 null_hash Hp) as Hc.
  specialize (Ht (set_flag f_failed true tvc')). destruct (check_tx_inputs _ _ _ _ _ _ _ _) as [[[[res tvc1] mh] mid] q]. destruct (negb res && negb kept) eqn:Er; [done|].
  set (meta := if negb res then _ else _). assert (P (transaction_hash tx) (tx_to_blob tx)) as Ht' by (apply Ht; destruct res, kept; by auto).
  pose proof (entries_insert q tx h meta res Ht' Hc) as Hi. destruct (pool_insert _ _ _ _ _) as [[] q']; [|done]. cbn [negb snd]. by apply entries_prune.
Qed.

Lemma entries_add_tx cs now p tx tvc kept relay no_relay version r : P (transaction_hash tx) (tx_to_blob tx) -> all_entries p ->
  add_tx cs now p tx tvc kept relay no_relay version = Some r -> all_entries r.2.
Proof.
  intros Ht Hp. unfold add_tx. destruct (get_transaction_hash true tx).1 as [[h sz]|]; [|by intros [= <-]].
  destruct (sz =? 0); [by intros [= <-]|]. destruct (get_transaction_weight_of tx sz) as [w|]; [|done]. cbn [mbind option_bind]. intros [= <-].
  by apply entries_add_tx_id.
Qed.

Lemma entries_take p id : all_entries p -> all_entries (take_tx p id).2 /\
  forall t, (take_tx p id).1 = Some t -> exists meta bd, txpool p !! id = Some (meta, bd) /\ P id bd /\ parse_and_validate_tx_from_blob bd = Some (k_tx t) /\
    k_weight t = weight meta /\ k_fee t = fee meta /\ txpool (take_tx p id).2 = delete id (txpool p).
Proof.
  intros Hp. unfold take_tx. destruct (find_tx_in_sorted_container p id); [|done]. destruct (txpool p !! id) as [[meta bd]|] eqn:E; [|done].
  destruct (parse_and_validate_tx_from_blob bd) as [tx|] eqn:Ep; [|done]. cbn [fst snd]. set (q := set_weight _ _).
  assert (all_entries q) as Hq by by apply (entries_remove p id). destruct (entries_keyimages q tx true Hq) as [_ Hk]. split; [done|].
  intros t [= <-]. exists meta, bd. split; [done|]. split; [by eapply Hp|]. split; [done|]. split; [done|]. split; [done|].
  unfold remove_transaction_keyimages. by destruct (remove_images _ _ _) as [[] ?].
Qed.

Lemma entries_include cs s id meta bd : all_entries (fl_pool s) -> all_entries (fl_pool (fill_include cs s id meta bd)).
Proof.
  intros Hs. unfold fill_include. assert (all_entries (is_transaction_ready_to_go cs (fl_pool s) meta id bd).2) as Hr.
  { unfold is_transaction_ready_to_go. assert (forall m, all_entries (check_ready cs (fl_pool s) m id bd).2) as Hc.
    { intros m. unfold check_ready. pose proof (fun tx => entries_check cs (fl_pool s) tx id false tvc_zero (max_used_block_height m) (max_used_block_id m) Hs) as Hc.
      destruct (m_input_cache _ !! id) as [?|], (parse_and_validate_tx_from_blob bd) as [tx|]; cbn [default].
      4: done.
      all: match goal with |- context [check_tx_inputs _ _ ?t _ _ _ _ _] => specialize (Hc t) end.
      all: destruct (check_tx_inputs _ _ _ _ _ _ _ _) as [[[[r ?] ?] ?] q]; destruct (negb r); [done|]; try done.
      all: by destruct (pc_have_tx_keyimges_as_spent _ _). }
    repeat case_match; first [done|apply Hc]. }
  destruct (is_transaction_ready_to_go _ _ _ _ _) as [[ready meta'] q]. cbn [snd] in Hr.
  assert (all_entries (if bool_decide (meta = meta') then q else default q (update_txpool_tx q id meta'))) as Hq
    by (case_bool_decide; [done|by apply entries_update]).
  destruct ready as [tx|]; [|done]. cbn [fl_k_images set_fl_pool]. by destruct (have_key_images _ _).
Qed.

Lemma entries_fill cs p hs m a v h : all_entries p -> all_entries (fill_block_template cs p hs m a v h).2.
Proof.
  intros Hp. unfold fill_block_template. cbn [snd].
  assert (forall l mx s, all_entries (fl_pool s) -> all_entries (fl_pool (fill_loop cs l m a mx v h s))) as Hl; [|by apply Hl].
  induction l as [|[[r t] id] l IH]; intros mx s Hs; [done|]. cbn [fill_loop].
  destruct (txpool (fl_pool s) !! id) as [[meta bd]|]; [|by apply IH]. destruct (_ <? _); [by apply IH|]. destruct (5 <=? v).
  - destruct (get_block_reward _ _ _ _ _); [|by apply IH]. destruct (_ <? _); apply IH; [done|]. by apply entries_include.
  - destruct (m <? _); [done|]. apply IH. by apply entries_include.
Qed.
End entries.

(** ** The remembered checks *)
Section remembered.
Context `{PoolChain CS}.

Lemma insert_cache p tx id meta replace : m_input_cache (pool_insert p tx id meta replace).2 = m_input_cache p.
Proof.
  unfold pool_insert, add_txpool_tx. set (q := if replace then _ else p). transitivity (m_input_cache q); [|by destruct replace].
  destruct (txpool q !! _); [done|]. unfold insert_key_images. by destruct (insert_images _ _ _ _) as [[] ?].
Qed.

Lemma prune_cache p bytes : m_input_cache (prune p bytes) = m_input_cache p.
Proof.
  unfold prune. set (b := if bytes =? 0 then _ else _). clearbody b.
  assert (forall l c q, m_input_cache (prune_loop l b c q).2 = m_input_cache q) as Hl.
  { induction l as [|[[rate time] txid] l IH]; intros c q; [done|]. cbn [prune_loop]. destruct (_ <=? _); [done|].
    destruct (txpool q !! txid) as [[m bd]|]; [|done]. destruct (kept_by_block m); [apply IH|].
    destruct (parse_and_validate_tx_from_blob bd) as [tx|]; [|done]. rewrite IH. unfold remove_transaction_keyimages. by destruct (remove_images _ _ _) as [[] ?]. }
  specialize (Hl (rev (tail (m_txs_by_fee_and_receive_time p))) false p). destruct (prune_loop _ _ _ _) as [[c r] q]. by destruct (negb r && c).
Qed.

Lemma mark_cache p tx : m_input_cache (mark_double_spend p tx) = m_input_cache p.
Proof.
  assert (forall q c id, m_input_cache (mark_one q c id).1 = m_input_cache q) as H1.
  { intros q c id. unfold mark_one, update_txpool_tx. destruct (get_txpool_tx_meta q id); [|done]. destruct (double_spend_seen _); [done|]. by destruct (txpool q !! id) as [[]|]. }
  assert (forall ins q c, m_input_cache (mark_loop ins q c).1.1 = m_input_cache q) as H2.
  { induction ins as [|i ins IH]; intros q c; [done|]. destruct i as [| | |a o k]; try done. cbn [mark_loop].
    destruct (m_spent_key_images q !! k) as [s|]; [|by apply IH]. revert q c. induction (elements s) as [|id l IHl]; intros q c; cbn [foldl]; [by apply IH|].
    specialize (H1 q c id). destruct (mark_one q c id) as [q' c']. rewrite IHl. exact H1. }
  unfold mark_double_spend. specialize (H2 (vin (tx_prefix tx)) p false). destruct (mark_loop _ _ _) as [[q c] r]. by destruct (negb r && c).
Qed.

(** Adding a transaction remembers at most the check of its inputs. *)
Lemma add_tx_id_cache cs now p tx h w tvc kept relay no_relay version :
  let c := m_input_cache (add_tx_id cs now p tx h w tvc kept relay no_relay version).2 in
  c = m_input_cache p \/ exists t, c = m_input_cache (check_tx_inputs cs p tx h kept t 0 null_hash).2.
Proof.
  cbv zeta. unfold add_tx_id. destruct (_ =? 0); [by left|]. destruct (_ && _); [by left|]. destruct (negb _); [by left|]. destruct (pool_fee _ _) as [?|fee]; [by left|].
  destruct (_ && _); [by left|]. destruct (_ && _); [by left|]. destruct (_ && have_tx_keyimges_as_spent _ _); [left; apply mark_cache|].
  destruct (pc_check_tx_outputs _ _ _) as [[] tvc']; [|by left]. cbn [negb]. right. exists (set_flag f_failed true tvc').
  destruct (check_tx_inputs _ _ _ _ _ _ _ _) as [[[[res tvc1] mh] mid] q]. destruct (_ && negb kept); [done|].
  set (meta := if negb res then _ else _). pose proof (insert_cache q tx h meta res) as Hi. destruct (pool_insert _ _ _ _ _) as [[] q']; [|exact Hi].
  cbn [negb snd]. rewrite prune_cache. exact Hi.
Qed.
End remembered.
