(* ===== verification/Checkpoints.v ===== *)
(** * Checkpoints

    Model of src/checkpoints/checkpoints.cpp: the map from heights to block
    hashes, its queries, and the loading of further points from a JSON file and
    from DNS records.  What the file and the resolver yield is an argument.
    Where the C++ map is walked in key order, the model takes the largest key
    with the property the walk stops at. *)
From Stdlib Require Import ZArith Lia Bool.
From stdpp Require Import prelude gmap.
From S2P Require Import Prelude StringTools.
Local Open Scope Z_scope.

Abbreviation checkpoints := (gmap Z blob).

(** ** Operations *)
Definition add_checkpoint (m_points : checkpoints) (height : Z) (hash_str : blob) : bool * checkpoints :=
  match parse_tpod_from_hex_string 32 hash_str with
  | None => (false, m_points)
  | Some h =>
      match m_points !! height with
      | Some h' => if negb (bool_decide (h = h')) then (false, m_points) else (true, <[height := h]> m_points)
      | None => (true, <[height := h]> m_points)
      end
  end.

(** The largest key that satisfies [p]. *)
Definition largest (p : Z -> bool) (m : checkpoints) : option Z :=
  map_fold (fun k _ acc => if p k then Some (match acc with Some k' => Z.max k k' | None => k end) else acc) None m.

Definition is_in_checkpoint_zone (m_points : checkpoints) (height : Z) : bool :=
  match largest (fun _ => true) m_points with
  | None => false
  | Some last => height <=? last
  end.

(** The second component is [is_a_checkpoint]. *)
Definition check_block (m_points : checkpoints) (height : Z) (h : blob) : bool * bool :=
  match m_points !! height with
  | None => (true, false)
  | Some h' => (bool_decide (h' = h), true)
  end.

(** [upper_bound] is the first point beyond the height; the one before it, if
    there is one, is the last at or below. *)
Definition is_alternative_block_allowed (m_points : checkpoints) (blockchain_height block_height : Z) : bool :=
  if block_height =? 0 then false
  else match largest (fun k => k <=? blockchain_height) m_points with
       | None => true
       | Some checkpoint_height => checkpoint_height <? block_height
       end.

(** [None]: the end iterator of an empty map is dereferenced. *)
Definition get_max_height (m_points : checkpoints) : option Z := largest (fun _ => true) m_points.

Definition check_for_conflicts (m_points other : checkpoints) : bool :=
  map_fold (fun k h acc => match m_points !! k with Some h' => bool_decide (h = h') | None => true end && acc) true other.

Definition init_default_checkpoints (m_points : checkpoints) : bool * checkpoints := (true, m_points).

Fixpoint load_lines (m_points : checkpoints) (prev_max_height : Z) (hashlines : list (Z * blob)) : bool * checkpoints :=
  match hashlines with
  | [] => (true, m_points)
  | (height, hash) :: l =>
      if height <=? prev_max_height then load_lines m_points prev_max_height l
      else
        let '(r, m_points) := add_checkpoint m_points height hash in
        if negb r then (false, m_points) else load_lines m_points prev_max_height l
  end.

(** The file: absent, not parsed, or its lines.  [None] is undefined behaviour. *)
Definition load_checkpoints_from_json (m_points : checkpoints) (file : option (option (list (Z * blob)))) : option (bool * checkpoints) :=
  match file with
  | None => Some (true, m_points)
  | Some hashes =>
      prev_max_height ← get_max_height m_points;
      match hashes with
      | None => Some (false, m_points)
      | Some hashlines => Some (load_lines m_points prev_max_height hashlines)
      end
  end.

(** The extraction [ss >> height] of a [uint64_t]: white space, a sign, digits;
    it fails without a digit and on overflow. *)
Fixpoint leading_digits (s : blob) : blob :=
  match s with
  | c :: s => if is_digit c then c :: leading_digits s else []
  | [] => []
  end.

Definition extract_u64 (s : blob) : option Z :=
  let s := (skip_spaces s).1 in
  let '(neg, s) := match s with
                   | c :: s' => if c =? 43 then (false, s') else if c =? 45 then (true, s') else (false, s)
                   | [] => (false, s)
                   end in
  match leading_digits s with
  | [] => None
  | ds => let v := decimal_value ds 0 in
          if v <? 2 ^ 64 then Some (u64 (if neg : bool then - v else v)) else None
  end.

(** [record.find(":")] and the two substrings around it. *)
Fixpoint split_colon (s : blob) : option (blob * blob) :=
  match s with
  | [] => None
  | c :: s => if c =? 58 then Some ([], s) else '(a, b) ← split_colon s; Some (c :: a, b)
  end.

Fixpoint load_records (m_points : checkpoints) (records : list blob) : bool * checkpoints :=
  match records with
  | [] => (true, m_points)
  | record :: l =>
      match '(a, hashStr) ← split_colon record; height ← extract_u64 a;
            _ ← parse_tpod_from_hex_string 32 hashStr; Some (height, hashStr) with
      | None => load_records m_points l
      | Some (height, hashStr) =>
          let '(r, m_points) := add_checkpoint m_points height hashStr in
          if negb r then (false, m_points) else load_records m_points l
      end
  end.

(** [None]: the records could not be loaded. *)
Definition load_checkpoints_from_dns (m_points : checkpoints) (records : option (list blob)) : bool * checkpoints :=
  match records with
  | None => (true, m_points)
  | Some records => load_records m_points records
  end.

Definition load_new_checkpoints (m_points : checkpoints) (file : option (option (list (Z * blob)))) (dns : bool)
  (records : option (list blob)) : option (bool * checkpoints) :=
  '(result, m_points) ← load_checkpoints_from_json m_points file;
  if dns then let '(r, m_points) := load_checkpoints_from_dns m_points records in Some (result && r, m_points)
  else Some (result, m_points).

(** ** Largest keys *)
Lemma largest_spec p m :
  match largest p m with
  | Some k => p k = true /\ is_Some (m !! k) /\ forall k', p k' = true -> is_Some (m !! k') -> k' <= k
  | None => forall k, is_Some (m !! k) -> p k = false
  end.
Proof.
  unfold largest. apply (map_fold_weak_ind (fun r m => match r with
    | Some k => p k = true /\ is_Some (m !! k) /\ forall k', p k' = true -> is_Some (m !! k') -> k' <= k
    | None => forall k, is_Some (m !! k) -> p k = false end)).
  { intros k. rewrite lookup_empty. by intros []. }
  intros k v m0 r Hk IH. assert (forall k', is_Some (<[k:=v]> m0 !! k') -> k' = k \/ is_Some (m0 !! k')) as Hi
    by (intros k' [->|[_ Hk']]%lookup_insert_is_Some; auto).
  destruct (p k) eqn:Ep.
  - destruct r as [k0|].
    + destruct IH as (Hp & Hs & Hmax). split; [by destruct (Z.max_spec k k0) as [[_ ->]|[_ ->]]|]. split.
      { destruct (Z.max_spec k k0) as [[_ ->]|[_ ->]]; rewrite lookup_insert_is_Some; [|by left].
        destruct (decide (k = k0)); [by left|by right]. }
      intros k' Hp' [->|Hs']%Hi; [lia|]. specialize (Hmax k' Hp' Hs'). lia.
    + split; [done|]. split; [rewrite lookup_insert_is_Some; by left|]. intros k' Hp' [->|Hs']%Hi; [lia|].
      rewrite (IH k' Hs') in Hp'. done.
  - destruct r as [k0|].
    + destruct IH as (Hp & Hs & Hmax). split; [done|]. split.
      { rewrite lookup_insert_is_Some. right. split; [by intros ->; rewrite Ep in Hp|done]. }
      intros k' Hp' [->|Hs']%Hi; [by rewrite Ep in Hp'|auto].
    + intros k' [->|Hs']%Hi; [done|auto].
Qed.

(** ** Alternative blocks *)

(** checkpoints protect the chain below them.  An alternative block is
    allowed exactly when its height is not zero and lies above every
    checkpoint at or below the height of the chain; a height is in the
    checkpoint zone exactly when some checkpoint is at it or above. *)
Theorem alternative_block_allowed_iff m_points blockchain_height block_height :
  (is_alternative_block_allowed m_points blockchain_height block_height = true <->
   block_height <> 0 /\ forall k h, m_points !! k = Some h -> k <= blockchain_height -> k < block_height) /\
  (is_in_checkpoint_zone m_points blockchain_height = true <->
   exists k h, m_points !! k = Some h /\ blockchain_height <= k).
Proof.
  split.
  - unfold is_alternative_block_allowed. pose proof (largest_spec (fun k => k <=? blockchain_height) m_points) as Hl.
    destruct (Z.eqb_spec block_height 0); [by split; [|intros []]|].
    destruct (largest _ m_points) as [k|].
    + destruct Hl as (Hk & [h Hs] & Hmax). rewrite Z.ltb_lt. split.
      * intros Hlt. split; [done|]. intros k' h' Hk' Hle. enough (k' <= k) by lia. apply Hmax; [lia|by eexists].
      * intros [_ H]. eapply H; [done|lia].
    + split; [|done]. intros _. split; [done|]. intros k h Hk Hle.
      specialize (Hl k ltac:(by eexists)). cbv beta in Hl. lia.
  - unfold is_in_checkpoint_zone. pose proof (largest_spec (fun _ => true) m_points) as Hl.
    destruct (largest _ m_points) as [k|].
    + destruct Hl as (_ & [h Hs] & Hmax). rewrite Z.leb_le. split; [by exists k, h|].
      intros (k' & h' & Hk' & Hle). enough (k' <= k) by lia. apply Hmax; [done|by eexists].
    + split; [done|]. intros (k & h & Hk & _). specialize (Hl k ltac:(by eexists)). done.
Qed.

(** ** Loading *)
Lemma add_checkpoint_spec m_points height s r m' : add_checkpoint m_points height s = (r, m') ->
  m_points ⊆ m' /\ (r = true -> exists h, parse_tpod_from_hex_string 32 s = Some h /\ m' !! height = Some h).
Proof.
  unfold add_checkpoint. destruct (parse_tpod_from_hex_string 32 s) as [h|]; [|by intros [= <- <-]].
  destruct (m_points !! height) as [h'|] eqn:E.
  - case_bool_decide as Hh; simpl; intros [= <- <-]; [subst h'|done].
    rewrite insert_id by done. split; [done|]. by exists h.
  - intros [= <- <-]. split; [by apply insert_subseteq|]. intros _. exists h. by rewrite lookup_insert_eq.
Qed.

Lemma load_lines_spec m_points mx l r m' : load_lines m_points mx l = (r, m') ->
  m_points ⊆ m' /\
  (r = true -> Forall (fun p => mx < p.1 -> exists h, parse_tpod_from_hex_string 32 p.2 = Some h /\ m' !! p.1 = Some h) l).
Proof.
  revert m_points. induction l as [|[height s] l IH]; intros m_points; simpl; [by intros [= <- <-]|].
  destruct (Z.leb_spec height mx).
  { intros [Hs Hf]%IH. split; [done|]. intros Hr. constructor; [simpl; lia|auto]. }
  destruct (add_checkpoint m_points height s) as [r1 m1] eqn:E. destruct (add_checkpoint_spec _ _ _ _ _ E) as [H1 H2].
  destruct r1; simpl; [|by intros [= <- <-]]. intros [Hs Hf]%IH. split; [by etrans|]. intros Hr. constructor; [|auto].
  intros _. destruct (H2 eq_refl) as (h & Hp & Hm). exists h. split; [done|]. by eapply lookup_weaken.
Qed.

Lemma load_records_subseteq m_points l r m' : load_records m_points l = (r, m') -> m_points ⊆ m'.
Proof.
  revert m_points. induction l as [|record l IH]; intros m_points; simpl; [by intros [= <- <-]|].
  destruct (_ ≫= _) as [[height s]|]; [|apply IH].
  destruct (add_checkpoint m_points height s) as [r1 m1] eqn:E. destruct (add_checkpoint_spec _ _ _ _ _ E) as [H1 _].
  destruct r1; simpl; [|by intros [= <- <-]]. intros Hs%IH. by etrans.
Qed.

(** loading checkpoints.  Whatever the file and the DNS records hold, no
    checkpoint already present is removed or changed, and when loading the
    file succeeds every line above the old maximum is a checkpoint afterwards.
    With no checkpoint present, the state the default initialisation leaves,
    an existing file makes [get_max_height] dereference the end of the map. *)
Theorem load_new_checkpoints_spec m_points file dns records :
  (load_new_checkpoints m_points file dns records = None <-> m_points = ∅ /\ file <> None) /\
  forall r m', load_new_checkpoints m_points file dns records = Some (r, m') ->
    m_points ⊆ m' /\
    (r = true -> forall lines, file = Some (Some lines) ->
       exists mx, get_max_height m_points = Some mx /\
       Forall (fun p => mx < p.1 -> exists h, parse_tpod_from_hex_string 32 p.2 = Some h /\ m' !! p.1 = Some h) lines).
Proof.
  assert (get_max_height m_points = None <-> m_points = ∅) as Hmax.
  { pose proof (largest_spec (fun _ => true) m_points) as Hl. unfold get_max_height. split; [|by intros ->].
    intros E. rewrite E in Hl. apply map_empty. intros i. destruct (m_points !! i) eqn:Ei; [|done].
    specialize (Hl i). by rewrite Ei in Hl; specialize (Hl ltac:(by eexists)). }
  unfold load_new_checkpoints, load_checkpoints_from_json.
  assert (forall r0 m0 r m', (if dns then let '(r, m_points) := load_checkpoints_from_dns m0 records in Some (r0 && r, m_points)
      else Some (r0, m0)) = Some (r, m') -> m0 ⊆ m' /\ (r = true -> r0 = true)) as Hdns.
  { intros r0 m0 r m'. destruct dns; [|by intros [= <- <-]]. destruct (load_checkpoints_from_dns m0 records) as [r1 m1] eqn:E1.
    intros [= <- <-]. split; [|by destruct r0]. destruct records as [l|]; simpl in E1; [by eapply load_records_subseteq|by injection E1 as <- <-]. }
  destruct file as [hashes|]; cbn [mbind option_bind].
  2: { split; [split; [|by intros []]|]. { destruct dns; [|done]. by destruct (load_checkpoints_from_dns m_points records). }
       intros r m' Hr. apply Hdns in Hr as [? _]. by split. }
  destruct (get_max_height m_points) as [mx|] eqn:Em; cbn [mbind option_bind]; [|by split; [split; [by split; [apply Hmax|]|]|]].
  split. { split; [|intros [E0 _]; apply Hmax in E0; done]. destruct hashes as [lines|]; [destruct (load_lines m_points mx lines) as [rl ml]|];
    simpl; (destruct dns; [by destruct (load_checkpoints_from_dns _ records)|done]). }
  intros r m'. destruct hashes as [lines|]; cbn [mbind option_bind].
  - destruct (load_lines m_points mx lines) as [rl ml] eqn:El. cbn [mbind option_bind]. destruct (load_lines_spec _ _ _ _ _ El) as [H1 H2].
    intros [H3 H4]%Hdns. split; [by etrans|]. intros Hr lines' [= <-]. exists mx. split; [done|].
    eapply Forall_impl; [by apply H2, H4|]. intros p Hp Hlt. destruct (Hp Hlt) as (h & ? & ?). exists h. split; [done|]. by eapply lookup_weaken.
  - intros [H3 H4]%Hdns. split; [done|]. by intros Hr ? [=].
Qed.
