(* ===== verification/Outputs.v ===== *)
(** * The tables of outputs

    Model of the tables of src/blockchain_db/lmdb/db_lmdb.cpp that hold the
    outputs of the stored transactions: [output_txs] (by global number),
    [output_amounts] (by amount and index within the amount) and [tx_outputs]
    (the indices of a transaction, by the number the transaction has in
    [tx_indices]), with the operations of [BlockchainLMDB] on them and the loop
    of [BlockchainDB::add_transaction] (src/blockchain_db/blockchain_db.cpp) that
    stores the outputs of a transaction.  A table with sorted duplicates is a map
    by key and first word of the record; a write that appends
    ([MDB_APPEND], [MDB_APPENDDUP]) is refused unless it is the last one.

    An operation that throws yields [Thrown] with the tables as the exception
    leaves them.  Where the code reads past the end of a vector or through an
    unset pointer, which is undefined, the model throws. *)
From Stdlib Require Import ZArith Lia Bool.
From stdpp Require Import prelude gmap.
From S2P Require Import Prelude Archive Rct CryptonoteBasic Keccak Limbs Scalar RctOps.
Local Open Scope Z_scope.

Inductive outcome (A : Type) := Done (a : A) | Thrown (a : A).
Arguments Done {A} _.
Arguments Thrown {A} _.
Definition result {A} (o : outcome A) : A := match o with Done a | Thrown a => a end.

(** ** Records *)
Record output_data_t := OutputData { od_pubkey : blob; od_unlock_time : Z; od_height : Z; od_commitment : blob }.
Record pre_rct_output_data_t := PreRctOutputData { pd_pubkey : blob; pd_unlock_time : Z; pd_height : Z }.
(** An [outkey], or a [pre_rct_outkey] when there is no commitment. *)
Record outkey := Outkey { ok_output_id : Z; ok_data : pre_rct_output_data_t; ok_commitment : option blob }.
Record outtx := Outtx { ot_tx_hash : blob; ot_local_index : Z }.

Record output_tables := OutputTables {
  output_txs : gmap Z outtx;
  output_amounts : gmap (Z * Z) outkey;
  (** the number of a transaction in [tx_indices] *)
  tx_ids : gmap blob Z;
  tx_outputs : gmap Z (list Z) }.
Definition no_outputs : output_tables := OutputTables ∅ ∅ ∅ ∅.

Definition num_outputs (t : output_tables) : Z := Z.of_nat (size (output_txs t)).
Definition get_num_outputs (t : output_tables) (amount : Z) : Z :=
  Z.of_nat (size (filter (fun x => x.1.1 = amount) (output_amounts t))).

(** ** Adding *)
Definition add_output (height : Z) (t : output_tables) (tx_hash : blob) (tx_output : tx_out) (local_index unlock_time : Z) (commitment : option blob)
  : outcome (output_tables * Z) :=
  let m_num_outputs := num_outputs t in
  let amount := out_amount tx_output in
  match target tx_output with
  | target_key key =>
      if (amount =? 0) && bool_decide (commitment = None) then Thrown (t, 0)
      else if negb (bool_decide (map_Forall (fun id _ => id < m_num_outputs) (output_txs t))) then Thrown (t, 0)
      else
        let amount_index := get_num_outputs t amount in
        let txs := <[m_num_outputs := Outtx tx_hash local_index]> (output_txs t) in
        if negb (bool_decide (map_Forall (fun k _ => k.1 = amount -> k.2 < amount_index) (output_amounts t)))
        then Thrown (OutputTables txs (output_amounts t) (tx_ids t) (tx_outputs t), 0)
        else
          let ok := Outkey m_num_outputs (PreRctOutputData key unlock_time height) (if amount =? 0 then commitment else None) in
          Done (OutputTables txs (<[(amount, amount_index) := ok]> (output_amounts t)) (tx_ids t) (tx_outputs t), amount_index)
  | _ => Thrown (t, 0)
  end.

Definition add_tx_amount_output_indices (t : output_tables) (tx_id : Z) (amount_output_indices : list Z) : outcome output_tables :=
  if negb (bool_decide (map_Forall (fun id _ => id < tx_id) (tx_outputs t))) then Thrown t
  else Done (OutputTables (output_txs t) (output_amounts t) (tx_ids t) (<[tx_id := amount_output_indices]> (tx_outputs t))).

(** The part of [add_transaction_data] that numbers the transaction. *)
Definition add_tx_index (t : output_tables) (tx_hash : blob) : Z * output_tables :=
  let tx_id := Z.of_nat (size (tx_ids t)) in
  (tx_id, OutputTables (output_txs t) (output_amounts t) (<[tx_hash := tx_id]> (tx_ids t)) (tx_outputs t)).

Definition is_gen (i : txin_v) : bool := match i with txin_gen _ => true | _ => false end.
Definition is_miner_tx (tx : transaction) : bool := existsb is_gen (vin (tx_prefix tx)).
Definition is_pseudo_rct (tx : transaction) : bool :=
  (2 <=? version (tx_prefix tx)) && match vin (tx_prefix tx) with [txin_gen _] => true | _ => false end.

Definition stored_amount (tx : transaction) (o : tx_out) : Z := if is_pseudo_rct tx then 0 else out_amount o.

Section adding.
Context `{Curve}.

(** What is stored of the output with index [i], and its commitment. *)
Definition stored_output (miner_tx : bool) (tx : transaction) (i : nat) (o : tx_out) : option (tx_out * option blob) :=
  if miner_tx && (version (tx_prefix tx) =? 2) then commitment ← zeroCommit (out_amount o); Some (Tx_out 0 (target o), Some commitment)
  else Some (o, if 1 <? version (tx_prefix tx) then outPk (rct_signatures tx) !! i else None).

Fixpoint add_outputs (height : Z) (tx_hash : blob) (miner_tx : bool) (tx : transaction) (outs : list tx_out) (i : nat) (t : output_tables)
  (amount_output_indices : list Z) : outcome (output_tables * list Z) :=
  match outs with
  | [] => Done (t, amount_output_indices)
  | o :: outs =>
      match stored_output miner_tx tx i o with
      | None => Thrown (t, amount_output_indices)
      | Some (o, commitment) =>
          match add_output height t tx_hash o (Z.of_nat i) (unlock_time (tx_prefix tx)) commitment with
          | Thrown (t, _) => Thrown (t, amount_output_indices)
          | Done (t, index) => add_outputs height tx_hash miner_tx tx outs (S i) t (amount_output_indices ++ [index])
          end
      end
  end.

(** The number and the outputs of a transaction in a block at [height]. *)
Definition add_tx_outputs (height : Z) (tx_hash : blob) (tx : transaction) (t : output_tables) : outcome output_tables :=
  let '(tx_id, t) := add_tx_index t tx_hash in
  match add_outputs height tx_hash (is_miner_tx tx) tx (vout (tx_prefix tx)) 0 t [] with
  | Thrown (t, _) => Thrown t
  | Done (t, indices) => add_tx_amount_output_indices t tx_id indices
  end.
End adding.

(** ** Removing *)
Definition remove_output (t : output_tables) (amount out_index : Z) : outcome output_tables :=
  match output_amounts t !! (amount, out_index) with
  | None => Thrown t
  | Some ok =>
      match output_txs t !! ok_output_id ok with
      | None => Thrown t
      | Some _ => Done (OutputTables (delete (ok_output_id ok) (output_txs t)) (delete (amount, out_index) (output_amounts t)) (tx_ids t) (tx_outputs t))
      end
  end.

Fixpoint remove_outputs (l : list (Z * Z)) (t : output_tables) : outcome output_tables :=
  match l with
  | [] => Done t
  | (amount, out_index) :: l =>
      match remove_output t amount out_index with
      | Thrown t => Thrown t
      | Done t => remove_outputs l t
      end
  end.

Definition get_tx_amount_output_indices (t : output_tables) (tx_id : Z) : option (list Z) := tx_outputs t !! tx_id.

Definition remove_tx_outputs (t : output_tables) (tx_id : Z) (tx : transaction) : outcome output_tables :=
  match get_tx_amount_output_indices t tx_id with
  | None => Thrown t
  | Some amount_output_indices =>
      let outs := vout (tx_prefix tx) in
      if bool_decide (length amount_output_indices < length outs)%nat then Thrown t
      else
        remove_outputs (reverse (zip (stored_amount tx <$> outs) amount_output_indices)) t
  end.

(** The part of [remove_transaction_data] on these tables. *)
Definition remove_tx_data (t : output_tables) (tx_hash : blob) (tx : transaction) : outcome output_tables :=
  match tx_ids t !! tx_hash with
  | None => Thrown t
  | Some tx_id =>
      match remove_tx_outputs t tx_id tx with
      | Thrown t => Thrown t
      | Done t => Done (OutputTables (output_txs t) (output_amounts t) (delete tx_hash (tx_ids t)) (delete tx_id (tx_outputs t)))
      end
  end.

(** ** Queries; [None] is an exception *)
Section queries.
Context `{Curve}.

Definition output_data (amount : Z) (ok : outkey) : option output_data_t :=
  let d := ok_data ok in
  commitment ← (if amount =? 0 then ok_commitment ok else zeroCommit amount);
  Some (OutputData (pd_pubkey d) (pd_unlock_time d) (pd_height d) commitment).

Definition get_output_key (t : output_tables) (amount index : Z) : option output_data_t :=
  ok ← output_amounts t !! (amount, index); output_data amount ok.

(** The overload on several indices. *)
Fixpoint get_output_keys (t : output_tables) (amount : Z) (offsets : list Z) (allow_partial : bool) : option (list output_data_t) :=
  match offsets with
  | [] => Some []
  | index :: offsets =>
      match output_amounts t !! (amount, index) with
      | None => if allow_partial then Some [] else None
      | Some ok => d ← output_data amount ok; outputs ← get_output_keys t amount offsets allow_partial; Some (d :: outputs)
      end
  end.
End queries.

Definition get_output_tx_and_index_from_global (t : output_tables) (output_id : Z) : option outtx := output_txs t !! output_id.
Definition get_output_txs_and_indices (t : output_tables) (amount : Z) (offsets : list Z) : option (list outtx) :=
  tx_indices ← mapM (fun index => ok_output_id <$> output_amounts t !! (amount, index)) offsets;
  mapM (get_output_tx_and_index_from_global t) tx_indices.
Definition get_output_tx_and_index (t : output_tables) (amount index : Z) : option outtx :=
  indices ← get_output_txs_and_indices t amount [index]; head indices.

(** ** Removing undoes adding *)
Lemma add_output_spec h t th o li ut c t' idx : add_output h t th o li ut c = Done (t', idx) ->
  exists key, target o = target_key key /\ (out_amount o = 0 -> is_Some c) /\ idx = get_num_outputs t (out_amount o) /\
    t' = OutputTables (<[num_outputs t := Outtx th li]> (output_txs t))
      (<[(out_amount o, idx) := Outkey (num_outputs t) (PreRctOutputData key ut h) (if out_amount o =? 0 then c else None)]> (output_amounts t)) (tx_ids t) (tx_outputs t) /\
    output_txs t !! num_outputs t = None /\ output_amounts t !! (out_amount o, idx) = None.
Proof.
  unfold add_output. destruct (target o) as [| |key]; [done..|]. destruct ((out_amount o =? 0) && bool_decide (c = None)) eqn:E0; [done|].
  destruct (bool_decide (map_Forall _ (output_txs t))) eqn:E1; [apply bool_decide_eq_true in E1|done]. cbn [negb].
  destruct (bool_decide (map_Forall _ (output_amounts t))) eqn:E2; [apply bool_decide_eq_true in E2|done]. intros [= <- <-]. exists key. split; [done|].
  split; [intros Ha; rewrite Ha in E0; destruct c; [by eexists|]; by rewrite bool_decide_true in E0|]. split; [done|]. split; [done|]. split.
  - destruct (output_txs t !! _) eqn:E; [|done]. specialize (E1 _ _ E). cbn in E1. lia.
  - destruct (output_amounts t !! _) eqn:E; [|done]. specialize (E2 _ _ E eq_refl). cbn in E2. lia.
Qed.

(** The same tables of outputs, with other numbers of transactions. *)
Definition with_ids (t : output_tables) (ids : gmap blob Z) (outs : gmap Z (list Z)) : output_tables := OutputTables (output_txs t) (output_amounts t) ids outs.

Lemma remove_output_add h t th o li ut c t' idx ids outs : add_output h t th o li ut c = Done (t', idx) ->
  remove_output (with_ids t' ids outs) (out_amount o) idx = Done (with_ids t ids outs).
Proof.
  intros (key & _ & _ & _ & -> & Hn & Hk)%add_output_spec. unfold remove_output. cbn [with_ids output_amounts output_txs tx_ids tx_outputs].
  rewrite lookup_insert_eq. cbn [ok_output_id]. rewrite lookup_insert_eq. by rewrite !delete_insert_id.
Qed.

Lemma remove_outputs_app l l' t : remove_outputs (l ++ l') t = match remove_outputs l t with Thrown t => Thrown t | Done t => remove_outputs l' t end.
Proof. revert t. induction l as [|[a i] l IH]; intros t; [done|]. cbn [app remove_outputs]. destruct (remove_output t a i); [apply IH|done]. Qed.

(** The two places that decide whether a coinbase is stored as confidential agree. *)
Definition coinbase_agrees (tx : transaction) : Prop := is_miner_tx tx && (version (tx_prefix tx) =? 2) = is_pseudo_rct tx.

Section inverse.
Context `{Curve}.

Lemma stored_output_amount tx i o o' c : coinbase_agrees tx -> stored_output (is_miner_tx tx) tx i o = Some (o', c) ->
  out_amount o' = stored_amount tx o /\ target o' = target o.
Proof.
  intros Hc. unfold stored_output, stored_amount. rewrite Hc. destruct (is_pseudo_rct tx); [|by intros [= <- _]].
  destruct (zeroCommit _); [|done]. by intros [= <- _].
Qed.

Lemma add_outputs_spec h th tx outs i t acc t' idxs : add_outputs h th (is_miner_tx tx) tx outs i t acc = Done (t', idxs) -> coinbase_agrees tx ->
  exists l, idxs = acc ++ l /\ length l = length outs /\ tx_ids t' = tx_ids t /\ tx_outputs t' = tx_outputs t /\
    forall ids os, remove_outputs (reverse (zip (stored_amount tx <$> outs) l)) (with_ids t' ids os) = Done (with_ids t ids os).
Proof.
  intros Ha Hc. revert i t acc Ha. induction outs as [|o outs IH]; intros i t acc; cbn [add_outputs].
  { intros [= <- <-]. exists []. by rewrite app_nil_r. }
  destruct (stored_output _ _ _ _) as [[o' c]|] eqn:Eo; [|done]. apply stored_output_amount in Eo as [Ea _]; [|done].
  destruct (add_output _ _ _ _ _ _ _) as [[t1 idx]|[? ?]] eqn:E; [|done]. intros (l & -> & Hl & Hi & Ho & Hr)%IH.
  exists (idx :: l). rewrite <- app_assoc. split; [done|]. split; [by cbn; f_equal|].
  pose proof (add_output_spec _ _ _ _ _ _ _ _ _ E) as (key & _ & _ & _ & Et & _). split; [rewrite Hi, Et; done|]. split; [rewrite Ho, Et; done|].
  intros ids os. cbn [fmap list_fmap zip zip_with]. rewrite reverse_cons, remove_outputs_app, Hr. cbn [remove_outputs].
  by rewrite <- Ea, (remove_output_add _ _ _ _ _ _ _ _ _ _ _ E).
Qed.

Lemma add_tx_outputs_ids h th tx t t' : coinbase_agrees tx -> add_tx_outputs h th tx t = Done t' -> tx_ids t' = <[th := Z.of_nat (size (tx_ids t))]> (tx_ids t).
Proof.
  intros Hc. unfold add_tx_outputs, add_tx_index. destruct (add_outputs _ _ _ _ _ _ _ _) as [[t1 idxs]|[? ?]] eqn:E; [|done].
  apply add_outputs_spec in E as (l & -> & Hl & Hi & _); [|done]. unfold add_tx_amount_output_indices. case_bool_decide; [|done]. by intros [= <-].
Qed.

Lemma remove_tx_data_add h th tx t t' : coinbase_agrees tx -> tx_ids t !! th = None -> add_tx_outputs h th tx t = Done t' -> remove_tx_data t' th tx = Done t.
Proof.
  intros Hc Hn. unfold add_tx_outputs, add_tx_index. destruct (add_outputs _ _ _ _ _ _ _ _) as [[t1 idxs]|[? ?]] eqn:E; [|done].
  apply add_outputs_spec in E as (l & -> & Hl & Hi & Ho & Hr); [|done]. cbn [app tx_ids tx_outputs] in *.
  unfold add_tx_amount_output_indices. case_bool_decide as Hf; [|done]. intros [= <-].
  unfold remove_tx_data. cbn [tx_ids]. rewrite Hi, lookup_insert_eq.
  unfold remove_tx_outputs, get_tx_amount_output_indices. cbn [tx_outputs]. rewrite lookup_insert_eq, bool_decide_false by lia.
  change (OutputTables (output_txs t1) (output_amounts t1) ?ids ?os) with (with_ids t1 ids os). rewrite Hr.
  unfold with_ids. cbn [output_txs output_amounts tx_ids tx_outputs]. rewrite Ho in *. rewrite !delete_insert_id; [by destruct t|..|done].
  destruct (tx_outputs t !! _) eqn:E; [|done]. specialize (Hf _ _ E). cbn in Hf. lia.
Qed.
End inverse.

(** ** What the tables hold *)

(** Numbers and indices are the first natural numbers, so that the next one is
    free. *)
Record tables_ok (t : output_tables) : Prop := {
  to_ids id : is_Some (output_txs t !! id) <-> 0 <= id < num_outputs t;
  to_amounts a i : is_Some (output_amounts t !! (a, i)) <-> 0 <= i < get_num_outputs t a;
  to_points k ok : output_amounts t !! k = Some ok -> is_Some (output_txs t !! ok_output_id ok);
  to_tx_ids th id : tx_ids t !! th = Some id -> 0 <= id < Z.of_nat (size (tx_ids t));
  to_tx_outputs id : is_Some (tx_outputs t !! id) -> 0 <= id < Z.of_nat (size (tx_ids t))
}.

Definition tables_extend (t t' : output_tables) : Prop :=
  output_txs t ⊆ output_txs t' /\ output_amounts t ⊆ output_amounts t' /\ tx_ids t ⊆ tx_ids t' /\ tx_outputs t ⊆ tx_outputs t'.
#[export] Instance extends_preorder : PreOrder tables_extend.
Proof.
  split; [by intros t|]. intros t1 t2 t3 (H1 & H2 & H3 & H4) (K1 & K2 & K3 & K4). split; [by etrans|]. split; [by etrans|]. split; by etrans.
Qed.

Lemma num_outputs_insert t a i x y ids os : output_amounts t !! (a, i) = None ->
  get_num_outputs (OutputTables x (<[(a, i) := y]> (output_amounts t)) ids os) a = get_num_outputs t a + 1 /\
  forall b, b <> a -> get_num_outputs (OutputTables x (<[(a, i) := y]> (output_amounts t)) ids os) b = get_num_outputs t b.
Proof.
  intros Hn. unfold get_num_outputs. cbn [output_amounts]. split.
  - rewrite map_filter_insert_True by done. rewrite map_size_insert_None; [lia|]. by rewrite map_lookup_filter, Hn.
  - intros b Hb. rewrite map_filter_insert_False by (cbn; congruence). by rewrite delete_id.
Qed.

Lemma add_output_ok h t th o li ut c t' idx : tables_ok t -> add_output h t th o li ut c = Done (t', idx) -> tables_ok t' /\ tables_extend t t'.
Proof.
  intros [H1 H2 H3 H4 H5] (key & _ & _ & Ei & -> & N1 & N2)%add_output_spec. pose proof (Nat2Z.is_nonneg (size (output_txs t))) as Hp0.
  assert (0 <= idx) as Hp by (rewrite Ei; unfold get_num_outputs; lia).
  split; [|split; [by apply insert_subseteq|]; split; [by apply insert_subseteq|done]].
  destruct (num_outputs_insert t (out_amount o) idx (<[num_outputs t := Outtx th li]> (output_txs t)) (Outkey (num_outputs t) (PreRctOutputData key ut h) (if out_amount o =? 0 then c else None)) (tx_ids t) (tx_outputs t) N2) as [E1 E2].
  split; cbn [output_txs output_amounts tx_ids tx_outputs]; [| | |done|done].
  - intros id. unfold num_outputs. cbn [output_txs]. rewrite map_size_insert_None by done. rewrite lookup_insert_is_Some, H1. unfold num_outputs in *.
    destruct (decide (Z.of_nat (size (output_txs t)) = id)); [split; [lia|by left]|split; [intros [?|[_ ?]]; lia|intros ?; right; split; [done|lia]]].
  - intros a i. rewrite lookup_insert_is_Some, H2. destruct (decide (a = out_amount o)) as [->|Ha].
    + rewrite E1, <- Ei. destruct (decide (i = idx)) as [->|]; [split; [lia|by left]|split; [intros [[= ?]|[_ ?]]; lia|intros ?; right; split; [congruence|lia]]].
    + rewrite E2 by done. split; [intros [[= ?]|[_ ?]]; [congruence|done]|intros ?; right; split; [congruence|done]].
  - intros k ok. rewrite lookup_insert_Some, lookup_insert_is_Some. intros [[_ <-]|[_ E]]; [by left|]. destruct (decide (num_outputs t = ok_output_id ok)); [by left|]. right. split; [done|]. by eapply H3.
Qed.

Lemma add_output_done h t th o li ut c key : tables_ok t -> target o = target_key key -> (out_amount o = 0 -> is_Some c) ->
  exists r, add_output h t th o li ut c = Done r.
Proof.
  intros Hok Ht Hc. unfold add_output. rewrite Ht. replace ((out_amount o =? 0) && bool_decide (c = None)) with false.
  - rewrite !bool_decide_true; [by eexists|..].
    + intros [a i] ok E. cbn. intros ->. by apply (to_amounts _ Hok (out_amount o) i).
    + intros id x E. by apply (to_ids _ Hok id).
  - destruct (Z.eqb_spec (out_amount o) 0) as [E|]; [|done]. destruct (Hc E) as [x ->]. by rewrite bool_decide_false.
Qed.

Section contents.
Context `{Curve}.

(** An output that can be stored, and the entries of a stored one. *)
Definition storable_output (tx : transaction) (i : nat) (o : tx_out) : bool :=
  match target o, stored_output (is_miner_tx tx) tx i o with
  | target_key _, Some (o, c) => negb ((out_amount o =? 0) && bool_decide (c = None))
  | _, _ => false
  end.
Definition storable (tx : transaction) : Prop := forall i o, vout (tx_prefix tx) !! i = Some o -> storable_output tx i o = true.

Definition entry_of (t : output_tables) (h : Z) (th : blob) (tx : transaction) (i : nat) (o : tx_out) (amount index : Z) : Prop :=
  exists key c id, target o = target_key key /\ stored_output (is_miner_tx tx) tx i o = Some (Tx_out amount (target_key key), c) /\
    output_amounts t !! (amount, index) = Some (Outkey id (PreRctOutputData key (unlock_time (tx_prefix tx)) h) (if amount =? 0 then c else None)) /\
    (amount = 0 -> is_Some c) /\ output_txs t !! id = Some (Outtx th (Z.of_nat i)).

Lemma entry_of_extends t t' h th tx i o a x : tables_extend t t' -> entry_of t h th tx i o a x -> entry_of t' h th tx i o a x.
Proof.
  intros (H1 & H2 & _) (key & c & id & E1 & E2 & E3 & E4 & E5). exists key, c, id. split; [done|]. split; [done|].
  split; [by eapply lookup_weaken|]. split; [done|]. by eapply lookup_weaken.
Qed.

Lemma storable_stored tx i o : coinbase_agrees tx -> storable_output tx i o = true -> exists key c, target o = target_key key /\
  stored_output (is_miner_tx tx) tx i o = Some (Tx_out (stored_amount tx o) (target_key key), c) /\
  (stored_amount tx o = 0 -> is_Some c).
Proof.
  intros Hc. unfold storable_output. destruct (target o) as [| |key] eqn:Et; [done..|]. destruct (stored_output _ _ _ _) as [[o' c]|] eqn:E; [|done].
  pose proof (stored_output_amount _ _ _ _ _ Hc E) as [Ea Eo]. intros Hn. exists key, c. split; [done|]. rewrite <- Ea. split.
  - destruct o'. cbn in *. by rewrite Eo, Et.
  - intros E0. rewrite E0 in Hn. destruct c; [by eexists|]. by rewrite bool_decide_true in Hn.
Qed.

Lemma add_outputs_entries h th tx outs i t acc t' idxs : tables_ok t -> coinbase_agrees tx ->
  add_outputs h th (is_miner_tx tx) tx outs i t acc = Done (t', idxs) -> tables_ok t' /\ tables_extend t t' /\ tx_ids t' = tx_ids t /\ tx_outputs t' = tx_outputs t /\
  exists l, idxs = acc ++ l /\ length l = length outs /\
    (forall j o, outs !! j = Some o -> exists idx, l !! j = Some idx /\ entry_of t' h th tx (i + j) o (stored_amount tx o) idx) /\
    (forall k ok, output_amounts t' !! k = Some ok -> output_amounts t !! k = Some ok \/ exists j o, outs !! j = Some o /\ entry_of t' h th tx (i + j) o k.1 k.2).
Proof.
  intros Hok Hc. revert i t acc Hok. induction outs as [|o outs IH]; intros i t acc Hok; cbn [add_outputs].
  { intros [= <- <-]. split; [done|]. split; [done|]. do 2 (split; [done|]). exists []. rewrite app_nil_r. do 2 (split; [done|]). split; [done|]. by left. }
  destruct (stored_output _ _ _ _) as [[o' c]|] eqn:Eo; [|done]. destruct (stored_output_amount _ _ _ _ _ Hc Eo) as [Ea Et].
  destruct (add_output _ _ _ _ _ _ _) as [[t1 idx]|[? ?]] eqn:E; [|done]. destruct (add_output_ok _ _ _ _ _ _ _ _ _ Hok E) as [Hok1 Hx1].
  destruct (add_output_spec _ _ _ _ _ _ _ _ _ E) as (key & Ek & Hz & _ & E1 & _). intros (Hok' & Hx & Hi & Ho & l & -> & Hl & Hin & Hout)%IH; [|done].
  assert (entry_of t1 h th tx i o (stored_amount tx o) idx) as He.
  { exists key, c, (num_outputs t). rewrite <- Ea. split; [by rewrite <- Et|]. split; [rewrite Eo; destruct o'; cbn in *; by rewrite Ek|].
    rewrite E1. cbn [output_amounts output_txs]. rewrite !lookup_insert_eq. done. }
  split; [done|]. split; [by etrans|]. split; [by rewrite Hi, E1|]. split; [by rewrite Ho, E1|]. exists (idx :: l). rewrite <- app_assoc. split; [done|]. split; [by cbn; f_equal|]. split.
  - intros [|j] x.
    + intros [= <-]. exists idx. split; [done|]. rewrite Nat.add_0_r. by eapply entry_of_extends.
    + intros Ej. destruct (Hin j x Ej) as (idx' & El & Hx'). exists idx'. split; [done|]. by rewrite Nat.add_succ_r.
  - intros k ok [Hk|(j & x & Ej & Hk)]%Hout; [|right; exists (S j), x; by rewrite Nat.add_succ_r].
    rewrite E1 in Hk. cbn [output_amounts] in Hk. apply lookup_insert_Some in Hk as [[<- <-]|[_ Hk]]; [|by left].
    right. exists 0%nat, o. split; [done|]. rewrite Nat.add_0_r. cbn [fst snd]. rewrite Ea. by eapply entry_of_extends.
Qed.

(** What the queries answer for an entry. *)
Lemma entry_queries t h th tx i o a x : entry_of t h th tx i o a x -> get_output_tx_and_index t a x = Some (Outtx th (Z.of_nat i)) /\
  exists key c, target o = target_key key /\ stored_output (is_miner_tx tx) tx i o = Some (Tx_out a (target_key key), c) /\
    get_output_key t a x = commitment ← (if a =? 0 then c else zeroCommit a); Some (OutputData key (unlock_time (tx_prefix tx)) h commitment).
Proof.
  intros (key & c & id & Et & Es & Ea & _ & Eo). split.
  - unfold get_output_tx_and_index, get_output_txs_and_indices, get_output_tx_and_index_from_global. cbn. rewrite Ea. cbn. by rewrite Eo.
  - exists key, c. split; [done|]. split; [done|]. unfold get_output_key, output_data. rewrite Ea. cbn [mbind option_bind ok_data ok_commitment pd_pubkey pd_unlock_time pd_height]. by destruct (a =? 0).
Qed.

(** All that is stored of a transaction in a block at [h]. *)
Definition holds (t : output_tables) (h : Z) (th : blob) (tx : transaction) : Prop :=
  exists id idxs, tx_ids t !! th = Some id /\ get_tx_amount_output_indices t id = Some idxs /\ length idxs = length (vout (tx_prefix tx)) /\
    forall i o, vout (tx_prefix tx) !! i = Some o -> exists idx, idxs !! i = Some idx /\ entry_of t h th tx i o (stored_amount tx o) idx.

Lemma holds_extends t t' h th tx : tables_extend t t' -> holds t h th tx -> holds t' h th tx.
Proof.
  intros Hx (id & idxs & E1 & E2 & E3 & E4). pose proof Hx as (_ & _ & X3 & X4). exists id, idxs. split; [by eapply lookup_weaken|].
  split; [by eapply lookup_weaken|]. split; [done|]. intros i o Eo. destruct (E4 i o Eo) as (idx & Ei & He). exists idx. split; [done|]. by eapply entry_of_extends.
Qed.

Lemma add_tx_index_ok t th : tables_ok t -> tx_ids t !! th = None -> tables_ok (add_tx_index t th).2.
Proof.
  intros [H1 H2 H3 H4 H5] Hn. split; cbn [add_tx_index snd output_txs output_amounts tx_ids tx_outputs]; [exact H1|exact H2|exact H3|..]; rewrite map_size_insert_None by done.
  - intros th' id [[_ <-]|[_ E]]%lookup_insert_Some; [lia|]. apply H4 in E. lia.
  - intros id E%H5. lia.
Qed.

Lemma add_tx_outputs_ok h th tx t t' : tables_ok t -> coinbase_agrees tx -> tx_ids t !! th = None -> add_tx_outputs h th tx t = Done t' ->
  tables_ok t' /\ tables_extend t t' /\ holds t' h th tx /\ tx_ids t' = <[th := Z.of_nat (size (tx_ids t))]> (tx_ids t) /\
  (forall k ok, output_amounts t' !! k = Some ok -> output_amounts t !! k = Some ok \/ exists i o, vout (tx_prefix tx) !! i = Some o /\ entry_of t' h th tx i o k.1 k.2).
Proof.
  intros Hok Hc Hn. unfold add_tx_outputs, add_tx_index. set (n := Z.of_nat (size (tx_ids t))).
  set (t0 := OutputTables (output_txs t) (output_amounts t) (<[th := n]> (tx_ids t)) (tx_outputs t)).
  pose proof (add_tx_index_ok t th Hok Hn : tables_ok t0) as Hok0.
  destruct (add_outputs _ _ _ _ _ _ _ _) as [[t1 idxs]|[? ?]] eqn:E; [|done].
  apply add_outputs_entries in E as ([H1 H2 H3 H4 H5] & (X1 & X2 & _) & Hi & Ho & l & -> & Hl & Hin & Hout); [|done..].
  cbn [t0 app tx_ids tx_outputs] in Hi, Ho. unfold add_tx_amount_output_indices. case_bool_decide as Hf; [|done]. intros [= <-]. cbn [tx_ids].
  assert (tx_outputs t1 !! n = None) as Hfree by (destruct (tx_outputs t1 !! n) eqn:E; [|done]; specialize (Hf _ _ E); cbn in Hf; lia).
  set (t' := OutputTables _ _ _ _).
  assert (tables_extend t1 t') as Hx1 by (split; [done|]; split; [done|]; split; [done|by apply insert_subseteq]).
  split; [|split; [|split; [|split; [exact Hi|]]]].
  - split; cbn [t' output_txs output_amounts tx_ids tx_outputs]; [exact H1|exact H2|exact H3|exact H4|]. intros id [<-|[_ E]]%lookup_insert_is_Some; [|by apply H5].
    unfold n. rewrite Hi, map_size_insert_None by done. lia.
  - split; [exact X1|]. split; [exact X2|]. unfold t'. cbn [tx_ids tx_outputs]. rewrite Hi. split; [by apply insert_subseteq|]. rewrite Ho in Hfree |- *. by apply insert_subseteq.
  - exists n, l. split; [change (tx_ids t1 !! th = Some n); by rewrite Hi, lookup_insert_eq|]. split; [apply lookup_insert_eq|]. split; [done|].
    intros i o Eo. destruct (Hin i o Eo) as (idx & Ei & He). exists idx. split; [done|]. eapply entry_of_extends; [exact Hx1|exact He].
  - intros k ok [Hk|(j & o & Ej & He)]%Hout; [by left|]. right. exists j, o. split; [done|]. eapply entry_of_extends; [exact Hx1|exact He].
Qed.

Lemma add_outputs_done h th tx outs i t acc : tables_ok t -> coinbase_agrees tx -> (forall j o, outs !! j = Some o -> storable_output tx (i + j) o = true) ->
  exists r, add_outputs h th (is_miner_tx tx) tx outs i t acc = Done r.
Proof.
  intros Hok Hc. revert i t acc Hok. induction outs as [|o outs IH]; intros i t acc Hok Hs; cbn [add_outputs]; [by eexists|].
  destruct (storable_stored tx i o Hc) as (key & c & Et & Es & Hz); [rewrite <- (Nat.add_0_r i); by apply Hs|]. rewrite Es.
  destruct (add_output_done h t th (Tx_out (stored_amount tx o) (target_key key)) (Z.of_nat i) (unlock_time (tx_prefix tx)) c key Hok eq_refl Hz) as [[t1 idx] E].
  rewrite E. apply IH; [by eapply add_output_ok|]. intros j x Ej. rewrite Nat.add_succ_l, <- Nat.add_succ_r. by apply Hs.
Qed.

Lemma add_tx_outputs_done h th tx t : tables_ok t -> coinbase_agrees tx -> tx_ids t !! th = None -> storable tx -> exists t', add_tx_outputs h th tx t = Done t'.
Proof.
  intros Hok Hc Hn Hs. unfold add_tx_outputs, add_tx_index. set (n := Z.of_nat (size (tx_ids t))).
  destruct (add_outputs_done h th tx (vout (tx_prefix tx)) 0 (add_tx_index t th).2 [] (add_tx_index_ok t th Hok Hn) Hc Hs) as [[t1 idxs] E]. cbn [add_tx_index snd] in E. fold n in E.
-   rewrite E. apply add_outputs_spec in E as (l & _ & _ & _ & Ho & _); [|done]. unfold add_tx_amount_output_indices. cbn [tx_outputs] in Ho. rewrite Ho.
  rewrite bool_decide_true; [by eexists|]. intros id x Ex. apply (to_tx_outputs _ Hok id). by eexists.
Qed.

(** The tables after the transactions [l] have been stored, each with the height
    of its block and its hash. *)
Inductive filled : list (Z * blob * transaction) -> output_tables -> Prop :=
| filled_nil : filled [] no_outputs
| filled_snoc l t h th tx t' : filled l t -> coinbase_agrees tx -> tx_ids t !! th = None -> add_tx_outputs h th tx t = Done t' ->
    filled (l ++ [(h, th, tx)]) t'.

Lemma filled_ok l t : filled l t -> tables_ok t /\ (forall h th tx, (h, th, tx) ∈ l -> holds t h th tx) /\
  (forall k ok, output_amounts t !! k = Some ok -> exists h th tx i o, (h, th, tx) ∈ l /\ vout (tx_prefix tx) !! i = Some o /\ entry_of t h th tx i o k.1 k.2) /\
  (forall th, is_Some (tx_ids t !! th) <-> exists h tx, (h, th, tx) ∈ l).
Proof.
  induction 1 as [|l t h th tx t' Hf (Hok & Hh & Ho & Hi) Hc Hn Ha].
  { split; [|split; [by intros ? ? ? ?%elem_of_nil|split; [done|]]].
    - split; cbn; [|intros a i|done|done|by intros ? [? ?]]; (split; [by intros [? ?]|]).
      + unfold num_outputs. cbn. rewrite map_size_empty. lia.
      + unfold get_num_outputs. cbn. rewrite map_filter_empty, map_size_empty. lia.
    - intros th. split; [by intros [? ?]|]. by intros (? & ? & ?%elem_of_nil). }
  destruct (add_tx_outputs_ok _ _ _ _ _ Hok Hc Hn Ha) as (Hok' & Hx & Hh' & Hi' & Ho'). split; [done|]. split; [|split].
  - intros h0 th0 tx0 [Hin|[= -> -> ->]%list_elem_of_singleton]%elem_of_app; [|done]. eapply holds_extends; [exact Hx|]. by apply Hh.
  - intros k ok [Hk|(i & o & Hio & He)]%Ho'.
    + destruct (Ho _ _ Hk) as (h0 & th0 & tx0 & i & o & Hin & Hio & He). exists h0, th0, tx0, i, o. split; [apply elem_of_app; by left|]. split; [done|]. by eapply entry_of_extends.
    + exists h, th, tx, i, o. split; [apply elem_of_app; right; by left|]. by split.
  - intros th0. rewrite Hi', lookup_insert_is_Some, Hi. split.
    + intros [<-|[_ (h0 & tx0 & Hin)]]; [exists h, tx; apply elem_of_app; right; by left|exists h0, tx0; apply elem_of_app; by left].
    + intros (h0 & tx0 & [Hin|[= _ -> _]%list_elem_of_singleton]%elem_of_app); [|by left]. destruct (decide (th = th0)); [by left|]. right. split; [done|]. by exists h0, tx0.
Qed.

Lemma filled_last l h th tx t' : filled (l ++ [(h, th, tx)]) t' -> exists t, filled l t /\ remove_tx_data t' th tx = Done t.
Proof.
  remember (l ++ _) as l' eqn:El. intros Hf. destruct Hf as [|l0 t h0 th0 tx0 t' Hf Hc Hn Ha]; [by destruct l|].
  apply app_inj_tail in El as [-> [= -> -> ->]]. exists t. split; [done|]. by eapply remove_tx_data_add.
Qed.

(** The caches of a transaction play no role. *)
Lemma add_outputs_clean h th m tx outs i t acc : add_outputs h th m (tx_invalidate_hashes tx) outs i t acc = add_outputs h th m tx outs i t acc.
Proof.
  revert i t acc. induction outs as [|o outs IH]; intros i t acc; [done|]. cbn [add_outputs]. change (stored_output m (tx_invalidate_hashes tx) i o) with (stored_output m tx i o).
  destruct (stored_output m tx i o) as [[o' c]|]; [|done]. cbn [tx_invalidate_hashes tx_prefix]. destruct (add_output _ _ _ _ _ _ _) as [[t1 idx]|]; [apply IH|done].
Qed.
Lemma add_tx_outputs_clean h th tx t : add_tx_outputs h th (tx_invalidate_hashes tx) t = add_tx_outputs h th tx t.
Proof. unfold add_tx_outputs. destruct (add_tx_index t th) as [id t0]. change (is_miner_tx (tx_invalidate_hashes tx)) with (is_miner_tx tx). by rewrite add_outputs_clean. Qed.
Lemma remove_tx_data_clean t th tx : remove_tx_data t th (tx_invalidate_hashes tx) = remove_tx_data t th tx.
Proof. done. Qed.
End contents.
