(* ===== verification/ChainDb.v ===== *)
(** * The block database

    Model of src/blockchain_db/blockchain_db.cpp ([add_transaction],
    [add_block], [pop_block], [remove_transaction]) over the tables of
    src/blockchain_db/lmdb/db_lmdb.cpp they use: the blocks with their metadata
    ([block_info], [block_heights]), the transactions ([tx_indices] and the
    transaction blobs), the spent key images, the hard fork versions and the
    tables of outputs of [Outputs].  Blocks and transactions are stored as blobs
    and parsed when read; the tables hold the objects without their caches.

    An operation that throws yields [Thrown] with the tables as the exception
    leaves them; [BlockchainLMDB::add_block] undoes the writes, unless a batch
    transaction is active. *)
From Stdlib Require Import ZArith Lia Bool.
From stdpp Require Import prelude gmap.
From S2P Require Import Prelude StringTools Varint Archive TxExtra Rct CryptonoteBasic Keccak TreeHash HardFork Hashing TxPool RctOps RctSigs RctModel Outputs.
Local Open Scope Z_scope.

#[local] Opaque cn_fast_hash.

Record block_info := BlockInfo {
  bi_block : block; bi_timestamp : Z; bi_coins : Z; bi_weight : Z; bi_diff : Z; bi_hash : blob }.

Record chain_db := ChainDb {
  blocks : list block_info;
  txs : gmap blob (transaction * Z);      (* with the height of the block *)
  spent_keys : gset blob;
  hf_versions : gmap Z Z;
  m_outputs : output_tables }.

(** ** Queries; [None] is [BLOCK_DNE] *)
Definition height (db : chain_db) : Z := zlen (blocks db).
Definition get_block_info (db : chain_db) (h : Z) : option block_info :=
  if (0 <=? h) && (h <? height db) then blocks db !! Z.to_nat h else None.
Definition get_block_hash_from_height (db : chain_db) (h : Z) : option blob := bi_hash <$> get_block_info db h.
Definition get_block_timestamp (db : chain_db) (h : Z) : option Z := bi_timestamp <$> get_block_info db h.
Definition get_block_weight (db : chain_db) (h : Z) : option Z := bi_weight <$> get_block_info db h.
Definition get_block_cumulative_difficulty (db : chain_db) (h : Z) : option Z := bi_diff <$> get_block_info db h.
Definition get_block_already_generated_coins (db : chain_db) (h : Z) : option Z := bi_coins <$> get_block_info db h.

Definition top_block_hash (db : chain_db) : blob :=
  match last (blocks db) with Some bi => bi_hash bi | None => null_hash end.

Fixpoint find_hash (h : blob) (l : list block_info) (i : Z) : option Z :=
  match l with
  | [] => None
  | bi :: l => if bool_decide (bi_hash bi = h) then Some i else find_hash h l (i + 1)
  end.
Definition get_block_height (db : chain_db) (h : blob) : option Z := find_hash h (blocks db) 0.
Definition block_exists (db : chain_db) (h : blob) : bool := bool_decide (is_Some (get_block_height db h)).
Definition tx_exists (db : chain_db) (h : blob) : bool := bool_decide (is_Some (txs db !! h)).
Definition has_key_image (db : chain_db) (img : blob) : bool := bool_decide (img ∈ spent_keys db).

(** The part the hard fork state works on. *)
Definition hf_view (db : chain_db) : BlockchainDB := Db (bi_block <$> blocks db) (hf_versions db).

(** ** Adding *)
Definition set_spent (db : chain_db) (s : gset blob) : chain_db := ChainDb (blocks db) (txs db) s (hf_versions db) (m_outputs db).

(** [add_spent_key] throws on an image that is there. *)
Fixpoint add_inputs (ins all : list txin_v) (db : chain_db) : outcome (chain_db * bool) :=
  match ins with
  | [] => Done (db, true)
  | txin_to_key _ _ k_image :: ins =>
      if has_key_image db k_image then Thrown (db, false)
      else add_inputs ins all (set_spent db ({[k_image]} ∪ spent_keys db))
  | txin_gen _ :: ins => add_inputs ins all db
  | _ =>
      Done (foldl (fun db i => match i with txin_to_key _ _ k => set_spent db (spent_keys db ∖ {[k]}) | _ => db end) db all, false)
  end.

Section adding.
Context `{Curve}.

Definition add_transaction (db : chain_db) (tx : transaction) (tx_hash : option blob) : outcome chain_db :=
  let tx_hash := default (transaction_hash tx) tx_hash in
  match add_inputs (vin (tx_prefix tx)) (vin (tx_prefix tx)) db with
  | Thrown (db, _) => Thrown db
  | Done (db, false) => Done db
  | Done (db, true) =>
      if tx_exists db tx_hash then Thrown db
      else
        let stored o := ChainDb (blocks db) (<[tx_hash := (tx_invalidate_hashes tx, height db)]> (txs db)) (spent_keys db) (hf_versions db) o in
        match add_tx_outputs (height db) tx_hash tx (m_outputs db) with
        | Thrown o => Thrown (stored o)
        | Done o => Done (stored o)
        end
  end.

Fixpoint add_transactions (db : chain_db) (l : list (blob * transaction)) : outcome chain_db :=
  match l with
  | [] => Done db
  | (h, tx) :: l =>
      match add_transaction db tx (Some h) with
      | Thrown db => Thrown db
      | Done db => add_transactions db l
      end
  end.

Definition clean_block (b : block) : block := Block (hdr b) (tx_invalidate_hashes (miner_tx b)) (tx_hashes b) None.

(** [BlockchainLMDB::add_block] on the metadata tables. *)
Definition add_block_data (db : chain_db) (blk : block) (block_weight cumulative_difficulty coins_generated : Z) (blk_hash : blob)
  : outcome chain_db :=
  let m_height := height db in
  if block_exists db blk_hash then Thrown db
  else if (0 <? m_height) && negb (bool_decide (get_block_height db (prev_id (hdr blk)) = Some (m_height - 1))) then Thrown db
  else if (4 <=? major_version (hdr blk)) && (m_height =? 0) then Thrown db
  else Done (ChainDb (blocks db ++ [BlockInfo (clean_block blk) (timestamp (hdr blk)) coins_generated block_weight cumulative_difficulty blk_hash])
               (txs db) (spent_keys db) (hf_versions db) (m_outputs db)).

(** [BlockchainDB::add_block] with the hard fork object it notifies; a hash
    that cannot be computed throws. *)
Definition add_block_raw (db : chain_db) (hf : HardFork) (blk : block) (block_weight cumulative_difficulty coins_generated : Z)
  (l : list transaction) : outcome (chain_db * HardFork) :=
  if negb (zlen (tx_hashes blk) =? zlen l) then Thrown (db, hf)
  else
    match (get_block_hash blk).1 with
    | None => Thrown (db, hf)
    | Some blk_hash =>
        let prev_height := height db in
        match add_transaction db (miner_tx blk) None with
        | Thrown db => Thrown (db, hf)
        | Done db =>
            match add_transactions db (zip (tx_hashes blk) l) with
            | Thrown db => Thrown (db, hf)
            | Done db =>
                match add_block_data db blk block_weight cumulative_difficulty coins_generated blk_hash with
                | Thrown db => Thrown (db, hf)
                | Done db =>
                    let '(_, hf, v) := HardFork.add hf (hf_view db) blk prev_height in
                    Done (ChainDb (blocks db) (txs db) (spent_keys db) (db_hf v) (m_outputs db), hf)
                end
            end
        end
    end.

Definition add_block (batch : bool) (db : chain_db) (hf : HardFork) (blk : block) (block_weight cumulative_difficulty coins_generated : Z)
  (l : list transaction) : outcome (chain_db * HardFork) :=
  match add_block_raw db hf blk block_weight cumulative_difficulty coins_generated l with
  | Done r => Done r
  | Thrown (db', hf') => Thrown (if batch then db' else db, hf')
  end.

End adding.

(** ** Removing *)
Definition remove_transaction (db : chain_db) (tx_hash : blob) : outcome chain_db :=
  match txs db !! tx_hash with
  | None => Thrown db
  | Some (tx, _) =>
      let spent := foldl (fun s i => match i with txin_to_key _ _ k => s ∖ {[k]} | _ => s end) (spent_keys db) (vin (tx_prefix tx)) in
      match remove_tx_data (m_outputs db) tx_hash tx with
      | Thrown o => Thrown (ChainDb (blocks db) (txs db) spent (hf_versions db) o)
      | Done o => Done (ChainDb (blocks db) (delete tx_hash (txs db)) spent (hf_versions db) o)
      end
  end.

Fixpoint remove_transactions (db : chain_db) (hashes : list blob) (acc : list transaction) : outcome (chain_db * list transaction) :=
  match hashes with
  | [] => Done (db, acc)
  | h :: hashes =>
      match txs db !! h with
      | None => Thrown (db, acc)
      | Some (tx, _) =>
          match remove_transaction db h with
          | Thrown db => Thrown (db, acc)
          | Done db => remove_transactions db hashes (acc ++ [tx])
          end
      end
  end.

(** The block and its transactions, last first. *)
Definition pop_block (batch : bool) (db : chain_db) : outcome (chain_db * option (block * list transaction)) :=
  match last (blocks db) with
  | None => Thrown (db, None)
  | Some bi =>
      let db1 := ChainDb (take (length (blocks db) - 1) (blocks db)) (txs db) (spent_keys db) (hf_versions db) (m_outputs db) in
      let blk := bi_block bi in
      match remove_transactions db1 (rev (tx_hashes blk)) [] with
      | Thrown (db2, _) => Thrown (if batch then db2 else db, None)
      | Done (db2, l) =>
          match remove_transaction db2 (transaction_hash (miner_tx blk)) with
          | Thrown db3 => Thrown (if batch then db3 else db, None)
          | Done db3 => Done (db3, Some (blk, l))
          end
      end
  end.

(** ** Popping undoes adding *)
Definition image_of (i : txin_v) : option blob := match i with txin_to_key _ _ k => Some k | _ => None end.
Definition supported (i : txin_v) : bool := match i with txin_to_key _ _ _ | txin_gen _ => true | _ => false end.
Definition tx_images (tx : transaction) : gset blob := list_to_set (omap image_of (vin (tx_prefix tx))).
Definition tx_supported (tx : transaction) : Prop := Forall (fun i => supported i = true) (vin (tx_prefix tx)) /\ coinbase_agrees tx.

Lemma add_inputs_spec ins all b t s v o : Forall (fun i => supported i = true) ins ->
  match add_inputs ins all (ChainDb b t s v o) with
  | Done (db', r) => r = true /\ db' = ChainDb b t (list_to_set (omap image_of ins) ∪ s) v o /\ list_to_set (omap image_of ins) ## s
  | Thrown _ => True
  end.
Proof.
  intros Hs. revert s. induction Hs as [|i ins Hi Hs IH]; intros s; [cbn; split; [done|]; split; [by rewrite (left_id_L ∅ (∪))|set_solver]|].
  destruct i as [h| | |a ofs k]; try done; cbn [add_inputs].
  - exact (IH s).
  - unfold has_key_image. cbn [spent_keys]. case_bool_decide as Hk; [done|]. unfold set_spent. cbn [blocks txs spent_keys hf_versions m_outputs].
    specialize (IH ({[k]} ∪ s)). destruct (add_inputs ins all _) as [[db' r]|]; [|done]. destruct IH as (-> & -> & Hd).
    cbn. split; [done|]. split; [f_equal; set_solver|set_solver].
Qed.

Lemma fold_remove (ins : list txin_v) (s : gset blob) : foldl (fun s i => match i with txin_to_key _ _ k => s ∖ {[k]} | _ => s end) s ins = s ∖ list_to_set (omap image_of ins).
Proof.
  revert s. induction ins as [|i ins IH]; intros s; [cbn; set_solver|]. cbn [foldl]. rewrite IH. destruct i; cbn; set_solver.
Qed.

Lemma remove_transactions_app db l1 l2 acc : remove_transactions db (l1 ++ l2) acc =
  match remove_transactions db l1 acc with Thrown r => Thrown r | Done (db, acc) => remove_transactions db l2 acc end.
Proof.
  revert db acc. induction l1 as [|h l1 IH]; intros db acc; [done|]. cbn [app remove_transactions]. destruct (txs db !! h) as [[tx x]|]; [|done].
  by destruct (remove_transaction db h).
Qed.

Section undo.
Context `{Curve}.

Lemma add_transaction_spec b t s v o tx ho db' : tx_supported tx -> add_transaction (ChainDb b t s v o) tx ho = Done db' ->
  let h := default (transaction_hash tx) ho in
  exists o', db' = ChainDb b (<[h := (tx_invalidate_hashes tx, zlen b)]> t) (tx_images tx ∪ s) v o' /\ t !! h = None /\ tx_images tx ## s /\
    add_tx_outputs (zlen b) h tx o = Done o'.
Proof.
  intros [Hs _]. unfold add_transaction, tx_images. pose proof (add_inputs_spec (vin (tx_prefix tx)) (vin (tx_prefix tx)) b t s v o Hs) as Ha.
  destruct (add_inputs _ _ _) as [[db1 r]|[db1 r]]; [|done]. destruct Ha as (-> & -> & Hd). unfold tx_exists. cbn [txs].
  case_bool_decide as Hx; [done|]. cbn [m_outputs]. change (height (ChainDb b _ _ _ _)) with (zlen b).
  destruct (add_tx_outputs _ _ _ _) as [o'|o'] eqn:E; [|done]. intros [= <-]. cbn. exists o'. split; [done|]. split; [|done]. by apply eq_None_not_Some.
Qed.

Lemma remove_transaction_spec t s v o o' tx h x : tx_supported tx -> t !! h = None -> tx_ids o !! h = None -> tx_images tx ## s -> add_tx_outputs x h tx o = Done o' ->
  forall b', remove_transaction (ChainDb b' (<[h := (tx_invalidate_hashes tx, x)]> t) (tx_images tx ∪ s) v o') h = Done (ChainDb b' t s v o).
Proof.
  intros [_ Hc] Ht Hi Hd Ho b'. unfold remove_transaction. cbn [txs blocks spent_keys hf_versions m_outputs]. rewrite lookup_insert_eq, fold_remove, remove_tx_data_clean.
  rewrite (remove_tx_data_add _ _ _ _ _ Hc Hi Ho), delete_insert_id by done. do 2 f_equal. unfold tx_images in *. cbn. set_solver.
Qed.

(** The transactions that have a number are those that are stored. *)
Definition ids_agree (t : gmap blob (transaction * Z)) (o : output_tables) : Prop := forall h, t !! h = None -> tx_ids o !! h = None.

Lemma ids_agree_insert t o o' h tx x i : ids_agree t o -> add_tx_outputs i h tx o = Done o' -> coinbase_agrees tx -> ids_agree (<[h := x]> t) o'.
Proof.
  intros Ha Ho Hc h' [Hn Hne]%lookup_insert_None. rewrite (add_tx_outputs_ids _ _ _ _ _ Hc Ho), lookup_insert_ne by done. by apply Ha.
Qed.

Lemma add_transactions_spec b t s v o l db' : Forall (fun p => tx_supported p.2) l -> add_transactions (ChainDb b t s v o) l = Done db' ->
  exists t' s' o', db' = ChainDb b t' s' v o' /\ (ids_agree t o -> forall b' v' acc, remove_transactions (ChainDb b' t' s' v' o') (rev (map fst l)) acc =
    Done (ChainDb b' t s v' o, acc ++ rev (map (fun p => tx_invalidate_hashes p.2) l))).
Proof.
  intros Hl. revert t s o. induction Hl as [|[h tx] l Htx Hl IH]; intros t s o; cbn [add_transactions].
  { intros [= <-]. exists t, s, o. split; [done|]. intros _ b' v' acc. cbn. by rewrite app_nil_r. }
  destruct (add_transaction _ tx (Some h)) as [db1|] eqn:E; [|done]. destruct (add_transaction_spec _ _ _ _ _ _ _ _ Htx E) as (o1 & -> & Hn & Hd & Ho).
  cbn [default] in *. intros (t' & s' & o' & -> & Hr)%IH. exists t', s', o'. split; [done|].
  intros Hi b' v' acc. cbn [map rev fst snd]. rewrite remove_transactions_app, Hr by by eapply ids_agree_insert, Htx. cbn [remove_transactions txs]. rewrite lookup_insert_eq.
  erewrite remove_transaction_spec; [by rewrite app_assoc|done|done|by apply Hi|done|exact Ho].
Qed.

Lemma add_block_data_spec b t s v o blk w d c h db' : add_block_data (ChainDb b t s v o) blk w d c h = Done db' ->
  db' = ChainDb (b ++ [BlockInfo (clean_block blk) (timestamp (hdr blk)) c w d h]) t s v o /\
  block_exists (ChainDb b t s v o) h = false /\
  (b <> [] -> get_block_height (ChainDb b t s v o) (prev_id (hdr blk)) = Some (zlen b - 1)).
Proof.
  unfold add_block_data. change (height (ChainDb b t s v o)) with (zlen b).
  destruct (block_exists (ChainDb b t s v o) h); [done|].
  destruct ((0 <? zlen b) && _) eqn:E1; [done|]. destruct ((4 <=? _) && _); [done|]. intros [= <-]. split; [done|]. split; [done|].
  intros Hb. apply andb_false_iff in E1 as [E1|E1]; [destruct b as [|x b]; [done|rewrite zlen_cons in E1; pose proof (zlen_nonneg b); lia]|].
  by rewrite negb_false_iff, bool_decide_eq_true in E1.
Qed.

Lemma add_block_ok batch db hf blk w d c l db' hf' : tx_supported (miner_tx blk) -> Forall tx_supported l -> tx_cache_ok (miner_tx blk) ->
  add_block batch db hf blk w d c l = Done (db', hf') ->
  exists h, (get_block_hash blk).1 = Some h /\
    blocks db' = blocks db ++ [BlockInfo (clean_block blk) (timestamp (hdr blk)) c w d h] /\
    block_exists db h = false /\
    (blocks db <> [] -> get_block_height db (prev_id (hdr blk)) = Some (height db - 1)) /\
    (hf', hf_versions db') = (let '(_, hf1, v) := HardFork.add hf (Db (bi_block <$> blocks db') (hf_versions db)) blk (height db) in (hf1, db_hf v)) /\
    (ids_agree (txs db) (m_outputs db) -> pop_block batch db' = Done (ChainDb (blocks db) (txs db) (spent_keys db) (hf_versions db') (m_outputs db),
      Some (clean_block blk, rev (map tx_invalidate_hashes l)))).
Proof.
  intros Hm Hl Hc. unfold add_block, add_block_raw. destruct db as [b t s v o]. cbn [blocks txs spent_keys hf_versions m_outputs] in *.
  destruct (Z.eqb_spec (zlen (tx_hashes blk)) (zlen l)) as [Elen|]; [|done]. cbn [negb].
  destruct (get_block_hash blk).1 as [h|]; [|done].
  destruct (add_transaction _ (miner_tx blk) None) as [db1|db1] eqn:E1; [|done].
  destruct (add_transaction_spec _ _ _ _ _ _ _ _ Hm E1) as (o1 & -> & Hn & Hd & Ho1). cbn [default] in *.
  destruct (add_transactions _ _) as [db2|db2] eqn:E2; [|done].
  assert (length (tx_hashes blk) = length l) as Hlen by (unfold zlen in Elen; lia).
  apply add_transactions_spec in E2 as (t2 & s2 & o2 & -> & Hrem).
  2: { apply Forall_forall. intros [h0 tx0] Hin. apply elem_of_zip_r in Hin. rewrite Forall_forall in Hl. by apply Hl. }
  destruct (add_block_data _ blk w d c h) as [db3|db3] eqn:E3; [|done]. destruct (add_block_data_spec _ _ _ _ _ _ _ _ _ _ _ E3) as (-> & Hex & Hpar).
  unfold hf_view. cbn [blocks hf_versions].
  destruct (HardFork.add hf _ blk _) as [[r hf1] v1] eqn:Eh. intros [= <- <-]. exists h. cbn [blocks txs spent_keys hf_versions m_outputs].
  split; [done|]. split; [done|]. split; [done|]. split; [done|]. split.
  { change (height (ChainDb b t s v o)) with (zlen b) in *. by rewrite Eh. }
  intros Hi. unfold pop_block. cbn [blocks txs spent_keys hf_versions m_outputs]. rewrite last_snoc. cbn [bi_block tx_hashes clean_block miner_tx].
  rewrite length_app. cbn [length]. rewrite Nat.add_sub, take_app_length.
  specialize (Hrem (ids_agree_insert _ _ _ _ _ _ _ Hi Ho1 (proj2 Hm)) b (db_hf v1) []). rewrite fst_zip in Hrem by lia. rewrite Hrem.
  rewrite transaction_hash_clean by done. erewrite remove_transaction_spec; [|exact Hm|done|by apply Hi|done|exact Ho1]. do 4 f_equal. cbn [app]. f_equal.
  rewrite <- (map_map snd tx_invalidate_hashes). change (map snd ?l) with (l.*2). by rewrite snd_zip by lia.
Qed.

End undo.

(** ** What holds of every chain the database can hold *)

(** The spent key images are those of the stored transactions, and no image
    occurs twice. *)
Record images_ok (t : gmap blob (transaction * Z)) (s : gset blob) : Prop := {
  io_spent k : k ∈ s <-> exists h tx x, t !! h = Some (tx, x) /\ k ∈ tx_images tx;
  io_once h1 h2 tx1 x1 tx2 x2 k : t !! h1 = Some (tx1, x1) -> t !! h2 = Some (tx2, x2) ->
    k ∈ tx_images tx1 -> k ∈ tx_images tx2 -> h1 = h2;
  io_nodup h tx x : t !! h = Some (tx, x) -> NoDup (omap image_of (vin (tx_prefix tx)))
}.

(** The transactions a block brings, by hash. *)
Definition block_tx_hashes (b : block) : list blob := transaction_hash (miner_tx b) :: tx_hashes b.

(** The stored transactions of a chain, in order, each with its height. *)
Definition entries (t : gmap blob (transaction * Z)) (x : Z) (hashes : list blob) : list (Z * blob * transaction) :=
  omap (fun h => (fun p => (x, h, p.1)) <$> t !! h) hashes.
Definition chain_txs (b : list block_info) (t : gmap blob (transaction * Z)) : list (Z * blob * transaction) :=
  concat (imap (fun i bi => entries t (Z.of_nat i) (block_tx_hashes (bi_block bi))) b).

Lemma entries_ext t t' x hashes : (forall h, h ∈ hashes -> t' !! h = t !! h) -> entries t' x hashes = entries t x hashes.
Proof.
  intros He. unfold entries. induction hashes as [|h hashes IH]; [done|]. cbn. rewrite He by (by left). rewrite IH; [done|]. intros h' Hh'. apply He. by right.
Qed.

Lemma entries_cons t x h hashes tx y : t !! h = Some (tx, y) -> entries t x (h :: hashes) = (x, h, tx) :: entries t x hashes.
Proof. intros E. unfold entries. cbn. by rewrite E. Qed.

Lemma entries_reverse t x hashes : entries t x (reverse hashes) = reverse (entries t x hashes).
Proof. unfold entries. induction hashes as [|h hashes IH]; [done|]. rewrite reverse_cons, omap_app, IH. cbn [omap list_omap]. destruct (t !! h) as [[tx y]|]; cbn [fmap option_fmap option_map]; [by rewrite reverse_cons|by rewrite app_nil_r]. Qed.

Lemma chain_txs_snoc b bi t : chain_txs (b ++ [bi]) t = chain_txs b t ++ entries t (zlen b) (block_tx_hashes (bi_block bi)).
Proof. unfold chain_txs. rewrite imap_app, concat_app. cbn. by rewrite app_nil_r, Nat.add_0_r. Qed.

Lemma chain_txs_ext b t t' : (forall bi h, bi ∈ b -> h ∈ block_tx_hashes (bi_block bi) -> t' !! h = t !! h) -> chain_txs b t' = chain_txs b t.
Proof.
  induction b as [|bi b IH] using rev_ind; [done|]. intros He. rewrite !chain_txs_snoc, IH, (entries_ext t t'); [done|..].
  - intros h Hh. apply (He bi); [apply elem_of_app; right; by left|done].
  - intros bi' h Hb. apply He, elem_of_app. by left.
Qed.

Lemma elem_of_entries t x hashes y h tx : (y, h, tx) ∈ entries t x hashes -> y = x /\ h ∈ hashes /\ exists z, t !! h = Some (tx, z).
Proof.
  unfold entries. intros (h' & Hin & E)%list_elem_of_omap. destruct (t !! h') as [[tx' z]|] eqn:Et; [|done]. injection E as <- <- <-. by eauto.
Qed.

Lemma elem_of_chain_txs b t y h tx : (y, h, tx) ∈ chain_txs b t ->
  exists i bi z, b !! i = Some bi /\ y = Z.of_nat i /\ h ∈ block_tx_hashes (bi_block bi) /\ t !! h = Some (tx, z).
Proof.
  induction b as [|bi b IH] using rev_ind; [by intros ?%elem_of_nil|]. rewrite chain_txs_snoc. intros [Hin|Hin]%elem_of_app.
  - destruct (IH Hin) as (i & bi' & z & Ei & Hr). exists i, bi', z. split; [by apply lookup_app_l_Some|done].
  - apply elem_of_entries in Hin as (-> & Hin & z & E). exists (length b), bi, z. split; [by apply list_lookup_middle|done].
Qed.

Lemma chain_txs_in b t i bi h tx z : b !! i = Some bi -> h ∈ block_tx_hashes (bi_block bi) -> t !! h = Some (tx, z) -> (Z.of_nat i, h, tx) ∈ chain_txs b t.
Proof.
  intros Eb Hin Et. induction b as [|bi' b IH] using rev_ind; [done|]. rewrite chain_txs_snoc. apply elem_of_app.
  apply lookup_app_Some in Eb as [Eb|[Hge [E0 <-]%list_lookup_singleton_Some]]; [left; by apply IH|]. right. unfold entries. apply list_elem_of_omap.
  exists h. split; [done|]. rewrite Et. cbn. do 3 f_equal. unfold zlen. lia.
Qed.

Section sound.
Context `{Curve}.

Lemma filled_agree b t o : filled (chain_txs b t) o -> ids_agree t o.
Proof.
  intros (_ & _ & _ & Hi)%filled_ok h Hn. apply eq_None_not_Some. intros (y & tx & Hin)%Hi. apply elem_of_chain_txs in Hin as (_ & _ & z & _ & _ & _ & E). congruence.
Qed.

Record db_ok (db : chain_db) : Prop := {
  dk_linked i b b' : blocks db !! i = Some b -> blocks db !! S i = Some b' -> prev_id (hdr (bi_block b')) = bi_hash b;
  dk_hashes : NoDup (bi_hash <$> blocks db);
  dk_ids : Forall (fun b => block_id (bi_block b) = Some (bi_hash b)) (blocks db);
  dk_stored i b : blocks db !! i = Some b -> NoDup (block_tx_hashes (bi_block b)) /\
    Forall (fun h => exists tx, txs db !! h = Some (tx, Z.of_nat i)) (block_tx_hashes (bi_block b));
  dk_images : images_ok (txs db) (spent_keys db);
  dk_outputs : filled (chain_txs (blocks db) (txs db)) (m_outputs db)
}.

Lemma add_inputs_nodup ins all db db' r : Forall (fun i => supported i = true) ins ->
  add_inputs ins all db = Done (db', r) -> NoDup (omap image_of ins) /\ forall k, k ∈ omap image_of ins -> k ∉ spent_keys db.
Proof.
  intros Hs. revert db. induction Hs as [|i ins Hi Hs IH]; intros db; cbn [add_inputs].
  { intros _. split; [by apply NoDup_nil|]. intros k Hk. cbn in Hk. set_solver. }
  destruct i as [h| | |a o k]; try done; cbn.
  - apply IH.
  - unfold has_key_image. case_bool_decide as Hk; [done|]. intros [Hn Hf]%IH. cbn [spent_keys set_spent] in Hf. split.
    + apply NoDup_cons. split; [|done]. intros Hx. apply (Hf k Hx). set_solver.
    + intros k' [->|Hk']%elem_of_cons; [done|]. intros Hx. apply (Hf k' Hk'). set_solver.
Qed.

Lemma images_ok_insert t s h tx x : images_ok t s -> t !! h = None -> tx_images tx ## s -> NoDup (omap image_of (vin (tx_prefix tx))) ->
  images_ok (<[h := (tx_invalidate_hashes tx, x)]> t) (tx_images tx ∪ s).
Proof.
  intros [Hs Ho Hn] Hh Hd Hx. assert (forall h' tx' x', t !! h' = Some (tx', x') -> h' <> h) as Hne by (intros h' ? ? E ->; congruence).
  assert (forall h' tx' x' k, t !! h' = Some (tx', x') -> k ∈ tx_images tx' -> k ∉ tx_images tx) as Hdis
    by (intros h' tx' x' k E Hk Hk'; apply (Hd k Hk'), Hs; eauto).
  change (tx_images tx) with (tx_images (tx_invalidate_hashes tx)) in *. split.
  - intros k. rewrite elem_of_union. split.
    + intros [Hk|(h' & tx' & x' & E & Hk)%Hs]; [exists h; eexists _, _; by rewrite lookup_insert_eq|].
      exists h', tx', x'. rewrite lookup_insert_ne by (by apply not_eq_sym, (Hne _ _ _ E)). done.
    + intros (h' & tx' & x' & E & Hk). apply lookup_insert_Some in E as [[<- [= <- <-]]|[Hne' E]]; [by left|]. right. apply Hs. eauto.
  - intros h1 h2 tx1 x1 tx2 x2 k E1 E2 K1 K2.
    apply lookup_insert_Some in E1 as [[<- [= <- <-]]|[N1 E1]], E2 as [[<- [= <- <-]]|[N2 E2]]; [done| | |by eapply Ho].
    + by destruct (Hdis _ _ _ _ E2 K2).
    + by destruct (Hdis _ _ _ _ E1 K1).
  - intros h' tx' x' E. apply lookup_insert_Some in E as [[<- [= <- <-]]|[_ E]]; [done|by eapply Hn].
Qed.

Lemma images_ok_delete t s h tx x : images_ok t s -> t !! h = Some (tx, x) -> images_ok (delete h t) (s ∖ tx_images tx).
Proof.
  intros [Hs Ho Hn] Hh. split.
  - intros k. rewrite elem_of_difference. split.
    + intros [(h' & tx' & x' & E & Hk)%Hs Hk']. exists h', tx', x'. split; [|done]. apply lookup_delete_Some. split; [|done].
      intros <-. congruence.
    + intros (h' & tx' & x' & [Hne E]%lookup_delete_Some & Hk). split; [apply Hs; eauto|]. intros Hk'. by apply Hne, (Ho h h' tx x tx' x' k).
  - intros h1 h2 tx1 x1 tx2 x2 k [_ E1]%lookup_delete_Some [_ E2]%lookup_delete_Some. by eapply Ho.
  - intros h' tx' x' [_ E]%lookup_delete_Some. by eapply Hn.
Qed.

Lemma add_transaction_images b t s v o tx ho db' : tx_supported tx -> images_ok t s -> add_transaction (ChainDb b t s v o) tx ho = Done db' ->
  images_ok (txs db') (spent_keys db').
Proof.
  intros Hs Hi Ha. destruct (add_transaction_spec _ _ _ _ _ _ _ _ Hs Ha) as (o' & -> & Hn & Hd & _). cbn [txs spent_keys].
  apply images_ok_insert; [done..|]. unfold add_transaction in Ha. destruct (add_inputs _ _ _) as [[db1 r]|[db1 r]] eqn:E; [|done].
  by apply add_inputs_nodup in E as [? _]; [|apply Hs].
Qed.

Lemma add_transactions_images b t s v o l db' : Forall (fun p => tx_supported p.2) l -> images_ok t s ->
  add_transactions (ChainDb b t s v o) l = Done db' ->
  images_ok (txs db') (spent_keys db') /\ t ⊆ txs db' /\ blocks db' = b /\ hf_versions db' = v /\ NoDup (l.*1) /\
  Forall (fun p => t !! p.1 = None /\ txs db' !! p.1 = Some (tx_invalidate_hashes p.2, zlen b)) l /\
  (forall l0, filled l0 o -> ids_agree t o -> filled (l0 ++ ((fun p => (zlen b, p.1, tx_invalidate_hashes p.2)) <$> l)) (m_outputs db')).
Proof.
  intros Hl. revert t s o. induction Hl as [|[h tx] l Htx Hl IH]; intros t s o Hi; cbn [add_transactions].
  { intros [= <-]. cbn. split; [done|]. split; [done|]. do 2 (split; [done|]). split; [by apply NoDup_nil|]. split; [constructor|]. intros l0 Hf _. by rewrite app_nil_r. }
  destruct (add_transaction _ tx (Some h)) as [db1|] eqn:E; [|done]. pose proof (add_transaction_images _ _ _ _ _ _ _ _ Htx Hi E) as Hi'.
  destruct (add_transaction_spec _ _ _ _ _ _ _ _ Htx E) as (o1 & -> & Hn & Hd & Ho). cbn [default txs spent_keys] in *.
  intros (H1 & H2 & H3 & H4 & H5 & H6 & H7)%IH; [|done]. split; [done|].
  assert (t ⊆ txs db') as Hsub by (etrans; [by apply insert_subseteq|done]). do 3 (split; [done|]). cbn [fmap list_fmap fst snd].
  split; [|split].
  - apply NoDup_cons. split; [|done]. intros (p & -> & Hin)%list_elem_of_fmap. rewrite Forall_forall in H6. destruct (H6 p Hin) as [Hx _]. by rewrite lookup_insert_eq in Hx.
  - constructor; [split; [done|]; eapply lookup_weaken; [apply lookup_insert_eq|done]|].
    eapply Forall_impl; [exact H6|]. intros p [Hx Hy]. split; [|done]. by apply lookup_insert_None in Hx as [? _].
  - intros l0 Hf Ha. rewrite cons_middle, app_assoc. apply H7; [|by eapply ids_agree_insert, Htx].
    apply (filled_snoc l0 o); [done|apply Htx|by apply Ha|]. by rewrite add_tx_outputs_clean.
Qed.

Lemma remove_images_blocks (all : list txin_v) db :
  blocks (foldl (fun db i => match i with txin_to_key _ _ k => set_spent db (spent_keys db ∖ {[k]}) | _ => db end) db all) = blocks db.
Proof. revert db. induction all as [|i all IH]; intros db; cbn [foldl]; [done|]. rewrite IH. by destruct i. Qed.

Lemma add_inputs_blocks ins all db : blocks (result (add_inputs ins all db)).1 = blocks db.
Proof.
  revert db. induction ins as [|i ins IH]; intros db; cbn [add_inputs]; [done|]. destruct i; [apply IH|apply remove_images_blocks|apply remove_images_blocks|].
  case_match; [done|]. by rewrite IH.
Qed.

Lemma add_transaction_blocks db tx ho : blocks (result (add_transaction db tx ho)) = blocks db.
Proof.
  unfold add_transaction. cbv zeta. pose proof (add_inputs_blocks (vin (tx_prefix tx)) (vin (tx_prefix tx)) db) as Hb.
  destruct (add_inputs _ _ _) as [[db1 []]|[db1 r]]; cbn in *; [|done|done]. case_match; [done|]. by case_match.
Qed.

Lemma add_transactions_blocks db l : blocks (result (add_transactions db l)) = blocks db.
Proof.
  revert db. induction l as [|[h tx] l IH]; intros db; cbn [add_transactions]; [done|]. pose proof (add_transaction_blocks db tx (Some h)) as Hb.
  destruct (add_transaction _ _ _) as [db1|db1]; cbn in *; [|done]. by rewrite IH.
Qed.

(** A block that is refused leaves the blocks and the hard fork state alone. *)
Lemma add_block_thrown batch db hf blk w d c l db' hf' : add_block batch db hf blk w d c l = Thrown (db', hf') ->
  hf' = hf /\ blocks db' = blocks db /\ (batch = false -> db' = db).
Proof.
  unfold add_block. destruct (add_block_raw _ _ _ _ _ _ _) as [|[db1 hf1]] eqn:E; [done|]. intros [= <- <-].
  assert (hf1 = hf /\ blocks db1 = blocks db) as [-> Eb]; [|split; [done|]; split; [by destruct batch|by intros ->]].
  unfold add_block_raw in E. destruct (negb _); [by injection E as <- <-|]. destruct (get_block_hash blk).1; [|by injection E as <- <-].
  pose proof (add_transaction_blocks db (miner_tx blk) None) as H1. destruct (add_transaction _ _ _) as [db2|db2]; cbn in H1; [|by injection E as <- <-].
  pose proof (add_transactions_blocks db2 (zip (tx_hashes blk) l)) as H2. destruct (add_transactions _ _) as [db3|db3]; cbn in H2; [|injection E as <- <-; split; [done|congruence]].
  destruct (add_block_data _ _ _ _ _ _) as [db4|db4] eqn:E4; [by destruct (HardFork.add _ _ _ _) as [[] ?]|]. injection E as <- <-. split; [done|].
  enough (db4 = db3) by congruence. unfold add_block_data in E4. repeat (case_match; try congruence).
Qed.

Lemma find_hash_spec h l i j : find_hash h l i = Some j -> exists b, l !! Z.to_nat (j - i) = Some b /\ bi_hash b = h /\ i <= j.
Proof.
  revert i. induction l as [|b l IH]; intros i; cbn [find_hash]; [done|]. case_bool_decide as E.
  - intros [= ->]. rewrite Z.sub_diag. exists b. split; [done|]. split; [done|lia].
  - intros (b' & H1 & H2 & H3)%IH. exists b'. replace (Z.to_nat (j - i)) with (S (Z.to_nat (j - (i + 1)))) by lia. split; [done|]. split; [done|lia].
Qed.

Lemma block_exists_false db h : block_exists db h = false -> h ∉ bi_hash <$> blocks db.
Proof.
  unfold block_exists, get_block_height. rewrite bool_decide_eq_false. intros Hx Hin. apply Hx. clear Hx. generalize 0 as i.
  induction (blocks db) as [|b l IH]; intros i; [by apply elem_of_nil in Hin|]. cbn [find_hash].
  case_bool_decide as E; [by eexists|]. apply IH. by apply elem_of_cons in Hin as [->|?].
Qed.

Lemma block_id_clean b : block_id (clean_block b) = block_id b.
Proof. reflexivity. Qed.

(** One block more: what [db_ok] asks of the new one. *)
Lemma db_ok_snoc b t s v o t' s' v' o' bi : db_ok (ChainDb b t s v o) -> images_ok t' s' -> t ⊆ t' ->
  bi_hash bi ∉ bi_hash <$> b -> block_id (bi_block bi) = Some (bi_hash bi) ->
  (forall x, last b = Some x -> prev_id (hdr (bi_block bi)) = bi_hash x) ->
  NoDup (block_tx_hashes (bi_block bi)) -> Forall (fun h => exists tx, t' !! h = Some (tx, zlen b)) (block_tx_hashes (bi_block bi)) ->
  filled (chain_txs b t ++ entries t' (zlen b) (block_tx_hashes (bi_block bi))) o' ->
  db_ok (ChainDb (b ++ [bi]) t' s' v' o').
Proof.
  intros [Hl Hh Hi Hs _ _] Ht Hsub Hnew Hid Hprev Hnd Hst Hf. cbn [blocks txs spent_keys] in *. split; cbn [blocks txs spent_keys m_outputs].
  - intros i x x' E1 E2. assert (i < length b)%nat as Hi1 by (apply lookup_lt_Some in E2; rewrite length_app in E2; cbn in E2; lia).
    rewrite lookup_app_l in E1 by done. apply lookup_app_Some in E2 as [E2|[Hge E2]]; [by eapply Hl|].
    apply list_lookup_singleton_Some in E2 as [E0 <-]. apply Hprev. rewrite last_lookup, <- E1. f_equal. lia.
  - rewrite fmap_app. apply NoDup_app. split; [done|]. split; [|apply NoDup_singleton]. cbn. set_solver.
  - apply Forall_app. split; [done|]. by constructor.
  - intros i x [E|[Hge [E0 <-]%list_lookup_singleton_Some]]%lookup_app_Some.
    + destruct (Hs i x E) as [H1 H2]. split; [done|]. eapply Forall_impl; [exact H2|]. intros h [tx E']. exists tx. by eapply lookup_weaken.
    + split; [done|]. unfold zlen in Hst. by replace i with (length b) by lia.
  - done.
  - rewrite chain_txs_snoc, (chain_txs_ext b t t'); [done|]. intros x h [i E]%list_elem_of_lookup Hin. destruct (Hs i x E) as [_ H2].
    rewrite Forall_forall in H2. destruct (H2 h Hin) as [tx E']. rewrite E'. by eapply lookup_weaken.
Qed.

Lemma entries_stored t x l : Forall (fun p => t !! p.1 = Some (tx_invalidate_hashes p.2, x)) l ->
  entries t x (l.*1) = (fun p => (x, p.1, tx_invalidate_hashes p.2)) <$> l.
Proof. induction 1 as [|[h tx] l E Hl IH]; [done|]. cbn in *. by rewrite E, <- IH. Qed.

Lemma add_block_keeps batch db hf blk w d c l db' hf' : db_ok db -> block_cache_ok blk -> tx_supported (miner_tx blk) -> Forall tx_supported l ->
  add_block batch db hf blk w d c l = Done (db', hf') ->
  db_ok db' /\ txs db ⊆ txs db' /\
  Forall (fun p => txs db' !! p.1 = Some (tx_invalidate_hashes p.2, height db)) (zip (tx_hashes blk) l).
Proof.
  intros Hok [Hc Hb] Hm Hl. unfold add_block, add_block_raw. destruct db as [b t s v o].
  destruct (Z.eqb_spec (zlen (tx_hashes blk)) (zlen l)) as [Elen|]; [|done]. cbn [negb].
  pose proof (get_block_hash_spec blk (conj Hc Hb)) as Hh. destruct (get_block_hash blk) as [r blk'], Hh as (-> & _ & _). cbn [fst].
  destruct (block_id blk) as [h|] eqn:Eid; [|done].
  destruct (add_transaction _ (miner_tx blk) None) as [db1|db1] eqn:E1; [|done].
  pose proof (add_transaction_images _ _ _ _ _ _ _ _ Hm (dk_images _ Hok) E1) as Hi1.
  destruct (add_transaction_spec _ _ _ _ _ _ _ _ Hm E1) as (o1 & -> & Hn & Hd & Ho1). cbn [default txs spent_keys] in *.
  destruct (add_transactions _ _) as [db2|db2] eqn:E2; [|done].
  assert (length (tx_hashes blk) = length l) as Hlen by (unfold zlen in Elen; lia).
  apply add_transactions_images in E2 as (Hi2 & Hsub & Eb & Ev & Hnd & Hst & Hfill); [|by apply Forall_forall; intros [h0 tx0] Hin%elem_of_zip_r; rewrite Forall_forall in Hl; apply Hl|done].
  destruct db2 as [b2 t2 s2 v2 o2]. cbn [blocks txs spent_keys hf_versions m_outputs] in *. subst b2 v2. rewrite fst_zip in Hnd by lia.
  destruct (add_block_data _ blk w d c h) as [db3|db3] eqn:E3; [|done]. destruct (add_block_data_spec _ _ _ _ _ _ _ _ _ _ _ E3) as (-> & Hex & Hpar).
  destruct (HardFork.add hf _ blk _) as [[r hf1] v1]. intros [= <- <-]. cbn [blocks txs spent_keys hf_versions m_outputs].
  set (mh := transaction_hash (miner_tx blk)) in *.
  assert (block_tx_hashes (clean_block blk) = mh :: tx_hashes blk) as Eh by (unfold block_tx_hashes; cbn; by rewrite transaction_hash_clean).
  assert (t ⊆ t2) as Hsub' by (etrans; [by apply (insert_subseteq t mh)|exact Hsub]).
  assert (t2 !! mh = Some (tx_invalidate_hashes (miner_tx blk), zlen b)) as Hmh by (eapply lookup_weaken; [apply lookup_insert_eq|exact Hsub]).
  assert (Forall (fun p => t2 !! p.1 = Some (tx_invalidate_hashes p.2, zlen b)) (zip (tx_hashes blk) l)) as Hst2
    by (eapply Forall_impl; [exact Hst|]; by intros p [_ ?]).
  split; [|split; [exact Hsub'|exact Hst2]].
  assert (Forall (fun h => <[mh := (tx_invalidate_hashes (miner_tx blk), zlen b)]> t !! h = None /\ exists tx, t2 !! h = Some (tx, zlen b)) (tx_hashes blk)) as Hst'.
  { rewrite <- (fst_zip (tx_hashes blk) l) by lia. apply Forall_fmap. eapply Forall_impl; [exact Hst|]. intros p [? ?]. split; [done|by eexists]. }
  eapply db_ok_snoc; [exact Hok|exact Hi2|exact Hsub'|by apply block_exists_false in Hex|cbn [bi_block bi_hash]; by rewrite block_id_clean| | | | ].
  - intros x Hx. assert (b <> []) as Hne by by intros ->. apply Hpar in Hne. apply find_hash_spec in Hne as (b' & E' & Ep & _). cbn [blocks] in E'. cbn [bi_block clean_block hdr].
    rewrite last_lookup in Hx. unfold zlen in E'. replace (Z.to_nat (Z.of_nat (length b) - 1 - 0)) with (pred (length b)) in E' by lia. rewrite <- Ep. congruence.
  - cbn [bi_block]. rewrite Eh. apply NoDup_cons. split; [|done]. intros Hin. rewrite Forall_forall in Hst'. destruct (Hst' mh Hin) as [Hx _].
    by rewrite lookup_insert_eq in Hx.
  - cbn [bi_block]. rewrite Eh. constructor; [by eexists|]. eapply Forall_impl; [exact Hst'|]. by intros h' [_ ?].
  - cbn [bi_block]. rewrite Eh. pose proof (entries_stored t2 (zlen b) ((mh, miner_tx blk) :: zip (tx_hashes blk) l)) as Ee.
    cbn [fmap list_fmap fst snd] in Ee. change (list_fmap _ _ fst (zip (tx_hashes blk) l)) with ((zip (tx_hashes blk) l).*1) in Ee.
    rewrite fst_zip in Ee by lia. rewrite Ee by by constructor. rewrite cons_middle, app_assoc. pose proof (filled_agree _ _ _ (dk_outputs _ Hok)) as Hag. cbn [txs m_outputs] in Hag.
    apply Hfill; [|by eapply ids_agree_insert, Hm]. apply (filled_snoc _ o); [apply (dk_outputs _ Hok)|apply Hm|by apply Hag|]. by rewrite add_tx_outputs_clean.
Qed.

(** [remove_transactions] takes the transactions that were stored last. *)
Lemma remove_transactions_keeps b t s v o x l0 hashes acc : images_ok t s -> NoDup hashes -> Forall (fun h => is_Some (t !! h)) hashes ->
  filled (l0 ++ reverse (entries t x hashes)) o ->
  exists t' s' o' l, remove_transactions (ChainDb b t s v o) hashes acc = Done (ChainDb b t' s' v o', acc ++ l) /\ images_ok t' s' /\ filled l0 o' /\
    (forall h, h ∉ hashes -> t' !! h = t !! h) /\ Forall2 (fun h tx => exists x, t !! h = Some (tx, x)) hashes l.
Proof.
  intros Hi Hn. revert t s o acc Hi. induction Hn as [|h hashes Hh Hn IH]; intros t s o acc Hi Hf Hfill.
  { exists t, s, o, []. rewrite app_nil_r. split; [done|]. split; [done|]. cbn in Hfill. rewrite app_nil_r in Hfill. split; [done|]. split; [done|constructor]. }
  apply Forall_cons in Hf as [[[tx y] E] Hf]. cbn [remove_transactions remove_transaction txs spent_keys blocks hf_versions].
  rewrite (entries_cons t x h hashes tx y E), reverse_cons, app_assoc in Hfill. apply filled_last in Hfill as (o1 & Hfill & Hrem).
  unfold remove_transaction. cbn [txs spent_keys blocks hf_versions m_outputs]. rewrite E, Hrem, fold_remove.
  destruct (IH (delete h t) (s ∖ tx_images tx) o1 (acc ++ [tx])) as (t' & s' & o' & l & E' & Hi' & Hf' & Ho & H2).
  - by eapply images_ok_delete.
  - rewrite Forall_forall in *. intros h' Hin. rewrite lookup_delete_ne; [by apply Hf|]. by intros <-.
  - rewrite (entries_ext t); [exact Hfill|]. intros h' Hin. apply lookup_delete_ne. by intros ->.
  - exists t', s', o', (tx :: l). rewrite <- app_assoc in E'. split; [done|]. split; [done|]. split; [done|]. split.
    + intros h' [Hne Ho']%not_elem_of_cons. rewrite (Ho h' Ho'). by apply lookup_delete_ne.
    + constructor; [by eexists|]. eapply Forall2_impl; [exact H2|]. intros h' tx' [x' [_ E1]%lookup_delete_Some]. by eexists.
Qed.

(** [rev] of the Standard Library is stdpp's. *)
Lemma rev_reverse {A} (l : list A) : rev l = reverse l.
Proof. apply rev_alt. Qed.

Lemma pop_block_keeps batch db : db_ok db -> blocks db <> [] ->
  exists bi l db', last (blocks db) = Some bi /\ pop_block batch db = Done (db', Some (bi_block bi, l)) /\ db_ok db' /\
    blocks db = blocks db' ++ [bi] /\ hf_versions db' = hf_versions db /\
    (forall h, h ∉ block_tx_hashes (bi_block bi) -> txs db' !! h = txs db !! h) /\
    Forall2 (fun h tx => exists x, txs db !! h = Some (tx, x)) (rev (tx_hashes (bi_block bi))) l.
Proof.
  intros Hok Hne. destruct db as [b t s v o]. cbn [blocks hf_versions] in *.
  destruct (exists_last Hne) as (b1 & bi & ->). exists bi. rewrite last_snoc.
  pose proof Hok as [Hl Hh Hi Hs Ht Hf]. cbn [blocks txs spent_keys m_outputs] in *.
  destruct (Hs (length b1) bi) as [Hnd Hst]; [by apply list_lookup_middle|]. unfold block_tx_hashes in Hnd, Hst.
  apply NoDup_cons in Hnd as [Hnm Hnd]. apply Forall_cons in Hst as [[mtx Em] Hst].
  set (mh := transaction_hash (miner_tx (bi_block bi))) in *. rewrite chain_txs_snoc in Hf. unfold block_tx_hashes in Hf. fold mh in Hf.
  rewrite (entries_cons t _ mh _ mtx _ Em), cons_middle, app_assoc in Hf.
  destruct (remove_transactions_keeps b1 t s v o (zlen b1) (chain_txs b1 t ++ [(zlen b1, mh, mtx)]) (rev (tx_hashes (bi_block bi))) []) as (t' & s' & o' & l & E & Hi' & Hf' & Ho & Hpopped); [done|..].
  { rewrite rev_reverse. by apply (NoDup_Permutation_proper _ _ (reverse_Permutation _)). }
  { rewrite rev_reverse. apply Forall_reverse. eapply Forall_impl; [exact Hst|]. intros h [tx Ex]. by eexists. }
  { by rewrite rev_reverse, entries_reverse, reverse_involutive. }
  assert (forall h, h ∉ tx_hashes (bi_block bi) -> t' !! h = t !! h) as Ho'
    by (intros h Hx; apply Ho; by rewrite rev_reverse, elem_of_reverse).
  apply filled_last in Hf' as (o1 & Hf' & Hrem).
  assert (forall i x h, b1 !! i = Some x -> h ∈ block_tx_hashes (bi_block x) -> delete mh t' !! h = t !! h) as Hkept.
  { intros i x h E1 Hin. assert (i < length b1)%nat by by eapply lookup_lt_Some. destruct (Hs i x) as [_ H2]; [by apply lookup_app_l_Some|].
    rewrite Forall_forall in H2. destruct (H2 h Hin) as [tx Ex]. rewrite lookup_delete_ne.
    - apply Ho'. intros Hin'. rewrite Forall_forall in Hst. destruct (Hst h Hin') as [tx' Ex']. rewrite Ex in Ex'. injection Ex' as _ Ex'. lia.
    - intros <-. rewrite Em in Ex. injection Ex as _ Ex. lia. }
  exists l, (ChainDb b1 (delete mh t') (s' ∖ tx_images mtx) v o1). split; [done|]. split; [|split; [|split; [done|split; [done|split; [|exact Hpopped]]]]].
  { unfold pop_block. cbn [blocks txs spent_keys hf_versions m_outputs]. rewrite last_snoc, length_app. cbn [length]. rewrite Nat.add_sub, take_app_length, E.
    unfold remove_transaction. cbn [blocks txs spent_keys hf_versions m_outputs]. fold mh. by rewrite Ho', Em, fold_remove, Hrem. }
  split; cbn [blocks txs spent_keys m_outputs].
  - intros i x x' E1 E2. apply (Hl i); by apply lookup_app_l_Some.
  - rewrite fmap_app in Hh. by apply NoDup_app in Hh as [? _].
  - by apply Forall_app in Hi as [? _].
  - intros i x E1. destruct (Hs i x) as [H1 H2]; [by apply lookup_app_l_Some|]. split; [done|].
    apply Forall_forall. intros h Hin. rewrite (Hkept i x h E1 Hin). rewrite Forall_forall in H2. by apply H2.
  - apply (images_ok_delete t' s' mh mtx (zlen b1)); [done|]. rewrite Ho' by done. exact Em.
  - rewrite (chain_txs_ext b1 t); [done|]. intros x h [i E1]%list_elem_of_lookup. by apply (Hkept i).
  - intros h [Hh1 Hh2]%not_elem_of_cons. cbn [txs]. rewrite lookup_delete_ne by done. by apply Ho'.
Qed.

(** A run of the database: blocks that are added, blocks that are refused
    outside a batch, and blocks that are popped. *)
Inductive db_step : chain_db * HardFork -> chain_db * HardFork -> Prop :=
| step_add batch db hf blk w d c l r : block_cache_ok blk -> tx_supported (miner_tx blk) -> Forall tx_supported l ->
    add_block batch db hf blk w d c l = Done r -> db_step (db, hf) r
| step_refused db hf blk w d c l r : add_block false db hf blk w d c l = Thrown r -> db_step (db, hf) r
| step_pop batch db hf db' r : pop_block batch db = Done (db', r) -> db_step (db, hf) (db', hf).

Lemma empty_db_ok hf : db_ok (ChainDb [] ∅ ∅ hf no_outputs).
Proof.
  split; cbn; [done|by apply NoDup_nil|constructor|done| |constructor]. split; [|done..]. intros k. split; [set_solver|].
  by intros (h & tx & x & E & _).
Qed.

Lemma db_step_ok x y : db_step x y -> db_ok x.1 -> db_ok y.1.
Proof.
  intros [batch db hf blk w d c l [db' hf'] Hc Hm Hl E|db hf blk w d c l [db' hf'] E|batch db hf db' r E] Hok; cbn [fst] in *.
  - by eapply add_block_keeps.
  - unfold add_block in E. destruct (add_block_raw _ _ _ _ _ _ _) as [|[? ?]]; [done|]. by injection E as <- _.
  - assert (blocks db <> []) as Hne by (intros Hx; unfold pop_block in E; by rewrite Hx in E).
    destruct (pop_block_keeps batch db Hok Hne) as (bi & l & db1 & _ & E1 & Hok1 & _). rewrite E in E1. by injection E1 as -> _.
Qed.

Lemma db_reachable_ok hf0 hf db : rtc db_step (ChainDb [] ∅ ∅ ∅ no_outputs, hf0) (db, hf) -> db_ok db.
Proof.
  intros Hr. apply (rtc_ind_r (fun y => db_ok y.1) (ChainDb [] ∅ ∅ ∅ no_outputs, hf0)) in Hr; [done|by apply empty_db_ok|].
  intros y z _ Hyz Hy. by eapply db_step_ok.
Qed.

(** C19: no double spend, whatever is added and popped.  In every state the
    database reaches from an empty one: each block names its predecessor's
    hash, block hashes are the blocks' ids and do not repeat; no key image is
    spent by two stored transactions or twice in one; the set of spent images
    is exactly that of the stored transactions; the transactions of every
    block are stored with its height; and the top block can always be popped. *)
Theorem db_reachable_sound hf0 hf db : rtc db_step (ChainDb [] ∅ ∅ ∅ no_outputs, hf0) (db, hf) ->
  db_ok db /\ (blocks db <> [] -> forall batch, exists bi l db', last (blocks db) = Some bi /\
    pop_block batch db = Done (db', Some (bi_block bi, l)) /\ db_ok db' /\ blocks db = blocks db' ++ [bi]).
Proof.
  intros Hr. pose proof (db_reachable_ok _ _ _ Hr) as Hok. split; [done|]. intros Hne batch. destruct (pop_block_keeps batch db Hok Hne) as (bi & l & db' & H1 & H2 & H3 & H4 & _ & _). by exists bi, l, db'.
Qed.

(** C25: the tables of outputs, whatever is added and popped.  In every state the
    database reaches from an empty one, each output of each transaction of each
    block is found under the index recorded for it: the queries give its
    transaction and position, its key, its unlock time, the height of its block,
    and as its commitment the stored one, or that of the plain amount.  Within an
    amount the indices are 0, 1, ... without gaps, and every one of them belongs to
    an output of a block. *)
Theorem stored_outputs hf0 hf db : rtc db_step (ChainDb [] ∅ ∅ ∅ no_outputs, hf0) (db, hf) -> let t := m_outputs db in
  (forall i bi h, blocks db !! i = Some bi -> h ∈ block_tx_hashes (bi_block bi) -> exists tx id idxs,
    txs db !! h = Some (tx, Z.of_nat i) /\ tx_ids t !! h = Some id /\ get_tx_amount_output_indices t id = Some idxs /\
    forall j o, vout (tx_prefix tx) !! j = Some o -> exists x key c, idxs !! j = Some x /\
      get_output_tx_and_index t (stored_amount tx o) x = Some (Outtx h (Z.of_nat j)) /\ target o = target_key key /\
      stored_output (is_miner_tx tx) tx j o = Some (Tx_out (stored_amount tx o) (target_key key), c) /\
      get_output_key t (stored_amount tx o) x = commitment ← (if stored_amount tx o =? 0 then c else zeroCommit (stored_amount tx o));
        Some (OutputData key (unlock_time (tx_prefix tx)) (Z.of_nat i) commitment)) /\
  (forall a x, is_Some (get_output_tx_and_index t a x) <-> 0 <= x < get_num_outputs t a) /\
  (forall a x, 0 <= x < get_num_outputs t a -> exists i bi h tx j o, blocks db !! i = Some bi /\ h ∈ block_tx_hashes (bi_block bi) /\
    txs db !! h = Some (tx, Z.of_nat i) /\ vout (tx_prefix tx) !! j = Some o /\ get_output_tx_and_index t a x = Some (Outtx h (Z.of_nat j))).
Proof.
  intros Hr t. pose proof (db_reachable_ok _ _ _ Hr) as Hok. destruct (filled_ok _ _ (dk_outputs _ Hok)) as (Hto & Hh & Ho & _). fold t in Hto, Hh, Ho.
  assert (forall a x, is_Some (get_output_tx_and_index t a x) <-> is_Some (output_amounts t !! (a, x))) as Hq.
  { intros a x. unfold get_output_tx_and_index, get_output_txs_and_indices, get_output_tx_and_index_from_global. cbn. destruct (output_amounts t !! (a, x)) as [ok|] eqn:E; cbn; [|by split; intros []].
    destruct (to_points _ Hto _ _ E) as [ot Eo]. rewrite Eo. cbn. split; by eexists. }
  split; [|split].
  - intros i bi h Eb Hin. destruct (dk_stored _ Hok i bi Eb) as [_ Hst]. rewrite Forall_forall in Hst. destruct (Hst h Hin) as [tx Etx].
    destruct (Hh (Z.of_nat i) h tx) as (id & idxs & E1 & E2 & _ & E3); [by eapply chain_txs_in|]. exists tx, id, idxs. do 3 (split; [done|]).
    intros j o Eo. destruct (E3 j o Eo) as (x & Ex & [He (key & c & Q1 & Q2 & Q3)]%entry_queries). by exists x, key, c.
  - intros a x. by rewrite Hq, (to_amounts _ Hto).
  - intros a x Hx. apply (to_amounts _ Hto) in Hx as [ok E]. destruct (Ho _ _ E) as (y & h & tx & j & o & Hin & Eo & [He _]%entry_queries).
    apply elem_of_chain_txs in Hin as (i & bi & z & Ei & -> & Hin & Etx). destruct (dk_stored _ Hok i bi Ei) as [_ Hst]. rewrite Forall_forall in Hst.
    destruct (Hst h Hin) as [tx' Etx']. rewrite Etx in Etx'. injection Etx' as <- ->. by exists i, bi, h, tx, j, o.
Qed.

(** C26: popping undoes adding.  When [add_block] succeeds with transactions
    whose inputs are of the supported kinds, the chain has grown by that block
    with its metadata, whose parent was the top; and [pop_block] then returns
    the block and its transactions, last first, and restores the blocks, the
    transactions, the spent key images and the tables of outputs exactly.  Only
    the recorded hard fork versions keep the new entry. *)
Theorem pop_block_add_block batch db hf blk w d c l db' hf' :
  ids_agree (txs db) (m_outputs db) -> tx_supported (miner_tx blk) -> Forall tx_supported l -> tx_cache_ok (miner_tx blk) ->
  add_block batch db hf blk w d c l = Done (db', hf') ->
  (exists h, blocks db' = blocks db ++ [BlockInfo (clean_block blk) (timestamp (hdr blk)) c w d h] /\ block_exists db h = false) /\
  (blocks db <> [] -> get_block_height db (prev_id (hdr blk)) = Some (height db - 1)) /\
  pop_block batch db' = Done (ChainDb (blocks db) (txs db) (spent_keys db) (hf_versions db') (m_outputs db),
    Some (clean_block blk, rev (map tx_invalidate_hashes l))).
Proof.
  intros Hi Hm Hl Hc Ha. destruct (add_block_ok _ _ _ _ _ _ _ _ _ _ Hm Hl Hc Ha) as (h & _ & Hb & Hx & Hp & _ & Hpop).
  split; [by exists h|]. split; [done|]. by apply Hpop.
Qed.

(** A stored transaction with its outputs. *)
Definition with_tx (db : chain_db) (h : blob) (tx : transaction) (s : gset blob) (o : output_tables) : chain_db :=
  ChainDb (blocks db) (<[h := (tx_invalidate_hashes tx, height db)]> (txs db)) s (hf_versions db) o.

Lemma add_transaction_gen db tx g o : vin (tx_prefix tx) = [txin_gen g] -> txs db !! transaction_hash tx = None ->
  add_tx_outputs (height db) (transaction_hash tx) tx (m_outputs db) = Done o ->
  add_transaction db tx None = Done (with_tx db (transaction_hash tx) tx (spent_keys db) o).
Proof.
  intros E Hn Ho. unfold add_transaction, tx_exists. rewrite E. cbn [add_inputs default]. rewrite Hn, bool_decide_false by by intros []. by rewrite Ho.
Qed.

Lemma add_transaction_key db tx h a ofs k o : vin (tx_prefix tx) = [txin_to_key a ofs k] -> k ∉ spent_keys db -> txs db !! h = None ->
  add_tx_outputs (height db) h tx (m_outputs db) = Done o ->
  add_transaction db tx (Some h) = Done (with_tx db h tx ({[k]} ∪ spent_keys db) o).
Proof.
  intros E Hk Hn Ho. unfold add_transaction, tx_exists. rewrite E. cbn [add_inputs default]. unfold has_key_image. rewrite bool_decide_false by done.
  unfold set_spent. cbn [txs m_outputs blocks spent_keys hf_versions]. change (id h) with h. rewrite Hn, bool_decide_false by by intros [].
  change (height (ChainDb (blocks db) _ _ _ _)) with (height db). by rewrite Ho.
Qed.

Lemma add_transaction_spent db tx h a ofs k : vin (tx_prefix tx) = [txin_to_key a ofs k] -> k ∈ spent_keys db ->
  add_transaction db tx (Some h) = Thrown db.
Proof. intros E Hk. unfold add_transaction. rewrite E. cbn [add_inputs]. unfold has_key_image. by rewrite bool_decide_true by done. Qed.

(** ** A block that fits is added *)
Lemma add_inputs_done ins all b t s v o : Forall (fun i => supported i = true) ins -> NoDup (omap image_of ins) ->
  (forall k, k ∈ omap image_of ins -> k ∉ s) ->
  add_inputs ins all (ChainDb b t s v o) = Done (ChainDb b t (list_to_set (omap image_of ins) ∪ s) v o, true).
Proof.
  intros Hs Hn Hf. pose proof (add_inputs_spec ins all b t s v o Hs) as Ha.
  enough (exists x, add_inputs ins all (ChainDb b t s v o) = Done x) as [[db r] E] by (rewrite E in *; by destruct Ha as (-> & -> & _)).
  clear Ha. revert s Hn Hf. induction Hs as [|i ins Hi Hs IH]; intros s Hn Hf; cbn [add_inputs]; [by eexists|].
  destruct i as [h| | |a ofs k]; try done; [by apply IH|]. cbn in Hn, Hf. apply NoDup_cons in Hn as [Hk Hn].
  unfold has_key_image. cbn [spent_keys]. rewrite bool_decide_false by (apply Hf; by left). apply IH; [done|].
  intros k' Hk'. cbn [spent_keys]. intros [->%elem_of_singleton|Hx]%elem_of_union; [done|]. by apply (Hf k'); [right|].
Qed.

Lemma add_transaction_done b t s v o tx ho : tx_supported tx -> storable tx -> tables_ok o -> ids_agree t o -> NoDup (omap image_of (vin (tx_prefix tx))) ->
  (forall k, k ∈ omap image_of (vin (tx_prefix tx)) -> k ∉ s) -> t !! default (transaction_hash tx) ho = None ->
  exists o', add_transaction (ChainDb b t s v o) tx ho =
    Done (ChainDb b (<[default (transaction_hash tx) ho := (tx_invalidate_hashes tx, zlen b)]> t) (tx_images tx ∪ s) v o') /\
    tables_ok o' /\ ids_agree (<[default (transaction_hash tx) ho := (tx_invalidate_hashes tx, zlen b)]> t) o'.
Proof.
  intros [Hs Hc] Hst Hok Hag Hn Hf Ht. unfold add_transaction. rewrite add_inputs_done by done. unfold tx_exists. cbn [txs m_outputs]. rewrite Ht.
  rewrite bool_decide_false by by intros []. change (height (ChainDb b _ _ _ _)) with (zlen b).
  destruct (add_tx_outputs_done (zlen b) (default (transaction_hash tx) ho) tx o Hok Hc (Hag _ Ht) Hst) as [o' E]. rewrite E. exists o'. split; [done|].
  split; [by eapply add_tx_outputs_ok, E; [|..|apply Hag]|by eapply ids_agree_insert].
Qed.

Lemma add_transactions_done b t s v o l : Forall (fun p => tx_supported p.2) l -> Forall (fun p => storable p.2) l -> tables_ok o -> ids_agree t o ->
  NoDup l.*1 -> (forall h, h ∈ l.*1 -> t !! h = None) ->
  NoDup (concat ((fun p => omap image_of (vin (tx_prefix p.2))) <$> l)) ->
  (forall k, k ∈ concat ((fun p => omap image_of (vin (tx_prefix p.2))) <$> l) -> k ∉ s) ->
  exists t' s' o', add_transactions (ChainDb b t s v o) l = Done (ChainDb b t' s' v o').
Proof.
  intros Hs. revert t s o. induction Hs as [|[h tx] l Htx Hs IH]; intros t s o Hst Hok Hag Hn Ht Hi Hk; cbn [add_transactions]; [by eexists _, _, _|].
  cbn in Hn, Ht, Hi, Hk. apply NoDup_cons in Hn as [Hh Hn]. apply NoDup_app in Hi as (Hi1 & Hi2 & Hi3). apply Forall_cons in Hst as [Hst1 Hst].
  destruct (add_transaction_done b t s v o tx (Some h)) as (o' & -> & Hok' & Hag'); [done..|by intros k Hx; apply Hk, elem_of_app; left|apply Ht; by left|].
  change (default (transaction_hash tx) (Some h)) with h in *.
  apply IH; [done..| |done|].
  - intros h' Hh'. rewrite lookup_insert_ne by (intros ->; done). apply Ht. by right.
  - intros k Hx [Hy|Hy]%elem_of_union; [|apply (Hk k); [apply elem_of_app; by right|done]].
    apply elem_of_list_to_set in Hy. by apply (Hi2 k).
Qed.

Lemma find_hash_last l b i : NoDup (bi_hash <$> l ++ [b]) -> find_hash (bi_hash b) (l ++ [b]) i = Some (i + zlen l).
Proof.
  revert i. induction l as [|x l IH]; intros i Hn; cbn [app find_hash].
  - rewrite bool_decide_true by done. f_equal. change (zlen []) with 0. lia.
  - cbn in Hn. apply NoDup_cons in Hn as [Hx Hn]. rewrite bool_decide_false.
    + rewrite IH by done. rewrite zlen_cons. f_equal. lia.
    + intros E. apply Hx. rewrite E, fmap_app. apply elem_of_app. right. by left.
Qed.

Lemma not_block_exists db h : h ∉ bi_hash <$> blocks db -> block_exists db h = false.
Proof.
  intros Hx. unfold block_exists. apply bool_decide_eq_false. intros [j Hj]. unfold get_block_height in Hj.
  apply find_hash_spec in Hj as (b & E & <- & _). apply Hx, list_elem_of_fmap. exists b. split; [done|]. by eapply list_elem_of_lookup_2.
Qed.

(** The block names the top as its parent; its hash, the hash of its coinbase
    and its transactions are new; its key images are unspent and distinct. *)
Lemma add_block_done batch db hf blk w d c l id g : db_ok db -> blocks db <> [] -> block_cache_ok blk -> block_id blk = Some id ->
  prev_id (hdr blk) = top_block_hash db -> id ∉ bi_hash <$> blocks db -> vin (tx_prefix (miner_tx blk)) = [txin_gen g] ->
  coinbase_agrees (miner_tx blk) -> storable (miner_tx blk) ->
  txs db !! transaction_hash (miner_tx blk) = None -> NoDup (block_tx_hashes blk) -> length l = length (tx_hashes blk) ->
  Forall tx_supported l -> Forall storable l -> (forall h, h ∈ tx_hashes blk -> txs db !! h = None) ->
  NoDup (concat ((fun tx => omap image_of (vin (tx_prefix tx))) <$> l)) ->
  (forall k, k ∈ concat ((fun tx => omap image_of (vin (tx_prefix tx))) <$> l) -> k ∉ spent_keys db) ->
  exists db' hf', add_block batch db hf blk w d c l = Done (db', hf').
Proof.
  intros Hok Hne Hbc Hid Hprev Hnew Hvin Hmc Hms Hm Hnd Hlen Hsup Hsto Htx Hki Hks.
  enough (exists x, add_block_raw db hf blk w d c l = Done x) as [[db' hf'] E] by (exists db', hf'; unfold add_block; by rewrite E).
  unfold add_block_raw. assert (zlen (tx_hashes blk) =? zlen l = true) as -> by (apply Z.eqb_eq; unfold zlen; lia). cbn [negb].
  pose proof (get_block_hash_spec blk Hbc) as Hs. destruct (get_block_hash blk) as [r b1], Hs as (-> & _). cbn [fst]. rewrite Hid.
  pose proof (filled_agree _ _ _ (dk_outputs _ Hok)) as Hag. destruct (filled_ok _ _ (dk_outputs _ Hok)) as [Hto _].
  destruct (add_tx_outputs_done (height db) _ _ _ Hto Hmc (Hag _ Hm) Hms) as [o Eo]. destruct (add_tx_outputs_ok _ _ _ _ _ Hto Hmc (Hag _ Hm) Eo) as [Hto' _].
  rewrite (add_transaction_gen db _ g o) by done. apply NoDup_cons in Hnd as [Hx Hnd]. unfold with_tx.
  assert ((zip (tx_hashes blk) l).*1 = tx_hashes blk) as Ez1 by (apply fst_zip; lia).
  assert ((zip (tx_hashes blk) l).*2 = l) as Ez2 by (apply snd_zip; lia).
  assert ((fun p => omap image_of (vin (tx_prefix p.2))) <$> zip (tx_hashes blk) l = (fun tx => omap image_of (vin (tx_prefix tx))) <$> l) as Ez3
    by (rewrite <- Ez2 at 2; by rewrite <- list_fmap_compose).
  destruct (add_transactions_done (blocks db) (<[transaction_hash (miner_tx blk) := (tx_invalidate_hashes (miner_tx blk), height db)]> (txs db))
    (spent_keys db) (hf_versions db) o (zip (tx_hashes blk) l)) as (t' & s' & o' & ->); rewrite ?Ez1, ?Ez3; try done.
  - apply Forall_forall. intros [h tx] Hin. apply elem_of_zip_r in Hin. rewrite Forall_forall in Hsup. by apply Hsup.
  - apply Forall_forall. intros [h tx] Hin. apply elem_of_zip_r in Hin. rewrite Forall_forall in Hsto. by apply Hsto.
  - by eapply ids_agree_insert.
  - intros h Hh. rewrite lookup_insert_ne by (intros <-; done). by apply Htx.
  - unfold add_block_data. rewrite not_block_exists by done. unfold height. cbn [blocks].
    destruct (exists_last Hne) as (bs & top & Eb). unfold top_block_hash in Hprev. rewrite Eb, last_snoc in Hprev. cbn in Hprev.
    pose proof (dk_hashes _ Hok) as Hnh. unfold get_block_height. cbn [blocks]. rewrite Eb in Hnh |- *. rewrite Hprev, find_hash_last by done.
    rewrite zlen_app. change (zlen [top]) with 1. replace (0 + zlen bs) with (zlen bs + 1 - 1) by lia. rewrite bool_decide_true by done.
    rewrite andb_false_r. pose proof (zlen_nonneg bs). rewrite (proj2 (Z.eqb_neq (zlen bs + 1) 0)) by lia. rewrite andb_false_r.
    destruct (HardFork.add _ _ _ _) as [[r hf1] v1]. by eexists.
Qed.

(** a refused block inside a batch.  A block with two transactions that
    spend the same key image makes the database throw while it writes the
    second one.  Outside a batch nothing remains of it; while a batch
    transaction is active, as it is while blocks are handled, the abort does
    nothing: the block is not in the chain, but its first transaction is
    recorded as mined and the key image as spent. *)
Theorem add_block_batch_partial db hf blk w d c bh g h1 h2 tx1 tx2 a1 o1 a2 o2 k :
  (get_block_hash blk).1 = Some bh -> tx_hashes blk = [h1; h2] -> vin (tx_prefix (miner_tx blk)) = [txin_gen g] ->
  vin (tx_prefix tx1) = [txin_to_key a1 o1 k] -> vin (tx_prefix tx2) = [txin_to_key a2 o2 k] ->
  coinbase_agrees (miner_tx blk) -> storable (miner_tx blk) -> coinbase_agrees tx1 -> storable tx1 -> tables_ok (m_outputs db) -> ids_agree (txs db) (m_outputs db) ->
  k ∉ spent_keys db -> txs db !! h1 = None -> txs db !! transaction_hash (miner_tx blk) = None -> transaction_hash (miner_tx blk) <> h1 ->
  add_block false db hf blk w d c [tx1; tx2] = Thrown (db, hf) /\
  exists db', add_block true db hf blk w d c [tx1; tx2] = Thrown (db', hf) /\
    blocks db' = blocks db /\ tx_exists db' h1 = true /\ has_key_image db' k = true.
Proof.
  intros Eb Eh Em E1 E2 Hmc Hms Hc1 Hs1 Hto Hag Hk Hh1 Hm Hne.
  assert (exists db', add_block_raw db hf blk w d c [tx1; tx2] = Thrown (db', hf) /\
    blocks db' = blocks db /\ tx_exists db' h1 = true /\ has_key_image db' k = true) as (db' & E & Hr).
  2: { unfold add_block. rewrite E. split; [done|]. by exists db'. }
  unfold add_block_raw. rewrite Eb, Eh. change (zlen [h1; h2] =? zlen [tx1; tx2]) with true. cbn [negb].
  destruct (add_tx_outputs_done (height db) _ _ _ Hto Hmc (Hag _ Hm) Hms) as [o Eo]. destruct (add_tx_outputs_ok _ _ _ _ _ Hto Hmc (Hag _ Hm) Eo) as [Hto' _].
  rewrite (add_transaction_gen db (miner_tx blk) g o) by done. cbn [zip zip_with add_transactions].
  assert (<[transaction_hash (miner_tx blk) := (tx_invalidate_hashes (miner_tx blk), height db)]> (txs db) !! h1 = None) as Hh1' by by rewrite lookup_insert_ne.
  destruct (add_tx_outputs_done (height db) h1 tx1 o Hto' Hc1 (ids_agree_insert _ _ _ _ _ _ _ Hag Eo Hmc _ Hh1') Hs1) as [o' Eo'].
  rewrite (add_transaction_key _ tx1 h1 a1 o1 k o') by done.
  rewrite (add_transaction_spent _ tx2 h2 a2 o2 k) by (done || cbn [spent_keys]; set_solver).
  eexists. split; [done|]. cbn [blocks]. split; [done|]. unfold tx_exists, has_key_image. cbn [with_tx txs spent_keys].
  rewrite lookup_insert_eq. split; apply bool_decide_eq_true; [by eexists|set_solver].
Qed.
End sound.

#[local] Existing Instance residues.

Definition genesis_tx : transaction :=
  Transaction (Prefix 1 60 [txin_gen 0] [Tx_out 5 (target_key (replicate 32 3))] []) [[]] rct_null None None.
Definition genesis_block (hashes : list blob) : block := Block (Header 1 0 0 (replicate 32 0) 0) genesis_tx hashes None.
Definition empty_db : chain_db := ChainDb [] ∅ ∅ ∅ no_outputs.

Lemma genesis_cache hashes : tx_cache_ok genesis_tx /\ block_cache_ok (genesis_block hashes).
Proof. split; [by split|]. by split. Qed.

Lemma genesis_block_hash hashes : container_ok hash_ok hashes -> zlen hashes < 2 ^ 28 ->
  exists h, (get_block_hash (genesis_block hashes)).1 = Some h.
Proof.
  intros Hh Hn. assert (block_ok (genesis_block hashes)) as Hb.
  { assert (block_ok (genesis_block [])) as (H1 & H2 & _).
    { apply (parse_binary_ok block_codec _ (t_serializable_object_to_blob block_codec (genesis_block []))); [by_decide|vm_compute; reflexivity]. }
    by split; [|split; [|split]]. }
  pose proof (get_block_hash_spec (genesis_block hashes) (proj2 (genesis_cache hashes))) as H.
  destruct (get_block_hash (genesis_block hashes)) as [r b], H as (-> & _).
  destruct (block_id_some (genesis_block hashes) Hb Hn) as (root & _ & _ & _ & E). rewrite E. by eexists.
Qed.

Lemma container_nil : container_ok hash_ok [].
Proof. split; [constructor|by_decide]. Qed.

Lemma genesis_storable : coinbase_agrees genesis_tx /\ storable genesis_tx.
Proof. split; [done|]. intros [|i] o; [|done]. by intros [= <-]. Qed.

Lemma genesis_added batch : exists h db' hf', add_block batch empty_db example_hf (genesis_block []) 80 1 5 [] = Done (db', hf') /\
  blocks db' = [BlockInfo (genesis_block []) 0 5 80 1 h].
Proof.
  destruct (genesis_block_hash [] container_nil ltac:(by_decide)) as [h Eh]. exists h.
  unfold add_block, add_block_raw. rewrite Eh. change (zlen (tx_hashes (genesis_block [])) =? zlen []) with true. cbn [negb].
  destruct genesis_storable as [Hc Hs].
  destruct (add_tx_outputs_done 0 (transaction_hash genesis_tx) genesis_tx no_outputs (proj1 (filled_ok _ _ filled_nil)) Hc eq_refl Hs) as [o Eo].
  rewrite (add_transaction_gen empty_db (miner_tx (genesis_block [])) 0 o) by first [done|exact Eo]. unfold with_tx. cbn [blocks txs spent_keys hf_versions empty_db].
  cbn [genesis_block tx_hashes zip zip_with add_transactions].
  change (add_block_data (ChainDb [] ?t ?s ?v ?o) ?b 80 1 5 h) with (Done (ChainDb ([] ++ [BlockInfo (clean_block b) 0 5 80 1 h]) t s v o)).
  cbn beta iota. destruct (HardFork.add _ _ _ _) as [[r hf1] v1]. eexists _, _. split; reflexivity.
Qed.

Lemma pop_block_add_block_witness :
  exists db' hf', add_block true empty_db example_hf (genesis_block []) 80 1 5 [] = Done (db', hf') /\
    pop_block true db' = Done (ChainDb [] ∅ ∅ (hf_versions db') no_outputs, Some (genesis_block [], [])).
Proof.
  destruct (genesis_added true) as (h & db' & hf' & E & _). exists db', hf'. split; [exact E|].
  destruct (pop_block_add_block true empty_db example_hf (genesis_block []) 80 1 5 [] db' hf') as (_ & _ & H);
    [done|split; [by repeat constructor|apply genesis_storable]|constructor|apply genesis_cache|exact E|exact H].
Defined.

Lemma genesis_reached : exists h db hf, rtc db_step (empty_db, example_hf) (db, hf) /\ blocks db = [BlockInfo (genesis_block []) 0 5 80 1 h].
Proof.
  destruct (genesis_added false) as (h & db & hf & E & Eb). exists h, db, hf. split; [|exact Eb].
  apply rtc_once. eapply step_add; [apply genesis_cache|split; [by repeat constructor|apply genesis_storable]|constructor|exact E].
Qed.

Lemma stored_outputs_witness : exists db tx id idxs, txs db !! transaction_hash genesis_tx = Some (tx, 0) /\
  tx_ids (m_outputs db) !! transaction_hash genesis_tx = Some id /\ get_tx_amount_output_indices (m_outputs db) id = Some idxs.
Proof.
  destruct genesis_reached as (h & db & hf & Hr & Eb). exists db. destruct (stored_outputs example_hf hf db Hr) as [Hs _].
  destruct (Hs 0%nat (BlockInfo (genesis_block []) 0 5 80 1 h) (transaction_hash genesis_tx)) as (tx & id & idxs & E1 & E2 & E3 & _);
    [by rewrite Eb|by left|]. exists tx, id, idxs. split; [exact E1|]. split; [exact E2|exact E3].
Defined.

Lemma db_reachable_sound_witness :
  exists db hf h, rtc db_step (empty_db, example_hf) (db, hf) /\ blocks db = [BlockInfo (genesis_block []) 0 5 80 1 h] /\
    db_ok db /\ exists l db', pop_block false db = Done (db', Some (genesis_block [], l)) /\ blocks db' = [].
Proof.
  destruct genesis_reached as (h & db & hf & Hr & Eb). exists db, hf, h. split; [exact Hr|]. split; [exact Eb|]. destruct (db_reachable_sound example_hf hf db Hr) as [Hok Hpop]. split; [exact Hok|].
  destruct (Hpop ltac:(by rewrite Eb) false) as (bi & l & db' & Hl & Hp & _ & Hb). rewrite Eb in Hl, Hb. injection Hl as <-.
  exists l, db'. split; [exact Hp|]. by destruct (blocks db') as [|? []].
Defined.

(** A hash that is not that of the miner transaction. *)
Definition other_hash : blob := if decide (transaction_hash genesis_tx = replicate 32 1) then replicate 32 2 else replicate 32 1.

Lemma add_block_batch_partial_witness :
  let blk := genesis_block [other_hash; replicate 32 9] in
  add_block false empty_db example_hf blk 500 1 5 [small_tx 6 1; small_tx 7 1] = Thrown (empty_db, example_hf) /\
  exists db', add_block true empty_db example_hf blk 500 1 5 [small_tx 6 1; small_tx 7 1] = Thrown (db', example_hf) /\
    blocks db' = [] /\ tx_exists db' other_hash = true /\ has_key_image db' (replicate 32 1) = true.
Proof.
  intros blk. destruct (genesis_block_hash [other_hash; replicate 32 9]) as [h Eh].
  { split; [|change (zlen _) with 2; by_decide]. constructor; [unfold other_hash; case_decide; by_decide|]. constructor; [by_decide|constructor]. }
  { change (zlen _) with 2. by_decide. }
  apply (add_block_batch_partial empty_db example_hf blk 500 1 5 h 0 other_hash (replicate 32 9) (small_tx 6 1) (small_tx 7 1)
    6 [1] 7 [1] (replicate 32 1)); [exact Eh|reflexivity|reflexivity|reflexivity|reflexivity|exact (proj1 genesis_storable)|exact (proj2 genesis_storable)|reflexivity| |exact (proj1 (filled_ok _ _ filled_nil))|intros ? _; apply lookup_empty|apply not_elem_of_empty| | |].
  { intros [|i] o; [|done]. by intros [= <-]. }
  1-2: cbn [txs empty_db]; apply lookup_empty.
  unfold blk, other_hash, genesis_block. cbn [miner_tx]. case_decide as Hd; [|exact Hd]. rewrite Hd. discriminate.
Defined.
