(* ===== verification/TxCheck.v ===== *)
(** * The inputs of a transaction

    Model of the part of src/cryptonote_core/blockchain.cpp that decides whether a
    transaction may spend what it spends: [is_tx_spendtime_unlocked],
    [scan_outputkeys_for_indexes], [check_tx_input], [expand_transaction_2],
    [check_ring_signature] and [check_tx_inputs], over the tables of [Outputs], the
    ring signatures of [Crypto] and the RingCT signatures of [RctSigs].

    The table [m_scan_table], which a node fills before it handles a batch of
    blocks, is an argument.  The table [m_check_txin_table] is written but never
    read: CACHE_VIN_RESULTS is not defined. *)
From Stdlib Require Import ZArith Lia Bool Sorted.
From stdpp Require Import prelude gmap.
From S2P Require Import Prelude StringTools Varint Archive TxExtra Rct CryptonoteBasic Keccak TreeHash HardFork Hashing Money Reward TxPool Limbs Scalar RctOps RctSigs RctProofs Crypto RctModel Outputs ChainDb.
Local Open Scope Z_scope.

#[local] Opaque cn_fast_hash.

Definition HF_VERSION_ENFORCE_RCT : Z := 6.
Definition HF_VERSION_BULLETPROOFS : Z := 10.
Definition HF_VERSION_MIN_MIXIN_20 : Z := 10.
Definition CRYPTONOTE_MAX_BLOCK_NUMBER : Z := 500000000.
Definition CRYPTONOTE_LOCKED_TX_ALLOWED_DELTA_BLOCKS : Z := 1.
Definition CRYPTONOTE_LOCKED_TX_ALLOWED_DELTA_SECONDS_V1 : Z := 60 * CRYPTONOTE_LOCKED_TX_ALLOWED_DELTA_BLOCKS.
Definition CRYPTONOTE_LOCKED_TX_ALLOWED_DELTA_SECONDS_V12 : Z := 120.
Definition CRYPTONOTE_LOCKED_TX_ALLOWED_DELTA_SECONDS_V13 : Z := 300.

(** An unlock time is a height, or a time in seconds. *)
Definition is_tx_spendtime_unlocked (height hf_version now unlock_time : Z) : bool :=
  if unlock_time <? CRYPTONOTE_MAX_BLOCK_NUMBER then unlock_time <=? u64 (height - 1 + CRYPTONOTE_LOCKED_TX_ALLOWED_DELTA_BLOCKS)
  else
    unlock_time <=? u64 (now +
      (if hf_version <? HF_VERSION_TWO_MINUTE_BLOCK_TIME then CRYPTONOTE_LOCKED_TX_ALLOWED_DELTA_SECONDS_V1
       else if hf_version <? HF_VERSION_PROOF_OF_STAKE then CRYPTONOTE_LOCKED_TX_ALLOWED_DELTA_SECONDS_V12
       else CRYPTONOTE_LOCKED_TX_ALLOWED_DELTA_SECONDS_V13)).

(** The outputs prefetched for the inputs of a transaction, by the hash of its
    prefix and the key image. *)
Abbreviation scan_table := (gmap blob (gmap blob (list output_data_t))).

(** A signature as it is stored. *)
Definition signature_of (b : blob) : signature := Signature (take 32 b) (drop 32 b).

(** Byte by byte. *)
Fixpoint memcmp (a b : blob) : Z :=
  match a, b with
  | x :: a, y :: b => if x =? y then memcmp a b else x - y
  | _, _ => 0
  end.

Section check.
Context `{Curve, Bulletproofs} (db : chain_db) (hf_version now : Z) (scanned : scan_table).

Let t := m_outputs db.

(** ** The members of a ring *)

(** The outputs collected in advance, completed from the tables. *)
Definition collect_outputs (found : option (list output_data_t)) (amount : Z) (absolute_offsets : list Z) : option (list output_data_t) :=
  match found with
  | None =>
      outputs ← get_output_keys t amount absolute_offsets true;
      if bool_decide (length absolute_offsets = length outputs) then Some outputs else None
  | Some outputs =>
      if bool_decide (length outputs < length absolute_offsets)%nat && bool_decide (0 < length outputs)%nat then
        let add_offsets := drop (length outputs) absolute_offsets in
        add_outputs ← get_output_keys t amount add_offsets true;
        if bool_decide (length add_offsets = length add_outputs) then Some (outputs ++ add_outputs) else None
      else Some outputs
  end.

(** The loop over the offsets: the keys, and the height of the last output. *)
Fixpoint scan_loop (amount : Z) (absolute_offsets : list Z) (outputs : list output_data_t) (max_height : Z) : option (list ctkey * Z) :=
  match absolute_offsets with
  | [] => Some ([], max_height)
  | i :: absolute_offsets =>
      output_index ← match outputs with o :: _ => Some o | [] => get_output_key t amount i end;
      if negb (is_tx_spendtime_unlocked (height db) hf_version now (od_unlock_time output_index)) then None
      else
        let h := od_height output_index in
        let max_height := if bool_decide (absolute_offsets = []) && (max_height <? h) then h else max_height in
        '(keys, max_height) ← scan_loop amount absolute_offsets (tail outputs) max_height;
        Some ((od_pubkey output_index, od_commitment output_index) :: keys, max_height)
  end.

Definition scan_outputkeys_for_indexes (amount : Z) (key_offsets : list Z) (k_image tx_prefix_hash : blob) (max_height : Z) : option (list ctkey * Z) :=
  if bool_decide (key_offsets = []) then None
  else
    let absolute_offsets := relative_output_offsets_to_absolute key_offsets in
    let found := its ← scanned !! tx_prefix_hash; its !! k_image in
    outputs ← collect_outputs found amount absolute_offsets;
    scan_loop amount absolute_offsets outputs max_height.

(** The keys, or a refusal; and the height. *)
Definition check_tx_input (tx_version amount : Z) (key_offsets : list Z) (k_image tx_prefix_hash : blob) (sig : list blob) (max_height : Z) : option (list ctkey) * Z :=
  match scan_outputkeys_for_indexes amount key_offsets k_image tx_prefix_hash max_height with
  | None => (None, max_height)
  | Some (output_keys, max_height) =>
      if negb (bool_decide (length key_offsets = length output_keys)) then (None, max_height)
      else if (tx_version =? 1) && negb (bool_decide (length sig = length output_keys)) then (None, max_height)
      else (Some output_keys, max_height)
  end.

Definition check_ring_signature (tx_prefix_hash key_image : blob) (pubkeys : list ctkey) (sig : list blob) : bool :=
  Crypto.check_ring_signature tx_prefix_hash key_image (fst <$> pubkeys) (signature_of <$> sig).

(** ** The RingCT signature with what the chain knows *)
Definition image_or_empty (i : txin_v) : blob := default [] (image_of i).
Definition out_dest (o : tx_out) : blob := match target o with target_key k => k | _ => [] end.

Definition with_MGs (sg : rctSig) (mgs : list mgSig) : rctSig :=
  let p := rct_p sg in
  RctSig (rct_type sg) (txnFee sg) (pseudoOuts sg) (ecdhInfo sg) (outPk sg) (RctSigPrunable (rangeSigs p) (bulletproofs p) mgs (p_pseudoOuts p)).

(** The rings of a full signature, the other way round. *)
Definition columns (pubkeys : list (list ctkey)) : list (list ctkey) :=
  (fun m => omap (fun ring => ring !! m) pubkeys) <$> seq 0 (length (default [] (head pubkeys))).

Definition expand_transaction_2 (tx : transaction) (tx_prefix_hash : blob) (pubkeys : list (list ctkey)) : option rct_full :=
  let sg := rct_signatures tx in
  let images := image_or_empty <$> vin (tx_prefix tx) in
  let dests := out_dest <$> vout (tx_prefix tx) in
  let first := default [] (head pubkeys) in
  if negb (version (tx_prefix tx) =? 2) then None
  else if rct_type sg =? RCTTypeFull then
    if bool_decide (first = []) || negb (forallb (fun ring => bool_decide (length ring <= length first)%nat) pubkeys) then None
    else
      let mg := default (MgSig [] zero_key) (head (MGs (rct_p sg))) in
      Some (RctFull (with_MGs sg [mg]) tx_prefix_hash (columns pubkeys) dests [images])
  else if (rct_type sg =? RCTTypeSimple) || (rct_type sg =? RCTTypeBulletproof) then
    if bool_decide (first = []) then None
    else if negb (bool_decide (length (MGs (rct_p sg)) = length (vin (tx_prefix tx)))) then None
    else Some (RctFull sg tx_prefix_hash pubkeys dests ((fun i => [i]) <$> images))
  else None.

(** ** All inputs *)
Record mixins := Mixins { n_unmixable : Z; n_mixable : Z; mixin : Z }.
Definition min_mixin : Z := if HF_VERSION_MIN_MIXIN_20 <=? hf_version then 20 else 1.
Definition count_mixin (m : mixins) (i : txin_v) : mixins :=
  match i with
  | txin_to_key amount key_offsets _ =>
      let n := u64 (zlen key_offsets - 1) in
      let mixin := if n <? mixin m then n else mixin m in
      if (amount =? 0) || negb (get_num_outputs t amount <=? min_mixin) then Mixins (n_unmixable m) (n_mixable m + 1) mixin
      else Mixins (n_unmixable m + 1) (n_mixable m) mixin
  | _ => m
  end.

(** The rules on ring sizes and versions, from version 2. *)
Definition check_mixins (tx : transaction) : option tvc_flag :=
  let m := foldl count_mixin (Mixins 0 0 (2 ^ 64 - 1)) (vin (tx_prefix tx)) in
  let v := version (tx_prefix tx) in
  if (HF_VERSION_MIN_MIXIN_20 <=? hf_version) && negb (mixin m =? 20) then Some f_low_mixin
  else if (mixin m <? min_mixin) && ((n_unmixable m =? 0) || (1 <? n_mixable m)) then Some f_low_mixin
  else if (if hf_version <=? 3 then 1 else 2) <? v then Some f_failed
  else if v <? (if 0 <? n_unmixable m then 1 else if HF_VERSION_ENFORCE_RCT <=? hf_version then 2 else 1) then Some f_failed
  else None.

(** Each key image is below the last one. *)
Fixpoint sorted_ins (ins : list txin_v) (last_key_image : option blob) : bool :=
  match ins with
  | [] => true
  | txin_to_key _ _ k_image :: ins =>
      if match last_key_image with Some l => 0 <=? memcmp k_image l | None => false end then false
      else sorted_ins ins (Some k_image)
  | _ :: ins => sorted_ins ins last_key_image
  end.

(** The loop over the inputs: the rings and, for version 1, the answers of the
    signatures; or a refusal.  With one thread a wrong signature ends the loop. *)
Fixpoint check_vins (threads : Z) (tx : transaction) (tx_prefix_hash : blob) (ins : list txin_v) (sig_index : nat) (tvc : tx_verification_context) (max_height : Z)
  : option (list (list ctkey) * list bool) * tx_verification_context * Z :=
  match ins with
  | [] => (Some ([], []), tvc, max_height)
  | txin_to_key amount key_offsets k_image :: ins =>
      let v := version (tx_prefix tx) in
      if bool_decide (key_offsets = []) then (None, tvc, max_height)
      else if has_key_image db k_image then (None, set_flag f_double_spend true tvc, max_height)
      else if (v =? 1) && negb (bool_decide (sig_index < length (signatures tx))%nat) then (None, tvc, max_height)
      else
        let sig := if v =? 1 then signatures tx !!! sig_index else [] in
        match check_tx_input v amount key_offsets k_image tx_prefix_hash sig max_height with
        | (None, max_height) => (None, tvc, max_height)
        | (Some keys, max_height) =>
            let result := if v =? 1 then check_ring_signature tx_prefix_hash k_image keys sig else false in
            if (v =? 1) && (threads <=? 1) && negb result then (None, tvc, max_height)
            else
              match check_vins threads tx tx_prefix_hash ins (S sig_index) tvc max_height with
              | (None, tvc, max_height) => (None, tvc, max_height)
              | (Some (pubkeys, results), tvc, max_height) => (Some (keys :: pubkeys, result :: results), tvc, max_height)
              end
        end
  | _ => (None, tvc, max_height)
  end.

(** The rings of the signature are those collected; the rows of a full one are
    its columns. *)
Definition same_rings_full (pubkeys mixRing : list (list ctkey)) : bool :=
  forallb (fun ring => bool_decide (length ring = length mixRing)) pubkeys && forallb (fun row => bool_decide (length row = length pubkeys)) mixRing &&
  forallb (fun n => forallb (fun m => bool_decide (pubkeys !!! n !!! m = mixRing !!! m !!! n)) (seq 0 (length mixRing))) (seq 0 (length pubkeys)).

(** The commitments [V] of the first bulletproof are those of the outputs
    ([expand_transaction_1]), any other has none. *)
Definition multi_output_proof (sg : rctSig) : bool :=
  match bulletproofs (rct_p sg) with [] => false | _ :: _ => 1 <? zlen (outPk sg) end.

Definition check_rct (tx : transaction) (pubkeys : list (list ctkey)) (rv : rct_full) : bool :=
  let sg := f_sig rv in
  let images := image_or_empty <$> vin (tx_prefix tx) in
  (if (rct_type sg =? RCTTypeSimple) || (rct_type sg =? RCTTypeBulletproof) then
     bool_decide (pubkeys = mixRing rv) && bool_decide (length (MGs (rct_p sg)) = length (vin (tx_prefix tx))) &&
     bool_decide ((fun II => head II) <$> f_II rv = Some <$> images) && verRctNonSemanticsSimple rv
   else if rct_type sg =? RCTTypeFull then
     same_rings_full pubkeys (mixRing rv) && bool_decide (length (MGs (rct_p sg)) = 1%nat) && bool_decide (f_II rv = [images]) && verRct_full rv
   else false) &&
  negb (is_rct_bulletproof (rct_type sg) && (hf_version <? HF_VERSION_BULLETPROOFS) && multi_output_proof sg).

Definition check_tx_inputs (threads : Z) (tx : transaction) (tvc : tx_verification_context) : bool * tx_verification_context * Z :=
  let tx_prefix_hash := get_transaction_prefix_hash (tx_prefix tx) in
  let ins := vin (tx_prefix tx) in
  match (if 2 <=? hf_version then check_mixins tx else None) with
  | Some flag => (false, set_flag flag true tvc, 0)
  | None =>
      if (7 <=? hf_version) && negb (sorted_ins ins None) then (false, set_flag f_failed true tvc, 0)
      else
        match check_vins threads tx tx_prefix_hash ins 0 tvc 0 with
        | (None, tvc, h) => (false, tvc, h)
        | (Some (pubkeys, results), tvc, h) =>
            if version (tx_prefix tx) =? 1 then (negb (1 <? threads) || forallb id results, tvc, h)
            else
              match expand_transaction_2 tx tx_prefix_hash pubkeys with
              | None => (false, tvc, h)
              | Some rv => (check_rct tx pubkeys rv, tvc, h)
              end
        end
  end.

(** ** The members of a ring, by one query each *)
Definition members (amount : Z) (absolute_offsets : list Z) : option (list output_data_t) := mapM (get_output_key t amount) absolute_offsets.
Definition unlocked (o : output_data_t) : bool := is_tx_spendtime_unlocked (height db) hf_version now (od_unlock_time o).
Definition member_key (o : output_data_t) : ctkey := (od_pubkey o, od_commitment o).
Definition last_height (max_height : Z) (outs : list output_data_t) : Z :=
  match last outs with Some o => if max_height <? od_height o then od_height o else max_height | None => max_height end.

(** What is prefetched for an input is right, as far as it goes. *)
Definition faithful (found : option (list output_data_t)) (amount : Z) (absolute_offsets : list Z) : Prop :=
  match found with None => True | Some outs => members amount (take (length outs) absolute_offsets) = Some outs end.

Lemma collect_members amount abs :
  (outputs ← get_output_keys t amount abs true; if bool_decide (length abs = length outputs) then Some outputs else None) = members amount abs.
Proof.
  unfold members. induction abs as [|i abs IH]; [done|]. cbn [get_output_keys mapM]. change (get_output_key t amount i) with (output_amounts t !! (amount, i) ≫= output_data amount). destruct (output_amounts t !! (amount, i)) as [ok|]; [|done].
  cbn [mbind option_bind]. destruct (output_data amount ok) as [d|]; [|done]. cbn [mbind option_bind]. rewrite <- IH.
  destruct (get_output_keys t amount abs true) as [outs|]; [|done]. cbn [mbind option_bind length]. destruct (decide (length abs = length outs)) as [E|E].
  - by rewrite !bool_decide_true by congruence.
  - by rewrite !bool_decide_false by congruence.
Qed.

Lemma members_app amount l1 l2 : members amount (l1 ++ l2) = o1 ← members amount l1; o2 ← members amount l2; Some (o1 ++ o2).
Proof. unfold members. induction l1 as [|i l1 IH]; [cbn; by destruct (mapM _ l2)|]. cbn [app mapM]. destruct (get_output_key t amount i); [|done]. cbn [mbind option_bind]. rewrite IH. destruct (mapM _ l1); [|done]. cbn [mbind option_bind]. by destruct (mapM _ l2). Qed.

Lemma members_length amount abs outs : members amount abs = Some outs -> length outs = length abs.
Proof. intros E%mapM_Some. symmetry. by eapply Forall2_length. Qed.

(** The loop on as many outputs as there are offsets, or on none. *)
Lemma scan_loop_members amount abs outs h : length outs = length abs ->
  scan_loop amount abs outs h = if forallb unlocked outs then Some (member_key <$> outs, last_height h outs) else None.
Proof.
  revert outs h. induction abs as [|i abs IH]; intros outs h Hl; [by destruct outs|]. destruct outs as [|o outs]; [done|]. injection Hl as Hl. cbn [scan_loop mbind option_bind forallb tail].
  change (is_tx_spendtime_unlocked (height db) hf_version now (od_unlock_time o)) with (unlocked o). destruct (unlocked o); [|done]. cbn [negb andb]. rewrite (IH outs) by done.
  destruct (forallb unlocked outs); [|done]. cbn [mbind option_bind fmap list_fmap]. match goal with |- Some (_, ?x) = Some (_, ?y) => enough (x = y) as -> by done end. unfold last_height. destruct abs, outs; [|done..|done]. cbn [last]. rewrite bool_decide_true by done. done.
Qed.

Lemma scan_loop_none amount abs h : scan_loop amount abs [] h = outs ← members amount abs; if forallb unlocked outs then Some (member_key <$> outs, last_height h outs) else None.
Proof.
  assert (forall h, scan_loop amount abs [] h = outs ← members amount abs; scan_loop amount abs outs h) as E.
  - induction abs as [|i abs IH]; intros h0; [done|]. cbn [scan_loop members mapM]. unfold members in *. cbn [mapM]. destruct (get_output_key t amount i) as [o|]; [|done]. cbn [mbind option_bind tail].
    destruct (negb _) eqn:Eu.
    + destruct (mapM _ abs); [|done]. cbn [mbind option_bind mret option_ret tail]. by rewrite Eu.
    + rewrite IH. destruct (mapM _ abs); [|done]. cbn [mbind option_bind mret option_ret tail]. by rewrite Eu.
  - rewrite E. destruct (members amount abs) as [outs|] eqn:Em; [|done]. cbn [mbind option_bind]. apply scan_loop_members. by eapply members_length.
Qed.

(** The ring of an input: its members exist and are unlocked. *)
Definition ring_of (amount : Z) (key_offsets : list Z) (max_height : Z) : option (list ctkey * Z) :=
  if bool_decide (key_offsets = []) then None
  else
    outs ← members amount (relative_output_offsets_to_absolute key_offsets);
    if forallb unlocked outs then Some (member_key <$> outs, last_height max_height outs) else None.

Lemma scan_outputkeys_spec amount offs img ph h : faithful (its ← scanned !! ph; its !! img) amount (relative_output_offsets_to_absolute offs) ->
  scan_outputkeys_for_indexes amount offs img ph h = ring_of amount offs h.
Proof.
  unfold scan_outputkeys_for_indexes, ring_of. case_bool_decide; [done|]. set (abs := relative_output_offsets_to_absolute offs). cbv zeta.
  destruct (its ← scanned !! ph; its !! img) as [outs|]; cbn [faithful collect_outputs].
  - intros Hf. destruct (decide (0 < length outs < length abs)%nat) as [Hl|Hl].
    + rewrite !bool_decide_true by lia. cbn [andb].
      assert (members amount abs = add ← members amount (drop (length outs) abs); Some (outs ++ add)) as ->
        by (rewrite <- (take_drop (length outs) abs) at 1; by rewrite members_app, Hf).
      rewrite <- (collect_members amount (drop (length outs) abs)). destruct (get_output_keys t amount (drop _ abs) true) as [add|]; [|done]. cbn [mbind option_bind].
      case_bool_decide as El; [|done]. cbn [mbind option_bind]. apply scan_loop_members. rewrite length_app, <- El, length_drop. lia.
    + assert (bool_decide (length outs < length abs)%nat && bool_decide (0 < length outs)%nat = false) as ->
        by (destruct (bool_decide_reflect (length outs < length abs)%nat); [|done]; apply bool_decide_false; lia).
      cbn [mbind option_bind]. destruct outs as [|o outs]; [apply scan_loop_none|]. rewrite take_ge in Hf by (cbn [length] in *; lia). rewrite Hf.
      apply scan_loop_members. by eapply members_length.
  - intros _. rewrite collect_members. destruct (members amount abs) as [outs|] eqn:E; [|done]. apply scan_loop_members. by eapply members_length.
Qed.

Lemma length_absolute offs : length (relative_output_offsets_to_absolute offs) = length offs.
Proof. clear. destruct offs as [|x l]; [done|]. cbn. f_equal. revert x. induction l as [|y l IH]; intros x; [done|]. cbn. f_equal. apply IH. Qed.

Lemma ring_of_length amount offs h ring h' : ring_of amount offs h = Some (ring, h') -> length ring = length offs.
Proof.
  unfold ring_of. case_bool_decide; [done|]. destruct (members amount _) as [outs|] eqn:E; [|done]. cbn [mbind option_bind]. destruct (forallb unlocked outs); [|done].
  intros [= <- _]. rewrite length_fmap, (members_length _ _ _ E). apply length_absolute.
Qed.

Lemma check_tx_input_spec v amount offs img ph sig h : faithful (its ← scanned !! ph; its !! img) amount (relative_output_offsets_to_absolute offs) ->
  check_tx_input v amount offs img ph sig h =
    match ring_of amount offs h with
    | None => (None, h)
    | Some (ring, h) => if (v =? 1) && negb (bool_decide (length sig = length ring)) then (None, h) else (Some ring, h)
    end.
Proof.
  intros Hf. unfold check_tx_input. rewrite scan_outputkeys_spec by done. destruct (ring_of amount offs h) as [[ring h']|] eqn:E; [|done].
  apply ring_of_length in E. by rewrite bool_decide_true.
Qed.

(** ** What is accepted *)
Definition scan_faithful (ph : blob) (i : txin_v) : Prop :=
  match i with txin_to_key amount offs img => faithful (its ← scanned !! ph; its !! img) amount (relative_output_offsets_to_absolute offs) | _ => True end.

(** An input spends one of the members of a ring: they exist and are unlocked,
    and the key image has not been spent. *)
Definition spends (i : txin_v) (ring : list ctkey) : Prop :=
  exists amount offs img outs, i = txin_to_key amount offs img /\ offs <> [] /\ has_key_image db img = false /\
    members amount (relative_output_offsets_to_absolute offs) = Some outs /\ forallb unlocked outs = true /\ ring = member_key <$> outs.

Lemma spends_ring_of amount offs img ring h : spends (txin_to_key amount offs img) ring <->
  offs <> [] /\ has_key_image db img = false /\ exists h', ring_of amount offs h = Some (ring, h').
Proof.
  unfold ring_of. split.
  - intros (a & o & k & outs & [= <- <- <-] & Ho & Hk & Em & Hu & ->). split; [done|]. split; [done|]. rewrite bool_decide_false by done. rewrite Em. cbn [mbind option_bind]. rewrite Hu. by eexists.
  - intros (Ho & Hk & h' & E). rewrite bool_decide_false in E by done. destruct (members amount _) as [outs|] eqn:Em; [|done]. cbn [mbind option_bind] in E.
    destruct (forallb unlocked outs) eqn:Hu; [|done]. injection E as <- _. by exists amount, offs, img, outs.
Qed.

(** A ring signature of a transaction of version 1. *)
Definition signed_v1 (tx : transaction) (ph : blob) (n : nat) (i : txin_v) (ring : list ctkey) : Prop :=
  exists sig, signatures tx !! n = Some sig /\ length sig = length ring /\ check_ring_signature ph (image_or_empty i) ring sig = true.

Lemma check_vins_sound threads tx ph ins n tvc h rings results tvc' h' : Forall (scan_faithful ph) ins ->
  check_vins threads tx ph ins n tvc h = (Some (rings, results), tvc', h') -> tvc' = tvc /\ Forall2 spends ins rings /\
  (version (tx_prefix tx) = 1 -> threads <= 1 \/ forallb id results = true -> forall j i ring, ins !! j = Some i -> rings !! j = Some ring -> signed_v1 tx ph (n + j) i ring).
Proof.
  intros Hf. revert n h rings results. induction Hf as [|i ins Hi Hf IH]; intros n h rings results; cbn [check_vins].
  { intros [= <- <- <- <-]. split; [done|]. split; [constructor|done]. }
  destruct i as [| | |amount offs img]; try done. case_bool_decide as Eo; [done|]. destruct (has_key_image db img) eqn:Ek; [done|].
  destruct ((version (tx_prefix tx) =? 1) && _) eqn:Es; [done|]. rewrite check_tx_input_spec by done. destruct (ring_of amount offs h) as [[ring h1]|] eqn:Er; [|done].
  set (sig := if version (tx_prefix tx) =? 1 then signatures tx !!! n else []). destruct ((version (tx_prefix tx) =? 1) && negb (bool_decide (length sig = length ring))) eqn:El; [done|].
  set (r := if version (tx_prefix tx) =? 1 then check_ring_signature ph img ring sig else false). destruct (_ && _ && negb r) eqn:Et; [done|].
  destruct (check_vins threads tx ph ins (S n) tvc h1) as [[[[rs res]|] tvc1] h2] eqn:E; [|done]. intros [= <- <- <- <-].
  destruct (IH _ _ _ _ E) as (-> & Hs & Hv). split; [done|]. split; [constructor; [by apply (spends_ring_of _ _ _ _ h); eauto|done]|].
  intros Ev Hr j i0 ring0. assert (threads <= 1 \/ forallb id res = true) as Hr' by (destruct Hr as [|Hr]; [by left|]; right; cbn in Hr; by apply andb_true_iff in Hr as [_ ?]).
  assert (sig = signatures tx !!! n) as Esig by (unfold sig; by rewrite Ev). assert (r = check_ring_signature ph img ring sig) as Erc by (unfold r; by rewrite Ev).
  clearbody sig r. rewrite Ev in El, Es, Et. cbn [Z.eqb Pos.eqb andb] in El, Es, Et. destruct j as [|j].
  - intros [= <-] [= <-]. rewrite Nat.add_0_r. rewrite negb_false_iff, bool_decide_eq_true in El, Es. exists sig. split; [rewrite Esig; by apply list_lookup_lookup_total_lt|]. split; [done|].
    change (image_or_empty (txin_to_key amount offs img)) with img. rewrite <- Erc. destruct Hr as [Hr|Hr]; [|cbn in Hr; by apply andb_true_iff in Hr as [? _]]. rewrite (proj2 (Z.leb_le threads 1)) in Et by done. by destruct r.
  - intros H1 H2. rewrite <- Nat.add_succ_comm. by apply Hv.
Qed.

Lemma check_vins_complete threads tx ph ins n tvc h rings : Forall (scan_faithful ph) ins -> Forall2 spends ins rings ->
  (version (tx_prefix tx) = 1 -> forall j i ring, ins !! j = Some i -> rings !! j = Some ring -> signed_v1 tx ph (n + j) i ring) ->
  exists results h', check_vins threads tx ph ins n tvc h = (Some (rings, results), tvc, h') /\ (version (tx_prefix tx) = 1 -> forallb id results = true).
Proof.
  intros Hf Hs. revert n h Hf. induction Hs as [|i ring ins rings Hi Hs IH]; intros n h Hf Hv; cbn [check_vins]; [by eexists [], h|].
  apply Forall_cons in Hf as [Hf1 Hf]. pose proof Hi as (amount & offs & img & outs & -> & Ho & Hk & _). apply (spends_ring_of _ _ _ _ h) in Hi as (_ & _ & h1 & Er).
  rewrite bool_decide_false by done. rewrite Hk. destruct (IH (S n) h1 Hf) as (res & h2 & E & Hr).
  { intros Ev j i0 r0 H1 H2. rewrite Nat.add_succ_comm. by apply (Hv Ev (S j)). }
  destruct (Z.eqb_spec (version (tx_prefix tx)) 1) as [Ev|Ev]; cbn [andb].
  - destruct (Hv Ev 0%nat (txin_to_key amount offs img) ring eq_refl eq_refl) as (sig & El & Hl & Hc). rewrite Nat.add_0_r in El. pose proof (lookup_lt_Some _ _ _ El).
    rewrite bool_decide_true by done. cbn [negb]. rewrite check_tx_input_spec by done. rewrite Er, Ev. rewrite (list_lookup_total_correct _ _ _ El), bool_decide_true by done. cbn [Z.eqb Pos.eqb andb negb].
    change (image_or_empty (txin_to_key amount offs img)) with img in Hc. rewrite Hc. cbn [negb]. rewrite andb_false_r, E. eexists _, _. split; [done|]. intros _. cbn. by apply Hr.
  - rewrite check_tx_input_spec by done. rewrite Er. rewrite (proj2 (Z.eqb_neq _ 1) Ev). cbn [andb]. rewrite E. by eexists _, _.
Qed.

(** ** Ring sizes and order *)
Definition ring_size (i : txin_v) : Z := match i with txin_to_key _ offs _ => zlen offs | _ => 0 end.
Definition unmixable (i : txin_v) : bool :=
  match i with txin_to_key amount _ _ => negb (amount =? 0) && (get_num_outputs t amount <=? min_mixin) | _ => false end.
Definition plain_input (i : txin_v) : Prop := exists amount offs img, i = txin_to_key amount offs img /\ 0 < zlen offs < 2 ^ 64.

Lemma count_mixin_fold ins m : Forall plain_input ins -> 0 <= n_unmixable m -> let m' := foldl count_mixin m ins in
  (forall x, mixin m' <= x <-> mixin m <= x \/ Exists (fun i => ring_size i - 1 <= x) ins) /\
  (0 < n_unmixable m' <-> 0 < n_unmixable m \/ Exists (fun i => unmixable i = true) ins).
Proof.
  intros Hi. revert m. induction Hi as [|i ins (amount & offs & img & -> & Hl) Hi IH]; intros m Hm; cbn [foldl].
  { split; [intros x|]; rewrite Exists_nil; tauto. }
  set (i := txin_to_key amount offs img) in *. set (m1 := count_mixin m i).
  assert (mixin m1 = Z.min (mixin m) (ring_size i - 1) /\ n_unmixable m1 = n_unmixable m + (if unmixable i then 1 else 0)) as [E1 E2].
  { unfold m1, i, count_mixin, unmixable, ring_size. rewrite wrap_small by (unfold in_range; lia). fold min_mixin.
    destruct (Z.ltb_spec (zlen offs - 1) (mixin m)), (amount =? 0), (get_num_outputs t amount <=? min_mixin); cbn [negb andb orb mixin n_unmixable]; lia. }
  destruct (IH m1) as [H1 H2]; [rewrite E2; destruct (unmixable i); lia|]. split.
  - intros x. rewrite H1, E1, Exists_cons. split; [intros [?|?]; [|tauto]|intros [?|[?|?]]; [| |tauto]]; (destruct (Z.min_spec (mixin m) (ring_size i - 1)) as [[? E]|[? E]]; rewrite E in *; lia) || lia.
  - rewrite H2, E2, Exists_cons. destruct (unmixable i); [split; [intros _; right; by left|left; lia]|]. rewrite Z.add_0_r. split; [intros [?|?]; tauto|intros [?|[?|?]]; [tauto|done|tauto]].
Qed.

(** From version 10, rings have 21 members or more, one of them 21; and the
    transaction is of version 2, or of version 1 with an input of an amount that
    few outputs have. *)
Lemma check_mixins_v10 tx : HF_VERSION_MIN_MIXIN_20 <= hf_version -> Forall plain_input (vin (tx_prefix tx)) ->
  check_mixins tx = None <-> Forall (fun i => 21 <= ring_size i) (vin (tx_prefix tx)) /\ Exists (fun i => ring_size i = 21) (vin (tx_prefix tx)) /\
    (version (tx_prefix tx) = 2 \/ version (tx_prefix tx) = 1 /\ Exists (fun i => unmixable i = true) (vin (tx_prefix tx))).
Proof.
  intros Hv Hi. unfold check_mixins, HF_VERSION_MIN_MIXIN_20, HF_VERSION_ENFORCE_RCT in *. destruct (count_mixin_fold (vin (tx_prefix tx)) (Mixins 0 0 (2 ^ 64 - 1)) Hi) as [H1 H2]; [done|]. set (m := foldl _ _ _) in *. cbn [mixin n_unmixable] in H1, H2.
  assert (min_mixin = 20) as -> by (unfold min_mixin, HF_VERSION_MIN_MIXIN_20; by rewrite (proj2 (Z.leb_le 10 hf_version))).
  rewrite (proj2 (Z.leb_le 10 hf_version)), (proj2 (Z.leb_gt hf_version 3)), (proj2 (Z.leb_le 6 hf_version)) by lia. cbn [andb].
  assert (mixin m = 20 <-> Forall (fun i => 21 <= ring_size i) (vin (tx_prefix tx)) /\ Exists (fun i => ring_size i = 21) (vin (tx_prefix tx))) as Hm.
  { assert (mixin m = 20 <-> mixin m <= 20 /\ ~ mixin m <= 19) as -> by lia. rewrite !H1. split.
    - intros [[?|He] Hn]; [lia|]. assert (Forall (fun i => 21 <= ring_size i) (vin (tx_prefix tx))) as Hall.
      { apply Forall_forall. intros i Hin. destruct (decide (21 <= ring_size i)); [done|]. destruct Hn. right. apply Exists_exists. exists i. split; [done|lia]. }
      split; [done|]. apply Exists_exists in He as (i & Hin & Hs). apply Exists_exists. exists i. split; [done|]. rewrite Forall_forall in Hall. specialize (Hall i Hin). cbn in *. lia.
    - intros [Hall He]. split; [right; eapply Exists_impl; [exact He|]; cbn; intros; lia|]. intros [?|(i & Hin & Hs)%Exists_exists]; [lia|]. rewrite Forall_forall in Hall. specialize (Hall i Hin). cbn in *. lia. }
  destruct (Z.eqb_spec (mixin m) 20) as [E|E]; cbn [negb]; [|split; [done|intros (? & ? & _); tauto]]. rewrite E. cbn [Z.ltb Z.compare Pos.compare Pos.compare_cont andb].
  apply Hm in E as [Ha Hb]. set (v := version (tx_prefix tx)). destruct (Z.ltb_spec 2 v); [split; [done|intros (_ & _ & [?|[? _]]); lia]|].
  destruct (Z.ltb_spec 0 (n_unmixable m)) as [Hu|Hu].
  - apply H2 in Hu as [?|Hu]; [lia|]. destruct (Z.ltb_spec v 1); [split; [done|intros (_ & _ & [?|[? _]]); lia]|]. split; [|done]. intros _. split; [done|]. split; [done|]. destruct (decide (v = 2)); [by left|right; split; [lia|done]].
  - destruct (Z.ltb_spec v 2) as [Hv2|Hv2]; [|split; [|done]; intros _; split; [done|]; split; [done|]; left; lia]. split; [done|]. intros (_ & _ & [?|[_ Hu']]); [lia|]. assert (0 < n_unmixable m) by (apply H2; by right). lia.
Qed.

(** The first byte that differs decides. *)
Definition above (a b : blob) : Prop := memcmp b a < 0.

Lemma sorted_ins_last ins l : Forall plain_input ins -> (sorted_ins ins (Some l) = true <-> Sorted above (l :: (image_or_empty <$> ins))).
Proof.
  intros Hi. revert l. induction Hi as [|i ins (amount & offs & img & -> & _) Hi IH]; intros l; cbn [sorted_ins fmap list_fmap]; [split; [by repeat constructor|done]|].
  change (image_or_empty (txin_to_key amount offs img)) with img. destruct (Z.leb_spec 0 (memcmp img l)) as [Hl|Hl].
  - split; [done|]. intros Hx. apply Sorted_inv in Hx as [_ Hx]. apply HdRel_inv in Hx. unfold above in Hx. lia.
  - rewrite IH. split; [intros Hx; constructor; [done|by constructor]|]. by intros [? _]%Sorted_inv.
Qed.
Lemma sorted_ins_spec ins : Forall plain_input ins -> (sorted_ins ins None = true <-> Sorted above (image_or_empty <$> ins)).
Proof.
  intros Hi. destruct Hi as [|i ins (amount & offs & img & -> & _) Hi]; [split; [constructor|done]|]. cbn [sorted_ins fmap list_fmap]. by apply sorted_ins_last.
Qed.

Lemma memcmp_refl a : memcmp a a = 0.
Proof. clear. induction a as [|x a IH]; [done|]. cbn. by rewrite Z.eqb_refl. Qed.
Lemma above_trans : Relations_1.Transitive above.
Proof.
  clear. unfold above. intros a b c. revert a c. induction b as [|y b IH]; intros [|x a] [|z c]; cbn; try done. destruct (Z.eqb_spec y x), (Z.eqb_spec z y), (Z.eqb_spec z x); subst; try lia. apply IH.
Qed.
(** Sorted inputs have different key images. *)
Lemma sorted_nodup l : Sorted above l -> NoDup l.
Proof.
  intros Hs. apply Sorted_StronglySorted in Hs; [|exact above_trans]. induction Hs as [|x l Hs IH Hx]; constructor; [|done].
  intros Hin. rewrite Forall_forall in Hx. specialize (Hx x Hin). unfold above in Hx. rewrite memcmp_refl in Hx. lia.
Qed.

Lemma forallb_elem {A} (f : A -> bool) l : forallb f l = true <-> forall x, x ∈ l -> f x = true.
Proof. clear. rewrite forallb_forall. split; intros Hf x Hx; apply Hf; by apply list_elem_of_In. Qed.
Lemma forallb_lengths {A} (n : nat) (l : list (list A)) : forallb (fun x => bool_decide (length x = n)) l = true <-> Forall (fun x => length x = n) l.
Proof. clear. rewrite forallb_elem, Forall_forall. by setoid_rewrite bool_decide_eq_true. Qed.

Lemma columns_row pubkeys n m : Forall (fun ring : list ctkey => length ring = n) pubkeys -> (m < n)%nat -> omap (fun ring => ring !! m) pubkeys = (fun ring => ring !!! m) <$> pubkeys.
Proof. clear. intros Hl Hm. induction Hl as [|ring pubkeys E Hl IH]; [done|]. cbn. rewrite (list_lookup_lookup_total_lt ring m) by lia. by rewrite IH. Qed.

(** The rows a full signature is given are the rings when these have one size. *)
Lemma same_rings_columns first pubkeys : same_rings_full (first :: pubkeys) (columns (first :: pubkeys)) = forallb (fun ring => bool_decide (length ring = length first)) pubkeys.
Proof.
  clear. unfold same_rings_full, columns. change (default [] (head (first :: pubkeys))) with first. rewrite length_fmap, length_seq. cbn [forallb]. rewrite (bool_decide_true (length first = length first)) by done. cbn [andb].
  destruct (forallb _ pubkeys) eqn:E; [|done]. cbn [andb]. apply forallb_lengths in E.
  assert (Forall (fun ring => length ring = length first) (first :: pubkeys)) as Hl by by constructor.
  apply andb_true_iff. split.
  - apply forallb_lengths, Forall_fmap, Forall_forall. intros m Hm%elem_of_seq. unfold compose. rewrite (columns_row _ (length first)) by (done || lia). apply length_fmap.
  - apply forallb_elem. intros n Hn%elem_of_seq. apply forallb_elem. intros m Hm%elem_of_seq. apply bool_decide_eq_true.
    erewrite (list_lookup_total_correct (_ <$> seq 0 (length first)) m) by (rewrite list_lookup_fmap, lookup_seq_lt by lia; reflexivity).
    rewrite (columns_row _ (length first)) by (done || lia). symmetry. apply list_lookup_total_correct. rewrite list_lookup_fmap, (list_lookup_lookup_total_lt (first :: pubkeys) n) by lia. done.
Qed.

(** A RingCT signature over the rings. *)
Definition rct_signed (tx : transaction) (rings : list (list ctkey)) : Prop :=
  let sg := rct_signatures tx in
  let ph := get_transaction_prefix_hash (tx_prefix tx) in
  let images := image_or_empty <$> vin (tx_prefix tx) in
  let dests := out_dest <$> vout (tx_prefix tx) in
  (length (MGs (rct_p sg)) = length (vin (tx_prefix tx)) /\ verRctNonSemanticsSimple (RctFull sg ph rings dests ((fun i => [i]) <$> images)) = true) \/
  (Forall (fun ring => length ring = length (default [] (head rings))) rings /\
   verRct_full (RctFull (with_MGs sg [default (MgSig [] zero_key) (head (MGs (rct_p sg)))]) ph (columns rings) dests [images]) = true).

Record tx_accepted (tx : transaction) (rings : list (list ctkey)) : Prop := {
  ac_spends : Forall2 spends (vin (tx_prefix tx)) rings;
  ac_sizes : Forall (fun ring => 21 <= zlen ring) rings /\ Exists (fun ring => zlen ring = 21) rings;
  ac_sorted : Sorted above (image_or_empty <$> vin (tx_prefix tx));
  ac_signed : (version (tx_prefix tx) = 2 /\ rct_signed tx rings) \/
    (version (tx_prefix tx) = 1 /\ Exists (fun i => unmixable i = true) (vin (tx_prefix tx)) /\
     forall j i ring, vin (tx_prefix tx) !! j = Some i -> rings !! j = Some ring -> signed_v1 tx (get_transaction_prefix_hash (tx_prefix tx)) j i ring)
}.

(** On rings that are not empty, the signature is checked as it should be. *)
Lemma check_rct_spec tx rings : HF_VERSION_BULLETPROOFS <= hf_version -> version (tx_prefix tx) = 2 -> Forall (fun ring => ring <> []) rings -> rings <> [] ->
  match expand_transaction_2 tx (get_transaction_prefix_hash (tx_prefix tx)) rings with None => false | Some rv => check_rct tx rings rv end = true <-> rct_signed tx rings.
Proof.
  intros Hv E2 Hne Hr. destruct rings as [|first rings]; [done|]. apply Forall_cons in Hne as [Hf Hne]. unfold expand_transaction_2, rct_signed. rewrite E2. cbn [Z.eqb Pos.eqb negb].
  change (default [] (head (first :: rings))) with first. set (sg := rct_signatures tx). set (ph := get_transaction_prefix_hash _). set (dests := out_dest <$> _). set (images := image_or_empty <$> _). rewrite (bool_decide_false (first = [])) by done. cbn [orb].
  assert (forall s : rctSig, negb (is_rct_bulletproof (rct_type s) && (hf_version <? HF_VERSION_BULLETPROOFS) && multi_output_proof s) = true) as Hb
    by (intros s; rewrite (proj2 (Z.ltb_ge hf_version HF_VERSION_BULLETPROOFS)), andb_false_r by done; done).
  assert (forall rv, verRctNonSemanticsSimple rv = true -> is_rct_simple (rct_type (f_sig rv)) = true) as Hs by (intros rv; unfold verRctNonSemanticsSimple; destruct (is_rct_simple _); done).
  assert (forall rv, verRct_full rv = true -> rct_type (f_sig rv) = RCTTypeFull) as Hfu by (intros rv; unfold verRct_full; destruct (Z.eqb_spec (rct_type (f_sig rv)) RCTTypeFull); done).
  destruct (Z.eqb_spec (rct_type sg) RCTTypeFull) as [Et|Et].
  - transitivity (same_rings_full (first :: rings) (columns (first :: rings)) = true /\ verRct_full (RctFull (with_MGs sg [default (MgSig [] zero_key) (head (MGs (rct_p sg)))]) ph (columns (first :: rings)) dests [images]) = true).
    + destruct (forallb (fun ring => bool_decide (length ring <= length first)%nat) (first :: rings)) eqn:El; cbn [negb].
      * unfold check_rct. rewrite Hb, andb_true_r. cbn [f_sig mixRing f_II with_MGs rct_type rct_p MGs]. fold images. rewrite Et. cbn [Z.eqb Pos.eqb orb RCTTypeFull RCTTypeSimple RCTTypeBulletproof].
        rewrite !bool_decide_true by done. rewrite !andb_true_r. apply andb_true_iff.
      * split; [done|]. intros [Hsr _]. rewrite same_rings_columns in Hsr. assert (forallb (fun ring => bool_decide (length ring <= length first)%nat) (first :: rings) = true) as Hx; [|congruence].
        apply forallb_lengths in Hsr. rewrite Forall_forall in Hsr. apply forallb_elem. intros r [->|Hin]%elem_of_cons; apply bool_decide_eq_true; [done|]. by rewrite (Hsr r Hin).
    + rewrite same_rings_columns. split.
      * intros [Hsr Hver]. right. split; [|done]. constructor; [done|]. by apply forallb_lengths in Hsr.
      * intros [[_ Hver]|[Hl Hver]]; [apply Hs in Hver; cbn [f_sig] in Hver; by rewrite Et in Hver|]. split; [|done]. apply Forall_cons in Hl as [_ Hl]. by apply forallb_lengths.
  - transitivity (length (MGs (rct_p sg)) = length (vin (tx_prefix tx)) /\ verRctNonSemanticsSimple (RctFull sg ph (first :: rings) dests ((fun i => [i]) <$> images)) = true).
    + destruct ((rct_type sg =? RCTTypeSimple) || (rct_type sg =? RCTTypeBulletproof)) eqn:Es.
      * case_bool_decide as El; cbn [negb]; [|split; [done|intros [? _]; done]]. unfold check_rct. rewrite Hb, andb_true_r. cbn [f_sig mixRing f_II]. fold sg images. rewrite Es. rewrite !bool_decide_true; [cbn [andb]; tauto|by rewrite <- list_fmap_compose|done|done].
      * split; [done|]. intros [_ Hver%Hs]. cbn [f_sig] in Hver. unfold is_rct_simple in Hver. by rewrite Es in Hver.
    + split; [tauto|]. intros [?|[_ Hver%Hfu]]; [tauto|]. done.
Qed.

Lemma spends_size i ring : spends i ring -> zlen ring = ring_size i /\ ring <> [].
Proof.
  intros (amount & offs & img & outs & -> & Ho & _ & Em & _ & ->). apply members_length in Em. rewrite length_absolute in Em. unfold ring_size, zlen. rewrite length_fmap, Em.
  split; [done|]. intros E. apply fmap_nil_inv in E. subst outs. by destruct offs.
Qed.

Lemma accepted_plain tx rings : Forall (fun i => ring_size i < 2 ^ 64) (vin (tx_prefix tx)) -> Forall2 spends (vin (tx_prefix tx)) rings -> Forall plain_input (vin (tx_prefix tx)).
Proof.
  intros Hb Hs. apply Forall_forall. intros i Hin. rewrite Forall_forall in Hb. specialize (Hb i Hin). apply list_elem_of_lookup in Hin as [j Ej].
  destruct (Forall2_lookup_l _ _ _ _ _ Hs Ej) as (ring & _ & amount & offs & img & outs & -> & Ho & _). exists amount, offs, img. split; [done|].
  split; [|exact Hb]. destruct offs; [done|]. rewrite zlen_cons. pose proof (zlen_nonneg offs). lia.
Qed.

Lemma sizes_iff ins rings (P : Z -> Prop) : Forall2 spends ins rings -> (Forall (fun i => P (ring_size i)) ins <-> Forall (fun r => P (zlen r)) rings) /\
  (Exists (fun i => P (ring_size i)) ins <-> Exists (fun r => P (zlen r)) rings).
Proof.
  induction 1 as [|i ring ins rings Hi Hs [IH1 IH2]]; [by rewrite !Forall_nil, !Exists_nil|]. destruct (spends_size _ _ Hi) as [E _].
  rewrite !Forall_cons, !Exists_cons, E, IH1, IH2. done.
Qed.

Lemma sizes_agree ins rings : Forall2 spends ins rings -> (Forall (fun i => 21 <= ring_size i) ins /\ Exists (fun i => ring_size i = 21) ins <->
  Forall (fun r => 21 <= zlen r) rings /\ Exists (fun r => zlen r = 21) rings).
Proof. intros Hs. by rewrite (proj1 (sizes_iff _ _ (fun z => 21 <= z) Hs)), (proj2 (sizes_iff _ _ (fun z => z = 21) Hs)). Qed.

(** The context only takes notes. *)
Lemma check_vins_tvc threads tx ph ins n tvc tvc' h : (check_vins threads tx ph ins n tvc h).1.1 = (check_vins threads tx ph ins n tvc' h).1.1.
Proof.
  revert n h. induction ins as [|i ins IH]; intros n h; [done|]. destruct i as [| | |amount offs img]; try done. cbn [check_vins]. cbv zeta.
  destruct (bool_decide _); [done|]. destruct (has_key_image db img); [done|]. destruct (_ && negb _); [done|].
  destruct (check_tx_input _ _ _ _ _ _ _) as [[keys|] h']; [|done]. destruct (_ && _ && _); [done|]. specialize (IH (S n) h').
  destruct (check_vins threads tx ph ins (S n) tvc h') as [[[[]|] ?] ?], (check_vins threads tx ph ins (S n) tvc' h') as [[[[]|] ?] ?]; cbn in IH |- *; by simplify_eq.
Qed.

Lemma check_tx_inputs_tvc threads tx tvc tvc' : (check_tx_inputs threads tx tvc).1.1 = (check_tx_inputs threads tx tvc').1.1.
Proof.
  unfold check_tx_inputs. cbv zeta. destruct (if 2 <=? hf_version then _ else _); [done|]. destruct (_ && _); [done|].
  pose proof (check_vins_tvc threads tx (get_transaction_prefix_hash (tx_prefix tx)) (vin (tx_prefix tx)) 0 tvc tvc' 0) as E.
  destruct (check_vins threads tx _ _ 0 tvc 0) as [[[[]|] ?] ?], (check_vins threads tx _ _ 0 tvc' 0) as [[[[]|] ?] ?]; cbn in E; simplify_eq; [|done].
  destruct (_ =? 1); [done|]. by destruct (expand_transaction_2 _ _ _).
Qed.

(** C8: what a transaction must satisfy to spend what it spends.  From version 10
    on, [check_tx_inputs] accepts exactly the transactions whose inputs each name a
    ring of existing, unlocked outputs and a key image that is not spent, with at
    least 21 members in every ring and 21 in one, with strictly decreasing key
    images, and with a RingCT signature (version 2) or, if an amount is rare, ring
    signatures (version 1) that verify over exactly these rings; whatever was
    prefetched of the rings, and whatever the number of threads. *)
Theorem check_tx_inputs_spec threads tx tvc : HF_VERSION_MIN_MIXIN_20 <= hf_version -> Forall (scan_faithful (get_transaction_prefix_hash (tx_prefix tx))) (vin (tx_prefix tx)) ->
  Forall (fun i => ring_size i < 2 ^ 64) (vin (tx_prefix tx)) -> (check_tx_inputs threads tx tvc).1.1 = true <-> exists rings, tx_accepted tx rings.
Proof.
  intros Hv Hf Hb. unfold check_tx_inputs. set (ph := get_transaction_prefix_hash (tx_prefix tx)) in *. cbv zeta. unfold HF_VERSION_MIN_MIXIN_20 in Hv.
  rewrite (proj2 (Z.leb_le 2 hf_version)), (proj2 (Z.leb_le 7 hf_version)) by lia. cbn [andb]. split.
  - destruct (check_mixins tx) eqn:Em; [done|]. destruct (sorted_ins (vin (tx_prefix tx)) None) eqn:Es; [|done]. cbn [negb].
    destruct (check_vins threads tx ph (vin (tx_prefix tx)) 0 tvc 0) as [[[[rings results]|] tvc'] h] eqn:Ev; [|done]. destruct (check_vins_sound _ _ _ _ _ _ _ _ _ _ _ Hf Ev) as (-> & Hs & H1).
    pose proof (accepted_plain _ _ Hb Hs) as Hp. apply sorted_ins_spec in Es; [|done]. apply check_mixins_v10 in Em as (M1 & M2 & M3); [|done..].
    intros Ht. exists rings. split; [done|by apply (sizes_agree _ _ Hs)|done|]. destruct M3 as [E2|[E1 Hu]]; [left|right].
    + split; [done|]. rewrite E2 in Ht. cbn [Z.eqb Pos.eqb] in Ht. apply check_rct_spec; [done|done| | |].
      * apply Forall_forall. intros r [j Ej]%list_elem_of_lookup. destruct (Forall2_lookup_r _ _ _ _ _ Hs Ej) as (i & _ & [_ ?]%spends_size). done.
      * intros ->. apply Forall2_nil_inv_r in Hs. rewrite Hs in M2. by apply Exists_nil in M2.
      * fold ph. by destruct (expand_transaction_2 tx ph rings).
    + split; [done|]. split; [done|]. rewrite E1 in Ht. cbn [Z.eqb Pos.eqb fst] in Ht. apply (H1 E1). destruct (Z.ltb_spec 1 threads); [by right|left; lia].
  - intros (rings & [Hs [S1 S2] Hsort Hsig]). pose proof (accepted_plain _ _ Hb Hs) as Hp.
    rewrite (proj2 (check_mixins_v10 tx Hv Hp)); [|destruct (proj2 (sizes_agree _ _ Hs) (conj S1 S2)); split; [done|]; split; [done|]; destruct Hsig as [[? _]|(? & ? & _)]; tauto].
    rewrite (proj2 (sorted_ins_spec _ Hp) Hsort). cbn [negb].
    destruct (check_vins_complete threads tx ph (vin (tx_prefix tx)) 0 tvc 0 rings Hf Hs) as (results & h & -> & Hr); [intros E1; destruct Hsig as [[? _]|(_ & _ & ?)]; [congruence|done]|].
    destruct Hsig as [[E2 Hsig]|(E1 & _)]; [|rewrite E1; cbn [Z.eqb Pos.eqb fst]; by rewrite Hr, orb_true_r].
    rewrite E2. cbn [Z.eqb Pos.eqb]. apply check_rct_spec in Hsig; [|done|done|..].
    + fold ph in Hsig. by destruct (expand_transaction_2 tx ph rings).
    + eapply Forall_impl; [exact S1|]. intros [|]; [by cbn|done].
    + intros ->. by apply Exists_nil in S2.
Qed.
End check.

(** ** What a wallet signs is accepted *)
Lemma gbind_Some {A B} (m : gen A) (k : A -> gen B) n r : gbind m k n = Some r -> exists a n1, m n = Some (a, n1) /\ k a n1 = Some r.
Proof. unfold gbind. destruct (m n) as [[a n1]|]; [|done]. intros E. by exists a, n1. Qed.
Lemma lift_Some {A} (o : option A) n a n1 : lift o n = Some (a, n1) -> o = Some a.
Proof. unfold lift. destruct o; [|done]. by intros [= -> _]. Qed.
Lemma gmapM_length {A B} (f : A -> gen B) l n r n1 : gmapM f l n = Some (r, n1) -> length r = length l.
Proof.
  revert n r n1. induction l as [|x l IH]; intros n r n1; cbn [gmapM]; [by intros [= <- _]|]. intros (y & n2 & _ & (ys & n3 & E & [= <- _])%gbind_Some)%gbind_Some.
  cbn. f_equal. by eapply IH.
Qed.

Section signed.
Context `{CurveLaws, BulletproofsLaws} (rnd : nat -> blob) (Hrnd : forall n, pod_ok 32 (rnd n)).

Lemma genRctSimple_shape msg inSk dests inamounts outamounts fee ring amount_keys kLRki index rt n rv outSk c n' :
  genRctSimple rnd msg inSk dests inamounts outamounts fee ring amount_keys kLRki index rt n = Some ((rv, outSk, c), n') ->
  message rv = msg /\ mixRing rv = ring /\ length (MGs (rct_p (f_sig rv))) = length (f_II rv) /\ (length (f_II rv) <= length inSk)%nat.
Proof.
  unfold genRctSimple. destruct (negb _); [done|]. intros ([[[ranges bps] outPk] masks] & n1 & _ & E1)%gbind_Some.
  apply gbind_Some in E1 as (sumout & n2 & _ & E2). apply gbind_Some in E2 as (ecdh & n3 & _ & E3). apply gbind_Some in E3 as (ps & n4 & _ & E4).
  apply gbind_Some in E4 as (full & n5 & _ & E5). apply gbind_Some in E5 as (mgs & n6 & Em & [= <- _ _ _]). cbn [message mixRing f_sig f_II].
  split; [done|]. split; [done|]. rewrite length_fmap. split; [by destruct rt; cbn; rewrite length_fmap|]. rewrite (gmapM_length _ _ _ _ _ Em).
  unfold make_inputs. rewrite ?length_fmap, ?length_zip_with. lia.
Qed.

Lemma key_image_unique k x a b : key_image_of k x a -> key_image_of k x b -> a = b.
Proof.
  intros (p & Ep & ->) (q & Eq & ->). rewrite Ep in Eq. apply (f_equal ge_frombytes_vartime) in Eq. rewrite !ge_frombytes_tobytes in Eq. by injection Eq as <-.
Qed.

(** C9: what a wallet signs is accepted.  Take a transaction prefix of version 2
    whose inputs name rings of existing, unlocked outputs, of the sizes and in the
    order the rules ask for, and whose key images are unspent and those of the
    outputs really spent; the secrets of one member of each ring; and amounts that
    balance.  Then [genRctSimple] on the hash of the prefix yields a signature (it
    does not fail), and the transaction that carries it passes the checks on
    amounts and [check_tx_inputs], at every version from 10 on. *)
Theorem signed_transaction_accepted db hf_version now p inSk dests inamounts outamounts fee rings amount_keys index rt :
  HF_VERSION_MIN_MIXIN_20 <= hf_version -> version p = 2 -> Forall (fun i => ring_size i < 2 ^ 64) (vin p) ->
  Forall2 (spends db hf_version now) (vin p) rings -> Forall (fun ring => 21 <= zlen ring) rings -> Exists (fun ring => zlen ring = 21) rings ->
  Sorted above (image_or_empty <$> vin p) -> sources_ok inSk rings inamounts index ->
  (forall j i sk ring n pub, vin p !! j = Some i -> inSk !! j = Some sk -> rings !! j = Some ring -> index !! j = Some n -> ring !! n = Some pub ->
    key_image_of pub.1 (le_word sk.1) (image_or_empty i)) ->
  length outamounts = length dests -> length amount_keys = length dests -> provable rt (length dests) ->
  Forall (fun v => is_u64 v) inamounts -> Forall (fun v => is_u64 v) outamounts -> is_u64 fee -> sumZ inamounts = sumZ outamounts + fee ->
  gives (genRctSimple rnd (get_transaction_prefix_hash p) inSk dests inamounts outamounts fee rings amount_keys None index rt) (fun x => let '(rv, _, _) := x in
    verRctSemanticsSimple (f_sig rv) = true /\
    forall tx threads tvc, tx_prefix tx = p -> rct_signatures tx = f_sig rv -> (check_tx_inputs db hf_version now ∅ threads tx tvc).1.1 = true).
Proof.
  intros Hv E2 Hb Hsp S1 S2 Hsort Hsrc Himg Hlo Hlk Hpr Hin Hout Hfee Hbal n. pose proof Hsrc as (L1 & L2 & L3 & Hsrc').
  pose proof (Forall2_length _ _ _ Hsp) as Lv. assert (inSk <> []) as Hne by (intros ->; destruct rings; [by apply Exists_nil in S2|done]).
  destruct (genRctSimple_complete rnd Hrnd (get_transaction_prefix_hash p) inSk dests inamounts outamounts fee rings amount_keys index rt Hne Hsrc Hlo Hlk Hpr Hin Hout Hfee Hbal n)
    as ([[rv outSk] c] & n' & Eg & Hsem & Hnon & _ & Hii). exists (rv, outSk, c), n'. split; [done|]. split; [done|].
  destruct (genRctSimple_shape _ _ _ _ _ _ _ _ _ _ _ _ _ _ _ _ Eg) as (Em & Er & Lm & Ll).
  assert (f_II rv = (fun i => [i]) <$> (image_or_empty <$> vin p)) as EI.
  { apply list_eq. intros j. rewrite !list_lookup_fmap. destruct (vin p !! j) as [i|] eqn:Ei; cbn [fmap option_fmap option_map].
    - pose proof (lookup_lt_Some _ _ _ Ei) as Hj. destruct (lookup_lt_is_Some_2 inSk j) as [sk Es]; [lia|]. destruct (lookup_lt_is_Some_2 rings j) as [ring Eri]; [lia|].
      destruct (lookup_lt_is_Some_2 inamounts j) as [v Ev]; [lia|]. destruct (lookup_lt_is_Some_2 index j) as [m Ex]; [lia|].
      destruct (Hsrc' j sk ring v m Es Eri Ev Ex) as (_ & _ & pub & Ep & _). destruct (Hii j sk ring m pub Es Eri Ex Ep) as (ki & -> & Hki).
      by rewrite (key_image_unique _ _ _ _ Hki (Himg j i sk ring m pub Ei Es Eri Ex Ep)).
    - apply lookup_ge_None in Ei. apply lookup_ge_None. lia. }
  intros tx threads tvc Ep Et. apply check_tx_inputs_spec; rewrite ?Ep; [done| |done|].
  { apply Forall_forall. by intros [] _. }
  exists rings. split; rewrite ?Ep; [done|done|done|]. left. split; [done|]. left. rewrite Ep, Et. split; [rewrite Lm, EI, !length_fmap; done|].
  rewrite <- EI, <- Er, <- Em. exact Hnon.
Qed.
End signed.

#[local] Existing Instances residues residues_laws empty_proofs empty_proofs_laws.

(** ** An example: a ring of 21 outputs *)
Definition ring_member (i : nat) : ctkey := pub (3 + Z.of_nat i) 4 20.
Definition ring_tables : output_tables :=
  OutputTables ∅ (list_to_map ((fun i => ((0, Z.of_nat i), Outkey (Z.of_nat i) (PreRctOutputData (ring_member i).1 0 0) (Some (ring_member i).2))) <$> seq 0 21)) ∅ ∅.
Definition ring_db : chain_db := ChainDb [] ∅ ∅ ∅ ring_tables.
Definition ring_image : blob := ge_tobytes (ge_smul 4 some_hash).
Definition ring_prefix : transaction_prefix := Prefix 2 0 [txin_to_key 0 (0 :: replicate 20 1) ring_image] [Tx_out 0 (target_key (key 9))] [].

Lemma ring_spends : Forall2 (spends ring_db 13 0) (vin ring_prefix) [ring_member <$> seq 0 21].
Proof.
  constructor; [|constructor]. exists 0, (0 :: replicate 20 1), ring_image. eexists. split; [done|]. split; [done|]. split; [done|]. split; [vm_compute; reflexivity|]. split; vm_compute; reflexivity.
Qed.

Lemma ring_sources : sources_ok [(scalar 4, scalar 4)] [ring_member <$> seq 0 21] [20] [1%nat].
Proof.
  split; [done|]. split; [done|]. split; [done|]. intros [|j] sk r v i; [|done]. intros [= <-] Er [= <-] [= <-].
  assert (r = ring_member <$> seq 0 21) as -> by by injection Er as <-. split; [rewrite length_fmap, length_seq; lia|]. split.
  - apply Forall_fmap, Forall_forall. intros i _. apply pub_member.
  - exists (pub 4 4 20). split; [done|]. apply pub_spendable; by_decide.
Qed.

Lemma signed_transaction_accepted_witness :
  gives (genRctSimple some_rnd (get_transaction_prefix_hash ring_prefix) [(scalar 4, scalar 4)] [key 9] [20] [15] 5 [ring_member <$> seq 0 21] [key 11] None [1%nat] RangeProofMultiOutputBulletproof)
    (fun x => let '(rv, _, _) := x in verRctSemanticsSimple (f_sig rv) = true /\
      forall tx threads tvc, tx_prefix tx = ring_prefix -> rct_signatures tx = f_sig rv -> (check_tx_inputs ring_db 13 0 ∅ threads tx tvc).1.1 = true).
Proof.
  apply (signed_transaction_accepted some_rnd some_rnd_ok ring_db 13 0 ring_prefix [(scalar 4, scalar 4)] [key 9] [20] [15] 5 [ring_member <$> seq 0 21] [key 11] [1%nat] RangeProofMultiOutputBulletproof);
    [by_decide|reflexivity|repeat constructor|exact ring_spends|repeat constructor; by_decide|repeat constructor|repeat constructor|exact ring_sources| |reflexivity|reflexivity|by_decide|by_decide|by_decide|by_decide|reflexivity].
  intros [|j] i sk ring n pub; [|intros [=]]. intros [= <-] [= <-] [= <-] [= <-] [= <-]. exists some_hash. split; reflexivity.
Defined.

Lemma check_tx_inputs_spec_witness : ~ exists rings, tx_accepted ring_db 13 0 (Transaction ring_prefix [] rct_null None None) rings.
Proof.
  intros Hx. apply (check_tx_inputs_spec ring_db 13 0 ∅ 4 (Transaction ring_prefix [] rct_null None None) tvc_zero) in Hx; [vm_compute in Hx; discriminate Hx|by_decide|repeat constructor|repeat constructor].
Defined.
