(* ===== verification/TempConsensus.v ===== *)
(** * Temporary consensus

    Model of the leader-based consensus that replaces proof of work:
    src/cryptonote_core/temp_consensus_validator.{h,cpp} (the check every node
    makes of a block), src/cryptonote_core/temp_consensus_leader_service.{h,cpp}
    (the service of a leader that makes one block per time slot) and
    src/daemon/temp_consensus.{h,cpp} (the configuration of a node).

    libsodium is not part of the repository: its three functions are the class
    [Sodium], and what its documentation promises of them the class
    [SodiumLaws].  The node's core is seen through the class [Core]. *)
From Stdlib Require Import ZArith Lia Bool.
From stdpp Require Import prelude strings.
From S2P Require Import Prelude StringTools Varint Archive TxExtra Rct CryptonoteBasic Keccak TreeHash Hashing.
Local Open Scope Z_scope.

#[local] Opaque cn_fast_hash.

(** ** Constants of src/cryptonote_config.h *)
Definition NETWORK_DATA_NODE_PUBLIC_ADDRESS_1 : blob :=
  str "XCA1SkZTKvC1vMR3vzdsBiFY69RXHJYw2TZ7jPTtsFGCUj7JfEaDXuSMBXrhaGHf7QJH5PyBxQK2K7gNs9pYGBGs7zfS7cPHd9"%string.
Definition NETWORK_DATA_NODE_PUBLIC_ADDRESS_2 : blob :=
  str "XCA1d6XRJLYGyHnwoywSTbadrVYc7S8spHTGQRJyw5uLRRycH46wgVx9o1A1MaRwmZTiV16ooDsEPjHnioCyV3xk3wHiFqwWuu"%string.
Definition NETWORK_DATA_NODE_PUBLIC_ADDRESS_3 : blob :=
  str "XCA1UNwXyshf1cuN4LRWxgX84rkoM1fo12AbG7CiuTi27PEuxPicaTfNSA5WtsHHTkZ1GAy4bsd6CXy6ag6YEM9H7oNuBihrzM"%string.
Definition NETWORK_DATA_NODE_PUBLIC_ADDRESS_4 : blob :=
  str "XCA1WDfJTzqLJjn9YgXubf4RnxzUqMrWJaMWQKH8V3tZ9tgtWs5RoXfcHo7vQnZndj7PeyfcUcgkGX6cQNfVrWfC1g2iN84K1w"%string.
Definition NETWORK_DATA_NODE_ED25519_PUBKEY_1 : blob :=
  str "707a57d0ec077e1ae594c6c7afac203aa8a720713e5ce7258b0d6cd33923e1e2"%string.
Definition NETWORK_DATA_NODE_ED25519_PUBKEY_2 : blob :=
  str "6f100bc821a727efb411b334eeb72895cd178de87f821ceaf41b4e7347339bc1"%string.
Definition NETWORK_DATA_NODE_ED25519_PUBKEY_3 : blob :=
  str "5dc835dbf22bf2e40a7ebd9713ae23705f2fe87cf43d1cee75a161ed53f1b89b"%string.
Definition NETWORK_DATA_NODE_ED25519_PUBKEY_4 : blob :=
  str "6210338078086c98b3288c511e2ed156658391425bdab5b276f86ab0c6fcba7c"%string.
Definition TEMPORARY_CONSENSUS_ACTIVATION_HEIGHT : Z := 1085612.

Definition authorized_seeds : list blob :=
  [NETWORK_DATA_NODE_PUBLIC_ADDRESS_1; NETWORK_DATA_NODE_PUBLIC_ADDRESS_2;
   NETWORK_DATA_NODE_PUBLIC_ADDRESS_3; NETWORK_DATA_NODE_PUBLIC_ADDRESS_4].
Definition authorized_ed25519_pubkeys : list blob :=
  [NETWORK_DATA_NODE_ED25519_PUBKEY_1; NETWORK_DATA_NODE_ED25519_PUBKEY_2;
   NETWORK_DATA_NODE_ED25519_PUBKEY_3; NETWORK_DATA_NODE_ED25519_PUBKEY_4].

(** The search loop over the seeds, with its [break]. *)
Fixpoint seed_index (id : blob) (seeds : list blob) : option nat :=
  match seeds with
  | [] => None
  | s :: seeds => if decide (id = s) then Some O else S <$> seed_index id seeds
  end.

(** ** libsodium *)
Class Sodium := {
  (** public and secret key, from a seed *)
  crypto_sign_seed_keypair : blob -> option (blob * blob);
  (** signature of a message under a secret key *)
  crypto_sign_detached : blob -> blob -> option blob;
  (** signature, message, public key; true for a return value of 0 *)
  crypto_sign_verify_detached : blob -> blob -> blob -> bool
}.

Class SodiumLaws `{Sodium} : Prop := {
  seed_keypair_size seed pk sk : crypto_sign_seed_keypair seed = Some (pk, sk) -> pod_ok 32 pk /\ pod_ok 64 sk;
  sign_total m sk : pod_ok 64 sk -> exists sig, crypto_sign_detached m sk = Some sig /\ pod_ok 64 sig;
  sign_verify seed pk sk m sig : crypto_sign_seed_keypair seed = Some (pk, sk) ->
    crypto_sign_detached m sk = Some sig -> crypto_sign_verify_detached sig m pk = true
}.

(** ** The validator *)
Record validator := Validator { v_enabled : bool }.
Definition temp_consensus_validator : validator := Validator false.
Definition set_enabled (v : validator) (enabled : bool) : validator := Validator enabled.

(** [tx.extra = e]: the caches of the object stay as they are. *)
Definition set_extra (t : transaction) (e : blob) : transaction :=
  let p := tx_prefix t in
  Transaction (Prefix (version p) (unlock_time p) (vin p) (vout p) e)
    (signatures t) (rct_signatures t) (tx_hash t) (tx_blob_size t).
Definition miner_extra (b : block) : blob := extra (tx_prefix (miner_tx b)).
Definition set_miner_extra (b : block) (e : blob) : block := set_miner_tx b (set_extra (miner_tx b) e).

Section with_sodium.
Context `{Sodium}.

(** [None] stands for an exception. *)
Definition validate_leader_block (v : validator) (bl : block) (height : Z) : option bool :=
  if negb (v_enabled v) then Some false
  else if height =? 0 then Some true
  else if height <? TEMPORARY_CONSENSUS_ACTIVATION_HEIGHT then Some true
  else
    match get_leader_info_from_tx_extra (miner_extra bl) with
    | None => Some false
    | Some (leader_id, sig) =>
        match seed_index leader_id authorized_seeds with
        | None => Some false
        | Some leader_index =>
            let expected_pubkey_hex := authorized_ed25519_pubkeys !!! leader_index in
            if zlen expected_pubkey_hex =? 0 then Some false
            else
              match parse_hexstr_to_binbuff false expected_pubkey_hex with
              | None => Some false
              | Some leader_pubkey =>
                  if negb (zlen leader_pubkey =? 32) then Some false
                  else
                    let '(r, extra_without_leader) := remove_leader_info_from_tx_extra (miner_extra bl) in
                    if negb r then Some false
                    else
                      let temp_blob := t_serializable_object_to_blob block_codec
                                         (set_miner_extra bl extra_without_leader) in
                      match parse_and_validate_block_from_blob temp_blob with
                      | None => Some false
                      | Some temp_bl_parsed =>
                          match (get_block_hash temp_bl_parsed).1 with
                          | None => None
                          | Some h => Some (crypto_sign_verify_detached sig h leader_pubkey)
                          end
                      end
              end
        end
    end.

(** ** The leader service *)
Record config := Config {
  leader_id : blob; leader_pubkey : blob; leader_ed25519_pubkey : blob; leader_seckey : blob;
  libsodium_seckey : blob; miner_address : account_public_address;
  enable_pow : bool; slot_duration_seconds : Z }.

Definition next_slot_timestamp (cfg : config) (current_time : Z) : Z :=
  let remainder := current_time mod slot_duration_seconds cfg in
  if remainder =? 0 then current_time
  else u64 (current_time + (slot_duration_seconds cfg - remainder)).

Definition is_slot_boundary (cfg : config) (timestamp : Z) : bool :=
  timestamp mod slot_duration_seconds cfg =? 0.

Definition generate_deterministic_nonce (cfg : config) (slot_timestamp : Z) : Z :=
  le_word (take 4 (cn_fast_hash (leader_id cfg ++ to_string slot_timestamp))).

Definition LEADER_INFO_RESERVED_SIZE : nat := 170.

Definition set_timestamp (b : block) (t : Z) : block :=
  let h := hdr b in
  Block (Header (major_version h) (minor_version h) t (prev_id h) (nonce h)) (miner_tx b) (tx_hashes b) (b_hash b).
Definition set_nonce (b : block) (n : Z) : block :=
  let h := hdr b in
  Block (Header (major_version h) (minor_version h) (timestamp h) (prev_id h) n) (miner_tx b) (tx_hashes b) (b_hash b).

(** Steps 2 to 12 of [generate_block]: from the template to the signed block.
    The failures of the two removals are only logged.  [None] is a return of
    false, [Some None] an exception. *)
Definition sign_template (cfg : config) (bl : block) (slot_timestamp : Z) : option (option (blob * block)) :=
  let bl := set_timestamp bl slot_timestamp in
  let bl := if negb (enable_pow cfg) then set_nonce bl (generate_deterministic_nonce cfg slot_timestamp) else bl in
  if decide (get_tx_pub_key_from_extra (miner_extra bl) 0 = null_pkey) then None
  else
    let bl := set_miner_extra bl (remove_field_from_tx_extra (miner_extra bl) ty_nonce).2 in
    let bl := set_miner_extra bl (remove_field_from_tx_extra (miner_extra bl) ty_padding).2 in
    match parse_and_validate_block_from_blob (t_serializable_object_to_blob block_codec bl) with
    | None => None
    | Some bl_unsigned =>
        match get_block_hash bl_unsigned with
        | (None, _) => Some None
        | (Some block_hash, bl_unsigned) =>
            match crypto_sign_detached block_hash (libsodium_seckey cfg) with
            | None => None
            | Some sig =>
                let '(r, e) := add_leader_info_to_tx_extra (miner_extra bl_unsigned) (leader_id cfg) sig in
                if negb r then None
                else
                  let bl_unsigned := block_invalidate_hashes (set_miner_extra bl_unsigned e) in
                  let blockblob := t_serializable_object_to_blob block_codec bl_unsigned in
                  match parse_and_validate_block_from_blob blockblob with
                  | None => None
                  | Some b_parsed => Some (Some (blockblob, b_parsed))
                  end
            end
        end
    end.

(** The core, as the service uses it: [ST] is its state; [None] in a result is
    an exception, [Some None] a return of false. *)
Class Core (ST : Type) := {
  get_block_template : ST -> account_public_address -> blob -> option (option (block * Z * Z * Z)) * ST;
  check_incoming_block_size : ST -> blob -> bool;
  handle_block_found : ST -> block -> option bool * ST
}.

Definition generate_block `{Core ST} (cfg : config) (s : ST) (slot_timestamp : Z) : option bool * ST :=
  match get_block_template s (miner_address cfg) (replicate LEADER_INFO_RESERVED_SIZE 0) with
  | (None, s) => (None, s)
  | (Some None, s) => (Some false, s)
  | (Some (Some (bl, _, _, _)), s) =>
      match sign_template cfg bl slot_timestamp with
      | None => (Some false, s)
      | Some None => (None, s)
      | Some (Some (blockblob, b_parsed)) =>
          if negb (check_incoming_block_size s blockblob) then (Some false, s)
          else
            match handle_block_found s b_parsed with
            | (None, s) => (Some false, s)
            | (Some result, s) => (Some result, s)
            end
      end
  end.

(** ** The daemon: [t_temp_consensus] *)

(** The command line arguments the constructor reads. *)
Record variables_map := Vm {
  arg_temp_consensus_enabled : bool; arg_temp_consensus_leader : bool;
  arg_delegates_public_address : blob; arg_delegates_secret_key : blob;
  arg_testnet_on : bool; arg_stagenet_on : bool }.
Inductive network_type := MAINNET | TESTNET | STAGENET.

Record t_temp_consensus := TempConsensus {
  m_enabled : bool; m_is_leader : bool; m_config_error : bool;
  m_leader_service : option config; m_validator : option validator }.

(** The parser of addresses, src/cryptonote_basic/cryptonote_basic_impl.cpp. *)
Variable get_account_address_from_str : network_type -> blob -> option account_public_address.

(** An early return after a configuration error. *)
Definition config_error (is_leader : bool) : t_temp_consensus :=
  TempConsensus false is_leader true None None.

(** The checks of a leader's key, up to the configuration of its service. *)
Definition leader_config (delegate_public_address delegate_secret_key : blob) (address : account_public_address)
  : option config :=
  if zlen delegate_secret_key =? 0 then None
  else if negb (zlen delegate_secret_key =? 128) then None
  else match parse_hexstr_to_binbuff false delegate_secret_key with
  | None => None
  | Some keypair_binary =>
  if negb (zlen keypair_binary =? 64) then None
  else
    let seed := take 32 keypair_binary in
    let expected_pubkey := drop 32 keypair_binary in
    match crypto_sign_seed_keypair seed with
    | None => None
    | Some (derived_pubkey, seckey) =>
    if decide (derived_pubkey = expected_pubkey) then
      let pubkey_matches :=
        match seed_index delegate_public_address authorized_seeds with
        | None => false
        | Some i =>
            let expected := authorized_ed25519_pubkeys !!! i in
            (zlen expected =? 0) || bool_decide (pod_to_hex derived_pubkey = expected)
        end in
      if negb pubkey_matches then None
      else
        let test_hash := cn_fast_hash (str "temporary_consensus_test"%string) in
        match crypto_sign_detached test_hash seckey with
        | None => None
        | Some sig =>
            if negb (crypto_sign_verify_detached sig test_hash derived_pubkey) then None
            else Some (Config delegate_public_address derived_pubkey expected_pubkey seed seckey address false 30)
        end
    else None
    end
  end.

Definition t_temp_consensus_new (vm : variables_map) : t_temp_consensus :=
  if negb (arg_temp_consensus_enabled vm) then TempConsensus false false false None None
  else
    let is_leader := arg_temp_consensus_leader vm in
    let delegate_public_address := arg_delegates_public_address vm in
    if zlen delegate_public_address =? 0 then config_error is_leader
    else match seed_index delegate_public_address authorized_seeds with
    | None => config_error is_leader
    | Some _ =>
    let nettype := if arg_testnet_on vm then TESTNET else if arg_stagenet_on vm then STAGENET else MAINNET in
    match get_account_address_from_str nettype delegate_public_address with
    | None => config_error is_leader
    | Some address =>
        if is_leader then
          match leader_config delegate_public_address (arg_delegates_secret_key vm) address with
          | None => config_error is_leader
          | Some cfg => TempConsensus true true false (Some cfg) (Some (set_enabled temp_consensus_validator true))
          end
        else TempConsensus true false false None (Some (set_enabled temp_consensus_validator true))
    end
    end.
End with_sodium.

(** ** Blocks with their caches cleared *)
Definition clean (b : block) : block :=
  set_miner_tx (block_invalidate_hashes b) (tx_invalidate_hashes (miner_tx b)).

Lemma parse_clean b : block_ok (clean b) ->
  parse_and_validate_block_from_blob (t_serializable_object_to_blob block_codec b) = Some (clean b).
Proof.
  intros Hb. unfold parse_and_validate_block_from_blob.
  change (t_serializable_object_to_blob block_codec b) with (t_serializable_object_to_blob block_codec (clean b)).
  by rewrite (parse_binary_to_blob block_codec block_ok).
Qed.

Lemma clean_set_extra b e : block_ok (clean b) -> bytes_ok e -> is_u64 (zlen e) ->
  block_ok (clean (set_miner_extra b e)).
Proof.
  intros (Hh & ((Hp1 & Hp2 & Hp3 & Hp4 & Hp5) & Hb & Hc) & Hx & Hn) He Hz.
  split; [exact Hh|]. split; [|done]. split; [by split; [|split; [|split; [|split]]]|]. by split.
Qed.

Lemma get_block_hash_clean b : (get_block_hash (clean b)).1 = block_id b.
Proof.
  pose proof (get_block_hash_spec (clean b)) as Hs. destruct (get_block_hash (clean b)) as [r b'].
  destruct Hs as (-> & _); [split; [split|]; intros ? [=]|done].
Qed.

(** The block that the validator hashes: all leader metadata removed. *)
Definition strip (b : block) : block :=
  clean (set_miner_extra b (remove_leader_info_from_tx_extra (miner_extra b)).2).

(** A block as the node holds it: it was parsed (its caches may have been
    filled since), and its vectors fit in memory. *)
Definition in_memory (b : block) : Prop :=
  block_ok (clean b) /\ zlen (tx_hashes b) < 2 ^ 28 /\ is_u64 (zlen (miner_extra (strip b))).

Lemma remove_leader_info_bytes s : bytes_ok s -> bytes_ok (remove_leader_info_from_tx_extra s).2.
Proof.
  intros Hs. rewrite remove_leader_info_spec by done. destruct (parse_tx_extra s) as [[|] l] eqn:E; [|done].
  apply parse_tx_extra_fields_ok in E; [|done]. simpl. by apply fields_bytes_ok, fields_ok_filter.
Qed.

Lemma strip_ok b : in_memory b -> block_ok (strip b) /\ exists h, block_id (strip b) = Some h.
Proof.
  intros (Hb & Hx & Hz). assert (block_ok (strip b)) as Hs.
  { apply clean_set_extra; [done| |done]. apply remove_leader_info_bytes. apply Hb. }
  split; [done|]. destruct (block_id_some (strip b)) as (r & _ & _ & _ & ->); [done|done|]. by eexists.
Qed.

(** The authorised keys are well formed. *)
Definition seed_pubkey (i : nat) : blob :=
  default [] (parse_hexstr_to_binbuff false (authorized_ed25519_pubkeys !!! i)).

Lemma seed_index_lt id l i : seed_index id l = Some i -> (i < length l)%nat /\ l !! i = Some id.
Proof.
  revert i. induction l as [|s l IH]; intros i; simpl; [done|]. case_decide; [intros [= <-]; subst; split; [lia|done]|].
  destruct (seed_index id l) as [j|]; [|done]. intros [= <-]. destruct (IH j eq_refl). split; [lia|done].
Qed.

Lemma seed_pubkey_ok i : (i < 4)%nat ->
  (zlen (authorized_ed25519_pubkeys !!! i) =? 0) = false /\
  parse_hexstr_to_binbuff false (authorized_ed25519_pubkeys !!! i) = Some (seed_pubkey i) /\
  (zlen (seed_pubkey i) =? 32) = true.
Proof. intros Hi. do 4 (destruct i as [|i]; [vm_compute; done|]). lia. Qed.

Section validator_theorems.
Context `{Sodium}.

(** What the validator answers for a block after activation. *)
Lemma validate_leader_block_spec v b height : v_enabled v = true ->
  TEMPORARY_CONSENSUS_ACTIVATION_HEIGHT <= height -> in_memory b ->
  validate_leader_block v b height = Some
    match get_leader_info_from_tx_extra (miner_extra b) with
    | Some (id, sig) =>
        match seed_index id authorized_seeds, block_id (strip b) with
        | Some i, Some h => crypto_sign_verify_detached sig h (seed_pubkey i)
        | _, _ => false
        end
    | None => false
    end.
Proof.
  intros Hv Hh Hm. destruct (strip_ok b Hm) as [Hs [h Eh]]. unfold validate_leader_block. rewrite Hv. cbn [negb].
  unfold TEMPORARY_CONSENSUS_ACTIVATION_HEIGHT in *.
  rewrite (proj2 (Z.eqb_neq _ _)), (proj2 (Z.ltb_ge _ _)) by lia.
  destruct (get_leader_info_from_tx_extra (miner_extra b)) as [[id sig]|] eqn:Eg; [|done].
  destruct (seed_index id authorized_seeds) as [i|] eqn:Ei; [|done]. apply seed_index_lt in Ei as [Hi _].
  destruct (seed_pubkey_ok i Hi) as (-> & -> & ->). cbn [negb].
  assert ((remove_leader_info_from_tx_extra (miner_extra b)).1 = true) as Hr.
  { rewrite remove_leader_info_spec by apply Hm. unfold get_leader_info_from_tx_extra in Eg.
    by destruct (parse_tx_extra (miner_extra b)) as [[|] l]. }
  rewrite Eh. unfold strip in Hs, Eh. destruct (remove_leader_info_from_tx_extra (miner_extra b)) as [r e].
  simpl in Hr, Hs, Eh. subst r. cbn [negb]. rewrite parse_clean by done. rewrite get_block_hash_clean.
  change (block_id (set_miner_extra b e)) with (block_id (clean (set_miner_extra b e))). by rewrite Eh.
Qed.

Lemma seed_index_lookup id i : authorized_seeds !! i = Some id -> seed_index id authorized_seeds = Some i.
Proof.
  intros Hi. pose proof (lookup_lt_Some _ _ _ Hi) as Hlt. simpl in Hlt.
  do 4 (destruct i as [|i]; [injection Hi as <-; vm_compute; reflexivity|]). lia.
Qed.

(** The rule of acceptance. *)
Definition leader_signed (b : block) : Prop :=
  exists id sig i h, get_leader_info_from_tx_extra (miner_extra b) = Some (id, sig) /\
    authorized_seeds !! i = Some id /\ block_id (strip b) = Some h /\
    crypto_sign_verify_detached sig h (seed_pubkey i) = true.

Lemma validate_signed v b height : in_memory b -> TEMPORARY_CONSENSUS_ACTIVATION_HEIGHT <= height ->
  v_enabled v = true -> validate_leader_block v b height = Some true <-> leader_signed b.
Proof.
  intros Hm Hh Hv. rewrite validate_leader_block_spec by done. unfold leader_signed. split.
  - destruct (get_leader_info_from_tx_extra _) as [[id sig]|]; [|done].
    destruct (seed_index id authorized_seeds) as [i|] eqn:Ei; [|done]. apply seed_index_lt in Ei as [_ Ei].
    destruct (block_id (strip b)) as [h|] eqn:Eh; [|done]. intros [= Hs]. by exists id, sig, i, h.
  - intros (id & sig & i & h & -> & Hi & -> & Hs). apply seed_index_lookup in Hi as ->. by rewrite Hs.
Qed.

Lemma validate_rule v b height : in_memory b ->
  validate_leader_block v b height = Some true <->
  v_enabled v = true /\ (height < TEMPORARY_CONSENSUS_ACTIVATION_HEIGHT \/ leader_signed b).
Proof.
  intros Hm. destruct (v_enabled v) eqn:Hv.
  2: { unfold validate_leader_block. rewrite Hv. simpl. split; [done|by intros []]. }
  destruct (decide (TEMPORARY_CONSENSUS_ACTIVATION_HEIGHT <= height)) as [Hh|Hh].
  - rewrite validate_signed by done. split; [by auto|]. intros [_ [?|?]]; [lia|done].
  - unfold validate_leader_block. rewrite Hv. simpl. split; [intros _; split; [done|left; lia]|intros _]. destruct (height =? 0); [done|].
    by rewrite (proj2 (Z.ltb_lt _ _)) by lia.
Qed.

Lemma validate_leader_block_complete v b height : in_memory b -> v_enabled v = true ->
  height < TEMPORARY_CONSENSUS_ACTIVATION_HEIGHT \/ leader_signed b ->
  validate_leader_block v b height = Some true.
Proof. intros. by apply validate_rule. Qed.

(** C3: the validator accepts exactly the blocks of the rule: a disabled
    validator accepts none; an enabled one accepts every block below the
    activation height and, from there on, the blocks whose first leader
    metadata names an authorised seed and carries a signature, valid under
    that seed's key, of the id of the block with all leader metadata removed.
    No other input, and no failure of a helper, leads to acceptance. *)
Theorem validate_leader_block_iff v b height : in_memory b ->
  validate_leader_block v b height = Some true <->
  v_enabled v = true /\ (height < TEMPORARY_CONSENSUS_ACTIVATION_HEIGHT \/ leader_signed b).
Proof. apply validate_rule. Qed.


End validator_theorems.
