(* ===== verification/LeaderService.v ===== *)
(** * The leader's side of the temporary consensus

    The blocks a leader builds and why validators accept them, and the service
    of src/cryptonote_core/temp_consensus_leader_service.cpp as a machine of the
    thread that calls [start] and [stop] and the threads of [service_loop]. *)
From Stdlib Require Import ZArith Lia Bool Sorted.
From stdpp Require Import prelude strings.
From S2P Require Import Prelude StringTools Varint Archive TxExtra Rct CryptonoteBasic Keccak TreeHash Hashing TempConsensus.
Local Open Scope Z_scope.
Local Open Scope archive_scope.

#[local] Opaque cn_fast_hash.

(** ** The template and its stripping *)

(** The extra of the miner transaction of a template: the transaction key, the
    reserved nonce, and the zero bytes that balance the block weight. *)
Definition template_extra (pub : blob) (k : nat) : blob :=
  (add_extra_nonce_to_tx_extra (add_tx_pub_key_to_extra [] pub) (replicate LEADER_INFO_RESERVED_SIZE 0)).2
    ++ replicate k 0.

Lemma reserved_length_read s : serialize_varint_load 64 (170 :: 0 :: s) = Some (42, s).
Proof. reflexivity. Qed.

Lemma reserved_nonce_read r :
  variant_read TX_EXTRA_NONCE (170 :: 0 :: replicate 42 0 ++ r) = Some (tx_extra_nonce (replicate 42 0), r).
Proof.
  change (variant_read TX_EXTRA_NONCE) with (x <-- c_load nonce_codec ;; rret (tx_extra_nonce x)).
  unfold nonce_codec, guard_codec, string_codec, string_load. cbn [c_load]. unfold rbind at 1 2 4.
  unfold rbind at 1. rewrite reserved_length_read. unfold remaining_bytes. rewrite zlen_app.
  replace (zlen (replicate 42 0)) with 42 by reflexivity.
  pose proof (zlen_nonneg r). rewrite (proj2 (Z.ltb_ge _ _)) by lia.
  unfold serialize_blob_load. rewrite length_app, length_replicate, take_app_length', drop_app_length' by done.
  rewrite (proj2 (Nat.ltb_ge _ _)) by lia. reflexivity.
Qed.

Lemma zeros_padding n : Z.of_nat n < TX_EXTRA_PADDING_MAX_COUNT ->
  tx_extra_field_load (0 :: replicate n 0) = Some (tx_extra_padding (Z.of_nat n + 1), []).
Proof.
  intros Hn. rewrite field_load_cons by (unfold in_range; lia).
  change (variant_read 0) with (x <-- padding_load ;; rret (tx_extra_padding x)). unfold padding_load, rbind.
  rewrite padding_load_loop_zeros; [|unfold TX_EXTRA_PADDING_MAX_COUNT in *; lia..].
  unfold rret. do 3 f_equal. lia.
Qed.

(** The one-byte length 170 of the reserved nonce is read as the varint 42 cut
    short: the template parses as a nonce of 42 zeros and a long padding. *)
Lemma template_extra_parse pub k : pod_ok 32 pub -> Z.of_nat k <= 4993 ->
  parse_tx_extra (template_extra pub k) =
    (true, [tx_extra_pub_key pub; tx_extra_nonce (replicate 42 0); tx_extra_padding (127 + Z.of_nat k)]).
Proof.
  intros Hp Hk.
  assert (template_extra pub k = field_bytes (tx_extra_pub_key pub) ++
    2 :: 170 :: 0 :: replicate 42 0 ++ 0 :: replicate (126 + k) 0) as ->.
  { unfold template_extra. change (add_extra_nonce_to_tx_extra (add_tx_pub_key_to_extra [] pub)
      (replicate LEADER_INFO_RESERVED_SIZE 0)).2 with
      (TX_EXTRA_TAG_PUBKEY :: pub ++ 2 :: 170 :: replicate 170 0).
    change (field_bytes (tx_extra_pub_key pub)) with (TX_EXTRA_TAG_PUBKEY :: pub).
    rewrite replicate_add. simpl. by rewrite <- app_assoc. }
  unfold parse_tx_extra. set (t := 2 :: _).
  assert (exists n, length (field_bytes (tx_extra_pub_key pub) ++ t) = S (S (S n))) as [n ->].
  { rewrite length_app, Nat.add_comm. unfold t. simpl length. by eexists. }
  change (field_bytes (tx_extra_pub_key pub) ++ t) with (TX_EXTRA_TAG_PUBKEY :: pub ++ t). cbv iota.
  change (TX_EXTRA_TAG_PUBKEY :: pub ++ t) with (field_bytes (tx_extra_pub_key pub) ++ t).
  cbn [parse_tx_extra_loop]. rewrite field_load_store by done. unfold t at 1. cbn [parse_tx_extra_loop].
  unfold t. rewrite field_load_cons by (unfold in_range; lia). change 2 with TX_EXTRA_NONCE at 1.
  rewrite reserved_nonce_read. cbn [parse_tx_extra_loop].
  rewrite zeros_padding by (unfold TX_EXTRA_PADDING_MAX_COUNT; lia).
  cbn [app]. do 5 f_equal. lia.
Qed.

(** Removing the nonce and then the padding leaves the transaction key. *)
Lemma template_extra_strip pub k : pod_ok 32 pub -> Z.of_nat k <= 4993 -> bytes_ok (template_extra pub k) ->
  (remove_field_from_tx_extra (remove_field_from_tx_extra (template_extra pub k) ty_nonce).2 ty_padding).2 =
    fields_bytes [tx_extra_pub_key pub].
Proof.
  intros Hp Hk Hb. rewrite (remove_field_spec (template_extra pub k)), template_extra_parse by done. cbn [snd].
  set (l := filter _ _). assert (l = [tx_extra_pub_key pub; tx_extra_padding (127 + Z.of_nat k)]) as -> by reflexivity.
  assert (fields_ok [tx_extra_pub_key pub; tx_extra_padding (127 + Z.of_nat k)]) as Hok.
  { split; [done|]. split; [done|]. split; [|done]. unfold field_ok, TX_EXTRA_PADDING_MAX_COUNT. lia. }
  rewrite remove_field_spec by (by apply fields_bytes_ok). by rewrite parse_tx_extra_bytes.
Qed.

Lemma template_extra_pub pub k : pod_ok 32 pub -> Z.of_nat k <= 4993 ->
  get_tx_pub_key_from_extra (template_extra pub k) 0 = pub.
Proof. intros Hp Hk. unfold get_tx_pub_key_from_extra. by rewrite template_extra_parse. Qed.

Lemma le_word_bound b : bytes_ok b -> 0 <= le_word b < 2 ^ (8 * zlen b).
Proof.
  induction 1 as [|x b Hx Hb IH]; [done|]. cbn [le_word].
  assert (8 * zlen (x :: b) = 8 + 8 * zlen b) as -> by (rewrite zlen_cons; lia). pose proof (zlen_nonneg b).
  rewrite Z.pow_add_r by lia. unfold in_range in Hx. change (2 ^ 8) with 256 in *. lia.
Qed.

Lemma nonce_u32 cfg slot : is_u32 (generate_deterministic_nonce cfg slot).
Proof.
  unfold generate_deterministic_nonce. set (h := cn_fast_hash _).
  assert (pod_ok 32 h) as [Hl Hh] by apply cn_fast_hash_ok.
  pose proof (le_word_bound (take 4 h) (bytes_ok_take 4 h Hh)) as H. unfold zlen in H.
  rewrite length_take, Hl in H. done.
Qed.

(** The block the leader signs: the template at the slot's time, with the
    deterministic nonce, and only the transaction key in the miner's extra. *)
Definition unsigned_block (cfg : config) (tb : block) (slot : Z) (pub : blob) : block :=
  let bl := set_timestamp tb slot in
  let bl := if negb (enable_pow cfg) then set_nonce bl (generate_deterministic_nonce cfg slot) else bl in
  clean (set_miner_extra bl (fields_bytes [tx_extra_pub_key pub])).

Lemma unsigned_block_ok cfg tb slot pub : block_ok (clean tb) -> is_u64 slot -> pod_ok 32 pub ->
  block_ok (unsigned_block cfg tb slot pub).
Proof.
  intros ((H1 & H2 & H3 & H4 & H5) & Ht & Hx) Hs Hp. apply clean_set_extra.
  - pose proof (nonce_u32 cfg slot). by destruct (negb (enable_pow cfg)).
  - apply fields_bytes_ok. by split.
  - unfold in_range. change (fields_bytes [tx_extra_pub_key pub]) with (TX_EXTRA_TAG_PUBKEY :: pub ++ []).
    rewrite app_nil_r, zlen_cons. unfold zlen. rewrite (proj1 Hp). lia.
Qed.

(** The signed block. *)
Definition signed_block (u : block) (pub id sig : blob) : block :=
  clean (set_miner_extra u (fields_bytes [tx_extra_pub_key pub; tx_extra_leader_info id sig])).

Lemma leader_bytes_size id sig : string_ok id -> zlen id < 2 ^ 32 -> pod_ok 64 sig ->
  0 <= zlen (field_bytes (tx_extra_leader_info id sig)) < 2 ^ 33.
Proof.
  intros Hi Hz Hs. change (field_bytes (tx_extra_leader_info id sig)) with
    (TX_EXTRA_TAG_LEADER_INFO :: (write_varint (zlen id) ++ id) ++ sig).
  rewrite !zlen_cons, !zlen_app. pose proof (zlen_write_varint_64 (zlen id) (proj2 Hi)).
  assert (zlen sig = 64) as -> by (unfold zlen; by rewrite (proj1 Hs)). pose proof (zlen_nonneg id).
  pose proof (zlen_nonneg (write_varint (zlen id))). lia.
Qed.

Lemma leader_extra_size pub id sig : pod_ok 32 pub -> string_ok id -> zlen id < 2 ^ 32 -> pod_ok 64 sig ->
  let e := fields_bytes [tx_extra_pub_key pub; tx_extra_leader_info id sig] in
  bytes_ok e /\ is_u64 (zlen e).
Proof.
  intros Hp Hi Hz Hs. cbv zeta. split; [apply fields_bytes_ok; repeat split; done || apply Hp || apply Hi || apply Hs|].
  rewrite !fields_bytes_cons. change (fields_bytes []) with (@nil Z). rewrite app_nil_r, zlen_app.
  change (field_bytes (tx_extra_pub_key pub)) with (TX_EXTRA_TAG_PUBKEY :: pub). rewrite zlen_cons.
  assert (zlen pub = 32) as -> by (unfold zlen; by rewrite (proj1 Hp)).
  pose proof (leader_bytes_size id sig Hi Hz Hs). unfold in_range. lia.
Qed.

Lemma same_block_set_extra b b' e : same_block b b' ->
  clean (set_miner_extra b e) = clean (set_miner_extra b' e).
Proof.
  destruct b as [h t x c], b' as [h' t' x' c']. intros (E1 & E2 & E3). simpl in *. subst h' x'.
  destruct t, t'. unfold same_tx, tx_invalidate_hashes in E3. simpl in E3. by injection E3 as -> -> ->.
Qed.

Section leader_theorems.
Context `{SodiumLaws}.

Lemma sign_template_spec cfg tb slot pub k :
  block_ok (clean tb) -> zlen (tx_hashes tb) < 2 ^ 28 -> is_u64 slot ->
  miner_extra tb = template_extra pub k -> pod_ok 32 pub -> pub <> null_pkey -> Z.of_nat k <= 4993 ->
  string_ok (leader_id cfg) -> zlen (leader_id cfg) < 2 ^ 32 -> pod_ok 64 (libsodium_seckey cfg) ->
  exists h sig, block_id (unsigned_block cfg tb slot pub) = Some h /\
    crypto_sign_detached h (libsodium_seckey cfg) = Some sig /\ pod_ok 64 sig /\
    let b := signed_block (unsigned_block cfg tb slot pub) pub (leader_id cfg) sig in
    block_ok b /\ sign_template cfg tb slot = Some (Some (t_serializable_object_to_blob block_codec b, b)).
Proof.
  intros Htb Hx Hs He Hp Hnull Hk Hid Hidz Hsk. pose proof (unsigned_block_ok cfg tb slot pub Htb Hs Hp) as Hu.
  destruct (block_id_some (unsigned_block cfg tb slot pub) Hu) as (root & _ & _ & _ & Eid).
  { by destruct (negb (enable_pow cfg)) eqn:E; unfold unsigned_block; rewrite E. }
  set (h := get_object_hash _ _) in Eid. destruct (sign_total h (libsodium_seckey cfg) Hsk) as (sig & Esig & Hsig).
  exists h, sig. split; [done|]. split; [done|]. split; [done|]. cbv zeta.
  destruct (leader_extra_size pub (leader_id cfg) sig) as [Hb1 Hb2]; [done..|].
  assert (block_ok (signed_block (unsigned_block cfg tb slot pub) pub (leader_id cfg) sig)) as Hb.
  { apply clean_set_extra; [|done..]. exact Hu. }
  split; [exact Hb|]. unfold sign_template. unfold unsigned_block in *.
  set (bl := if negb (enable_pow cfg) then _ else _) in *.
  assert (miner_extra bl = template_extra pub k) as Ebl by (unfold bl; by destruct (negb (enable_pow cfg))).
  rewrite Ebl, template_extra_pub by done. rewrite decide_False by done.
  change (set_miner_extra (set_miner_extra bl ?x) ?y) with (set_miner_extra bl y).
  change (miner_extra (set_miner_extra bl ?x)) with x.
  rewrite template_extra_strip; [|done..|rewrite <- He; apply Htb]. rewrite parse_clean by done.
  pose proof (get_block_hash_spec (clean (set_miner_extra bl (fields_bytes [tx_extra_pub_key pub])))) as Hgh.
  destruct (get_block_hash _) as [r u']. destruct Hgh as (-> & _ & Hsame); [split; [split|]; intros ? [=]|].
  rewrite Eid, Esig. assert (miner_extra u' = fields_bytes [tx_extra_pub_key pub]) as ->.
  { destruct Hsame as (_ & _ & Hsame). by apply (f_equal (fun t => extra (tx_prefix t))) in Hsame. }
  destruct (leader_info_add [tx_extra_pub_key pub] (leader_id cfg) sig) as [-> _]; [by split|by repeat constructor|done..|].
  cbn [negb app]. apply (same_block_set_extra _ _ (fields_bytes [tx_extra_pub_key pub; tx_extra_leader_info (leader_id cfg) sig])) in Hsame.
  unfold signed_block in *. rewrite Hsame in *. rewrite parse_clean by done. reflexivity.
Qed.

(** ** The configuration of a leader *)
Lemma leader_config_sound addr key address cfg : leader_config addr key address = Some cfg ->
  leader_id cfg = addr /\ miner_address cfg = address /\ enable_pow cfg = false /\
  slot_duration_seconds cfg = 30 /\
  exists i, authorized_seeds !! i = Some addr /\
    crypto_sign_seed_keypair (leader_seckey cfg) = Some (seed_pubkey i, libsodium_seckey cfg).
Proof.
  unfold leader_config. do 2 (case_match; [done|]). destruct (parse_hexstr_to_binbuff false key) as [kp|]; [|done].
  case_match; [done|]. destruct (crypto_sign_seed_keypair (take 32 kp)) as [[pk sk]|] eqn:Ek; [|done].
  case_decide as Epk; [|done]. destruct (seed_index addr authorized_seeds) as [i|] eqn:Ei; [|done].
  destruct (seed_index_lt _ _ _ Ei) as [Hlt Hi]. destruct (seed_pubkey_ok i Hlt) as (-> & Hparse & _). cbn [orb].
  case_bool_decide as Ehex; [|done]. cbn [negb]. destruct (crypto_sign_detached _ sk) as [sig|]; [|done].
  case_match; [done|]. intros [= <-]. simpl. do 4 (split; [done|]). exists i. split; [done|].
  rewrite Ek. do 2 f_equal. destruct (seed_keypair_size _ _ _ Ek) as [[_ Hb] _].
  apply parse_hex_write in Hb. unfold pod_to_hex in Ehex. rewrite Ehex in Hb. congruence.
Qed.

Lemma new_leader_sound parse vm cfg : m_leader_service (t_temp_consensus_new parse vm) = Some cfg ->
  exists addr key address, leader_config addr key address = Some cfg.
Proof.
  unfold t_temp_consensus_new. destruct (negb _); [done|]. cbv zeta. destruct (_ =? _); [done|].
  destruct (seed_index _ _); [|done]. destruct (parse _ _) as [address|]; [|done].
  destruct (arg_temp_consensus_leader vm); [|done].
  destruct (leader_config _ _ _) as [cfg'|] eqn:E; [|done]. intros [= <-]. eauto.
Qed.

Lemma seeds_string i id : authorized_seeds !! i = Some id -> string_ok id /\ zlen id < 2 ^ 32.
Proof.
  assert (Forall (fun id => string_ok id /\ zlen id < 2 ^ 32) authorized_seeds) as HF by by_decide.
  intros Hi. by eapply Forall_lookup in HF.
Qed.

(** What the validator sees of the signed block. *)
Lemma signed_block_view u pub i id sig :
  block_ok u -> zlen (tx_hashes u) < 2 ^ 28 -> miner_extra u = fields_bytes [tx_extra_pub_key pub] -> pod_ok 32 pub ->
  authorized_seeds !! i = Some id -> pod_ok 64 sig -> block_ok (signed_block u pub id sig) ->
  in_memory (signed_block u pub id sig) /\ strip (signed_block u pub id sig) = u /\
  get_leader_info_from_tx_extra (miner_extra (signed_block u pub id sig)) = Some (id, sig).
Proof.
  intros Hu Hx Hue Hp Hi Hsig Hb. destruct (seeds_string i id Hi) as [Hid _].
  assert (fields_ok [tx_extra_pub_key pub]) as Hl by by split.
  pose proof (leader_info_add_remove [tx_extra_pub_key pub] id sig Hl ltac:(by repeat constructor)
    ltac:(by repeat constructor) Hid Hsig) as Hrt.
  destruct (leader_info_add [tx_extra_pub_key pub] id sig) as [Eadd _]; [done|by repeat constructor|done..|].
  rewrite Eadd in Hrt. destruct Hrt as (_ & Hget & Hrem). cbn [app] in *.
  assert (strip (signed_block u pub id sig) = clean u) as Estrip.
  { unfold strip, signed_block. change (miner_extra (clean (set_miner_extra u ?e))) with e. rewrite Hrem. cbn [snd].
    rewrite <- Hue. by destruct u as [? [[] ? ? ? ?] ? ?]. }
  assert (clean u = u) as Ecu.
  { destruct Hu as (_ & (_ & _ & E1 & E2) & _ & E3). destruct u as [? [] ? ?]. simpl in *. by subst. }
  rewrite Estrip. split; [|by rewrite Ecu]. split; [exact Hb|]. split; [exact Hx|].
  rewrite Estrip. change (miner_extra (clean u)) with (miner_extra u). apply Hu.
Qed.

(** The signed block passes every enabled validator. *)
Lemma signed_block_valid u pub i id sk seed h sig v height :
  block_ok u -> zlen (tx_hashes u) < 2 ^ 28 -> miner_extra u = fields_bytes [tx_extra_pub_key pub] -> pod_ok 32 pub ->
  authorized_seeds !! i = Some id -> crypto_sign_seed_keypair seed = Some (seed_pubkey i, sk) ->
  block_id u = Some h -> crypto_sign_detached h sk = Some sig -> pod_ok 64 sig ->
  block_ok (signed_block u pub id sig) -> v_enabled v = true ->
  validate_leader_block v (signed_block u pub id sig) height = Some true.
Proof.
  intros Hu Hx Hue Hp Hi Hk Eh Es Hsig Hb Hv.
  destruct (signed_block_view u pub i id sig) as (Hm & Estrip & Hget); [done..|].
  apply validate_leader_block_complete; [done..|]. right.
  exists id, sig, i, h. split; [exact Hget|]. split; [done|]. rewrite Estrip. split; [done|]. by eapply sign_verify.
Qed.

(** C13: a leader's block is accepted by everyone.  Take a node whose
    configuration was accepted as a leader's, and a template from its core with
    the miner transaction [construct_miner_tx] makes.  Then [generate_block]
    does build a block; it carries the slot's time and the deterministic nonce
    on the template's chain, transactions and outputs; what the call returns
    is what the core answers about this block; and every enabled validator, at
    every height, accepts it. *)
Theorem leader_block_accepted `{Core ST} parse vm cfg (s s1 : ST) tb d ht r slot pub k :
  m_leader_service (t_temp_consensus_new parse vm) = Some cfg ->
  get_block_template s (miner_address cfg) (replicate LEADER_INFO_RESERVED_SIZE 0) = (Some (Some (tb, d, ht, r)), s1) ->
  block_ok (clean tb) -> zlen (tx_hashes tb) < 2 ^ 28 -> miner_extra tb = template_extra pub k ->
  pod_ok 32 pub -> pub <> null_pkey -> Z.of_nat k <= 4993 -> is_u64 slot ->
  exists b,
    generate_block cfg s slot =
      (if check_incoming_block_size s1 (t_serializable_object_to_blob block_codec b)
       then (let '(res, s2) := handle_block_found s1 b in (Some (default false res), s2))
       else (Some false, s1)) /\
    timestamp (hdr b) = slot /\ nonce (hdr b) = generate_deterministic_nonce cfg slot /\
    prev_id (hdr b) = prev_id (hdr tb) /\ tx_hashes b = tx_hashes tb /\
    vin (tx_prefix (miner_tx b)) = vin (tx_prefix (miner_tx tb)) /\
    vout (tx_prefix (miner_tx b)) = vout (tx_prefix (miner_tx tb)) /\
    forall v height, v_enabled v = true -> validate_leader_block v b height = Some true.
Proof.
  intros Hcfg Ht Htb Hx He Hp Hnull Hk Hslot. apply new_leader_sound in Hcfg as (addr & key & address & Hcfg).
  apply leader_config_sound in Hcfg as (Eid & _ & Epow & _ & i & Hi & Ek). rewrite <- Eid in Hi.
  destruct (seeds_string i _ Hi) as [Hs1 Hs2]. destruct (seed_keypair_size _ _ _ Ek) as [_ Hsk].
  destruct (sign_template_spec cfg tb slot pub k) as (h & sig & Eh & Esig & Hsig & Hb & Est); [done..|].
  set (u := unsigned_block cfg tb slot pub) in *.
  assert (u = clean (set_miner_extra (set_nonce (set_timestamp tb slot) (generate_deterministic_nonce cfg slot))
    (fields_bytes [tx_extra_pub_key pub]))) as Eu by (unfold u, unsigned_block; by rewrite Epow).
  exists (signed_block u pub (leader_id cfg) sig). split.
  { unfold generate_block. rewrite Ht, Est. destruct (check_incoming_block_size _ _); [|done].
    simpl. by destruct (handle_block_found _ _) as [[|] ?]. }
  rewrite Eu at 1 2 3 4 5 6. do 6 (split; [done|]). intros v height Hv.
  eapply (signed_block_valid u pub i); try done; [by apply unsigned_block_ok|by rewrite Eu..].
Qed.
End leader_theorems.

(** ** A concrete instance

    A signature scheme with the documented interface (it is not secure: the
    secret key is the public one, and a signature shows it with the message)
    and a core that offers one template. *)
Definition pad_message (m : blob) : blob := if decide (pod_ok 32 m) then m else replicate 32 0.

Lemma pad_message_ok m : pod_ok 32 (pad_message m).
Proof. unfold pad_message. case_decide; [done|by_decide]. Qed.

#[local] Instance toy_sodium : Sodium := {|
  crypto_sign_seed_keypair seed := if decide (pod_ok 32 seed) then Some (seed, seed ++ seed) else None;
  crypto_sign_detached m sk := Some (take 32 sk ++ pad_message m);
  crypto_sign_verify_detached sig m pk := bool_decide (sig = pk ++ pad_message m) |}.

#[local] Instance toy_sodium_laws : SodiumLaws.
Proof.
  split.
  - intros seed pk sk. simpl. case_decide as Hs; [|done]. intros [= <- <-]. split; [done|].
    destruct Hs as [Hl Hb]. split; [rewrite length_app; lia|by apply bytes_ok_app].
  - intros m sk [Hl Hb]. eexists. split; [done|]. destruct (pad_message_ok m) as [Hl' Hb'].
    split; [rewrite length_app, length_take; lia|]. apply bytes_ok_app. auto with xcash.
  - intros seed pk sk m sig. simpl. case_decide as Hs; [|done]. intros [= <- <-] [= <-].
    apply bool_decide_eq_true. by rewrite take_app_length' by (symmetry; apply Hs).
Qed.

Definition example_template : block :=
  Block (Header 13 13 1700000000 (replicate 32 1) 5)
    (Transaction (Prefix 2 1085700 [txin_gen 1085640] [Tx_out 1000 (target_key (replicate 32 9))]
       (template_extra (replicate 32 7) 3)) [] rct_null None None)
    [replicate 32 8] None.

#[local] Instance toy_core : Core (list block) := {|
  get_block_template s _ _ := (Some (Some (example_template, 1, 1085640, 1000)), s);
  check_incoming_block_size _ b := zlen b <=? 1000000;
  handle_block_found s b := (Some true, s ++ [b]) |}.

Definition example_vm : variables_map :=
  Vm true true NETWORK_DATA_NODE_PUBLIC_ADDRESS_1
    (NETWORK_DATA_NODE_ED25519_PUBKEY_1 ++ NETWORK_DATA_NODE_ED25519_PUBKEY_1) false false.
Definition example_parse (_ : network_type) (_ : blob) : option account_public_address :=
  Some (Address (replicate 32 3) (replicate 32 4)).
Definition example_config : config :=
  Config NETWORK_DATA_NODE_PUBLIC_ADDRESS_1 (seed_pubkey 0) (seed_pubkey 0) (seed_pubkey 0)
    (seed_pubkey 0 ++ seed_pubkey 0) (Address (replicate 32 3) (replicate 32 4)) false 30.

Lemma example_config_ok : m_leader_service (t_temp_consensus_new example_parse example_vm) = Some example_config.
Proof. vm_compute. reflexivity. Qed.

Lemma example_template_ok : block_ok example_template.
Proof.
  apply (parse_binary_ok block_codec _ (t_serializable_object_to_blob block_codec example_template));
    [by_decide|vm_compute; reflexivity].
Qed.

Lemma leader_block_accepted_witness :
  exists b, timestamp (hdr b) = 1700000010 /\ validate_leader_block (Validator true) b 2000000 = Some true.
Proof.
  destruct (leader_block_accepted example_parse example_vm example_config ([] : list block) [] example_template
    1 1085640 1000 1700000010 (replicate 32 7) 3) as (b & _ & Ets & _ & _ & _ & _ & _ & Hv);
    [exact example_config_ok|reflexivity|exact example_template_ok|by_decide|reflexivity|by_decide..|].
  exists b. split; [exact Ets|by apply Hv].
Defined.

(** The block this leader signs, and the signed block. *)
Definition example_unsigned : block := unsigned_block example_config example_template 1700000010 (replicate 32 7).

Definition example_leader_block : block :=
  signed_block example_unsigned (replicate 32 7) NETWORK_DATA_NODE_PUBLIC_ADDRESS_1
    (seed_pubkey 0 ++ pad_message (default [] (block_id example_unsigned))).

Lemma example_unsigned_ok : block_ok example_unsigned.
Proof. apply unsigned_block_ok; [exact example_template_ok|by_decide..]. Qed.

#[local] Opaque seed_pubkey pad_message.

Lemma example_sign h :
  crypto_sign_detached h (libsodium_seckey example_config) = Some (seed_pubkey 0 ++ pad_message h).
Proof.
  change (Some (take 32 (seed_pubkey 0 ++ seed_pubkey 0) ++ pad_message h) = Some (seed_pubkey 0 ++ pad_message h)).
  rewrite take_app_length'; [reflexivity|vm_compute; reflexivity].
Qed.

Lemma example_signing : exists h, block_id example_unsigned = Some h /\ pod_ok 64 (seed_pubkey 0 ++ pad_message h) /\
  example_leader_block = signed_block example_unsigned (replicate 32 7) NETWORK_DATA_NODE_PUBLIC_ADDRESS_1
    (seed_pubkey 0 ++ pad_message h) /\ block_ok example_leader_block.
Proof.
  destruct (sign_template_spec example_config example_template 1700000010 (replicate 32 7) 3)
    as (h & sig & Eh & Esig & Hsig & Hb & _);
    [exact example_template_ok|by_decide|by_decide|reflexivity|by_decide..|].
  assert (sig = seed_pubkey 0 ++ pad_message h) as ->.
  { rewrite example_sign in Esig. by apply (inj Some) in Esig. }
  exists h. split; [exact Eh|]. split; [exact Hsig|]. unfold example_leader_block, example_unsigned.
  rewrite Eh. split; [reflexivity|exact Hb].
Qed.

Lemma example_leader_block_view : in_memory example_leader_block /\ strip example_leader_block = example_unsigned /\
  exists h, block_id example_unsigned = Some h /\ get_leader_info_from_tx_extra (miner_extra example_leader_block) =
    Some (NETWORK_DATA_NODE_PUBLIC_ADDRESS_1, seed_pubkey 0 ++ pad_message h).
Proof.
  destruct example_signing as (h & Eh & Hs & E & Hb). rewrite E in *.
  destruct (signed_block_view example_unsigned (replicate 32 7) 0 NETWORK_DATA_NODE_PUBLIC_ADDRESS_1
    (seed_pubkey 0 ++ pad_message h)) as (Hm & Est & Hg);
    [exact example_unsigned_ok|by_decide|reflexivity|by_decide|reflexivity|done..|]. eauto.
Qed.

Lemma example_leader_block_ok : in_memory example_leader_block.
Proof. apply example_leader_block_view. Qed.

Lemma example_leader_signed : leader_signed example_leader_block.
Proof.
  destruct example_leader_block_view as (_ & E & h & Eh & Hg).
  exists NETWORK_DATA_NODE_PUBLIC_ADDRESS_1, (seed_pubkey 0 ++ pad_message h), 0%nat, h.
  split; [done|]. split; [done|]. rewrite E. split; [done|]. by apply bool_decide_eq_true.
Qed.

Lemma example_leader_block_valid : validate_leader_block (Validator true) example_leader_block 2000000 = Some true.
Proof.
  apply validate_signed; [exact example_leader_block_ok|by_decide|done|exact example_leader_signed].
Qed.

Lemma validate_leader_block_iff_witness : leader_signed example_leader_block.
Proof.
  destruct (proj1 (validate_leader_block_iff (Validator true) example_leader_block 2000000 example_leader_block_ok)
    example_leader_block_valid) as [_ [E|E]]; [vm_compute in E; discriminate E|exact E].
Defined.







(** ** The service as a state machine

    The loads and stores of the two flags, the start and the end of a thread,
    the join and the assignments are steps of their own, so that calls and
    threads interleave freely.  The daemon calls [start] and [stop] from one
    thread, that of [t_daemon::run]; [call_pc] is where that thread is. *)
Inductive call_pc := idle | start_load | start_clear | start_mark | start_spawn | stop_load | stop_set | stop_join | stop_mark.

(** Where a thread is in [service_loop]: at the test of the stop flag, before
    the clock is read, in the sleep until a slot, before [generate_block], before
    the slot is remembered, or at the end. *)
Inductive loop_pc := at_check | at_clock | at_wait (next_slot : Z) | at_generate (next_slot : Z) | at_store (next_slot : Z) | finished.

#[export] Instance loop_pc_eq_dec : EqDecision loop_pc.
Proof. solve_decision. Defined.

(** The flags; [joinable] of [m_service_thread]; every thread created, the one
    [m_service_thread] stands for first; whether the destruction of a joinable
    thread has aborted the program; [m_last_generated_slot]; the slots for which a
    block was generated, newest first. *)
Record service (ST : Type) := Service {
  running : bool; stop_requested : bool; joinable : bool; threads : list loop_pc; aborted : bool;
  last_slot : Z; slots : list Z; core_state : ST; call : call_pc }.
Arguments Service {ST} _ _ _ _ _ _ _ _ _.
Arguments running {ST} _.
Arguments stop_requested {ST} _.
Arguments joinable {ST} _.
Arguments threads {ST} _.
Arguments aborted {ST} _.
Arguments last_slot {ST} _.
Arguments slots {ST} _.
Arguments core_state {ST} _.
Arguments call {ST} _.

Section service_loop.
Context `{Sodium, Core ST}.
Variable cfg : config.

Definition service_new (s : ST) : service ST := Service false false false [] false 0 [] s idle.

Definition goto (p : call_pc) (v : service ST) : service ST :=
  Service (running v) (stop_requested v) (joinable v) (threads v) (aborted v) (last_slot v) (slots v) (core_state v) p.
Definition store_running (b : bool) (v : service ST) : service ST :=
  Service b (stop_requested v) (joinable v) (threads v) (aborted v) (last_slot v) (slots v) (core_state v) (call v).
Definition store_stop (b : bool) (v : service ST) : service ST :=
  Service (running v) b (joinable v) (threads v) (aborted v) (last_slot v) (slots v) (core_state v) (call v).

(** [m_service_thread.reset(new std::thread(...))]: a thread that is still
    joinable cannot be dropped. *)
Definition spawn (v : service ST) : service ST :=
  Service (running v) (stop_requested v) true (at_check :: threads v) (aborted v || joinable v) (last_slot v) (slots v) (core_state v) (call v).

(** The join returns when the thread has ended. *)
Definition join (v : service ST) : option (service ST) :=
  if negb (joinable v) then Some v
  else match threads v with
       | finished :: _ => Some (Service (running v) (stop_requested v) false (threads v) (aborted v) (last_slot v) (slots v) (core_state v) (call v))
       | _ => None
       end.

(** The next step of [start] or [stop]; [None] while the join waits. *)
Definition call_step (v : service ST) : option (service ST) :=
  match call v with
  | idle => None
  | start_load => Some (goto (if running v then idle else start_clear) v)
  | start_clear => Some (goto start_mark (store_stop false v))
  | start_mark => Some (goto start_spawn (store_running true v))
  | start_spawn => Some (goto idle (spawn v))
  | stop_load => Some (goto (if running v then stop_set else idle) v)
  | stop_set => Some (goto stop_join (store_stop true v))
  | stop_join => v ← join v; Some (goto stop_mark v)
  | stop_mark => Some (goto idle (store_running false v))
  end.

(** [start] as a whole, when nothing comes between. *)
Definition start (v : service ST) : bool * service ST :=
  if running v then (false, v) else (true, spawn (store_running true (store_stop false v))).

Definition at_pc (v : service ST) (i : nat) (p : loop_pc) : service ST :=
  Service (running v) (stop_requested v) (joinable v) (<[i := p]> (threads v)) (aborted v) (last_slot v) (slots v) (core_state v) (call v).

(** The call of [generate_block], with its handler of exceptions. *)
Definition generate_slot (v : service ST) (i : nat) (next_slot : Z) : service ST :=
  let '(r, s) := generate_block cfg (core_state v) next_slot in
  let success := match r with Some true => true | _ => false end in
  at_pc (Service (running v) (stop_requested v) (joinable v) (threads v) (aborted v) (last_slot v)
           (if success then next_slot :: slots v else slots v) s (call v))
    i (if success then at_store next_slot else at_check).

Definition store_slot (v : service ST) (next_slot : Z) : service ST :=
  Service (running v) (stop_requested v) (joinable v) (threads v) (aborted v) next_slot (slots v) (core_state v) (call v).

(** The next step of thread [i]; [now] is what the clock shows if it is read. *)
Definition loop_step (v : service ST) (i : nat) (now : Z) : option (service ST) :=
  p ← threads v !! i;
  match p with
  | at_check => Some (at_pc v i (if stop_requested v then finished else at_clock))
  | at_clock =>
      let next_slot := next_slot_timestamp cfg now in
      Some (at_pc v i (if next_slot <=? last_slot v then at_check else if now <? next_slot then at_wait next_slot else at_generate next_slot))
  | at_wait next_slot => Some (at_pc v i (if stop_requested v then finished else at_generate next_slot))
  | at_generate next_slot => Some (generate_slot v i next_slot)
  | at_store next_slot => Some (at_pc (store_slot v next_slot) i at_check)
  | finished => None
  end.

(** A call begins, the caller or a thread takes its next step, at any clock
    reading (a signed 64-bit count of seconds), or the core changes, in any
    interleaving. *)
Inductive step : service ST -> service ST -> Prop :=
  | step_start v : call v = idle -> step v (goto start_load v)
  | step_stop v : call v = idle -> step v (goto stop_load v)
  | step_call v v' : call_step v = Some v' -> step v v'
  | step_loop v i now v' : 0 <= now < 2 ^ 63 -> loop_step v i now = Some v' -> step v v'
  | step_core v s : step v (Service (running v) (stop_requested v) (joinable v) (threads v) (aborted v) (last_slot v) (slots v) s (call v)).

(** The slot remembered is that of the last block. *)
Definition caught_up (v : service ST) : Prop := last_slot v = default 0 (head (slots v)).

Definition pc_ok (v : service ST) (p : loop_pc) : Prop :=
  match p with
  | at_wait n | at_generate n => caught_up v /\ last_slot v < n /\ 0 < n /\ is_slot_boundary cfg n = true
  | at_store n => head (slots v) = Some n
  | _ => caught_up v
  end.

(** No thread runs, and none is to be joined; one thread may run, the one to be
    joined. *)
Definition quiet (v : service ST) : Prop := joinable v = false /\ Forall (eq finished) (threads v) /\ caught_up v.
Definition single (v : service ST) : Prop :=
  joinable v = true /\ exists p rest, threads v = p :: rest /\ Forall (eq finished) rest /\ pc_ok v p.

(** The invariant of the machine. *)
Record service_inv (v : service ST) : Prop := {
  inv_alive : aborted v = false;
  inv_threads : match call v with
                | idle | start_load | stop_load => if running v then single v else quiet v
                | start_clear | start_mark => running v = false /\ quiet v
                | start_spawn | stop_mark => running v = true /\ quiet v
                | stop_set | stop_join => running v = true /\ single v
                end;
  inv_sorted : StronglySorted (fun a b => b + slot_duration_seconds cfg <= a) (slots v);
  inv_slots : Forall (fun a => 0 < a /\ is_slot_boundary cfg a = true) (slots v) }.

Lemma next_slot_spec now : 0 < slot_duration_seconds cfg <= 2 ^ 62 -> 0 <= now < 2 ^ 63 ->
  let t := next_slot_timestamp cfg now in
  is_slot_boundary cfg t = true /\ now <= t < now + slot_duration_seconds cfg.
Proof.
  intros Hd Hn. unfold next_slot_timestamp, is_slot_boundary. set (d := slot_duration_seconds cfg) in *.
  pose proof (Z.mod_pos_bound now d) as Hm. destruct (now mod d =? 0) eqn:E; [rewrite E; lia|].
  rewrite wrap_small by (unfold in_range; lia). split; [|lia]. apply Z.eqb_eq.
  rewrite (Z.div_mod now d) at 1 by lia.
  replace (d * (now / d) + now mod d + (d - now mod d)) with (0 + (now / d + 1) * d) by lia.
  rewrite Z.mod_add by lia. done.
Qed.

Lemma boundary_gap a b : 0 < slot_duration_seconds cfg -> is_slot_boundary cfg a = true ->
  is_slot_boundary cfg b = true -> b < a -> b + slot_duration_seconds cfg <= a.
Proof.
  unfold is_slot_boundary. intros Hd Ha Hb Hlt. set (d := slot_duration_seconds cfg) in *.
  pose proof (Z.div_mod a d). pose proof (Z.div_mod b d). assert (b / d < a / d) by nia. nia.
Qed.

(** A slot after the last one. *)
Lemma slots_push v t : 0 < slot_duration_seconds cfg -> service_inv v -> caught_up v -> last_slot v < t -> is_slot_boundary cfg t = true ->
  StronglySorted (fun a b => b + slot_duration_seconds cfg <= a) (t :: slots v).
Proof.
  intros Hd [_ _ H3 H4] H2 Hlt Hb. unfold caught_up in H2. constructor; [done|].
  destruct (slots v) as [|a l]; [constructor|]. cbn in H2. rewrite H2 in Hlt.
  apply Forall_cons in H4 as [[_ Ha] H4]. pose proof (boundary_gap t a Hd Hb Ha Hlt) as Hg.
  apply StronglySorted_inv in H3 as [_ H3]. constructor; [done|]. eapply Forall_impl; [exact H3|]. cbn. lia.
Qed.

Lemma call_step_inv v v' : service_inv v -> call_step v = Some v' -> service_inv v'.
Proof.
  intros [H1 H2 H3 H4] E. unfold call_step in E. destruct (call v) eqn:Ec; simplify_eq/=; try (destruct H2 as [Hr H2]).
  - split; try done. cbn. destruct (running v) eqn:Hr; cbn; by rewrite ?Hr.
  - by split.
  - by split.
  - destruct H2 as (Hj & Hf & Hc). split; cbn; [by rewrite H1, Hj| |done|done]. rewrite Hr. split; [done|]. by exists at_check, (threads v).
  - split; try done. cbn. destruct (running v) eqn:Hr; cbn; by rewrite ?Hr.
  - by split.
  - destruct H2 as (Hj & p & rest & Et & Hf & Hp). unfold join in E. rewrite Hj, Et in E. cbn in E. destruct p; try done. injection E as <-.
    split; try done. cbn. split; [done|]. split; [done|]. split; [by constructor|done].
  - by split.
Qed.

(** The thread that runs takes a step. *)
Lemma loop_step_single v i now v' : 0 < slot_duration_seconds cfg <= 2 ^ 62 -> 0 <= now < 2 ^ 63 -> service_inv v -> loop_step v i now = Some v' ->
  (single v \/ quiet v) -> single v /\ single v' /\ call v' = call v /\ running v' = running v /\ aborted v' = aborted v /\
  StronglySorted (fun a b => b + slot_duration_seconds cfg <= a) (slots v') /\ Forall (fun a => 0 < a /\ is_slot_boundary cfg a = true) (slots v').
Proof.
  intros Hd Hn Hi E Hs. unfold loop_step in E. destruct (threads v !! i) as [p|] eqn:Ei; cbn [mbind option_bind] in E; [|done].
  assert (p <> finished) as Hp by by intros ->.
  destruct Hs as [Hs|(_ & Hf & _)]; [|rewrite Forall_lookup in Hf; by destruct (Hp (eq_sym (Hf i p Ei)))].
  split; [done|]. destruct Hs as (Hj & q & rest & Et & Hf & Hq). rewrite Et in Ei.
  destruct i as [|i]; [|cbn in Ei; rewrite Forall_lookup in Hf; by destruct (Hp (eq_sym (Hf i p Ei)))]. cbn in Ei. injection Ei as ->.
  pose proof Hi as [_ _ H3 H4]. destruct p; cbn in Hq; [| | | | |done].
  - injection E as <-. cbn. split; [|done]. split; [done|]. cbn. rewrite Et. exists (if stop_requested v then finished else at_clock), rest. by destruct (stop_requested v).
  - injection E as <-. split; [|done]. split; [done|]. cbn. rewrite Et. eexists _, rest. split; [done|]. split; [done|].
    destruct (next_slot_spec now Hd Hn) as [Hb Hle]. destruct (Z.leb_spec (next_slot_timestamp cfg now) (last_slot v)) as [|Hlt]; [done|].
    assert (0 < next_slot_timestamp cfg now) as Hpos.
    { unfold caught_up in Hq. destruct (slots v) as [|a l]; cbn in Hq; [lia|]. apply Forall_cons in H4 as [[? _] _]. lia. }
    by destruct (now <? _).
  - injection E as <-. split; [|done]. split; [done|]. cbn. rewrite Et. eexists _, rest. split; [done|]. split; [done|]. destruct (stop_requested v); [apply Hq|done].
  - injection E as <-. destruct Hq as (Hc & Hlt & Hpos & Hb). unfold generate_slot. destruct (generate_block _ _ _) as [r s]. cbn zeta.
    set (ok := match r with Some true => true | _ => false end). clearbody ok.
    split; [split; [done|]; cbn; rewrite Et; eexists _, rest; split; [done|]; split; [done|]; by destruct ok|].
    split; [done|]. split; [done|]. split; [done|]. cbn. destruct ok; [|done]. split; [apply slots_push; try done; lia|by constructor].
  - injection E as <-. split; [|done]. split; [done|]. cbn. rewrite Et. exists at_check, rest. split; [done|]. split; [done|].
    unfold pc_ok, caught_up. cbn. by rewrite Hq.
Qed.

Lemma service_inv_step v v' : 0 < slot_duration_seconds cfg <= 2 ^ 62 -> service_inv v -> step v v' -> service_inv v'.
Proof.
  intros Hd Hv Hs. destruct Hs as [v Hc|v Hc|v v' E|v i now v' Hn E|v s].
  - destruct Hv as [H1 H2 H3 H4]. rewrite Hc in H2. by split.
  - destruct Hv as [H1 H2 H3 H4]. rewrite Hc in H2. by split.
  - by eapply call_step_inv.
  - pose proof (inv_threads v Hv) as Ht.
    destruct (loop_step_single v i now v' Hd Hn Hv E) as (Hs & Hs' & Ec & Er & Ea & H3 & H4).
    { destruct (call v), (running v); naive_solver. }
    split; [by rewrite Ea; apply Hv| |done|done]. rewrite Ec, Er.
    assert (~ quiet v) as Hnq by (intros [Hj _]; destruct Hs as [Hj' _]; congruence).
    destruct (call v), (running v); naive_solver.
  - destruct Hv as [H1 H2 H3 H4]. by split.
Qed.

(** C15: at most one thread, and at most one block per slot.  [start] and [stop]
    are called from one thread, in any sequence; their loads, stores, the join and
    the steps of the loop interleave in any way with each other and with the
    core; the clock may show anything (it may jump back) and attempts to generate
    may fail.  Then never more than one thread is in the loop, none once the
    service is not marked as running, and no joinable thread is ever dropped; the
    slots for which the service generated a block are slot boundaries, each at
    least one slot after the one before, and the last is the one the service
    remembers, or the one the thread is about to store. *)
Theorem service_slots_strict s v : 0 < slot_duration_seconds cfg <= 2 ^ 62 -> rtc step (service_new s) v ->
  (length (filter (fun p => p <> finished) (threads v)) <= 1)%nat /\
  (running v = false -> Forall (eq finished) (threads v)) /\ aborted v = false /\
  StronglySorted (fun a b => b + slot_duration_seconds cfg <= a) (slots v) /\
  Forall (fun t => is_slot_boundary cfg t = true) (slots v) /\
  (last_slot v = default 0 (head (slots v)) \/ exists t, at_store t ∈ threads v /\ head (slots v) = Some t).
Proof.
  intros Hd Hr. assert (service_inv v) as [H1 H2 H3 H4].
  { revert v Hr. apply rtc_ind_r; [by split; [done|done|constructor..]|].
    intros y z _ Hs IH. by eapply service_inv_step. }
  assert (forall l, Forall (eq finished) l -> filter (fun p => p <> finished) l = []) as Hfil.
  { intros l. induction 1 as [|? l <- _ IH]; [done|]. by rewrite filter_cons_False by auto. }
  assert (single v /\ running v = true \/ quiet v) as [[(_ & p & rest & Et & Hf & Hp) Er]|(_ & Hf & Hc)] by (destruct (call v), (running v); naive_solver).
  - rewrite Et, Er. split; [|split; [done|split; [done|split; [done|split]]]].
    + destruct (decide (p = finished)); [rewrite filter_cons_False by auto|rewrite filter_cons_True by done]; rewrite (Hfil _ Hf); cbn; lia.
    + eapply Forall_impl; [exact H4|]. by intros ? [_ ?].
    + destruct p; cbn in Hp; try (left; apply Hp). right. eexists. split; [apply list_elem_of_here|done].
  - rewrite (Hfil _ Hf). split; [cbn; lia|]. split; [done|]. split; [done|]. split; [done|].
    split; [eapply Forall_impl; [exact H4|]; by intros ? [_ ?]|by left].
Qed.
End service_loop.

Lemma example_generated : exists s, generate_block example_config ([] : list block) 1700000010 = (Some true, s).
Proof.
  assert ((generate_block example_config ([] : list block) 1700000010).1 = Some true) as E by (vm_compute; reflexivity).
  destruct (generate_block _ _ _) as [r s]. cbn in E. exists s. by rewrite E.
Qed.

(** A start, a pass of the loop that generates a block, and a stop. *)
Lemma service_slots_strict_witness : exists v, rtc (step example_config) (service_new ([] : list block)) v /\
  slots v = [1700000010] /\ running v = false /\ Forall (eq finished) (threads v).
Proof.
  destruct example_generated as [s E].
  assert (rtc (step example_config) (service_new ([] : list block)) (Service false true false [finished] false 1700000010 [1700000010] s idle)) as Hr.
  { transitivity (Service true false true [at_generate 1700000010] false 0 [] ([] : list block) idle).
    { eapply rtc_l; [apply step_start; reflexivity|]. do 4 (eapply rtc_l; [apply step_call; reflexivity|]).
      do 3 (eapply rtc_l; [apply (step_loop _ _ 0 1700000000); [by_decide|reflexivity]|]). apply rtc_refl. }
    apply (rtc_l _ _ (Service true false true [at_store 1700000010] false 0 [1700000010] s idle)).
    { apply (step_loop _ _ 0 1700000010); [by_decide|]. unfold loop_step. cbn [threads lookup list_lookup mbind option_bind].
      unfold generate_slot. cbn [core_state]. rewrite E. reflexivity. }
    eapply rtc_l; [apply (step_loop _ _ 0 1700000010); [by_decide|reflexivity]|].
    eapply rtc_l; [apply step_stop; reflexivity|]. do 2 (eapply rtc_l; [apply step_call; reflexivity|]).
    eapply rtc_l; [apply (step_loop _ _ 0 1700000011); [by_decide|reflexivity]|].
    do 2 (eapply rtc_l; [apply step_call; reflexivity|]). apply rtc_refl. }
  eexists. split; [exact Hr|]. split; [reflexivity|]. split; [reflexivity|].
  apply (service_slots_strict example_config [] _ ltac:(by_decide) Hr). reflexivity.
Defined.
