(* ===== verification/Blockchain.v ===== *)
(** * The main chain

    Model of the class [Blockchain] of src/cryptonote_core/blockchain.cpp as far
    as it extends and shortens the main chain: the difficulty of the next block
    with its caches, the timestamp rule, the weight limit, the checks of
    outputs, [handle_block_to_main_chain] and [pop_block_from_blockchain].  The database is that of [ChainDb],
    the pool that of [TxPool]; this file gives the pool its view of the chain.

    Proof of work, the curve, bulletproofs and the number of threads are the class
    [ChainEnv]; the inputs of transactions are checked as in [TxCheck], with nothing
    prefetched.  The code is built with PER_BLOCK_CHECKPOINT.  The clock is read
    once per operation, as [now].  [None] is an exception that leaves the
    method. *)
From Stdlib Require Import ZArith Lia Bool.
From stdpp Require Import prelude gmap.
From S2P Require Import Prelude StringTools Varint Archive TxExtra Rct CryptonoteBasic Keccak TreeHash HardFork IntUtil Difficulty Hashing RctOps RctSigs Crypto RctModel Money Reward TxPool Checkpoints Outputs ChainDb TxCheck TempConsensus.
Local Open Scope Z_scope.

#[local] Opaque cn_fast_hash.

Class ChainEnv := {
  env_curve :: Curve;
  env_bulletproofs :: Bulletproofs;
  (** the number of threads of the pool that checks signatures *)
  max_concurrency : Z;
  (** the proof-of-work hash of some bytes, in a variant *)
  cn_slow_hash : blob -> Z -> blob
}.

(** ** State *)
Record block_verification_context := Bvc {
  m_added_to_main_chain : bool; m_verifivation_failed : bool; m_marked_as_orphaned : bool;
  m_already_exists : bool; m_partial_block_reward : bool }.

Definition set_added (c : block_verification_context) (x : bool) :=
  Bvc x (m_verifivation_failed c) (m_marked_as_orphaned c) (m_already_exists c) (m_partial_block_reward c).
Definition set_failed (c : block_verification_context) (x : bool) :=
  Bvc (m_added_to_main_chain c) x (m_marked_as_orphaned c) (m_already_exists c) (m_partial_block_reward c).
Definition set_orphaned (c : block_verification_context) (x : bool) :=
  Bvc (m_added_to_main_chain c) (m_verifivation_failed c) x (m_already_exists c) (m_partial_block_reward c).
Definition set_already_exists (c : block_verification_context) (x : bool) :=
  Bvc (m_added_to_main_chain c) (m_verifivation_failed c) (m_marked_as_orphaned c) x (m_partial_block_reward c).
Definition set_partial (c : block_verification_context) (x : bool) :=
  Bvc (m_added_to_main_chain c) (m_verifivation_failed c) (m_marked_as_orphaned c) (m_already_exists c) x.

Record block_extended_info := Bei {
  bei_bl : block; bei_height : Z; bei_block_cumulative_weight : Z; bei_cumulative_difficulty : Z; bei_already_generated_coins : Z }.

(** The last computed difficulty and the window it was computed from. *)
Record difficulty_cache := DifficultyCache {
  m_timestamps : list Z; m_difficulties : list Z; m_timestamps_and_difficulties_height : Z;
  m_difficulty_for_next_block_top_hash : blob; m_difficulty_for_next_block : Z }.

(** The last template, [None] when [m_btc_valid] is false. *)
Record template_cache := TemplateCache {
  m_btc : block; m_btc_address : account_public_address; m_btc_nonce : blob; m_btc_difficulty : Z;
  m_btc_expected_reward : Z; m_btc_pool_cookie : Z }.

Record blockchain := Blockchain {
  m_db : chain_db;
  m_hardfork : HardFork;
  m_tx_pool : tx_memory_pool;
  m_checkpoints : checkpoints;
  m_alternative_chains : gmap blob block_extended_info;
  m_invalid_blocks : gmap blob block_extended_info;
  m_cache : difficulty_cache;
  m_template : option template_cache;
  m_current_block_cumul_weight_limit : Z;
  m_current_block_cumul_weight_median : Z;
  m_blocks_longhash_table : gmap blob blob;
  m_blocks_hash_check : list blob;
  m_blocks_txs_check : list blob;
  m_fixed_difficulty : Z;
  m_sync_counter : Z;
  m_temp_consensus_validator : option validator;
  (** whether a batch transaction of the database is open *)
  m_batch : bool }.

Section setters.
Variable st : blockchain.
Let with_ db hf pool cp alt inv c t lim med long txs sync : blockchain :=
  Blockchain db hf pool cp alt inv c t lim med long (m_blocks_hash_check st) txs (m_fixed_difficulty st) sync
    (m_temp_consensus_validator st) (m_batch st).

Definition set_chain (db : chain_db) (hf : HardFork) : blockchain :=
  with_ db hf (m_tx_pool st) (m_checkpoints st) (m_alternative_chains st) (m_invalid_blocks st) (m_cache st) (m_template st)
    (m_current_block_cumul_weight_limit st) (m_current_block_cumul_weight_median st) (m_blocks_longhash_table st)
    (m_blocks_txs_check st) (m_sync_counter st).
Definition set_pool (pool : tx_memory_pool) : blockchain :=
  with_ (m_db st) (m_hardfork st) pool (m_checkpoints st) (m_alternative_chains st) (m_invalid_blocks st) (m_cache st) (m_template st)
    (m_current_block_cumul_weight_limit st) (m_current_block_cumul_weight_median st) (m_blocks_longhash_table st)
    (m_blocks_txs_check st) (m_sync_counter st).
Definition set_checkpoints (cp : checkpoints) : blockchain :=
  with_ (m_db st) (m_hardfork st) (m_tx_pool st) cp (m_alternative_chains st) (m_invalid_blocks st) (m_cache st) (m_template st)
    (m_current_block_cumul_weight_limit st) (m_current_block_cumul_weight_median st) (m_blocks_longhash_table st)
    (m_blocks_txs_check st) (m_sync_counter st).
Definition set_alternative (alt : gmap blob block_extended_info) : blockchain :=
  with_ (m_db st) (m_hardfork st) (m_tx_pool st) (m_checkpoints st) alt (m_invalid_blocks st) (m_cache st) (m_template st)
    (m_current_block_cumul_weight_limit st) (m_current_block_cumul_weight_median st) (m_blocks_longhash_table st)
    (m_blocks_txs_check st) (m_sync_counter st).
Definition set_invalid (inv : gmap blob block_extended_info) : blockchain :=
  with_ (m_db st) (m_hardfork st) (m_tx_pool st) (m_checkpoints st) (m_alternative_chains st) inv (m_cache st) (m_template st)
    (m_current_block_cumul_weight_limit st) (m_current_block_cumul_weight_median st) (m_blocks_longhash_table st)
    (m_blocks_txs_check st) (m_sync_counter st).
Definition set_difficulty_cache (c : difficulty_cache) : blockchain :=
  with_ (m_db st) (m_hardfork st) (m_tx_pool st) (m_checkpoints st) (m_alternative_chains st) (m_invalid_blocks st) c (m_template st)
    (m_current_block_cumul_weight_limit st) (m_current_block_cumul_weight_median st) (m_blocks_longhash_table st)
    (m_blocks_txs_check st) (m_sync_counter st).
Definition set_template (t : option template_cache) : blockchain :=
  with_ (m_db st) (m_hardfork st) (m_tx_pool st) (m_checkpoints st) (m_alternative_chains st) (m_invalid_blocks st) (m_cache st) t
    (m_current_block_cumul_weight_limit st) (m_current_block_cumul_weight_median st) (m_blocks_longhash_table st)
    (m_blocks_txs_check st) (m_sync_counter st).
Definition set_weights (lim med : Z) : blockchain :=
  with_ (m_db st) (m_hardfork st) (m_tx_pool st) (m_checkpoints st) (m_alternative_chains st) (m_invalid_blocks st) (m_cache st) (m_template st)
    lim med (m_blocks_longhash_table st) (m_blocks_txs_check st) (m_sync_counter st).
Definition set_tables (long : gmap blob blob) (txs : list blob) : blockchain :=
  with_ (m_db st) (m_hardfork st) (m_tx_pool st) (m_checkpoints st) (m_alternative_chains st) (m_invalid_blocks st) (m_cache st) (m_template st)
    (m_current_block_cumul_weight_limit st) (m_current_block_cumul_weight_median st) long txs (m_sync_counter st).
Definition set_sync (n : Z) : blockchain :=
  with_ (m_db st) (m_hardfork st) (m_tx_pool st) (m_checkpoints st) (m_alternative_chains st) (m_invalid_blocks st) (m_cache st) (m_template st)
    (m_current_block_cumul_weight_limit st) (m_current_block_cumul_weight_median st) (m_blocks_longhash_table st)
    (m_blocks_txs_check st) n.
End setters.

(** [m_blocks_txs_check.clear()] *)
Definition clear_txs_check (st : blockchain) : blockchain := set_tables st (m_blocks_longhash_table st) [].
Definition invalidate_block_template_cache (st : blockchain) : blockchain := set_template st None.

(** ** Queries *)
Definition current_version (st : blockchain) : Z := get_current_version (m_hardfork st).
Definition tail_id (st : blockchain) : blob := top_block_hash (m_db st).
Definition generated_coins (st : blockchain) : Z :=
  default 0 (get_block_already_generated_coins (m_db st) (height (m_db st) - 1)).

Definition have_block (st : blockchain) (id : blob) : bool :=
  block_exists (m_db st) id || bool_decide (is_Some (m_alternative_chains st !! id)) || bool_decide (is_Some (m_invalid_blocks st !! id)).

Definition get_block_id_by_height (st : blockchain) (h : Z) : blob := default null_hash (get_block_hash_from_height (m_db st) h).

Fixpoint keyimges_as_spent (db : chain_db) (ins : list txin_v) : bool :=
  match ins with
  | [] => false
  | txin_to_key _ _ k_image :: ins => if has_key_image db k_image then true else keyimges_as_spent db ins
  | _ => true
  end.

Definition last_n_blocks_weights (st : blockchain) (count : Z) : list Z :=
  let h := height (m_db st) in
  bi_weight <$> drop (Z.to_nat (h - Z.min h count)) (blocks (m_db st)).

Definition update_next_cumulative_weight_limit (st : blockchain) : blockchain :=
  let full_reward_zone := get_min_block_weight (current_version st) in
  let m := median (last_n_blocks_weights st CRYPTONOTE_REWARD_BLOCKS_WINDOW) in
  set_weights st (u64 ((if m <=? full_reward_zone then full_reward_zone else m) * 2)) m.

(** ** The difficulty of the next block *)
Definition DIFFICULTY_BLOCKS_COUNT : Z := 720 + 15.
Definition DIFFICULTY_BLOCKS_COUNT_V8 : Z := 121.
Definition DIFFICULTY_BLOCKS_COUNT_V9 : Z := 121.
Definition DIFFICULTY_BLOCKS_COUNT_V10 : Z := 121.
Definition DIFFICULTY_BLOCKS_COUNT_V12 : Z := 121.
Definition DIFFICULTY_BLOCKS_COUNT_V13 : Z := 121.
Definition DIFFICULTY_TARGET_V10 : Z := 60.

Definition difficulty_blocks_count (version : Z) : Z :=
  if version <=? 7 then DIFFICULTY_BLOCKS_COUNT
  else if version =? 8 then DIFFICULTY_BLOCKS_COUNT_V8
  else if version =? 9 then DIFFICULTY_BLOCKS_COUNT_V9
  else if (version =? 10) || (version =? 11) then DIFFICULTY_BLOCKS_COUNT_V10
  else if version =? 12 then DIFFICULTY_BLOCKS_COUNT_V12
  else DIFFICULTY_BLOCKS_COUNT_V13.

Definition next_difficulty_for_version (version : Z) (timestamps difficulties : list Z) (block_height : Z) : option Z :=
  if version <=? 7 then Some (next_difficulty timestamps difficulties DIFFICULTY_TARGET_V10)
  else if version =? 8 then next_difficulty_V8 timestamps difficulties block_height
  else if version =? 9 then next_difficulty_V9 timestamps difficulties DIFFICULTY_TARGET_V10
  else if (version =? 10) || (version =? 11) then next_difficulty_V10 timestamps difficulties DIFFICULTY_TARGET_V10
  else if version =? 12 then next_difficulty_V12 timestamps difficulties DIFFICULTY_TARGET_V12
  else Some (next_difficulty_V13 timestamps difficulties DIFFICULTY_TARGET_V13).

(** Keep the last [n] elements: the loop that erases at the front. *)
Definition keep_back {A} (n : Z) (l : list A) : list A := drop (Z.to_nat (zlen l - n)) l.

(** The blocks of the window at the end of the chain, without the first block. *)
Definition window_blocks (bs : list block_info) (count : Z) : list block_info :=
  let h := zlen bs in
  let offset := h - Z.min h count in
  drop (Z.to_nat (if offset =? 0 then 1 else offset)) bs.

Definition get_difficulty_for_next_block (st : blockchain) : option (Z * blockchain) :=
  if negb (m_fixed_difficulty st =? 0) then
    Some (if negb (height (m_db st) =? 0) then m_fixed_difficulty st else 1, st)
  else
    let c := m_cache st in
    let version := current_version st in
    let count := difficulty_blocks_count version in
    let top_hash := tail_id st in
    if bool_decide (top_hash = m_difficulty_for_next_block_top_hash c) then Some (m_difficulty_for_next_block c, st)
    else
      let h := height (m_db st) in
      '(timestamps, difficulties) ←
        (if negb (m_timestamps_and_difficulties_height c =? 0) && (u64 (h - m_timestamps_and_difficulties_height c) =? 1) &&
            (count <=? zlen (m_timestamps c)) then
           t ← get_block_timestamp (m_db st) (h - 1);
           d ← get_block_cumulative_difficulty (m_db st) (h - 1);
           Some (keep_back count (m_timestamps c ++ [t]), keep_back count (m_difficulties c ++ [d]))
         else
           let w := window_blocks (blocks (m_db st)) count in
           Some (bi_timestamp <$> w, bi_diff <$> w));
      diff ← next_difficulty_for_version version timestamps difficulties h;
      Some (diff, set_difficulty_cache st (DifficultyCache timestamps difficulties h top_hash diff)).

(** ** Timestamps *)
Definition BLOCKCHAIN_TIMESTAMP_CHECK_WINDOW : Z := 60.
Definition CRYPTONOTE_BLOCK_FUTURE_TIME_LIMIT : Z := 60 * 60 * 2.

(** The limit into the future and the window of the median. *)
Definition timestamp_rule (version : Z) : Z * Z :=
  if version <=? 7 then (CRYPTONOTE_BLOCK_FUTURE_TIME_LIMIT, BLOCKCHAIN_TIMESTAMP_CHECK_WINDOW)
  else if version =? 8 then (60 * 4, 30)
  else if version =? 9 then (60 * 4, 30)
  else if (version =? 10) || (version =? 11) then (60 * 4, 11)
  else if version =? 12 then (60 * 4, 11)
  else (60 * 4, 11).

(** The overload on given timestamps: the answer and [median_ts]. *)
Definition check_timestamps (timestamps : list Z) (b : block) : bool * Z :=
  let median_ts := median timestamps in
  (negb (timestamp (hdr b) <? median_ts), median_ts).

(** [median_ts] is [None] where the code leaves it unset. *)
Definition check_block_timestamp (st : blockchain) (now : Z) (b : block) : bool * option Z :=
  let '(future_time_limit, check_window) := timestamp_rule (current_version st) in
  if u64 (now + future_time_limit) <? timestamp (hdr b) then (false, None)
  else
    let h := height (m_db st) in
    if h <? check_window then (true, None)
    else
      let '(r, median_ts) := check_timestamps (bi_timestamp <$> drop (Z.to_nat (h - check_window)) (blocks (m_db st))) b in
      (r, Some median_ts).

(** ** What the pool asks of the chain *)

Section chain.
Context `{ChainEnv}.

Definition check_tx_outputs (st : blockchain) (tx : transaction) (tvc : tx_verification_context) : bool * tx_verification_context :=
  let hf_version := current_version st in
  let v := version (tx_prefix tx) in
  let outs := vout (tx_prefix tx) in
  let refuse := (false, set_flag f_invalid_output true tvc) in
  if (2 <=? hf_version) && (v =? 1) && negb (forallb (fun o => is_valid_decomposed_amount (out_amount o)) outs) then refuse
  else if (3 <=? hf_version) && (2 <=? v) && negb (forallb (fun o => out_amount o =? 0) outs) then refuse
  else if (4 <=? hf_version) &&
    negb (forallb (fun o => match target o with target_key k => check_key k | _ => true end) outs) then refuse
  else if (hf_version <? HF_VERSION_BULLETPROOFS) && (2 <=? v) &&
    (is_rct_bulletproof (rct_type (rct_signatures tx)) || negb (zlen (bulletproofs (rct_p (rct_signatures tx))) =? 0)) then refuse
  else if (HF_VERSION_BULLETPROOFS <? hf_version) && (2 <=? v) && is_rct_borromean (rct_type (rct_signatures tx)) then refuse
  else (true, tvc).

(** [check_tx_inputs(tx, tvc, pmax_used_block_height)] on the chain, at a version
    and a time: the answer, the context, the height. *)
Definition check_tx_input_rings (db : chain_db) (hf_version now : Z) (tx : transaction) (tvc : tx_verification_context) : bool * tx_verification_context * Z :=
  TxCheck.check_tx_inputs db hf_version now ∅ max_concurrency tx tvc.

(** [check_tx_inputs] with the last block used, as the pool calls it. *)
Definition check_tx_inputs_used (now : Z) (st : blockchain) (tx : transaction) (kept_by_block : bool) (tvc : tx_verification_context)
  (max_used_block_height : Z) (max_used_block_id : blob) : bool * tx_verification_context * Z * blob :=
  if (height (m_db st) <? zlen (m_blocks_hash_check st)) && kept_by_block then (true, tvc, 0, null_hash)
  else
    let '(res, tvc, h) := check_tx_input_rings (m_db st) (current_version st) now tx tvc in
    if negb res then (false, tvc, h, max_used_block_id)
    else if negb (h <? height (m_db st)) then (false, tvc, h, max_used_block_id)
    else (true, tvc, h, get_block_id_by_height st h).

#[export] Instance pool_chain (now : Z) : PoolChain blockchain := {|
  pc_check_fee st tx_weight fee :=
    check_fee tx_weight fee (current_version st) (m_current_block_cumul_weight_limit st) (generated_coins st) (height (m_db st));
  pc_check_tx_outputs := check_tx_outputs;
  pc_check_tx_inputs := check_tx_inputs_used now;
  pc_have_tx_keyimges_as_spent st tx := keyimges_as_spent (m_db st) (vin (tx_prefix tx));
  pc_have_tx st id := tx_exists (m_db st) id;
  pc_current_blockchain_height st := height (m_db st);
  pc_get_block_id_by_height := get_block_id_by_height |}.

(** ** Adding a block *)
Definition return_tx_to_pool (now : Z) (st : blockchain) (txs : list transaction) : option blockchain :=
  foldl (fun st tx =>
    st ← st;
    '(_, _, pool) ← add_tx (H := pool_chain now) st now (m_tx_pool st) tx tvc_zero true true false (current_version st);
    Some (set_pool st pool)) (Some st) txs.

Definition add_block_as_invalid (st : blockchain) (bei : block_extended_info) (h : blob) : bool * blockchain :=
  match m_invalid_blocks st !! h with
  | Some _ => (false, st)
  | None => (true, set_invalid st (<[h := bei]> (m_invalid_blocks st)))
  end.

Definition get_block_longhash (b : block) (h : Z) : option blob :=
  bd ← (get_block_hashing_blob b).1;
  let v := major_version (hdr b) in
  let cn_variant := if v <? 7 then 0 else if (v =? 7) || (v =? 8) || (v =? 9) then 1 else if (v =? 10) || (v =? 11) then 2 else 3 in
  Some (cn_slow_hash bd cn_variant).

(** Proof of work.  The answer, and whether the block's hash is known in
    advance ([fast_check]). *)
Definition check_proof_of_work (st : blockchain) (bl : block) (id : blob) (current_diffic : Z) : option (bool * bool) :=
  let h := height (m_db st) in
  let full :=
    proof_of_work ← match m_blocks_longhash_table st !! id with Some p => Some p | None => get_block_longhash bl h end;
    Some (check_hash proof_of_work current_diffic, false) in
  if h <? zlen (m_blocks_hash_check st) then
    match (get_block_hash bl).1 with
    | None => None
    | Some hash =>
        let expected_hash := m_blocks_hash_check st !!! Z.to_nat h in
        if negb (bool_decide (expected_hash = null_hash)) then Some (bool_decide (hash = expected_hash), true)
        else Some (true, false)
    end
  else full.

(** The loop over the transactions of the block: those taken so far, with their
    fees and the weight.  [inl] is a refusal, with the state it leaves. *)
Fixpoint take_block_txs (now : Z) (bl : block) (id : blob) (fast_check : bool) (hashes : list blob) (st : blockchain)
  (tx_index : nat) (txs : list transaction) (fee_summary cumulative_block_weight : Z)
  : option (blockchain + blockchain * list transaction * Z * Z) :=
  match hashes with
  | [] => Some (inr (st, txs, fee_summary, cumulative_block_weight))
  | tx_id :: hashes =>
      if tx_exists (m_db st) tx_id then st ← return_tx_to_pool now st txs; Some (inl st)
      else
        match take_tx (m_tx_pool st) tx_id with
        | (None, pool) => st ← return_tx_to_pool now (set_pool st pool) txs; Some (inl st)
        | (Some t, pool) =>
            let st := set_pool st pool in
            let txs := txs ++ [k_tx t] in
            let refuse :=
              st ← return_tx_to_pool now (add_block_as_invalid st (Bei bl 0 0 0 0) id).2 txs; Some (inl st) in
            if negb fast_check then
              let '(res, _, _) := check_tx_input_rings (m_db st) (current_version st) now (k_tx t) tvc_zero in
              if negb res then refuse
              else take_block_txs now bl id fast_check hashes st tx_index txs
                     (u64 (fee_summary + k_fee t)) (u64 (cumulative_block_weight + k_weight t))
            else
              match m_blocks_txs_check st !! tx_index with
              | None => refuse
              | Some checked =>
                  if negb (bool_decide (checked = tx_id)) then refuse
                  else take_block_txs now bl id fast_check hashes st (S tx_index) txs
                         (u64 (fee_summary + k_fee t)) (u64 (cumulative_block_weight + k_weight t))
              end
        end
  end.

(** The end of the method: the transactions are at hand. *)
Definition store_block (now : Z) (st : blockchain) (bl : block) (id : blob) (bvc : block_verification_context) (current_diffic : Z)
  (txs : list transaction) (fee_summary cumulative_block_weight : Z) : option (bool * blockchain * block_verification_context) :=
  let st := clear_txs_check st in
  let db := m_db st in
  let already_generated_coins := generated_coins st in
  match validate_miner_transaction bl cumulative_block_weight fee_summary already_generated_coins (current_version st)
          (last_n_blocks_weights st CRYPTONOTE_REWARD_BLOCKS_WINDOW) (height db) (current_version st) with
  | None => st ← return_tx_to_pool now st txs; Some (false, st, set_failed (set_partial bvc false) true)
  | Some (base_reward, partial) =>
      let bvc := set_partial bvc partial in
      let already_generated_coins := next_generated_coins already_generated_coins base_reward in
      let cumulative_difficulty := u64 (current_diffic + default 0 (get_block_cumulative_difficulty db (height db - 1))) in
      match (if m_verifivation_failed bvc then Done (db, m_hardfork st)
             else add_block (m_batch st) db (m_hardfork st) bl cumulative_block_weight cumulative_difficulty already_generated_coins txs) with
      | Thrown (db, hf) => st ← return_tx_to_pool now (set_chain st db hf) txs; Some (false, st, set_failed bvc true)
      | Done (db, hf) =>
          let st := update_next_cumulative_weight_limit (set_chain st db hf) in
          let st := set_sync st (u64 (m_sync_counter st + 1)) in
          let st := set_pool st (on_blockchain_inc (m_tx_pool st)) in
          '(_, st) ← get_difficulty_for_next_block st;
          Some (true, invalidate_block_template_cache st, set_added bvc true)
      end
  end.

Definition handle_block_to_main_chain (now : Z) (st : blockchain) (bl : block) (id : blob) (bvc : block_verification_context)
  : option (bool * blockchain * block_verification_context) :=
  let leave := fun st => Some (false, st, set_failed bvc true) in
  if negb (bool_decide (prev_id (hdr bl) = tail_id st)) then leave st
  else if negb (check (m_hardfork st) bl) then leave st
  else if negb (check_block_timestamp st now bl).1 then leave st
  else
    let skip_pow_check := match m_temp_consensus_validator st with Some v => v_enabled v | None => false end in
    '(current_diffic, st) ← get_difficulty_for_next_block st;
    if current_diffic =? 0 then Some (false, st, bvc)
    else
      '(pow, fast_check) ← (if skip_pow_check then Some (true, false) else check_proof_of_work st bl id current_diffic);
      if negb pow then leave st
      else
        let h := height (m_db st) in
        if is_in_checkpoint_zone (m_checkpoints st) h && negb (check_block (m_checkpoints st) h id).1 then leave st
        else if negb (prevalidate_miner_transaction bl h) then leave st
        else
          coinbase_weight ← get_transaction_weight (miner_tx bl);
          r ← take_block_txs now bl id fast_check (tx_hashes bl) st 0 [] 0 coinbase_weight;
          match r with
          | inl st => leave st
          | inr (st, txs, fee_summary, cumulative_block_weight) =>
              store_block now st bl id bvc current_diffic txs fee_summary cumulative_block_weight
          end.

(** ** Removing the top block *)
Definition pop_block_from_blockchain (now : Z) (st : blockchain) : option (block * blockchain) :=
  let c := m_cache st in
  let st := set_difficulty_cache st (DifficultyCache (m_timestamps c) (m_difficulties c) 0
              (m_difficulty_for_next_block_top_hash c) (m_difficulty_for_next_block c)) in
  if negb (1 <? height (m_db st)) then None
  else
    match pop_block (m_batch st) (m_db st) with
    | Done (db, Some (popped_block, popped_txs)) =>
        st ← return_tx_to_pool now (set_chain st db (m_hardfork st)) (filter (fun tx => is_coinbase tx = false) popped_txs);
        let st := set_tables st ∅ [] in
        let st := update_next_cumulative_weight_limit st in
        let st := set_pool st (on_blockchain_dec (m_tx_pool st)) in
        Some (popped_block, invalidate_block_template_cache st)
    | _ => None
    end.
End chain.

(** ** The difficulty caches are transparent *)

(** The difficulty as a function of the chain. *)
Definition difficulty_of (db : chain_db) (version : Z) : option Z :=
  let w := window_blocks (blocks db) (difficulty_blocks_count version) in
  next_difficulty_for_version version (bi_timestamp <$> w) (bi_diff <$> w) (height db).

Record cache_ok (st : blockchain) : Prop := {
  co_window : m_timestamps_and_difficulties_height (m_cache st) <> 0 -> exists count w,
    0 < count /\ 0 <= m_timestamps_and_difficulties_height (m_cache st) <= height (m_db st) /\
    w = window_blocks (take (Z.to_nat (m_timestamps_and_difficulties_height (m_cache st))) (blocks (m_db st))) count /\
    m_timestamps (m_cache st) = bi_timestamp <$> w /\ m_difficulties (m_cache st) = bi_diff <$> w;
  co_value : m_difficulty_for_next_block_top_hash (m_cache st) = tail_id st ->
    difficulty_of (m_db st) (current_version st) = Some (m_difficulty_for_next_block (m_cache st))
}.

Lemma cache_ok_ext st st' : m_cache st' = m_cache st -> m_db st' = m_db st -> m_hardfork st' = m_hardfork st -> cache_ok st -> cache_ok st'.
Proof. intros E1 E2 E3 [H1 H2]. split; unfold tail_id, current_version; by rewrite E1, E2, ?E3. Qed.

Lemma difficulty_blocks_count_pos v : 0 < difficulty_blocks_count v.
Proof. unfold difficulty_blocks_count. repeat case_match; by vm_compute. Qed.

(** The window of one block more, from the window before. *)
Lemma window_blocks_snoc l b count count' : 0 < count' -> 0 < count -> count <= zlen (window_blocks l count') ->
  keep_back count (window_blocks l count' ++ [b]) = window_blocks (l ++ [b]) count.
Proof.
  intros Hc' Hc Hl. unfold keep_back, window_blocks in *. rewrite !zlen_app. change (zlen [b]) with 1.
  set (o := Z.to_nat (if zlen l - Z.min (zlen l) count' =? 0 then 1 else zlen l - Z.min (zlen l) count')) in *.
  assert (1 <= o)%nat as Ho by (unfold o; destruct (Z.eqb_spec (zlen l - Z.min (zlen l) count') 0); lia). clearbody o.
  assert (zlen (drop o l) = zlen l - Z.of_nat o) as El by (unfold zlen in *; rewrite length_drop in *; lia). rewrite El in *.
  destruct (Z.eqb_spec (zlen l + 1 - Z.min (zlen l + 1) count) 0) as [E0|E0]; [lia|].
  replace (drop o l ++ [b]) with (drop o (l ++ [b])) by (rewrite drop_app_le; [done|unfold zlen in *; lia]).
  rewrite drop_drop. f_equal. lia.
Qed.

Lemma keep_back_fmap {A B} (f : A -> B) n l : keep_back n (f <$> l) = f <$> keep_back n l.
Proof. unfold keep_back, zlen. rewrite length_fmap. by rewrite fmap_drop. Qed.

Lemma get_difficulty_spec st : m_fixed_difficulty st = 0 -> height (m_db st) < 2 ^ 64 -> cache_ok st ->
  match get_difficulty_for_next_block st with
  | Some (d, st') => difficulty_of (m_db st) (current_version st) = Some d /\ cache_ok st' /\
      m_difficulty_for_next_block_top_hash (m_cache st') = tail_id st /\ exists c, st' = set_difficulty_cache st c
  | None => difficulty_of (m_db st) (current_version st) = None
  end.
Proof.
  intros Hf Hh [Hw Hv]. unfold get_difficulty_for_next_block. rewrite Hf. cbn [Z.eqb negb].
  case_bool_decide as Etop.
  { split; [by apply Hv|]. split; [by split|]. split; [done|]. exists (m_cache st). by destruct st. }
  set (v := current_version st) in *. set (count := difficulty_blocks_count v). set (c := m_cache st) in *.
  set (h := height (m_db st)) in *. set (full := window_blocks (blocks (m_db st)) count).
  assert ((if negb (m_timestamps_and_difficulties_height c =? 0) && (u64 (h - m_timestamps_and_difficulties_height c) =? 1) &&
            (count <=? zlen (m_timestamps c)) then
           t ← get_block_timestamp (m_db st) (h - 1); d ← get_block_cumulative_difficulty (m_db st) (h - 1);
           Some (keep_back count (m_timestamps c ++ [t]), keep_back count (m_difficulties c ++ [d]))
         else Some (bi_timestamp <$> full, bi_diff <$> full)) = Some (bi_timestamp <$> full, bi_diff <$> full)) as ->.
  { destruct (_ && _) eqn:E; [|done]. apply andb_prop in E as [[E1 E2%Z.eqb_eq]%andb_prop E3%Z.leb_le].
    rewrite negb_true_iff, Z.eqb_neq in E1. destruct (Hw E1) as (count' & w & Hc & Hr & Ew & Et & Ed).
    set (tdh := m_timestamps_and_difficulties_height c) in *. unfold wrap in E2.
    assert (h = tdh + 1) as Eh by (rewrite Z.mod_small in E2; lia).
    assert (exists b, take (Z.to_nat tdh) (blocks (m_db st)) ++ [b] = blocks (m_db st)) as [b Eb].
    { unfold h, height, zlen in Eh. destruct (blocks (m_db st) !! Z.to_nat tdh) as [b|] eqn:El; [|apply lookup_ge_None in El; lia].
      exists b. rewrite <- (take_S_r _ _ _ El). apply take_ge. lia. }
    assert (get_block_info (m_db st) (h - 1) = Some b) as Ei.
    { unfold get_block_info. fold h. rewrite (proj2 (Z.leb_le 0 (h - 1))), (proj2 (Z.ltb_lt (h - 1) h)) by lia. cbn [andb].
      rewrite <- Eb. rewrite lookup_app_r by (rewrite length_take; lia). rewrite length_take.
      replace (_ - _)%nat with 0%nat; [done|]. unfold h, height, zlen in *. lia. }
    unfold get_block_timestamp, get_block_cumulative_difficulty. rewrite Ei. cbn [fmap option_fmap option_map mbind option_bind].
    rewrite Et, Ed. change [bi_timestamp b] with (bi_timestamp <$> [b]). change [bi_diff b] with (bi_diff <$> [b]).
    rewrite <- !fmap_app, !keep_back_fmap. assert (keep_back count (w ++ [b]) = full) as ->; [|done]. unfold full.
    transitivity (window_blocks (take (Z.to_nat tdh) (blocks (m_db st)) ++ [b]) count); [|by rewrite Eb].
    rewrite Ew. apply window_blocks_snoc; [done|apply difficulty_blocks_count_pos|]. rewrite <- Ew. unfold zlen in *. by rewrite Et, length_fmap in E3. }
  cbn [mbind option_bind]. unfold difficulty_of. fold v count h full.
  destruct (next_difficulty_for_version v _ _ h) as [d|] eqn:Ed; cbn [mbind option_bind]; [|done]. split; [done|]. split; [|split; [done|by eexists]].
  split; cbn [set_difficulty_cache m_cache m_timestamps_and_difficulties_height m_db m_timestamps m_difficulties m_difficulty_for_next_block
    m_difficulty_for_next_block_top_hash].
  - intros _. exists count, full. split; [apply difficulty_blocks_count_pos|]. split; [unfold h, height, zlen; lia|].
    split; [|done]. unfold full. rewrite take_ge; [done|]. unfold h, height, zlen. lia.
  - intros _. exact Ed.
Qed.

(** ** What the operations leave alone *)

(** What the pool's table holds: blobs of transactions it admitted, whose outputs,
    if of version 1, have keys and amounts ([check_outs_valid]). *)
Definition plain_outputs (tx : transaction) : Prop :=
  version (tx_prefix tx) = 1 -> Forall (fun o => match target o with target_key _ => out_amount o <> 0 | _ => False end) (vout (tx_prefix tx)).
Definition good_tx (tx : transaction) : Prop := plain_outputs tx /\ exists ks, admissible tx ks.
Definition good_entry (id bd : blob) : Prop := exists tx, good_tx tx /\ transaction_hash tx = id /\ bd = tx_to_blob tx.
Abbreviation good_pool := (all_entries good_entry).

Lemma good_tx_entry tx : good_tx tx -> good_entry (transaction_hash tx) (tx_to_blob tx).
Proof. intros Hg. by exists tx. Qed.

Lemma good_tx_clean tx : good_tx tx -> good_tx (tx_invalidate_hashes tx).
Proof. intros (Hp & ks & Hok & Hc & Hx & Hk & Hn). split; [exact Hp|]. exists ks. split; [exact Hok|]. split; [by split|]. split; [exact Hx|]. by split. Qed.

Lemma good_entry_parse id bd tx : good_entry id bd -> parse_and_validate_tx_from_blob bd = Some tx ->
  good_tx tx /\ transaction_hash tx = id /\ tx_invalidate_hashes tx = tx.
Proof.
  intros (tx0 & Hg & <- & ->) Hp. pose proof Hg as (_ & ks & Ha). destruct (admissible_entry tx0 ks Ha) as [Hp' _]. rewrite Hp' in Hp. injection Hp as <-.
  split; [by apply good_tx_clean|]. split; [|done]. apply transaction_hash_clean, Ha.
Qed.

Lemma images_no_gen ins ks : images_of ins = Some ks -> Forall (fun i => supported i = true /\ is_gen i = false) ins.
Proof.
  revert ks. induction ins as [|i ins IH]; intros ks; [constructor|].
  cbn [images_of]. destruct i; try done. destruct (images_of ins) as [ks'|]; [|done]. intros _. constructor; [done|]. by eapply IH.
Qed.

Lemma good_tx_not_miner tx : good_tx tx -> is_miner_tx tx = false /\ is_pseudo_rct tx = false /\ is_coinbase tx = false.
Proof.
  intros (_ & ks & _ & _ & _ & Hk & _). apply images_no_gen in Hk as Hf. unfold is_miner_tx, is_pseudo_rct, is_coinbase. split.
  - clear Hk. induction Hf as [|i l [_ E] _ IH]; [done|]. cbn. by rewrite E.
  - destruct Hf as [|[] ? [_ ?] _]; [by rewrite andb_false_r|done|by rewrite andb_false_r..].
Qed.

Lemma good_tx_supported tx : good_tx tx -> tx_supported tx.
Proof.
  intros Hg. destruct (good_tx_not_miner tx Hg) as (H1 & H2 & _). split; [|unfold coinbase_agrees; by rewrite H1, H2].
  destruct Hg as (_ & ks & _ & _ & _ & Hk & _). eapply Forall_impl; [by eapply images_no_gen|]. by intros i [? _].
Qed.

Lemma good_tx_storable `{Curve} tx : good_tx tx -> storable tx.
Proof.
  intros Hg i o Eo. destruct (good_tx_not_miner tx Hg) as (H1 & _ & H3). destruct Hg as (Hp & ks & Hok & _ & Hx & _). unfold storable_output, stored_output. rewrite H1. cbn [andb].
  unfold expand_transaction_1 in Hx. rewrite H3, andb_true_r in Hx. destruct (Z.leb_spec 2 (version (tx_prefix tx))) as [Hv|Hv].
  - destruct (Z.eqb_spec (zlen (outPk (rct_signatures tx))) (zlen (vout (tx_prefix tx)))) as [El|]; [|done]. cbn [negb] in Hx.
    destruct (forallb _ (vout (tx_prefix tx))) eqn:Ef; [|done]. rewrite forallb_elem in Ef. specialize (Ef o (list_elem_of_lookup_2 _ _ _ Eo)). cbn in Ef. destruct (target o); try done.
    rewrite (proj2 (Z.ltb_lt 1 _)) by lia. destruct (lookup_lt_is_Some_2 (outPk (rct_signatures tx)) i) as [c Ec]; [apply lookup_lt_Some in Eo; unfold zlen in El; lia|].
    by rewrite Ec, bool_decide_false, andb_false_r.
  - assert (version (tx_prefix tx) = 1) as Ev. { destruct Hok as ((Hv0 & _) & _). cbn in Hv0. unfold version_supported in Hv0. destruct Hv0 as [[? ?] Hv0]. destruct (Z.eqb_spec (version (tx_prefix tx)) 0); [done|]. lia. }
    specialize (Hp Ev). rewrite Forall_lookup in Hp. specialize (Hp i o Eo). destruct (target o); try done. by rewrite (proj2 (Z.eqb_neq _ 0) Hp).
Qed.

Section frames.
Context `{ChainEnv}.

(** Only the pool and the invalid blocks differ, and the pool stays good. *)
Definition pool_only (st st' : blockchain) : Prop :=
  (exists pool inv, st' = set_invalid (set_pool st pool) inv) /\ (good_pool (m_tx_pool st) -> good_pool (m_tx_pool st')).

#[local] Instance pool_only_refl : Reflexive pool_only.
Proof. intros st. split; [|done]. exists (m_tx_pool st), (m_invalid_blocks st). by destruct st. Qed.
#[local] Instance pool_only_trans : Transitive pool_only.
Proof. intros st st1 st2 [(p1 & i1 & ->) H1] [(p2 & i2 & ->) H2]. split; [by exists p2, i2|]. intros Hp. by apply H2, H1. Qed.

Lemma set_pool_only st pool : (good_pool (m_tx_pool st) -> good_pool pool) -> pool_only st (set_pool st pool).
Proof. intros Hp. split; [|done]. by exists pool, (m_invalid_blocks st). Qed.

Lemma add_block_as_invalid_only st bei h : pool_only st (add_block_as_invalid st bei h).2.
Proof. unfold add_block_as_invalid. case_match; [done|]. split; [|done]. exists (m_tx_pool st). by eexists. Qed.

Lemma return_tx_to_pool_only now st txs st' : Forall good_tx txs -> return_tx_to_pool now st txs = Some st' -> pool_only st st'.
Proof.
  intros Ht. unfold return_tx_to_pool. revert st. induction Ht as [|tx txs Htx Ht IH]; intros st; cbn [foldl]; [by intros [= <-]|].
  cbn [mbind option_bind]. destruct (add_tx _ _ _ _ _ _ _ _ _) as [[[r tvc] pool]|] eqn:Ea; cbn [mbind option_bind].
  - intros E%IH. etrans; [apply set_pool_only|exact E]. intros Hp. eapply entries_add_tx in Ea; [exact Ea|by apply good_tx_entry|done].
  - intros E. exfalso. clear IH Ht. induction txs; [done|]. by apply IHtxs.
Qed.

(** The transactions of an accepted block were in the pool and are no more. *)
Definition taken_from (pool pool' : tx_memory_pool) (hashes : list blob) (txs : list transaction) : Prop :=
  Forall2 (fun h tx => transaction_hash tx = h /\ good_tx tx /\ tx_invalidate_hashes tx = tx /\
    exists meta bd, txpool pool !! h = Some (meta, bd) /\ parse_and_validate_tx_from_blob bd = Some tx) hashes txs /\
  (forall h, txpool pool' !! h = if decide (h ∈ hashes) then None else txpool pool !! h).

Lemma taken_from_cons pool pool1 pool' h hashes t txs meta bd : txpool pool !! h = Some (meta, bd) -> parse_and_validate_tx_from_blob bd = Some t ->
  good_entry h bd -> txpool pool1 = delete h (txpool pool) -> taken_from pool1 pool' hashes txs -> taken_from pool pool' (h :: hashes) (t :: txs).
Proof.
  intros Hl Hp Hg Hdel [H3 H4]. rewrite Hdel in H3, H4. destruct (good_entry_parse _ _ _ Hg Hp) as (G1 & G2 & G3). split.
  - constructor; [split; [done|]; split; [done|]; split; [done|by exists meta, bd]|].
    eapply Forall2_impl; [exact H3|]. intros h' tx' (E1 & E2 & E2' & m' & bd' & E3 & E4). apply lookup_delete_Some in E3 as [_ E3].
    split; [done|]. split; [done|]. split; [done|]. by exists m', bd'.
  - intros h'. rewrite H4. destruct (decide (h' = h)) as [->|Hne].
    + rewrite lookup_delete_eq. rewrite (decide_True (P := h ∈ h :: hashes)) by apply elem_of_cons, or_introl, eq_refl. by case_decide.
    + rewrite lookup_delete_ne by done. apply decide_ext. rewrite elem_of_cons. by split; [right|intros [?|?]].
Qed.

Lemma take_block_txs_spec now bl id fast hashes st i txs fee w r : good_pool (m_tx_pool st) -> Forall good_tx txs ->
  take_block_txs now bl id fast hashes st i txs fee w = Some r ->
  match r with
  | inl st' => pool_only st st'
  | inr (st', txs', _, _) => exists pool new, st' = set_pool st pool /\ good_pool pool /\ txs' = txs ++ new /\
      Forall (fun h => tx_exists (m_db st) h = false) hashes /\ taken_from (m_tx_pool st) pool hashes new
  end.
Proof.
  revert st i txs fee w. induction hashes as [|h hashes IH]; intros st i txs fee w Hg Htxs; cbn [take_block_txs].
  { intros [= <-]. exists (m_tx_pool st), []. rewrite app_nil_r. split; [by destruct st|]. split; [done|]. split; [done|]. split; [constructor|].
    split; [constructor|done]. }
  destruct (tx_exists _ _) eqn:Ex.
  { destruct (return_tx_to_pool _ _ _) eqn:E; [|done]. intros [= <-]. by eapply return_tx_to_pool_only. }
  pose proof (entries_take good_entry (m_tx_pool st) h Hg) as [Hg' Ht]. destruct (take_tx _ _) as [[t|] pool]; cbn [fst snd] in *.
  2: { destruct (return_tx_to_pool _ _ _) eqn:E; [|done]. intros [= <-]. transitivity (set_pool st pool); [by apply set_pool_only|]. by eapply return_tx_to_pool_only. }
  destruct (Ht t eq_refl) as (meta & bd & Hl & Hge & Hp & _ & _ & Hdel). destruct (good_entry_parse _ _ _ Hge Hp) as (G1 & _).
  assert (Forall good_tx (txs ++ [k_tx t])) as Htxs' by (apply Forall_app; by split; [|constructor]).
  set (refuse := mbind _ _). set (goal := match r with inl st' => _ | inr _ => _ end). assert (refuse = Some r -> goal) as Hrefuse.
  { unfold refuse. destruct (return_tx_to_pool _ _ _) eqn:E; [|done]. intros [= <-]. unfold goal. transitivity (set_pool st pool); [by apply set_pool_only|].
    etrans; [apply add_block_as_invalid_only|]. by eapply return_tx_to_pool_only. }
  assert (forall i' fee' w', take_block_txs now bl id fast hashes (set_pool st pool) i' (txs ++ [k_tx t]) fee' w' = Some r -> goal) as Hnext.
  { intros i' fee' w' E%IH; [|done..]. unfold goal. destruct r as [st'|[[[st' ?] ?] ?]]; [transitivity (set_pool st pool); [by apply set_pool_only|done]|].
    destruct E as (p & new & -> & H1 & -> & H2 & H3). exists p, (k_tx t :: new). split; [done|]. split; [done|]. split; [by rewrite <- app_assoc|].
    split; [by constructor|]. by eapply taken_from_cons. }
  destruct (negb fast).
  - destruct (check_tx_input_rings _ _ _ _ _) as [[[] ?] ?]; cbn [negb]; [apply Hnext|done].
  - destruct (m_blocks_txs_check _ !! i); [|done]. case_bool_decide; cbn [negb]; [apply Hnext|done].
Qed.

Lemma foldl_sum_ext (f g : blob -> Z) l a : (forall h, h ∈ l -> f h = g h) -> foldl (fun acc h => u64 (acc + f h)) a l = foldl (fun acc h => u64 (acc + g h)) a l.
Proof.
  revert a. induction l as [|h l IH]; intros a Hl; [done|]. cbn [foldl]. rewrite (Hl h) by apply list_elem_of_here. apply IH. intros h' Hh. apply Hl. by right.
Qed.

(** Fees and weights add up as the pool has them. *)
Lemma take_block_txs_sums now bl id fast hashes st i txs fee w st' txs' fee' w' : good_pool (m_tx_pool st) -> Forall good_tx txs ->
  take_block_txs now bl id fast hashes st i txs fee w = Some (inr (st', txs', fee', w')) ->
  fee' = foldl (fun acc h => u64 (acc + fee_of (m_tx_pool st) h)) fee hashes /\ w' = foldl (fun acc h => u64 (acc + weight_of (m_tx_pool st) h)) w hashes.
Proof.
  revert st i txs fee w. induction hashes as [|h hashes IH]; intros st i txs fee w Hg Htxs; cbn [take_block_txs foldl]; [by intros [= <- <- <- <-]|].
  destruct (tx_exists _ _); [by destruct (return_tx_to_pool _ _ _)|].
  pose proof (entries_take good_entry (m_tx_pool st) h Hg) as [Hg' Ht]. destruct (take_tx _ _) as [[t|] pool]; cbn [fst snd] in *; [|by destruct (return_tx_to_pool _ _ _)].
  destruct (Ht t eq_refl) as (meta & bd & Hl & Hge & Hp & Ekw & Ekf & Hdel). destruct (good_entry_parse _ _ _ Hge Hp) as (G1 & _).
  assert (Forall good_tx (txs ++ [k_tx t])) as Htxs' by (apply Forall_app; by split; [|constructor]).
  assert (fee_of (m_tx_pool st) h = k_fee t /\ weight_of (m_tx_pool st) h = k_weight t) as [-> ->] by (unfold fee_of, weight_of; by rewrite Hl).
  set (refuse := mbind _ _). assert (refuse <> Some (inr (st', txs', fee', w'))) as Hrefuse by (unfold refuse; by destruct (return_tx_to_pool _ _ _)).
  assert (forall i', take_block_txs now bl id fast hashes (set_pool st pool) i' (txs ++ [k_tx t]) (u64 (fee + k_fee t)) (u64 (w + k_weight t)) = Some (inr (st', txs', fee', w')) ->
    fee' = foldl (fun acc h => u64 (acc + fee_of (m_tx_pool st) h)) (u64 (fee + k_fee t)) hashes /\
    w' = foldl (fun acc h => u64 (acc + weight_of (m_tx_pool st) h)) (u64 (w + k_weight t)) hashes) as Hnext.
  { intros i' E. pose proof E as E'. apply take_block_txs_spec in E' as (p & new & _ & _ & _ & _ & [Hf _]); [|done..]. apply IH in E as [-> ->]; [|done..].
    cbn [m_tx_pool set_pool] in *. assert (forall h', h' ∈ hashes -> txpool pool !! h' = txpool (m_tx_pool st) !! h') as Hsame.
    { intros h' [k Hk]%list_elem_of_lookup. destruct (Forall2_lookup_l _ _ _ _ _ Hf Hk) as (tx & _ & _ & _ & _ & m & b & E & _). rewrite Hdel in *. apply lookup_delete_Some in E as [Hne _]. by apply lookup_delete_ne. }
    clear -Hsame. split; apply foldl_sum_ext; intros; unfold fee_of, weight_of; by rewrite Hsame. }
  destruct (negb fast).
  - destruct (check_tx_input_rings _ _ _ _ _) as [[[] ?] ?]; cbn [negb]; [apply Hnext|done].
  - destruct (m_blocks_txs_check _ !! i); [|done]. case_bool_decide; cbn [negb]; [apply Hnext|done].
Qed.

Lemma taken_good pool pool' hashes txs : taken_from pool pool' hashes txs -> Forall good_tx txs.
Proof. intros [Hf _]. induction Hf as [|h tx l1 l2 (_ & Hg & _) _ IH]; by constructor. Qed.

Lemma prevalidate_supported bl h : version (tx_prefix (miner_tx bl)) <= CURRENT_TRANSACTION_VERSION -> prevalidate_miner_transaction bl h = true -> tx_supported (miner_tx bl).
Proof.
  unfold prevalidate_miner_transaction, tx_supported, coinbase_agrees, is_miner_tx, is_pseudo_rct, CURRENT_TRANSACTION_VERSION. intros Hv E. destruct (vin _) as [|[] []]; try done.
  split; [by repeat constructor|]. cbn [existsb is_gen orb andb]. rewrite andb_true_r. destruct (Z.eqb_spec (version (tx_prefix (miner_tx bl))) 2), (Z.leb_spec 2 (version (tx_prefix (miner_tx bl)))); lia || done.
Qed.

Lemma prevalidate_height bl h : prevalidate_miner_transaction bl h = true -> Hashing.get_block_height bl = h.
Proof.
  unfold prevalidate_miner_transaction, Hashing.get_block_height. intros E. destruct (vin _) as [|[] []]; try done.
  destruct (Z.eqb_spec height h); [done|]. cbn in E. done.
Qed.

Lemma get_difficulty_only st d st' : get_difficulty_for_next_block st = Some (d, st') -> exists c, st' = set_difficulty_cache st c.
Proof.
  unfold get_difficulty_for_next_block. destruct (negb _); [intros [= _ <-]; exists (m_cache st); by destruct st|].
  case_bool_decide; [intros [= _ <-]; exists (m_cache st); by destruct st|].
  destruct (if _ : bool then _ else _) as [[ts ds]|]; cbn [mbind option_bind]; [|done].
  destruct (next_difficulty_for_version _ _ _ _); cbn [mbind option_bind]; [|done]. intros [= _ <-]. by eexists.
Qed.

(** The state before the last step of a successful call, which computes the
    next difficulty. *)
Definition extended (st : blockchain) (c : difficulty_cache) (pool : tx_memory_pool) (db : chain_db) (hf : HardFork) : blockchain :=
  let st := clear_txs_check (set_pool (set_difficulty_cache st c) pool) in
  let st := update_next_cumulative_weight_limit (set_chain st db hf) in
  set_pool (set_sync st (u64 (m_sync_counter st + 1))) (on_blockchain_inc pool).

(** What a block that enters the chain has passed. *)
Record accepted (now : Z) (st : blockchain) (bl : block) (id : blob) (bvc : block_verification_context)
  (st' : blockchain) (bvc' : block_verification_context) (d fee w reward : Z) (txs : list transaction) (pool : tx_memory_pool)
  (db : chain_db) (hf : HardFork) : Prop := {
  ac_prev : prev_id (hdr bl) = tail_id st;
  ac_version : check (m_hardfork st) bl = true;
  ac_time : (check_block_timestamp st now bl).1 = true;
  ac_diff : exists st1, get_difficulty_for_next_block st = Some (d, st1);
  ac_diff_pos : d <> 0;
  ac_miner : prevalidate_miner_transaction bl (height (m_db st)) = true;
  ac_txs : exists c fast cw, get_transaction_weight (miner_tx bl) = Some cw /\
    take_block_txs now bl id fast (tx_hashes bl) (set_difficulty_cache st c) 0 [] 0 cw =
      Some (inr (set_pool (set_difficulty_cache st c) pool, txs, fee, w));
  ac_reward : validate_miner_transaction bl w fee (generated_coins st) (current_version st)
    (last_n_blocks_weights st CRYPTONOTE_REWARD_BLOCKS_WINDOW) (height (m_db st)) (current_version st) =
      Some (reward, m_partial_block_reward bvc');
  ac_stored : add_block (m_batch st) (m_db st) (m_hardfork st) bl w
    (u64 (d + default 0 (get_block_cumulative_difficulty (m_db st) (height (m_db st) - 1))))
    (next_generated_coins (generated_coins st) reward) txs = Done (db, hf);
  ac_final : exists c d' st2, get_difficulty_for_next_block st = Some (d, set_difficulty_cache st c) /\
    get_difficulty_for_next_block (extended st c pool db hf) = Some (d', st2) /\ st' = invalidate_block_template_cache st2;
  ac_bvc : bvc' = set_added (set_partial bvc (m_partial_block_reward bvc')) true
}.

(** What no operation on the main chain changes. *)
Definition same_settings (st st' : blockchain) : Prop :=
  m_checkpoints st' = m_checkpoints st /\ m_alternative_chains st' = m_alternative_chains st /\
  m_blocks_hash_check st' = m_blocks_hash_check st /\ m_fixed_difficulty st' = m_fixed_difficulty st /\
  m_temp_consensus_validator st' = m_temp_consensus_validator st /\ m_batch st' = m_batch st.

Record refused (st : blockchain) (bvc : block_verification_context) (st' : blockchain) (bvc' : block_verification_context) : Prop := {
  rf_cache : m_cache st' = m_cache st \/ exists d st1, get_difficulty_for_next_block st = Some (d, st1) /\ m_cache st' = m_cache st1;
  rf_blocks : blocks (m_db st') = blocks (m_db st);
  rf_db : m_batch st = false -> m_db st' = m_db st;
  rf_hf : m_hardfork st' = m_hardfork st;
  rf_settings : same_settings st st';
  rf_pool : good_pool (m_tx_pool st');
  rf_added : m_added_to_main_chain bvc' = m_added_to_main_chain bvc
}.

Lemma pool_only_refused st c st' bvc bvc' : good_pool (m_tx_pool st) ->
  c = m_cache st \/ (exists d, get_difficulty_for_next_block st = Some (d, set_difficulty_cache st c)) ->
  pool_only (set_difficulty_cache st c) st' -> m_added_to_main_chain bvc' = m_added_to_main_chain bvc -> refused st bvc st' bvc'.
Proof.
  intros Hg Hc [(p & i & ->) Hp] E. split; [|done|done|done|done|by apply Hp|done].
  destruct Hc as [->|[d Hd]]; [by left|right]. by exists d, (set_difficulty_cache st c).
Qed.

Lemma store_block_inv now st c pool bl id bvc d txs fee w r st' bvc' : m_verifivation_failed bvc = false ->
  good_pool pool -> Forall good_tx txs -> get_difficulty_for_next_block st = Some (d, set_difficulty_cache st c) ->
  store_block now (set_pool (set_difficulty_cache st c) pool) bl id bvc d txs fee w = Some (r, st', bvc') ->
  if r : bool then exists reward db hf d' st2,
    validate_miner_transaction bl w fee (generated_coins st) (current_version st)
      (last_n_blocks_weights st CRYPTONOTE_REWARD_BLOCKS_WINDOW) (height (m_db st)) (current_version st) =
      Some (reward, m_partial_block_reward bvc') /\
    add_block (m_batch st) (m_db st) (m_hardfork st) bl w
      (u64 (d + default 0 (get_block_cumulative_difficulty (m_db st) (height (m_db st) - 1))))
      (next_generated_coins (generated_coins st) reward) txs = Done (db, hf) /\
    get_difficulty_for_next_block (extended st c pool db hf) = Some (d', st2) /\ st' = invalidate_block_template_cache st2 /\
    bvc' = set_added (set_partial bvc (m_partial_block_reward bvc')) true
  else refused st bvc st' bvc'.
Proof.
  intros Hf Hg Htx Hd. unfold store_block. cbv zeta.
  change (generated_coins (clear_txs_check (set_pool (set_difficulty_cache st c) pool))) with (generated_coins st).
  change (current_version (clear_txs_check (set_pool (set_difficulty_cache st c) pool))) with (current_version st).
  change (last_n_blocks_weights (clear_txs_check (set_pool (set_difficulty_cache st c) pool))) with (last_n_blocks_weights st).
  change (m_db (clear_txs_check (set_pool (set_difficulty_cache st c) pool))) with (m_db st).
  change (m_batch (clear_txs_check (set_pool (set_difficulty_cache st c) pool))) with (m_batch st).
  change (m_hardfork (clear_txs_check (set_pool (set_difficulty_cache st c) pool))) with (m_hardfork st).
  destruct (validate_miner_transaction _ _ _ _ _ _ _ _) as [[reward partial]|].
  2: { destruct (return_tx_to_pool _ _ _) as [st1|] eqn:E; [|done]. intros [= <- <- <-].
       apply return_tx_to_pool_only in E as [(p & i & ->) Hp]; [|done].
       split; [|done|done|done|done|by apply Hp|done]. right. by exists d, (set_difficulty_cache st c). }
  change (m_verifivation_failed (set_partial bvc partial)) with (m_verifivation_failed bvc). rewrite Hf.
  destruct (add_block _ _ _ _ _ _ _ _) as [[db hf]|[db hf]] eqn:Ea.
  - destruct (get_difficulty_for_next_block (set_pool _ _)) as [[d' st2]|] eqn:Ed; cbn [mbind option_bind]; [|done]. intros [= <- <- <-].
    exists reward, db, hf, d', st2. split; [done|]. split; [done|]. split; [exact Ed|]. by split.
  - destruct (return_tx_to_pool _ _ _) as [st1|] eqn:E; [|done]. intros [= <- <- <-].
    apply return_tx_to_pool_only in E as [(p & i & ->) Hp]; [|done]. apply add_block_thrown in Ea as (-> & Eb & Hb).
    split; [|exact Eb|exact Hb|done|done|by apply Hp|done]. right. by exists d, (set_difficulty_cache st c).
Qed.

Lemma handle_block_inv now st bl id bvc r st' bvc' : m_verifivation_failed bvc = false -> good_pool (m_tx_pool st) ->
  handle_block_to_main_chain now st bl id bvc = Some (r, st', bvc') ->
  if r : bool then exists d fee w reward txs pool db hf, accepted now st bl id bvc st' bvc' d fee w reward txs pool db hf
  else refused st bvc st' bvc'.
Proof.
  intros Hf Hg. unfold handle_block_to_main_chain. cbv zeta.
  set (goal := if r then _ else _).
  assert (forall c st1, c = m_cache st \/ (exists d, get_difficulty_for_next_block st = Some (d, set_difficulty_cache st c)) ->
    pool_only (set_difficulty_cache st c) st1 -> Some (false, st1, set_failed bvc true) = Some (r, st', bvc') -> goal) as Hleave.
  { intros c st1 Hc Hp E. unfold goal. injection E as <- <- <-. by eapply pool_only_refused. }
  assert (pool_only (set_difficulty_cache st (m_cache st)) st) as Hst
    by (split; [exists (m_tx_pool st), (m_invalid_blocks st); by destruct st|done]).
  case_bool_decide as Hprev; cbn [negb]; [|by apply (Hleave (m_cache st)); [left|]].
  destruct (check (m_hardfork st) bl) eqn:Hver; cbn [negb]; [|by apply (Hleave (m_cache st)); [left|]].
  destruct (check_block_timestamp st now bl).1 eqn:Htime; cbn [negb]; [|by apply (Hleave (m_cache st)); [left|]].
  destruct (get_difficulty_for_next_block st) as [[d st1]|] eqn:Hd; cbn [mbind option_bind]; [|done].
  destruct (get_difficulty_only _ _ _ Hd) as [c ->].
  assert (c = m_cache st \/ exists d', Some (d, set_difficulty_cache st c) = Some (d', set_difficulty_cache st c)) as Hc by (right; by eexists).
  pose proof (pool_only_refl (set_difficulty_cache st c)) as Hst1.
  destruct (Z.eqb_spec d 0) as [|Hd0].
  { intros E. unfold goal. injection E as <- <- <-. rewrite <- Hd in Hc. by eapply pool_only_refused. }
  destruct (if match m_temp_consensus_validator st with Some v => v_enabled v | None => false end then Some (true, false)
            else check_proof_of_work (set_difficulty_cache st c) bl id d) as [[pow fast]|]; cbn [mbind option_bind]; [|done].
  destruct pow; cbn [negb]; [|by apply (Hleave c)]. destruct (_ && negb _); [by apply (Hleave c)|].
  change (height (m_db (set_difficulty_cache st c))) with (height (m_db st)).
  destruct (prevalidate_miner_transaction bl (height (m_db st))) eqn:Hpre; cbn [negb]; [|by apply (Hleave c)].
  destruct (get_transaction_weight (miner_tx bl)) as [cw|] eqn:Hcw; cbn [mbind option_bind]; [|done].
  destruct (take_block_txs _ _ _ _ _ _ _ _ _ _) as [[st1|[[[st1 txs] fee] w]]|] eqn:Ht; cbn [mbind option_bind]; [| |done].
  - apply take_block_txs_spec in Ht; [|done|constructor]. by apply (Hleave c).
  - pose proof Ht as Ht'. apply take_block_txs_spec in Ht' as (pool & new & -> & Hg' & -> & _ & Htk); [|done|constructor].
    intros Hs. apply store_block_inv in Hs; [|done|done|by eapply taken_good|done]. unfold goal. destruct r; [|done].
    destruct Hs as (reward & db & hf & d' & st2 & H1 & H2 & H3 & H4 & H5). exists d, fee, w, reward, new, pool, db, hf.
    split; try done; [by eexists|by exists c, fast, cw|by exists c, d', st2].
Qed.
End frames.

(** ** The chain stays sound *)

(** The recorded supply grows and stays within the total. *)
Definition supply_ok (db : chain_db) : Prop :=
  (forall i b, blocks db !! i = Some b -> 0 <= bi_coins b <= MONEY_SUPPLY) /\
  (forall i b b', blocks db !! i = Some b -> blocks db !! S i = Some b' -> bi_coins b <= bi_coins b').

(** The transactions of the blocks, coinbases apart, are such as the pool admits. *)
Definition stored_good (db : chain_db) : Prop := forall i bi h, blocks db !! i = Some bi -> h ∈ tx_hashes (bi_block bi) ->
  exists tx x, txs db !! h = Some (tx, x) /\ good_tx tx.

(** A block as the node holds it: its caches are right, the fields have their
    widths, and it has the id. *)
Definition block_fit (b : block) (id : blob) : Prop :=
  block_cache_ok b /\ (is_u8 (minor_version (hdr b)) /\ version (tx_prefix (miner_tx b)) <= CURRENT_TRANSACTION_VERSION) /\ is_u64 (Hashing.get_block_height b) /\ block_id b = Some id.

(** What holds of the stored chain, the pool and the fork state. *)
Record chain_sound `{ChainEnv} (st : blockchain) : Prop := {
  cs_db : db_ok (m_db st);
  cs_hf : hf_wf (m_hardfork st);
  cs_version : 2 <= current_version st;
  cs_first : early_fork 2 (m_hardfork st);
  cs_blocks : Forall (fun bi => (is_u8 (minor_version (hdr (bi_block bi))) /\ version (tx_prefix (miner_tx (bi_block bi))) <= CURRENT_TRANSACTION_VERSION) /\ clean_block (bi_block bi) = bi_block bi) (blocks (m_db st));
  cs_heights i bi : blocks (m_db st) !! i = Some bi -> Hashing.get_block_height (bi_block bi) = Z.of_nat i;
  cs_length : height (m_db st) <= 2 ^ 64;
  cs_stored : stored_good (m_db st);
  cs_pool : good_pool (m_tx_pool st);
  cs_genesis : blocks (m_db st) <> [];
  cs_supply : supply_ok (m_db st)
}.

(** With the difficulty caches. *)
Record chain_ok `{ChainEnv} (st : blockchain) : Prop := {
  ch_sound : chain_sound st;
  ch_cache : cache_ok st;
  ch_top : m_difficulty_for_next_block_top_hash (m_cache st) ∈ bi_hash <$> blocks (m_db st) ->
    m_difficulty_for_next_block_top_hash (m_cache st) = tail_id st
}.

Lemma chain_sound_ext `{ChainEnv} st st' : m_db st' = m_db st -> m_hardfork st' = m_hardfork st -> good_pool (m_tx_pool st') -> chain_sound st -> chain_sound st'.
Proof. intros E1 E2 Hp []. split; unfold current_version in *; by rewrite ?E1, ?E2. Qed.

Lemma generated_coins_range st : supply_ok (m_db st) -> 0 <= generated_coins st <= MONEY_SUPPLY.
Proof.
  intros [Hs _]. unfold generated_coins, get_block_already_generated_coins, get_block_info.
  destruct (_ && _); [|by vm_compute]. destruct (blocks (m_db st) !! _) as [b|] eqn:E; cbn; [by eapply Hs|by vm_compute].
Qed.

Lemma generated_coins_last st b : last (blocks (m_db st)) = Some b -> generated_coins st = bi_coins b.
Proof.
  rewrite last_lookup. intros E. pose proof (lookup_lt_Some _ _ _ E) as Hl. unfold generated_coins, get_block_already_generated_coins, get_block_info, height, zlen.
  rewrite (proj2 (Z.leb_le 0 _)), (proj2 (Z.ltb_lt _ _)) by lia. cbn [andb].
  replace (Z.to_nat (Z.of_nat (length (blocks (m_db st))) - 1)) with (pred (length (blocks (m_db st)))) by lia. by rewrite E.
Qed.

Lemma supply_ok_snoc b t s v o t' s' v' o' bi st : m_db st = ChainDb b t s v o -> supply_ok (m_db st) ->
  generated_coins st <= bi_coins bi <= MONEY_SUPPLY -> supply_ok (ChainDb (b ++ [bi]) t' s' v' o').
Proof.
  intros Edb Hs Hb. pose proof (generated_coins_range st Hs) as Hg. destruct Hs as [Hr Hm]. rewrite Edb in Hr, Hm. cbn [blocks] in *. split; cbn [blocks].
  - intros i x [E|[_ [_ <-]%list_lookup_singleton_Some]]%lookup_app_Some; [by eapply Hr|lia].
  - intros i x x' E1 E2. assert (i < length b)%nat by (apply lookup_lt_Some in E2; rewrite length_app in E2; cbn in E2; lia).
    rewrite lookup_app_l in E1 by done. apply lookup_app_Some in E2 as [E2|[Hge [E0 <-]%list_lookup_singleton_Some]]; [by eapply Hm|].
    rewrite <- (generated_coins_last st x); [lia|]. rewrite Edb. cbn [blocks]. rewrite last_lookup, <- E1. f_equal. lia.
Qed.

Lemma tail_in_hashes st : blocks (m_db st) <> [] -> tail_id st ∈ bi_hash <$> blocks (m_db st).
Proof.
  intros Hne. destruct (exists_last Hne) as (l & b & E). unfold tail_id, top_block_hash. rewrite E, last_snoc, fmap_app. cbn.
  apply elem_of_app. right. by apply list_elem_of_singleton.
Qed.

(** The coinbase of an accepted block. *)
Lemma validate_miner_spec b w fee already v weights h cv reward partial : 2 <= cv ->
  validate_miner_transaction b w fee already v weights h cv = Some (reward, partial) ->
  exists base, get_block_reward (median weights) w already v h = Some base /\ 0 <= reward <= base /\
    foldl (fun acc o => u64 (acc + out_amount o)) 0 (vout (tx_prefix (miner_tx b))) = u64 (reward + fee).
Proof.
  intros Hcv. unfold validate_miner_transaction. set (money := foldl _ 0 _).
  assert (u64 money = money) as Em.
  { unfold money. destruct (vout (tx_prefix (miner_tx b))) as [|o l] using rev_ind; [done|]. rewrite foldl_snoc. apply wrap_wrap. lia. }
  destruct (_ && negb _); [done|]. destruct (get_block_reward _ _ _ _ _) as [base|]; [|done].
  destruct (u64 (base + fee) <? money); [done|]. rewrite (proj2 (Z.ltb_ge cv 2)) by lia.
  destruct (Z.leb_spec (u64 (money - fee)) base) as [Hle|]; cbn [negb]; [|done]. intros [= <- _]. exists base. split; [done|].
  split; [unfold wrap in *; pose proof (Z.mod_pos_bound (money - fee) (2 ^ 64)); lia|].
  rewrite wrap_add_l. replace (money - fee + fee) with money by lia. by rewrite Em.
Qed.

Section sound.
Context `{ChainEnv}.

(** The caches after a block has been appended and the difficulty recomputed. *)
Lemma extended_cache st c pool db hf bi : cache_ok (set_difficulty_cache st c) -> m_difficulty_for_next_block_top_hash c = tail_id st ->
  blocks db = blocks (m_db st) ++ [bi] -> tail_id st <> bi_hash bi -> cache_ok (extended st c pool db hf).
Proof.
  intros [Hw _] Ht Eb Hne. cbn [set_difficulty_cache m_cache m_db] in Hw.
  assert (tail_id (extended st c pool db hf) = bi_hash bi) as Etail by (unfold tail_id, top_block_hash; cbn; by rewrite Eb, last_snoc).
  split; [|rewrite Etail; cbn; intros E; congruence].
  change (m_cache (extended st c pool db hf)) with c. change (m_db (extended st c pool db hf)) with db.
  intros (count & w & H1 & H2 & H3 & H4 & H5)%Hw. exists count, w. split; [done|]. unfold height, zlen in *. rewrite Eb, length_app. cbn [length].
  split; [lia|]. split; [|done]. rewrite H3. f_equal. by rewrite take_app_le by lia.
Qed.

(** An accepted block, seen from the states before and after. *)
Record extends (st st' : blockchain) (bl : block) (id : blob) (bi : block_info) (txs : list transaction) (fee base reward d : Z) : Prop := {
  ex_blocks : blocks (m_db st') = blocks (m_db st) ++ [bi];
  ex_block : bi_block bi = clean_block bl /\ bi_hash bi = id /\ bi_timestamp bi = timestamp (hdr bl);
  ex_prev : prev_id (hdr bl) = tail_id st;
  ex_tail : tail_id st' = id;
  ex_diff : (exists c, get_difficulty_for_next_block st = Some (d, set_difficulty_cache st c)) /\ d <> 0 /\
    bi_diff bi = u64 (d + default 0 (get_block_cumulative_difficulty (m_db st) (height (m_db st) - 1)));
  ex_reward : get_block_reward (median (last_n_blocks_weights st CRYPTONOTE_REWARD_BLOCKS_WINDOW)) (bi_weight bi) (generated_coins st)
    (current_version st) (height (m_db st)) = Some base /\ 0 <= reward <= base;
  ex_coins : bi_coins bi = Z.min (generated_coins st + reward) MONEY_SUPPLY;
  ex_paid : foldl (fun acc o => u64 (acc + out_amount o)) 0 (vout (tx_prefix (miner_tx bl))) = u64 (reward + fee);
  ex_fee : fee = foldl (fun acc h => u64 (acc + fee_of (m_tx_pool st) h)) 0 (tx_hashes bl);
  ex_weight : exists cw, get_transaction_weight (miner_tx bl) = Some cw /\
    bi_weight bi = foldl (fun acc h => u64 (acc + weight_of (m_tx_pool st) h)) cw (tx_hashes bl);
  ex_txs : taken_from (m_tx_pool st) (m_tx_pool st') (tx_hashes bl) txs
}.

(** The stored transactions of a block that was taken from the pool. *)
Lemma taken_stored (pool pool' : tx_memory_pool) (hashes : list blob) (l : list transaction) (t : gmap blob (transaction * Z)) (x : Z) (h : blob) : taken_from pool pool' hashes l ->
  Forall (fun p => t !! p.1 = Some (tx_invalidate_hashes p.2, x)) (zip hashes l) -> h ∈ hashes ->
  exists tx y, t !! h = Some (tx, y) /\ good_tx tx.
Proof.
  intros [Hf _] Hst Hin. induction Hf as [|h' tx l1 l2 (_ & Hg & _) Hf IH]; [by apply elem_of_nil in Hin|].
  apply Forall_cons in Hst as [H1 H2]. cbn [fst snd] in H1. apply elem_of_cons in Hin as [->|Hin]; [|by apply IH].
  eexists _, _. split; [exact H1|by apply good_tx_clean].
Qed.

(** The state of the chain after an accepted block. *)
Lemma accepted_extends now st bl id bvc st' bvc' d fee w reward txs pool db hf :
  chain_sound st -> block_fit bl id ->
  accepted now st bl id bvc st' bvc' d fee w reward txs pool db hf ->
  chain_sound st' /\ same_settings st st' /\ current_version st <= current_version st' /\
  exists bi base, extends st st' bl id bi txs fee base reward d.
Proof.
  intros Hs (Hbc & Hmin & Hgen & Hid) [Hprev Hv Ht [st1 Hd] Hd0 Hm (c0 & fast & cw & Hcw & Htx) Hr Ha Hfin _].
  destruct Hs as [Hdb Hhf Hver Hfirst Hmins Hhts Hlen Hsto Hpool Hne Hsup].
  destruct Hfin as (c & d' & st2 & Hd1 & Hd2 & ->). apply get_difficulty_only in Hd2 as [c3 ->].
  pose proof Htx as Hsums. apply take_block_txs_sums in Hsums as [Efee Ew]; [|exact Hpool|constructor]. cbn [m_tx_pool set_difficulty_cache] in Efee, Ew.
  apply take_block_txs_spec in Htx as (pool' & new & Epool & Hpool' & -> & _ & Htaken); [|exact Hpool|constructor]. cbn [app] in *.
  apply (f_equal m_tx_pool) in Epool. cbn [m_tx_pool set_pool set_difficulty_cache] in Epool, Htaken. subst pool'.
  pose proof (taken_good _ _ _ _ Htaken) as Hgood.
  assert (Forall tx_supported new) as Hsupp by (eapply Forall_impl; [exact Hgood|apply good_tx_supported]).
  pose proof (prevalidate_supported _ _ (proj2 Hmin) Hm) as Hmsupp.
  destruct (validate_miner_spec _ _ _ _ _ _ _ _ _ _ Hver Hr) as (base & Hbase & Hrew & Hpaid).
  destruct (add_block_keeps _ _ _ _ _ _ _ _ _ _ Hdb Hbc Hmsupp Hsupp Ha) as (Hdb' & Hsub & Hst).
  destruct (add_block_ok _ _ _ _ _ _ _ _ _ _ Hmsupp Hsupp (proj1 Hbc) Ha) as (h & Eh & Eb & Hnew & _ & Ehf & _).
  pose proof (get_block_hash_spec bl Hbc) as Hs. destruct (get_block_hash bl) as [r1 bl1], Hs as (-> & _). cbn [fst] in Eh. rewrite Hid in Eh. injection Eh as <-.
  set (bi := BlockInfo _ _ _ _ _ _) in Eb. pose proof (generated_coins_range st Hsup) as Hg.
  assert (bi_coins bi = Z.min (generated_coins st + reward) MONEY_SUPPLY) as Ecoins by (unfold bi; cbn [bi_coins]; apply next_generated_spec; lia).
  assert (hf_wf hf /\ heights hf = heights (m_hardfork st) /\ get_current_version (m_hardfork st) <= get_current_version hf) as (Hhf' & Ehts & Hmono).
  { pose proof (hardfork_add_keeps (m_hardfork st) (Db (bi_block <$> blocks db) (hf_versions (m_db st))) bl (height (m_db st)) Hhf (proj1 Hmin)) as Hk.
    destruct (HardFork.add _ _ _ _) as [[? ?] ?]. injection Ehf as -> _. destruct Hk as (? & ? & _ & _ & ?). done. }
  set (st3 := invalidate_block_template_cache _).
  assert (same_settings st st3 /\ m_db st3 = db /\ m_hardfork st3 = hf /\ m_tx_pool st3 = on_blockchain_inc pool) as (Hset & Edb3 & Ehf3 & Ep3)
    by (split; [done|split; [done|split; done]]).
  clearbody st3. split; [|split; [exact Hset|]].
  - split; rewrite ?Edb3, ?Ehf3, ?Ep3; [exact Hdb'|exact Hhf'|unfold current_version in *; rewrite Ehf3; lia|by eapply early_fork_heights| | | | |exact Hpool'|rewrite Eb; by destruct (blocks (m_db st))|].
    + rewrite Eb. apply Forall_app. split; [exact Hmins|]. constructor; [by split|constructor].
    + intros i x. rewrite Eb. intros [E|[Hge [E0 <-]%list_lookup_singleton_Some]]%lookup_app_Some; [by apply Hhts|].
      pose proof (prevalidate_height _ _ Hm) as Ehh. unfold height, zlen in Ehh. change (Hashing.get_block_height (bi_block bi)) with (Hashing.get_block_height bl). lia.
    + pose proof (prevalidate_height _ _ Hm) as Ehh. unfold height in *. rewrite Eb, zlen_app. change (zlen [bi]) with 1. unfold in_range in Hgen. lia.
    + intros i x h. rewrite Eb. intros [E|[_ [_ <-]%list_lookup_singleton_Some]]%lookup_app_Some Hin.
      * destruct (Hsto i x h E Hin) as (tx & y & E1 & E2). exists tx, y. split; [by eapply lookup_weaken|done].
      * by eapply taken_stored.
    + destruct (m_db st) as [b t s0 v o] eqn:Edb, db as [b' t' s' v' o']. cbn [blocks] in Eb. subst b'. cbn. rewrite <- Edb in Hsup.
      eapply supply_ok_snoc; [exact Edb|done|]. rewrite Ecoins. lia.
  - split; [unfold current_version; by rewrite Ehf3|]. exists bi, base. split; unfold tail_id; rewrite ?Edb3, ?Ep3; [exact Eb|done|exact Hprev| | |
      exact (conj Hbase Hrew)|exact Ecoins|exact Hpaid|exact Efee|by exists cw|exact Htaken].
    + unfold top_block_hash. by rewrite Eb, last_snoc.
    + split; [by exists c|]. by split.
Qed.

(** The caches are right again after an accepted block. *)
Lemma accepted_cache now st bl id bvc st' bvc' d fee w reward txs pool db hf bi :
  chain_ok st -> m_fixed_difficulty st = 0 -> height (m_db st) < 2 ^ 63 -> db_ok (m_db st') -> blocks (m_db st') = blocks (m_db st) ++ [bi] ->
  accepted now st bl id bvc st' bvc' d fee w reward txs pool db hf ->
  difficulty_of (m_db st) (current_version st) = Some d /\ cache_ok st' /\ m_difficulty_for_next_block_top_hash (m_cache st') = tail_id st'.
Proof.
  intros [Hs Hcache Htop] Hfix Hh Hdb' Eb Ha. destruct (ac_final _ _ _ _ _ _ _ _ _ _ _ _ _ _ _ Ha) as (c & d' & st2 & Hd1 & Hd2 & ->).
  pose proof (get_difficulty_spec st Hfix ltac:(lia) Hcache) as Hspec. rewrite Hd1 in Hspec. destruct Hspec as (Hdo & Hc1 & Etop1 & _).
  cbn [m_cache set_difficulty_cache] in Etop1. destruct (get_difficulty_only _ _ _ Hd2) as [c2 E2].
  change (m_db (invalidate_block_template_cache st2)) with (m_db st2) in *. assert (m_db st2 = db) as Edb by by rewrite E2. rewrite Edb in Eb, Hdb'.
  assert (tail_id st <> bi_hash bi) as Hneq.
  { intros E. pose proof (tail_in_hashes st (cs_genesis _ Hs)) as Hin. rewrite E in Hin. pose proof (dk_hashes _ Hdb') as Hnd. rewrite Eb, fmap_app in Hnd.
    apply NoDup_app in Hnd as (_ & Hnd & _). apply (Hnd _ Hin). by left. }
  pose proof (extended_cache st c pool db hf bi Hc1 Etop1 Eb Hneq) as Hc2.
  pose proof (get_difficulty_spec (extended st c pool db hf) Hfix) as Hspec. change (m_db (extended st c pool db hf)) with db in Hspec.
  assert (height db < 2 ^ 64) as Hh' by (unfold height in *; rewrite Eb, zlen_app; change (zlen [bi]) with 1; lia).
  specialize (Hspec Hh' Hc2). rewrite Hd2 in Hspec. destruct Hspec as (_ & Hc3 & Etop3 & c3 & E3). split; [done|]. split.
  - by eapply (cache_ok_ext st2).
  - unfold tail_id. change (m_db (invalidate_block_template_cache st2)) with (m_db st2). rewrite Edb. exact Etop3.
Qed.

Lemma refused_chain_ok st st' : chain_ok st -> m_fixed_difficulty st = 0 -> height (m_db st) < 2 ^ 63 ->
  m_cache st' = m_cache st \/ (exists d st1, get_difficulty_for_next_block st = Some (d, st1) /\ m_cache st' = m_cache st1) ->
  m_db st' = m_db st -> m_hardfork st' = m_hardfork st -> good_pool (m_tx_pool st') -> chain_ok st'.
Proof.
  intros [Hs Hcache Htop] Hfix Hh Hc Edb Ehf Hp. assert (tail_id st' = tail_id st) as Et by (unfold tail_id; by rewrite Edb).
  assert (current_version st' = current_version st) as Ev by (unfold current_version; by rewrite Ehf).
  split; [by apply (chain_sound_ext st)| |]; destruct Hc as [Ec|(d & st1 & Hd & Ec)]; rewrite ?Edb, ?Et, ?Ec; try done.
  - destruct Hcache as [Hw Hv]. split; by rewrite Ec, Edb, ?Et, ?Ev.
  - pose proof (get_difficulty_spec st Hfix ltac:(lia) Hcache) as Hsp. rewrite Hd in Hsp. destruct Hsp as (_ & [Hw Hv] & Htop1 & c & ->).
    split; by rewrite Ec, Edb, ?Et, ?Ev.
  - pose proof (get_difficulty_spec st Hfix ltac:(lia) Hcache) as Hsp. rewrite Hd in Hsp. by destruct Hsp as (_ & _ & Htop1 & c & ->).
Qed.

(** An accepted block, whatever the caches hold. *)
Lemma handle_block_extends now st bl id bvc st' bvc' : chain_sound st -> block_fit bl id -> m_verifivation_failed bvc = false ->
  handle_block_to_main_chain now st bl id bvc = Some (true, st', bvc') ->
  chain_sound st' /\ same_settings st st' /\ current_version st <= current_version st' /\ m_added_to_main_chain bvc' = true /\
  exists bi txs fee base reward d, extends st st' bl id bi txs fee base reward d.
Proof.
  intros Hs Hfit Hf E. apply handle_block_inv in E as (d & fee & w & reward & txs & pool & db & hf & Ha); [|done|apply Hs].
  destruct (accepted_extends _ _ _ _ _ _ _ _ _ _ _ _ _ _ _ Hs Hfit Ha) as (H1 & H2 & H3 & bi & base & H4).
  split; [done|]. split; [done|]. split; [done|]. split; [by rewrite (ac_bvc _ _ _ _ _ _ _ _ _ _ _ _ _ _ _ Ha)|]. by exists bi, txs, fee, base, reward, d.
Qed.

(** What holds even inside of a batch, where a block that fails half way
    leaves transactions behind: blocks are only appended, versions only grow. *)
Lemma handle_block_appends now st bl id bvc r st' bvc' : good_pool (m_tx_pool st) -> hf_wf (m_hardfork st) -> block_fit bl id ->
  m_verifivation_failed bvc = false -> handle_block_to_main_chain now st bl id bvc = Some (r, st', bvc') ->
  good_pool (m_tx_pool st') /\ hf_wf (m_hardfork st') /\ current_version st <= current_version st' /\ same_settings st st' /\
  exists new, blocks (m_db st') = blocks (m_db st) ++ new /\
    if r : bool then exists bi, new = [bi] /\ bi_hash bi = id /\ bi_block bi = clean_block bl else new = [].
Proof.
  intros Hg Hw (Hbc & Hmin & _ & Hid) Hf E. apply handle_block_inv in E; [|done..]. destruct r.
  2: { destruct E as [_ Eb _ Ehf Hset Hp _]. unfold current_version. rewrite Ehf, Eb. split; [done|]. split; [done|]. split; [lia|]. split; [done|].
    exists []. by rewrite app_nil_r. }
  destruct E as (d & fee & w & reward & txs & pool & db & hf & [Hprev Hv Ht _ _ Hm (c0 & fast & cw & Hcw & Htx) _ Ha (c & d' & st2 & _ & Hd2 & ->) _]).
  apply get_difficulty_only in Hd2 as [c3 ->].
  apply take_block_txs_spec in Htx as (pool' & new & Epool & Hpool' & -> & _ & Htaken); [|exact Hg|constructor]. cbn [app] in *.
  apply (f_equal m_tx_pool) in Epool. cbn [m_tx_pool set_pool set_difficulty_cache] in Epool. subst pool'.
  destruct (add_block_ok _ _ _ _ _ _ _ _ _ _ (prevalidate_supported _ _ (proj2 Hmin) Hm)
    (Forall_impl _ _ _ (taken_good _ _ _ _ Htaken) good_tx_supported) (proj1 Hbc) Ha) as (h & Eh & Eb & _ & _ & Ehf & _).
  pose proof (get_block_hash_spec bl Hbc) as Hs. destruct (get_block_hash bl) as [r1 bl1], Hs as (-> & _). cbn [fst] in Eh. rewrite Hid in Eh. injection Eh as <-.
  pose proof (hardfork_add_keeps (m_hardfork st) (Db (bi_block <$> blocks db) (hf_versions (m_db st))) bl (height (m_db st)) Hw (proj1 Hmin)) as Hk.
  destruct (HardFork.add _ _ _ _) as [[? ?] ?]. injection Ehf as -> _. destruct Hk as (? & _ & _ & _ & ?).
  split; [exact Hpool'|]. split; [done|]. split; [done|]. split; [done|]. change (m_db (invalidate_block_template_cache _)) with db. rewrite Eb.
  eexists. split; [done|]. by eexists.
Qed.

(** A refused one. *)
Lemma handle_block_refused now st bl id bvc st' bvc' : chain_sound st -> m_verifivation_failed bvc = false -> m_batch st = false ->
  handle_block_to_main_chain now st bl id bvc = Some (false, st', bvc') ->
  chain_sound st' /\ same_settings st st' /\ m_db st' = m_db st /\ m_hardfork st' = m_hardfork st /\
  m_added_to_main_chain bvc' = m_added_to_main_chain bvc.
Proof.
  intros Hs Hf Hb E. apply handle_block_inv in E; [|done|apply Hs]. destruct E as [_ _ Hdb Hhf Hset Hp Hadd]. specialize (Hdb Hb).
  split; [by apply (chain_sound_ext st)|]. by split.
Qed.

Lemma handle_block_keeps now st bl id bvc st' bvc' :
  chain_ok st -> m_fixed_difficulty st = 0 -> height (m_db st) < 2 ^ 63 ->
  block_fit bl id -> m_verifivation_failed bvc = false ->
  handle_block_to_main_chain now st bl id bvc = Some (true, st', bvc') ->
  same_settings st st' /\ m_added_to_main_chain bvc' = true /\ chain_ok st' /\
  exists bi txs fee base reward d, difficulty_of (m_db st) (current_version st) = Some d /\ extends st st' bl id bi txs fee base reward d.
Proof.
  intros Hok Hfix Hh Hfit Hf E. apply handle_block_inv in E as (d & fee & w & reward & txs & pool & db & hf & Ha); [|done|apply Hok].
  destruct (accepted_extends _ _ _ _ _ _ _ _ _ _ _ _ _ _ _ (ch_sound _ Hok) Hfit Ha) as (H1 & H2 & _ & bi & base & H3).
  destruct (accepted_cache _ _ _ _ _ _ _ _ _ _ _ _ _ _ _ _ Hok Hfix Hh (cs_db _ H1) (ex_blocks _ _ _ _ _ _ _ _ _ _ H3) Ha) as (H4 & H5 & H6).
  split; [done|]. split; [by rewrite (ac_bvc _ _ _ _ _ _ _ _ _ _ _ _ _ _ _ Ha)|]. split; [by split|]. by exists bi, txs, fee, base, reward, d.
Qed.

(** C6: [handle_block_to_main_chain] is all or nothing.  On a sound chain, a
    block it accepts extends the chain by exactly one entry: the block names
    the old top as its parent and is the new top, its cumulative difficulty is
    that of the top plus the difficulty due, its weight and its fees are those of
    its coinbase and of its transactions in the pool, its coinbase pays the fees
    and a reward of at most what is due, by which the recorded supply grows up to
    MONEY_SUPPLY; its transactions leave the pool, and no others; and the chain
    is sound again: linked, without repeated key images, with right difficulty
    caches and a well-formed fork state.  A block it refuses leaves blocks, transactions, key images and the
    hard fork state as they were, outside of a batch. *)
Theorem handle_block_sound now st bl id bvc r st' bvc' :
  chain_ok st -> m_fixed_difficulty st = 0 -> height (m_db st) < 2 ^ 63 ->
  block_fit bl id -> m_verifivation_failed bvc = false ->
  handle_block_to_main_chain now st bl id bvc = Some (r, st', bvc') ->
  same_settings st st' /\ m_added_to_main_chain bvc' = r || m_added_to_main_chain bvc /\
  (r = true -> chain_ok st' /\ exists bi txs fee base reward d,
     difficulty_of (m_db st) (current_version st) = Some d /\ extends st st' bl id bi txs fee base reward d) /\
  (r = false -> m_batch st = false -> chain_ok st' /\ m_db st' = m_db st /\ m_hardfork st' = m_hardfork st).
Proof.
  intros Hok Hfix Hh Hfit Hf E. destruct r.
  { destruct (handle_block_keeps _ _ _ _ _ _ _ Hok Hfix Hh Hfit Hf E) as (H1 & H2 & H3). by rewrite H2. }
  apply handle_block_inv in E; [|done|apply Hok].
  destruct E as [Hc _ Hdb Hhf Hset Hp Hadd]. split; [done|]. split; [done|]. split; [done|]. intros _ Hb. split; [|by split; [apply Hdb|]].
  exact (refused_chain_ok st st' Hok Hfix Hh Hc (Hdb Hb) Hhf Hp).
Qed.

Lemma supply_ok_prefix b bi t s v o t' s' v' o' : supply_ok (ChainDb (b ++ [bi]) t s v o) -> supply_ok (ChainDb b t' s' v' o').
Proof. intros [H1 H2]. cbn [blocks] in *. split; cbn [blocks]; intros; [eapply H1|eapply H2]; by apply lookup_app_l_Some. Qed.

(** Popping, whatever the caches hold. *)
Lemma pop_keeps now st : chain_sound st -> 1 < height (m_db st) -> exists db l bi,
  pop_block (m_batch st) (m_db st) = Done (db, Some (bi_block bi, l)) /\ blocks (m_db st) = blocks db ++ [bi] /\
  forall b st', pop_block_from_blockchain now st = Some (b, st') ->
    chain_sound st' /\ same_settings st st' /\ m_hardfork st' = m_hardfork st /\ m_db st' = db /\ b = bi_block bi /\
    m_timestamps_and_difficulties_height (m_cache st') = 0 /\
    m_difficulty_for_next_block_top_hash (m_cache st') = m_difficulty_for_next_block_top_hash (m_cache st).
Proof.
  intros [Hdb Hhf Hver Hfirst Hmins Hhts Hlen Hsto Hpool Hne Hsup] Hh.
  destruct (pop_block_keeps (m_batch st) (m_db st) Hdb Hne) as (bi & l & db & _ & Ep & Hdb' & Eb & _ & Hrest & Hpopped).
  exists db, l, bi. split; [done|]. split; [done|]. intros b st'. unfold pop_block_from_blockchain. cbv zeta. cbn [m_db set_difficulty_cache m_batch].
  rewrite (proj2 (Z.ltb_lt 1 _)) by done. cbn [negb]. rewrite Ep.
  destruct (return_tx_to_pool _ _ _) as [st1|] eqn:Er; cbn [mbind option_bind]; [|done]. intros [= <- <-].
  assert (Forall good_tx l) as Hl.
  { assert (forall h, h ∈ rev (tx_hashes (bi_block bi)) -> exists tx x, txs (m_db st) !! h = Some (tx, x) /\ good_tx tx) as Hg.
    { intros h. rewrite rev_reverse, elem_of_reverse. apply (Hsto (length (blocks db)) bi). rewrite Eb. by apply list_lookup_middle. }
    clear -Hpopped Hg. induction Hpopped as [|h tx l1 l2 [x E] Hp IH]; [constructor|]. constructor.
    - destruct (Hg h) as (tx' & x' & E' & Hg'); [by left|]. rewrite E in E'. by injection E' as -> _.
    - apply IH. intros h' Hin. apply Hg. by right. }
  apply return_tx_to_pool_only in Er as [(p & i & ->) Hp]; [|by apply Forall_forall; intros tx [_ Hin]%list_elem_of_filter; rewrite Forall_forall in Hl; apply Hl]. cbn in Hp.
  split; [|done]. split; cbn; [done|done|done|done| | | | |by apply Hp| |].
  - rewrite Eb in Hmins. by apply Forall_app in Hmins as [? _].
  - intros k x E. apply Hhts. rewrite Eb. by apply lookup_app_l_Some.
  - unfold height in *. rewrite Eb, zlen_app in Hlen. pose proof (zlen_nonneg [bi]). lia.
  - intros k x h E Hin. destruct (Hsto k x h) as (tx & y & E1 & E2); [rewrite Eb; by apply lookup_app_l_Some|done|]. exists tx, y. split; [|done].
    rewrite Hrest; [done|]. intros Hb. pose proof (lookup_lt_Some _ _ _ E) as Hlt.
    destruct (dk_stored _ Hdb k x) as [_ Hf1]; [rewrite Eb; by apply lookup_app_l_Some|].
    destruct (dk_stored _ Hdb (length (blocks db)) bi) as [_ Hf2]; [rewrite Eb; by apply list_lookup_middle|]. rewrite Forall_forall in Hf1, Hf2.
    destruct (Hf1 h) as [t1 T1]; [by right|]. destruct (Hf2 h Hb) as [t2 T2]. rewrite T1 in T2. injection T2 as _ T2. lia.
  - intros E. unfold height in Hh. rewrite Eb, E in Hh. by vm_compute in Hh.
  - destruct (m_db st) as [b0 t0 s0 v0 o0], db as [b1 t1 s1 v1 o1]. cbn [blocks] in *. subst b0. by eapply supply_ok_prefix.
Qed.

(** C18: [pop_block_from_blockchain] on a sound chain of more than one block.
    If it returns, it returns the top block, the chain is the one below it and
    is sound, the difficulty caches included; the hard fork state is left as it
    was.  The database never throws; only putting a transaction back into the
    pool can. *)
Theorem pop_block_from_blockchain_sound now st b st' : chain_ok st -> 1 < height (m_db st) ->
  (exists db l bi, pop_block (m_batch st) (m_db st) = Done (db, Some (bi_block bi, l)) /\ blocks (m_db st) = blocks db ++ [bi]) /\
  (pop_block_from_blockchain now st = Some (b, st') ->
    chain_ok st' /\ same_settings st st' /\ m_hardfork st' = m_hardfork st /\ exists bi, blocks (m_db st) = blocks (m_db st') ++ [bi] /\ b = bi_block bi).
Proof.
  intros [Hs Hcache Htop] Hh. destruct (pop_keeps now st Hs Hh) as (db & l & bi & Ep & Eb & Hpop).
  split; [by exists db, l, bi|]. intros (Hs' & Hset & Ehf & <- & -> & Eh0 & Etop)%Hpop. split; [|by split; [|split; [|exists bi]]].
  assert (m_difficulty_for_next_block_top_hash (m_cache st) ∉ bi_hash <$> blocks (m_db st')) as Hnot.
  { intros Hin. pose proof (dk_hashes _ (cs_db _ Hs)) as Hnd. rewrite Eb, fmap_app in Hnd, Htop. apply NoDup_app in Hnd as (_ & Hx & _).
    apply (Hx _ Hin). rewrite Htop by (apply elem_of_app; by left). unfold tail_id, top_block_hash. rewrite Eb, last_snoc. by left. }
  split; [done| |rewrite Etop; intros E; destruct (Hnot E)]. split; [by rewrite Eh0|]. rewrite Etop. intros E. destruct Hnot. rewrite E.
  apply tail_in_hashes, Hs'.
Qed.
End sound.

(** ** A chain of one block, and the next block *)
Definition example_env : ChainEnv :=
  {| env_curve := residues; env_bulletproofs := empty_proofs; max_concurrency := 4; cn_slow_hash _ _ := replicate 32 1 |}.
#[local] Existing Instances example_env residues.
Definition example_start : chain_db * HardFork := Eval vm_compute in result (add_block false empty_db example_hf (genesis_block []) 80 1 5 []).
Definition one_block_chain (hf : HardFork) (pool : tx_memory_pool) (v : option validator) : blockchain :=
  Blockchain example_start.1 hf pool ∅ ∅ ∅ (DifficultyCache [] [] 0 null_hash 0) None 600000 0 ∅ [] [] 0 0 v false.
Definition example_chain : blockchain := one_block_chain example_start.2 empty_pool None.
Definition coinbase (h reward : Z) : transaction :=
  Transaction (Prefix 2 (u64 (h + 60)) [txin_gen h] [Tx_out reward (target_key (replicate 32 3))] []) [] rct_null None None.
Definition example_block : block := Block (Header 7 7 60 (tail_id example_chain) 0) (coinbase 1 40000000000000000) [] None.
Definition example_id : blob := Eval vm_compute in default [] (block_id example_block).
Definition bvc_zero : block_verification_context := Bvc false false false false false.

Lemma example_start_eq : example_start = result (add_block false empty_db example_hf (genesis_block []) 80 1 5 []).
Proof. vm_compute. reflexivity. Qed.

Lemma example_blocks : exists h, blocks example_start.1 = [BlockInfo (genesis_block []) 0 5 80 1 h] /\ db_ok example_start.1.
Proof.
  destruct (genesis_added false) as (h & db & hf & E & Eb). exists h. rewrite example_start_eq, E. cbn [result fst].
  split; [exact Eb|]. refine (db_step_ok (empty_db, example_hf) (db, hf) _ (empty_db_ok _)).
  eapply step_add; [apply genesis_cache|by repeat constructor|constructor|exact E].
Qed.

Lemma example_start_hf : hf_wf example_start.2.
Proof.
  destruct (genesis_added false) as (h & db & hf & E & Eb). rewrite example_start_eq, E. cbn [result snd].
  destruct (add_block_ok false empty_db example_hf (genesis_block []) 80 1 5 [] db hf) as (_ & _ & _ & _ & _ & Ehf & _);
    [by repeat constructor|constructor|apply genesis_cache|exact E|].
  pose proof (hardfork_add_keeps example_hf (Db (bi_block <$> blocks db) (hf_versions empty_db)) (genesis_block []) (height empty_db) example_hf_wf
    ltac:(by_decide)) as Hk. destruct (HardFork.add _ _ _ _) as [[? ?] ?]. injection Ehf as -> _. apply Hk.
Qed.

Lemma one_block_chain_ok hf pool v : hf_wf hf -> 2 <= get_current_version hf -> early_fork 2 hf -> good_pool pool -> chain_ok (one_block_chain hf pool v).
Proof.
  intros Hhf Hver Hfirst Hpool. destruct example_blocks as (h & Eb & Hok).
  assert (top_block_hash example_start.1 <> null_hash) as Ht by (apply (bool_decide_eq_false_1 _); vm_compute; reflexivity).
  assert (null_hash ∉ bi_hash <$> blocks example_start.1) as Hn.
  { unfold top_block_hash in Ht. rewrite Eb in *. intros E%list_elem_of_singleton. by apply Ht. }
  split; cbn [one_block_chain m_db m_cache]; [|split; [intros E; destruct (E eq_refl)|intros E; destruct (Ht (eq_sym E))]|intros E; destruct (Hn E)].
  split; cbn [one_block_chain m_db m_hardfork m_tx_pool]; [exact Hok|exact Hhf|exact Hver|exact Hfirst| | | | |exact Hpool|rewrite Eb; discriminate|].
  - rewrite Eb. constructor; [split; [by_decide|reflexivity]|constructor].
  - intros i bi E. rewrite Eb in E. apply list_lookup_singleton_Some in E as [-> <-]. reflexivity.
  - unfold height. rewrite Eb. by_decide.
  - intros i bi x E. rewrite Eb in E. apply list_lookup_singleton_Some in E as [_ <-]. intros Hx. destruct (not_elem_of_nil _ Hx).
  - unfold supply_ok. rewrite Eb. split; [intros i b E|intros i b b' _ E]; apply list_lookup_singleton_Some in E as [E <-]; [by_decide|discriminate].
Qed.

Lemma example_chain_ok : chain_ok example_chain.
Proof. apply one_block_chain_ok; [exact example_start_hf|by_decide|apply (early_fork_heights 2 example_hf); [reflexivity|exact example_hf_early]|]. intros id meta bd E. discriminate (eq_trans (eq_sym E) (lookup_empty id)). Qed.

Lemma example_accepted : exists st' bvc', handle_block_to_main_chain 1000 example_chain example_block example_id bvc_zero = Some (true, st', bvc') /\
  height (m_db st') = 2 /\ is_Some (pop_block_from_blockchain 1000 st').
Proof.
  assert ((fun x => (x.1.1, height (m_db x.1.2), bool_decide (is_Some (pop_block_from_blockchain 1000 x.1.2)))) <$>
    handle_block_to_main_chain 1000 example_chain example_block example_id bvc_zero = Some (true, 2, true)) as E by (vm_compute; reflexivity).
  destruct (handle_block_to_main_chain _ _ _ _ _) as [[[r st'] bvc']|]; [|discriminate]. injection E as -> Hh Hp. exists st', bvc'.
  split; [reflexivity|]. split; [exact Hh|]. by apply bool_decide_eq_true in Hp.
Qed.

Lemma example_block_ok : block_fit example_block example_id.
Proof. split; [split; [split; discriminate|discriminate]|]. split; [by_decide|]. split; [by_decide|]. vm_compute. reflexivity. Qed.

Lemma handle_block_sound_witness : exists st' bvc',
  handle_block_to_main_chain 1000 example_chain example_block example_id bvc_zero = Some (true, st', bvc') /\ chain_ok st' /\
  exists bi txs fee base reward d, difficulty_of (m_db example_chain) (current_version example_chain) = Some d /\
    extends example_chain st' example_block example_id bi txs fee base reward d.
Proof.
  destruct example_accepted as (st' & bvc' & E & _). exists st', bvc'. split; [exact E|].
  destruct (handle_block_sound 1000 example_chain example_block example_id bvc_zero true st' bvc' example_chain_ok eq_refl
    ltac:(by_decide) example_block_ok eq_refl E) as (_ & _ & H & _). exact (H eq_refl).
Defined.

(** The chain after the block, and the block popped. *)
Lemma pop_block_from_blockchain_sound_witness : exists st st' b, chain_ok st /\ height (m_db st) = 2 /\
  pop_block_from_blockchain 1000 st = Some (b, st') /\ chain_ok st' /\ height (m_db st') = 1.
Proof.
  destruct example_accepted as (st & bvc' & E & Hh & [b st'] & Hp). exists st.
  destruct (handle_block_keeps 1000 example_chain example_block example_id bvc_zero st bvc' example_chain_ok eq_refl
    ltac:(by_decide) example_block_ok eq_refl E) as (_ & _ & Hok & _).
  exists st', b. split; [exact Hok|]. split; [exact Hh|]. split; [exact Hp|].
  destruct (pop_block_from_blockchain_sound 1000 st b st' Hok ltac:(lia)) as [_ H]. destruct (H Hp) as (Hok' & _ & _ & bi & Eb & _).
  split; [exact Hok'|]. unfold height, zlen in *. rewrite Eb, length_app in Hh. cbn in Hh. lia.
Defined.
