(* ===== verification/AltChain.v ===== *)
(** * Alternative chains and reorganisation

    Model of the rest of the class [Blockchain] of
    src/cryptonote_core/blockchain.cpp: blocks that do not extend the top
    ([handle_alternative_block] with its difficulty and its timestamps), the
    switch to a longer branch, the rollback of a failed switch, and the
    checkpoints that force one.

    Branches live in [m_alternative_chains].  [handle_alternative_block] and
    [switch_to_alternative_blockchain] call each other; [depth] bounds how often
    a switch can lead to another.  [None] is an exception that leaves the
    method, or the bound. *)
From Stdlib Require Import ZArith Lia Bool.
From stdpp Require Import prelude gmap sorting.
From S2P Require Import Prelude StringTools Varint Archive TxExtra Rct CryptonoteBasic Keccak TreeHash HardFork IntUtil Difficulty Hashing Money Reward TxPool Checkpoints ChainDb TempConsensus Blockchain.
Local Open Scope Z_scope.

#[local] Opaque cn_fast_hash.

(** An iterator of [m_alternative_chains]: the key and what it holds. *)
Abbreviation alt_entry := (blob * block_extended_info)%type.

(** [m_timestamps_and_difficulties_height = 0] *)
Definition reset_window (st : blockchain) : blockchain :=
  let c := m_cache st in
  set_difficulty_cache st (DifficultyCache (m_timestamps c) (m_difficulties c) 0 (m_difficulty_for_next_block_top_hash c) (m_difficulty_for_next_block c)).

Definition set_batch (st : blockchain) (b : bool) : blockchain :=
  Blockchain (m_db st) (m_hardfork st) (m_tx_pool st) (m_checkpoints st) (m_alternative_chains st) (m_invalid_blocks st) (m_cache st) (m_template st)
    (m_current_block_cumul_weight_limit st) (m_current_block_cumul_weight_median st) (m_blocks_longhash_table st) (m_blocks_hash_check st)
    (m_blocks_txs_check st) (m_fixed_difficulty st) (m_sync_counter st) (m_temp_consensus_validator st) b.

(** ** A branch and its window *)

(** The branch that ends in the block [prev], front first. *)
Fixpoint alt_walk (fuel : nat) (alts : gmap blob block_extended_info) (prev : blob) (acc : list alt_entry) : option (list alt_entry) :=
  match alts !! prev with
  | None => Some acc
  | Some e => match fuel with
              | O => None
              | S fuel => alt_walk fuel alts (prev_id (hdr (bei_bl e))) ((prev, e) :: acc)
              end
  end.

(** The timestamps of the main chain from [start] down, without that of [stop]. *)
Definition timestamps_down (db : chain_db) (start stop : Z) : option (list Z) :=
  mapM (get_block_timestamp db) (rev (seqZ (stop + 1) (start - stop))).

Definition complete_timestamps_vector (db : chain_db) (start_top_height : Z) (timestamps : list Z) : option (bool * list Z) :=
  if BLOCKCHAIN_TIMESTAMP_CHECK_WINDOW <=? zlen timestamps then Some (true, timestamps)
  else
    let need_elements := BLOCKCHAIN_TIMESTAMP_CHECK_WINDOW - zlen timestamps in
    if negb (start_top_height <? height db) then Some (false, timestamps)
    else
      let stop_offset := if need_elements <? start_top_height then start_top_height - need_elements else 0 in
      more ← timestamps_down db start_top_height stop_offset;
      Some (true, timestamps ++ more).

(** The blocks of the main chain from [start] up to [stop]. *)
Definition main_range (db : chain_db) (start stop : Z) : option (list block_info) := mapM (get_block_info db) (seqZ start (stop - start)).

Definition get_next_difficulty_for_alternative_chain (st : blockchain) (alt_chain : list alt_entry) (bei_h : Z) : option Z :=
  if negb (m_fixed_difficulty st =? 0) then Some (if negb (height (m_db st) =? 0) then m_fixed_difficulty st else 1)
  else
    let version := current_version st in
    let block_height := height (m_db st) in
    let count := difficulty_blocks_count version in
    let alt_t := (fun e => timestamp (hdr (bei_bl e.2))) <$> alt_chain in
    let alt_d := (fun e => bei_cumulative_difficulty e.2) <$> alt_chain in
    if zlen alt_chain <? count then
      let main_chain_stop_offset := match alt_chain with e :: _ => bei_height e.2 | [] => bei_h end in
      let main_chain_count := Z.min (count - Z.min count (zlen alt_chain)) main_chain_stop_offset in
      let main_chain_start_offset := main_chain_stop_offset - main_chain_count in
      let main_chain_start_offset := if main_chain_start_offset =? 0 then 1 else main_chain_start_offset in
      w ← main_range (m_db st) main_chain_start_offset main_chain_stop_offset;
      if negb (zlen alt_chain + zlen w <=? count) then Some 0
      else next_difficulty_for_version version ((bi_timestamp <$> w) ++ alt_t) ((bi_diff <$> w) ++ alt_d) block_height
    else next_difficulty_for_version version (keep_back count alt_t) (keep_back count alt_d) block_height.

(** ** Switching *)
Definition reorganize_hardfork (st : blockchain) (h : Z) : option blockchain :=
  '(_, hf, view) ← reorganize_from_chain_height (m_hardfork st) (hf_view (m_db st)) h;
  let db := m_db st in
  Some (set_chain st (ChainDb (blocks db) (txs db) (spent_keys db) (db_hf view) (m_outputs db)) hf).

Definition erase_alt (st : blockchain) (k : blob) : blockchain := set_alternative st (delete k (m_alternative_chains st)).

Section alt.
Context `{ChainEnv}.

(** The overload that computes the id. *)
Definition handle_block_to_main_chain_id (now : Z) (st : blockchain) (bl : block) (bvc : block_verification_context)
  : option (bool * blockchain * block_verification_context) :=
  id ← (get_block_hash bl).1; handle_block_to_main_chain now st bl id bvc.

(** [while (top_block_hash() != target)] pop; the blocks come back lowest first. *)
Fixpoint pop_until_hash (fuel : nat) (now : Z) (st : blockchain) (target : blob) (popped : list block) : option (blockchain * list block) :=
  if bool_decide (tail_id st = target) then Some (st, popped)
  else match fuel with
       | O => None
       | S fuel => '(b, st) ← pop_block_from_blockchain now st; pop_until_hash fuel now st target (b :: popped)
       end.

(** [while (m_db->height() != rollback_height)] pop *)
Fixpoint pop_until_height (fuel : nat) (now : Z) (st : blockchain) (rollback_height : Z) : option blockchain :=
  if height (m_db st) =? rollback_height then Some st
  else match fuel with
       | O => None
       | S fuel => '(_, st) ← pop_block_from_blockchain now st; pop_until_height fuel now st rollback_height
       end.

(** Adding blocks in turn: those left when one fails, that one first. *)
Fixpoint connect (now : Z) (st : blockchain) (l : list block) : option (blockchain * list block) :=
  match l with
  | [] => Some (st, [])
  | bl :: l' =>
      '(r, st, bvc) ← handle_block_to_main_chain_id now st bl (Bvc false false false false false);
      if negb r || negb (m_added_to_main_chain bvc) then Some (st, bl :: l') else connect now st l'
  end.

Definition rollback_blockchain_switching (now : Z) (st : blockchain) (original_chain : list block) (rollback_height : Z) : option (bool * blockchain) :=
  if height (m_db st) <? rollback_height then Some (true, st)
  else
    st ← pop_until_height (length (blocks (m_db st))) now (reset_window st) rollback_height;
    st ← reorganize_hardfork st rollback_height;
    '(st, remaining) ← connect now st original_chain;
    match remaining with
    | _ :: _ => Some (false, st)
    | [] => st ← reorganize_hardfork st rollback_height; Some (true, st)
    end.

(** The blocks of the branch from the failing one on become invalid: the failing
    one under its hash, the others under their keys. *)
Definition discard_branch (st : blockchain) (failed : alt_entry) (rest : list alt_entry) : option blockchain :=
  id ← (get_block_hash (bei_bl failed.2)).1;
  let st := erase_alt (add_block_as_invalid st failed.2 id).2 failed.1 in
  Some (foldl (fun st e => erase_alt (add_block_as_invalid st e.2 e.1).2 e.1) st rest).

(** [handle_alternative] is [handle_alternative_block], for the blocks that
    were on the main chain. *)
Definition switch_to_alternative_blockchain (handle_alternative : blockchain -> block -> blob -> option blockchain)
  (now : Z) (st : blockchain) (alt_chain : list alt_entry) (discard_disconnected_chain : bool) (version : Z) : option (bool * blockchain) :=
  if HF_VERSION_PROOF_OF_STAKE <=? version then Some (false, st)
  else
    let st := reset_window st in
    match alt_chain with
    | [] => Some (false, st)
    | front :: _ =>
        let target := prev_id (hdr (bei_bl front.2)) in
        if negb (block_exists (m_db st) target) then Some (false, st)
        else
          '(st, disconnected_chain) ← pop_until_hash (length (blocks (m_db st))) now st target [];
          let split_height := height (m_db st) in
          '(st, remaining) ← connect now st ((fun e => bei_bl e.2) <$> alt_chain);
          match drop (length alt_chain - length remaining) alt_chain with
          | failed :: rest =>
              '(_, st) ← rollback_blockchain_switching now st disconnected_chain split_height;
              st ← discard_branch st failed rest;
              Some (false, st)
          | [] =>
              st ← (if discard_disconnected_chain then Some st
                    else foldl (fun st b => st ← st; id ← (get_block_hash b).1; handle_alternative st b id) (Some st) disconnected_chain);
              let st := foldl (fun st e => erase_alt st e.1) st alt_chain in
              st ← reorganize_hardfork st split_height;
              Some (true, st)
          end
    end.

(** ** A block that does not extend the top *)

(** Where the branch meets the main chain: the timestamps before the block,
    [inl] where the method returns false. *)
Definition alt_timestamps (db : chain_db) (alt_chain : list alt_entry) (prev : blob) : option (unit + list Z) :=
  let timestamps := (fun e => timestamp (hdr (bei_bl e.2))) <$> rev alt_chain in
  match alt_chain with
  | front :: _ =>
      if negb (bei_height front.2 <? height db) then Some (inl ())
      else if negb (block_exists db (prev_id (hdr (bei_bl front.2)))) then Some (inl ())
      else
        h ← get_block_hash_from_height db (u64 (bei_height front.2 - 1));
        if negb (bool_decide (h = prev_id (hdr (bei_bl front.2)))) then Some (inl ())
        else
          pos ← get_block_height db (prev_id (hdr (bei_bl front.2)));
          '(_, timestamps) ← complete_timestamps_vector db pos timestamps;
          Some (inr timestamps)
  | [] =>
      if negb (block_exists db prev) then Some (inl ())
      else
        pos ← get_block_height db prev;
        '(_, timestamps) ← complete_timestamps_vector db pos timestamps;
        Some (inr timestamps)
  end.

(** The block as the branch's next, or the answer of the method. *)
Definition alternative_entry (st : blockchain) (alt_chain : list alt_entry) (b : block) (id : blob) (bvc : block_verification_context)
  : option (bool * block_verification_context + block_extended_info * bool * Z) :=
  let db := m_db st in
  let failed := Some (inl (false, set_failed bvc true)) in
  t ← alt_timestamps db alt_chain (prev_id (hdr b));
  match t with
  | inl _ => Some (inl (false, bvc))
  | inr timestamps =>
      if negb (check_timestamps timestamps b).1 then failed
      else
        (* the parent: the end of the branch, or a block of the main chain *)
        '(parent_height, parent_difficulty) ← match last alt_chain with
          | Some e => Some (bei_height e.2, bei_cumulative_difficulty e.2)
          | None => pos ← get_block_height db (prev_id (hdr b)); d ← get_block_cumulative_difficulty db pos; Some (pos, d)
          end;
        let h := u64 (parent_height + 1) in
        let '(checked, is_a_checkpoint) := check_block (m_checkpoints st) h id in
        if negb checked then failed
        else
          current_diff ← get_next_difficulty_for_alternative_chain st alt_chain h;
          if current_diff =? 0 then Some (inl (false, bvc))
          else
            proof_of_work ← get_block_longhash b h;
            if negb (check_hash proof_of_work current_diff) then failed
            else if negb (prevalidate_miner_transaction b h) then failed
            else
              main_chain_cumulative_difficulty ← get_block_cumulative_difficulty db (height db - 1);
              Some (inr (Bei b h 0 (u64 (parent_difficulty + current_diff)) 0, is_a_checkpoint, main_chain_cumulative_difficulty))
  end.

(** The body of [handle_alternative_block]; [handle_alternative] is its
    recursive call. *)
Definition offer_alternative_block (handle_alternative : blockchain -> block -> blob -> option blockchain)
  (now : Z) (st : blockchain) (b : block) (id : blob) (bvc : block_verification_context) (version : Z)
  : option (bool * blockchain * block_verification_context) :=
  if HF_VERSION_PROOF_OF_STAKE <=? version then Some (false, st, set_failed bvc true)
  else
    let st := reset_window st in
    let block_height := Hashing.get_block_height b in
    let failed := Some (false, st, set_failed bvc true) in
    if block_height =? 0 then failed
    else if negb (is_alternative_block_allowed (m_checkpoints st) (height (m_db st)) block_height) then failed
    else if negb (check_for_height (m_hardfork st) b block_height) then failed
    else
      let alts := m_alternative_chains st in
      let parent_in_main := block_exists (m_db st) (prev_id (hdr b)) in
      if bool_decide (alts !! prev_id (hdr b) = None) && negb parent_in_main then Some (true, st, set_orphaned bvc true)
      else
        alt_chain ← alt_walk (size alts) alts (prev_id (hdr b)) [];
        r ← alternative_entry st alt_chain b id bvc;
        match r with
        | inl (r, bvc) => Some (r, st, bvc)
        | inr (bei, is_a_checkpoint, main_chain_cumulative_difficulty) =>
            match alts !! id with
            | Some _ => Some (false, st, bvc)
            | None =>
                let st := set_alternative st (<[id := bei]> alts) in
                let switch := fun discard : bool =>
                  '(r, st) ← switch_to_alternative_blockchain handle_alternative now st (alt_chain ++ [(id, bei)]) discard version;
                  Some (r, st, if r : bool then set_added bvc true else set_failed bvc true) in
                if is_a_checkpoint : bool then switch true
                else if main_chain_cumulative_difficulty <? bei_cumulative_difficulty bei then switch false
                else Some (true, st, bvc)
            end
        end.

Fixpoint handle_alternative_block (depth : nat) (now : Z) (st : blockchain) (b : block) (id : blob) (bvc : block_verification_context)
  (version : Z) : option (bool * blockchain * block_verification_context) :=
  offer_alternative_block (fun st b id =>
    match depth with
    | O => None
    | S depth => '(_, st, _) ← handle_alternative_block depth now st b id (Bvc false false false false false) version; Some st
    end) now st b id bvc version.

(** ** Checkpoints against the chain *)

(** The points in the order of the [std::map]. *)
Definition lower_point (a b : Z * blob) : Prop := a.1 <= b.1.
#[local] Instance lower_point_dec : RelDecision lower_point.
Proof. intros a b. apply Z.le_dec. Defined.
Definition sorted_points (points : checkpoints) : list (Z * blob) := merge_sort lower_point (map_to_list points).

Definition check_one_checkpoint (now : Z) (points : checkpoints) (enforce : bool) (st : blockchain) (pt : Z) : option blockchain :=
  if height (m_db st) <=? pt then Some st
  else
    h ← get_block_hash_from_height (m_db st) pt;
    if (check_block points pt h).1 then Some st
    else if enforce then '(_, st) ← rollback_blockchain_switching now st [] (u64 (pt - 2)); Some st
    else Some st.

(** A batch is opened for the loop unless one is open. *)
Definition check_against_checkpoints (now : Z) (st : blockchain) (points : checkpoints) (enforce : bool) : option blockchain :=
  let outer := m_batch st in
  st ← foldl (fun st pt => st ← st; check_one_checkpoint now points enforce st pt.1) (Some (set_batch st true)) (sorted_points points);
  Some (set_batch st outer).

(** The files and records are read by the caller; [None] is also the undefined
    behaviour of [load_checkpoints_from_json]. *)
Definition update_checkpoints (now : Z) (st : blockchain) (enforce_dns offline : bool) (file : option (option (list (Z * blob))))
  (check_dns : bool) (records : option (list blob)) : option (bool * blockchain) :=
  '(r, cp) ← load_checkpoints_from_json (m_checkpoints st) file;
  let st := set_checkpoints st cp in
  if negb r then Some (false, st)
  else
    let enforced st := st ← check_against_checkpoints now st (m_checkpoints st) true; Some (true, st) in
    if enforce_dns && check_dns && negb offline then
      let '(r, cp) := load_checkpoints_from_dns (m_checkpoints st) records in
      let st := set_checkpoints st cp in
      if negb r then Some (false, st) else enforced st
    else if check_dns && negb offline then
      let dns_points := (load_checkpoints_from_dns ∅ records).2 in
      if check_for_conflicts (m_checkpoints st) dns_points then
        st ← check_against_checkpoints now st dns_points false; enforced st
      else enforced st
    else enforced st.
End alt.

(** ** The main chain under these operations *)

(** The ids of the main chain, from the genesis block. *)
Definition ids (st : blockchain) : list blob := bi_hash <$> blocks (m_db st).
Definition ident (b : block) : blob := default [] (block_id b).

(** Ids and heights of the blocks the node has been given. *)
Section known.
Variable known : blob -> Z -> Prop.

(** What none of these operations changes. *)
Definition same_params (st st' : blockchain) : Prop :=
  m_checkpoints st' = m_checkpoints st /\ m_blocks_hash_check st' = m_blocks_hash_check st /\ m_fixed_difficulty st' = m_fixed_difficulty st /\
  m_temp_consensus_validator st' = m_temp_consensus_validator st /\ m_batch st' = m_batch st.

#[export] Instance same_settings_refl : Reflexive same_settings.
Proof. by intros st. Qed.
#[export] Instance same_settings_trans : Transitive same_settings.
Proof. intros st1 st2 st3 (?&?&?&?&?&?) (?&?&?&?&?&?). unfold same_settings. split_and!; congruence. Qed.
#[export] Instance same_params_refl : Reflexive same_params.
Proof. by intros st. Qed.
#[export] Instance same_params_trans : Transitive same_params.
Proof. intros st1 st2 st3 (?&?&?&?&?) (?&?&?&?&?). unfold same_params. split_and!; congruence. Qed.

Lemma settings_params st st' : same_settings st st' -> same_params st st'.
Proof. intros (?&?&?&?&?&?). by split_and!. Qed.

Section steps.
Context `{ChainEnv}.

(** The main chain is sound, of known blocks. *)
Definition main_ok (st : blockchain) : Prop := chain_sound st /\ forall i k, ids st !! i = Some k -> known k (Z.of_nat i).

Lemma main_ok_ext st st' : m_db st' = m_db st -> m_hardfork st' = m_hardfork st -> good_pool (m_tx_pool st') -> main_ok st -> main_ok st'.
Proof. intros E1 E2 Hp [Hs Hk]. split; [by apply (chain_sound_ext st)|]. unfold ids in *. by rewrite E1. Qed.

(** What a step of a reorganisation keeps. *)
Record kept (st st' : blockchain) : Prop := { kp_sound : main_ok st'; kp_settings : same_settings st st' }.

Lemma kept_trans st1 st2 st3 : kept st1 st2 -> kept st2 st3 -> kept st1 st3.
Proof. intros [_ H1] [H2 H3]. split; [done|by etrans]. Qed.

Lemma reset_window_kept st : main_ok st -> kept st (reset_window st) /\ m_db (reset_window st) = m_db st /\ m_hardfork (reset_window st) = m_hardfork st.
Proof. intros Hs. split; [|done]. split; [|done]. apply (main_ok_ext st); [done|done|apply Hs|done]. Qed.

Lemma reorganize_kept st h st' : main_ok st -> 0 <= h -> reorganize_hardfork st h = Some st' -> kept st st' /\ blocks (m_db st') = blocks (m_db st).
Proof.
  intros Hs Hh. unfold reorganize_hardfork. destruct (reorganize_from_chain_height _ _ _) as [[[r hf] view]|] eqn:E; cbn [mbind option_bind]; [|done].
  intros [= <-]. destruct Hs as [[Hdb Hhf Hver Hfirst Hbl Hhts Hlen Hsto Hpool Hne Hsup] Hk].
  assert (votes_u8 (hf_view (m_db st))) as Hu.
  { unfold votes_u8. cbn. apply Forall_fmap. eapply Forall_impl; [exact Hbl|]. by intros x [[? _] _]. }
  destruct (reorganize_wf _ _ _ _ _ _ Hhf Hu E) as (Hw & Eh & _ & Hf). split; [|done]. split; [|done]. split; [|done].
  split; cbn; try done; [by destruct Hdb|by apply Hf|by eapply early_fork_heights].
Qed.

Lemma stored_fit st i bi : main_ok st -> blocks (m_db st) !! i = Some bi ->
  block_fit (bi_block bi) (bi_hash bi) /\ ident (bi_block bi) = bi_hash bi /\ known (bi_hash bi) (Hashing.get_block_height (bi_block bi)).
Proof.
  intros [Hs Hk] E. pose proof (Forall_lookup_1 _ _ _ _ (cs_blocks _ Hs) E) as [H1 H2]. pose proof (Forall_lookup_1 _ _ _ _ (dk_ids _ (cs_db _ Hs)) E) as H3. cbn in *.
  rewrite (cs_heights _ Hs _ _ E). split; [|split; [unfold ident; by rewrite H3|apply Hk; unfold ids; by rewrite list_lookup_fmap, E]]. split; [rewrite <- H2; split; [split; intros ? [=]|intros ? [=]]|]. split; [done|]. split; [|done].
  rewrite (cs_heights _ Hs _ _ E). apply lookup_lt_Some in E. pose proof (cs_length _ Hs). unfold in_range, height, zlen in *. lia.
Qed.

Lemma hash_of_fit b id : block_fit b id -> (get_block_hash b).1 = Some id.
Proof. intros (Hc & _ & _ & Hid). pose proof (get_block_hash_spec b Hc) as Hs. destruct (get_block_hash b) as [r b'], Hs as (-> & _). done. Qed.

Definition fits_list (l : list block) : Prop := Forall (fun b => block_fit b (ident b) /\ known (ident b) (Hashing.get_block_height b)) l.

Lemma connect_spec now st l st' remaining : main_ok st -> (l <> [] -> m_batch st = false) -> fits_list l -> connect now st l = Some (st', remaining) ->
  kept st st' /\ current_version st <= current_version st' /\ exists done, l = done ++ remaining /\ ids st' = ids st ++ (ident <$> done).
Proof.
  intros Hs Hb Hl. revert st Hs Hb. induction Hl as [|b l [Hfit Hkn] Hl IH]; intros st Hs Hb; cbn [connect].
  { intros [= <- <-]. split; [by split|]. split; [lia|]. exists []. split; [done|]. cbn. by rewrite app_nil_r. }
  specialize (Hb ltac:(done)).
  unfold handle_block_to_main_chain_id. rewrite (hash_of_fit _ _ Hfit). cbn [mbind option_bind].
  destruct (handle_block_to_main_chain _ _ _ _ _) as [[[[] st1] bvc]|] eqn:E; cbn [mbind option_bind negb orb]; [| |done].
  - apply handle_block_extends in E as (H1' & H2 & Hv & H3 & bi & txs & fee & base & reward & d & Hx); [|apply Hs|done..]. rewrite H3. cbn [negb].
    assert (main_ok st1) as H1.
    { split; [done|]. intros i k. unfold ids. rewrite list_lookup_fmap. destruct (blocks (m_db st1) !! i) as [x|] eqn:Ex; [|done]. intros [= <-].
      rewrite <- (cs_heights _ H1' _ _ Ex). rewrite (ex_blocks _ _ _ _ _ _ _ _ _ _ Hx) in Ex. destruct (ex_block _ _ _ _ _ _ _ _ _ _ Hx) as (Ec & Eh & _).
      apply lookup_app_Some in Ex as [Ex|[_ [_ <-]%list_lookup_singleton_Some]].
      - rewrite (cs_heights _ (proj1 Hs) _ _ Ex). apply (proj2 Hs). unfold ids. by rewrite list_lookup_fmap, Ex.
      - rewrite Eh, Ec. exact Hkn. }
    assert (m_batch st1 = false) as Hb1 by (destruct H2 as (_&_&_&_&_&->); done). intros Ec. destruct (IH st1 H1 (fun _ => Hb1) Ec) as (Hk & Hv' & dn & -> & Eids).
    split; [|split; [lia|]].
    { eapply kept_trans; [split; [exact H1|exact H2]|done]. }
    exists (b :: dn). split; [done|]. rewrite Eids. unfold ids at 1. rewrite (ex_blocks _ _ _ _ _ _ _ _ _ _ Hx), fmap_app, <- app_assoc. cbn.
    by rewrite (proj1 (proj2 (ex_block _ _ _ _ _ _ _ _ _ _ Hx))).
  - apply handle_block_refused in E as (H1 & H2 & H3 & H4 & _); [|apply Hs|done..]. intros [= <- <-]. split; [split; [split; [done|unfold ids; rewrite H3; apply Hs]|done]|].
    split; [unfold current_version; rewrite H4; lia|]. exists []. split; [done|]. cbn. unfold ids. by rewrite H3, app_nil_r.
Qed.

(** One pop. *)
Lemma pop_spec now st b st' : main_ok st -> pop_block_from_blockchain now st = Some (b, st') ->
  kept st st' /\ m_hardfork st' = m_hardfork st /\ exists bi, blocks (m_db st) = blocks (m_db st') ++ [bi] /\ b = bi_block bi.
Proof.
  intros Hs E. assert (1 < height (m_db st)) as Hh.
  { unfold pop_block_from_blockchain in E. cbv zeta in E. cbn [m_db set_difficulty_cache] in E. destruct (Z.ltb_spec 1 (height (m_db st))); [done|discriminate]. }
  destruct (pop_keeps now st (proj1 Hs) Hh) as (db & l & bi & _ & Eb & Hk). apply Hk in E as (H1 & H2 & H3 & H4 & -> & _).
  split; [split; [split; [done|]|done]; intros i k Ei; apply (proj2 Hs); unfold ids in *; rewrite Eb, fmap_app, <- H4; by apply lookup_app_l_Some|]. split; [done|]. exists bi. by rewrite H4.
Qed.

Lemma pop_until_hash_spec now fuel st target popped st' popped' : main_ok st ->
  pop_until_hash fuel now st target popped = Some (st', popped') ->
  kept st st' /\ m_hardfork st' = m_hardfork st /\ tail_id st' = target /\
  exists mid, blocks (m_db st) = blocks (m_db st') ++ mid /\ popped' = (bi_block <$> mid) ++ popped.
Proof.
  revert st popped. induction fuel as [|fuel IH]; intros st popped Hs; cbn [pop_until_hash]; (case_bool_decide as Et; [intros [= <- <-]; split; [by split|];
    split; [done|]; split; [done|]; exists []; by rewrite app_nil_r|]); [done|].
  destruct (pop_block_from_blockchain now st) as [[b st1]|] eqn:Ep; cbn [mbind option_bind]; [|done]. intros E.
  apply pop_spec in Ep as (H1 & H2 & bi & Eb & ->); [|done]. apply IH in E as (G1 & G2 & G3 & mid & G4 & ->); [|apply H1].
  split; [by eapply kept_trans|]. split; [congruence|]. split; [done|]. exists (mid ++ [bi]). rewrite Eb, G4, fmap_app, <- !app_assoc. done.
Qed.

Lemma pop_until_height_spec now fuel st h st' : main_ok st -> pop_until_height fuel now st h = Some st' ->
  kept st st' /\ height (m_db st') = h /\ blocks (m_db st') `prefix_of` blocks (m_db st).
Proof.
  revert st. induction fuel as [|fuel IH]; intros st Hs; cbn [pop_until_height]; (destruct (Z.eqb_spec (height (m_db st)) h); [by intros [= <-]|]); [done|].
  destruct (pop_block_from_blockchain now st) as [[b st1]|] eqn:Ep; cbn [mbind option_bind]; [|done]. intros E.
  apply pop_spec in Ep as (H1 & H2 & bi & Eb & _); [|done]. apply IH in E as (G1 & G2 & G3); [|apply H1].
  split; [by eapply kept_trans|]. split; [done|]. rewrite Eb. by apply prefix_app_r.
Qed.

(** Neither loop runs out: more fuel than there are blocks changes nothing. *)
Lemma pop_until_hash_fuel now target fuel fuel' st popped : main_ok st -> target ∈ ids st -> (length (blocks (m_db st)) <= fuel)%nat ->
  (length (blocks (m_db st)) <= fuel')%nat -> pop_until_hash fuel now st target popped = pop_until_hash fuel' now st target popped.
Proof.
  revert fuel' st popped. induction fuel as [|fuel IH]; intros fuel' st popped Hs Hin Hf Hf'.
  { destruct (cs_genesis _ (proj1 Hs)). by apply length_zero_iff_nil, Nat.le_0_r. }
  destruct fuel' as [|fuel']; [destruct (cs_genesis _ (proj1 Hs)); by apply length_zero_iff_nil, Nat.le_0_r|].
  cbn [pop_until_hash]. case_bool_decide as Et; [done|]. destruct (pop_block_from_blockchain now st) as [[b st1]|] eqn:Ep; cbn [mbind option_bind]; [|done].
  apply pop_spec in Ep as (H1 & _ & bi & Eb & _); [|done]. rewrite Eb, length_app in Hf, Hf'. cbn in Hf, Hf'.
  apply IH; [apply H1| |lia|lia]. unfold ids in *. rewrite Eb, fmap_app in Hin. apply elem_of_app in Hin as [Hin|Hin]; [done|].
  apply list_elem_of_singleton in Hin as ->. destruct Et. unfold tail_id, top_block_hash. by rewrite Eb, last_snoc.
Qed.

Lemma pop_until_height_fuel now h fuel fuel' st : main_ok st -> (length (blocks (m_db st)) <= fuel)%nat ->
  (length (blocks (m_db st)) <= fuel')%nat -> pop_until_height fuel now st h = pop_until_height fuel' now st h.
Proof.
  revert fuel' st. induction fuel as [|fuel IH]; intros fuel' st Hs Hf Hf'.
  { destruct (cs_genesis _ (proj1 Hs)). by apply length_zero_iff_nil, Nat.le_0_r. }
  destruct fuel' as [|fuel']; [destruct (cs_genesis _ (proj1 Hs)); by apply length_zero_iff_nil, Nat.le_0_r|].
  cbn [pop_until_height]. case_match; [done|]. destruct (pop_block_from_blockchain now st) as [[b st1]|] eqn:Ep; cbn [mbind option_bind]; [|done].
  apply pop_spec in Ep as (H1 & _ & bi & Eb & _); [|done]. rewrite Eb, length_app in Hf, Hf'. cbn in Hf, Hf'. apply IH; [apply H1|lia|lia].
Qed.

Lemma prefix_is_take {A} (l l' : list A) h : l `prefix_of` l' -> zlen l = h -> l = take (Z.to_nat h) l'.
Proof. intros [k ->] Hh. rewrite take_app_le by (unfold zlen in *; lia). rewrite take_ge; [done|unfold zlen in *; lia]. Qed.

Lemma rollback_spec now st orig h r st' : main_ok st -> (orig <> [] -> m_batch st = false) -> fits_list orig -> 0 <= h <= height (m_db st) ->
  rollback_blockchain_switching now st orig h = Some (r, st') ->
  kept st st' /\ exists done remaining, orig = done ++ remaining /\ ids st' = take (Z.to_nat h) (ids st) ++ (ident <$> done) /\ (r = true <-> remaining = []).
Proof.
  intros Hs Hb Hl Hh. unfold rollback_blockchain_switching. rewrite (proj2 (Z.ltb_ge _ _)) by lia.
  destruct (reset_window_kept st Hs) as (K0 & Edb & _).
  destruct (pop_until_height _ _ _ _) as [st1|] eqn:Ep; cbn [mbind option_bind]; [|done]. apply pop_until_height_spec in Ep as (K1 & Eh & Hpre); [|apply K0].
  destruct (reorganize_hardfork st1 h) as [st2|] eqn:Er; cbn [mbind option_bind]; [|done]. apply reorganize_kept in Er as (K2 & Eb2); [|apply K1|lia].
  pose proof (kept_trans _ _ _ (kept_trans _ _ _ K0 K1) K2) as K. assert (orig <> [] -> m_batch st2 = false) as Hb2 by (destruct (kp_settings _ _ K) as (_&_&_&_&_&->); done).
  destruct (connect now st2 orig) as [[st3 remaining]|] eqn:Ec; cbn [mbind option_bind]; [|done].
  apply connect_spec in Ec as (K3 & _ & dn & -> & Eids); [|apply K2|done|done].
  assert (ids st2 = take (Z.to_nat h) (ids st)) as E2.
  { unfold ids. rewrite Eb2, <- fmap_take. f_equal. apply prefix_is_take; [by rewrite <- Edb|exact Eh]. }
  rewrite E2 in Eids. destruct remaining as [|b rem].
  - destruct (reorganize_hardfork st3 h) as [st4|] eqn:Er'; cbn [mbind option_bind]; [|done]. intros [= <- <-].
    apply reorganize_kept in Er' as (K4 & Eb4); [|apply K3|lia]. split; [eapply kept_trans; [by eapply kept_trans|done]|].
    exists dn, []. split; [done|]. split; [|done]. unfold ids in *. by rewrite Eb4.
  - intros [= <- <-]. split; [by eapply kept_trans|]. by exists dn, (b :: rem).
Qed.

(** ** Branches *)

(** An entry: a fit block under its id at the height its coinbase names, one
    above a known block with the parent's id. *)
Record alt_entry_ok (k : blob) (e : block_extended_info) : Prop := {
  ae_fit : block_fit (bei_bl e) k;
  ae_height : Hashing.get_block_height (bei_bl e) = bei_height e;
  ae_known : known k (bei_height e);
  ae_parent : known (prev_id (hdr (bei_bl e))) (bei_height e - 1)
}.

Definition alt_ok (st : blockchain) : Prop := map_Forall alt_entry_ok (m_alternative_chains st).

(** The chain and the branches, and what an operation on them keeps. *)
Definition node_ok (st : blockchain) : Prop := main_ok st /\ alt_ok st.
Definition held (st st' : blockchain) : Prop := node_ok st' /\ same_params st st'.

Lemma held_trans st1 st2 st3 : held st1 st2 -> held st2 st3 -> held st1 st3.
Proof. intros [_ H1] [H2 H3]. split; [done|by etrans]. Qed.

Lemma held_batch st st' : held st st' -> m_batch st = false -> m_batch st' = false.
Proof. intros [_ (_ & _ & _ & _ & ->)]. done. Qed.

Lemma kept_held st st' : alt_ok st -> kept st st' -> held st st'.
Proof.
  intros Ha [H1 H2]. split; [|by apply settings_params]. split; [done|]. destruct H2 as (_ & E & _). unfold alt_ok. by rewrite E.
Qed.

(** Only branches and invalid blocks differ, and no branch is new. *)
Definition branches_only (st st' : blockchain) : Prop :=
  exists alt inv, alt ⊆ m_alternative_chains st /\ st' = set_invalid (set_alternative st alt) inv.

Lemma branches_only_refl st : branches_only st st.
Proof. exists (m_alternative_chains st), (m_invalid_blocks st). split; [done|by destruct st]. Qed.

Lemma branches_only_trans st1 st2 st3 : branches_only st1 st2 -> branches_only st2 st3 -> branches_only st1 st3.
Proof. intros (a & i & Ha & ->) (a' & i' & Ha' & ->). exists a', i'. split; [|done]. cbn in Ha'. by etrans. Qed.

Lemma erase_alt_only st k : branches_only st (erase_alt st k).
Proof. exists (delete k (m_alternative_chains st)), (m_invalid_blocks st). split; [apply delete_subseteq|done]. Qed.

Lemma erase_invalid_only st e h k : branches_only st (erase_alt (add_block_as_invalid st e h).2 k).
Proof.
  eapply branches_only_trans; [|apply erase_alt_only]. unfold add_block_as_invalid. case_match; [apply branches_only_refl|].
  eexists _, _. by split.
Qed.

Lemma branches_held st st' : node_ok st -> branches_only st st' -> held st st' /\ m_db st' = m_db st /\ m_hardfork st' = m_hardfork st.
Proof.
  intros [Hs Ha] (alt & inv & Hsub & ->). split; [|done]. split; [|done]. split.
  - apply (main_ok_ext st); [done|done|apply Hs|done].
  - intros k e E. apply Ha. by eapply lookup_weaken.
Qed.

Lemma discard_branch_only st failed rest st' : discard_branch st failed rest = Some st' -> branches_only st st'.
Proof.
  unfold discard_branch. destruct (get_block_hash _).1 as [id|]; cbn [mbind option_bind]; [|done]. intros [= <-].
  eapply branches_only_trans; [apply (erase_invalid_only st failed.2 id failed.1)|]. set (st1 := erase_alt _ _). clearbody st1. clear st.
  revert st1. induction rest as [|e rest IH]; intros st; cbn [foldl]; [apply branches_only_refl|].
  eapply branches_only_trans; [apply (erase_invalid_only st e.2 e.1 e.1)|apply IH].
Qed.

Lemma erase_all_only st (l : list alt_entry) : branches_only st (foldl (fun st e => erase_alt st e.1) st l).
Proof.
  revert st. induction l as [|e l IH]; intros st; cbn [foldl]; [apply branches_only_refl|].
  eapply branches_only_trans; [apply erase_alt_only|apply IH].
Qed.

Lemma entries_fit (l : list alt_entry) : Forall (fun e => alt_entry_ok e.1 e.2) l ->
  fits_list ((fun e => bei_bl e.2) <$> l) /\ ident <$> ((fun e => bei_bl e.2) <$> l) = l.*1.
Proof.
  induction 1 as [|e l He Hl [IH1 IH2]]; [split; [constructor|done]|]. destruct (ae_fit _ _ He) as (H1 & H2 & H3 & H4).
  assert (ident (bei_bl e.2) = e.1) as Ei by (unfold ident; by rewrite H4). cbn. split; [|by rewrite Ei, IH2].
  constructor; [|exact IH1]. rewrite Ei, (ae_height _ _ He). split; [apply (ae_fit _ _ He)|apply (ae_known _ _ He)].
Qed.

(** The blocks taken off the chain fit, with the ids they had. *)
Lemma popped_fit st pre mid : main_ok st -> blocks (m_db st) = pre ++ mid ->
  fits_list (bi_block <$> mid) /\ ident <$> (bi_block <$> mid) = bi_hash <$> mid.
Proof.
  intros Hs E. assert (Forall (fun bi => block_fit (bi_block bi) (bi_hash bi) /\ ident (bi_block bi) = bi_hash bi /\ known (bi_hash bi) (Hashing.get_block_height (bi_block bi))) mid) as Hf.
  { apply Forall_forall. intros bi [i Hi]%list_elem_of_lookup. apply (stored_fit st (length pre + i)); [done|]. by rewrite E, lookup_app_r, Nat.add_sub' by lia. }
  clear E. induction Hf as [|bi mid (H1 & H2 & H3) Hf [IH1 IH2]]; [split; [constructor|done]|]. cbn. split; [|by rewrite H2, IH2].
  constructor; [by rewrite H2|exact IH1].
Qed.

(** The effect a block offered to the branches can have. *)
Definition block_effect := blockchain -> block -> blob -> blockchain -> Prop.

(** Blocks offered one after the other. *)
Inductive reoffered (nested : block_effect) : blockchain -> list block -> blockchain -> Prop :=
| reoffered_nil st : reoffered nested st [] st
| reoffered_cons st b l st1 st2 : nested st b (ident b) st1 -> reoffered nested st1 l st2 -> reoffered nested st (b :: l) st2.

(** What is asked of the recursive call. *)
Definition offers (ha : blockchain -> block -> blob -> option blockchain) (nested : block_effect) : Prop := forall st b id st',
  node_ok st -> m_batch st = false -> block_fit b id -> known id (Hashing.get_block_height b) -> ha st b id = Some st' -> held st st' /\ nested st b id st'.

(** Handing the old blocks to the branches. *)
Lemma push_old_held ha nested st l st' : node_ok st -> m_batch st = false -> fits_list l -> offers ha nested ->
  foldl (fun st b => st ← st; id ← (get_block_hash b).1; ha st b id) (Some st) l = Some st' -> held st st' /\ reoffered nested st l st'.
Proof.
  intros Hn Hb Hl Hha. revert st Hn Hb. induction Hl as [|b l [Hfit Hkn] Hl IH]; intros st Hn Hb; cbn [foldl].
  { intros [= <-]. split; [done|constructor]. }
  cbn [mbind option_bind]. rewrite (hash_of_fit _ _ Hfit). cbn [mbind option_bind]. destruct (ha st b (ident b)) as [st1|] eqn:E.
  - apply Hha in E as [E En]; [|done..]. intros [E1 E2]%IH; [|apply E|by eapply held_batch]. split; [by eapply held_trans|by econstructor].
  - intros E'. exfalso. clear IH Hl. induction l as [|b' l IHl]; [done|]. by apply IHl.
Qed.

(** A switch that took place.  The chain was cut at the fork point, the parent of
    the first block of the branch, and the branch put on top; unless they are
    thrown away, the blocks that were above the fork point are then offered as a
    branch in their turn, and the chain is the one this leaves. *)
Definition switched (nested : block_effect) (st : blockchain) (l : list alt_entry) (discard : bool) (st' : blockchain) : Prop :=
  exists n front old st1 st2, head l = Some front /\ last (take n (ids st)) = Some (prev_id (hdr (bei_bl front.2))) /\
    ident <$> old = drop n (ids st) /\ ids st1 = take n (ids st) ++ l.*1 /\ held st st1 /\
    (if discard then st2 = st1 else reoffered nested st1 old st2) /\ ids st' = ids st2.

(** A switch: a failed one leaves no foreign block on the main chain, a
    successful one put the branch on top of its fork point. *)
Lemma switch_spec ha nested now st l discard version r st' : node_ok st -> m_batch st = false ->
  Forall (fun e => alt_entry_ok e.1 e.2) l -> offers ha nested ->
  switch_to_alternative_blockchain ha now st l discard version = Some (r, st') ->
  held st st' /\ (r = false -> ids st' `prefix_of` ids st) /\
  (r = true -> version < HF_VERSION_PROOF_OF_STAKE /\ switched nested st l discard st').
Proof.
  intros Hn Hb Hl Hha. assert (held st st) as Hh0 by by split. unfold switch_to_alternative_blockchain.
  destruct (Z.leb_spec HF_VERSION_PROOF_OF_STAKE version) as [|Hver]; [by intros [= <- <-]|]. destruct (reset_window_kept st (proj1 Hn)) as (K0 & Edb & _).
  assert (held st (reset_window st) /\ ids (reset_window st) = ids st) as [Hh1 Ei1] by (split; [apply kept_held; [apply Hn|done]|unfold ids; by rewrite Edb]).
  cbv zeta. destruct l as [|front l0] eqn:El; [intros [= <- <-]; split; [done|]; rewrite Ei1; by split|]. rewrite <- El in *.
  destruct (block_exists _ _); cbn [negb]; [|intros [= <- <-]; split; [done|]; rewrite Ei1; by split].
  destruct (pop_until_hash _ _ _ _ _) as [[st1 popped]|] eqn:Ep; cbn [mbind option_bind]; [|done].
  apply pop_until_hash_spec in Ep as (K1 & _ & Etail & mid & Eb & ->); [|apply K0]. rewrite app_nil_r.
  pose proof (kept_held _ _ (proj2 (proj1 Hh1)) K1) as Hh2. pose proof (held_trans _ _ _ Hh1 Hh2) as Hh3.
  assert (ids st = ids st1 ++ (bi_hash <$> mid)) as Eids by (rewrite <- Ei1; unfold ids; by rewrite Eb, fmap_app).
  destruct (popped_fit _ _ _ (kp_sound _ _ K0) Eb) as [Hfit1 Eid1]. destruct (entries_fit l Hl) as [Hfit2 Eid2].
  destruct (connect now st1 _) as [[st2 remaining]|] eqn:Ec; cbn [mbind option_bind]; [|done].
  apply connect_spec in Ec as (K2 & _ & dn & Edn & Eids2); [|apply K1|intros _; by eapply held_batch|done].
  pose proof (kept_held _ _ (proj2 (proj1 Hh2)) K2) as Hh4. pose proof (held_trans _ _ _ Hh3 Hh4) as Hh5.
  assert (take (length (ids st1)) (ids st) = ids st1) as Etake by by rewrite Eids, take_app_length.
  destruct (drop (length l - length remaining) l) as [|failed rest] eqn:Edrop.
  - assert (remaining = []) as ->.
    { apply (f_equal length) in Edrop, Edn. rewrite length_drop in Edrop. rewrite length_fmap, length_app in Edn. cbn in Edrop.
      apply length_zero_iff_nil. assert (0 < length l)%nat by (rewrite El; cbn; lia). lia. }
    rewrite app_nil_r in Edn. rewrite <- Edn, Eid2 in Eids2.
    destruct (if discard then Some st2 else _) as [st3|] eqn:Epush; cbn [mbind option_bind]; [|done].
    assert (held st2 st3 /\ if discard then st3 = st2 else reoffered nested st2 (bi_block <$> mid) st3) as [Hh6 Ediscard].
    { destruct discard; [injection Epush as <-; by split; [split; [apply Hh5|]|]|]. eapply push_old_held; [apply Hh5| | | |exact Epush]; [by eapply held_batch|done|done]. }
    pose proof (held_trans _ _ _ Hh5 Hh6) as Hh7. destruct (branches_held _ _ (proj1 Hh7) (erase_all_only st3 l)) as (Hh8 & Edb4 & _).
    set (st4 := foldl _ st3 l) in *. clearbody st4. destruct (reorganize_hardfork st4 _) as [st5|] eqn:Er; cbn [mbind option_bind]; [|done].
    intros [= <- <-]. apply reorganize_kept in Er as (K5 & Eb5); [|apply Hh8|unfold height; apply zlen_nonneg].
    split; [eapply held_trans; [exact Hh7|]; eapply held_trans; [exact Hh8|]; apply kept_held; [apply Hh8|done]|]. split; [done|]. intros _. split; [done|].
    exists (length (ids st1)), front, (bi_block <$> mid), st2, st3. rewrite Etake. split; [by rewrite El|].
    split; [|split; [by rewrite Eids, drop_app_length|split; [done|split; [done|split; [done|]]]]].
    + rewrite <- Etail. unfold tail_id, top_block_hash, ids. rewrite fmap_last. pose proof (cs_genesis _ (proj1 (kp_sound _ _ K1))) as Hne.
      by destruct (exists_last Hne) as (x & y & ->); rewrite last_snoc.
    + unfold ids. by rewrite Eb5, Edb4.
  - destruct (rollback_blockchain_switching _ _ _ _) as [[r' st3]|] eqn:Er; cbn [mbind option_bind]; [|done].
    apply rollback_spec in Er as (K3 & dn' & rem' & Edn' & Eids3 & _); [|apply K2|intros _; by eapply held_batch|done|].
    2: { unfold height. apply (f_equal length) in Eids2. unfold ids in Eids2. rewrite length_app, !length_fmap in Eids2. unfold zlen. lia. }
    destruct (discard_branch st3 failed rest) as [st4|] eqn:Ed; cbn [mbind option_bind]; [|done]. intros [= <- <-].
    pose proof (kept_held _ _ (proj2 (proj1 Hh5)) K3) as Hh6. destruct (branches_held _ _ (proj1 Hh6) (discard_branch_only _ _ _ _ Ed)) as (Hh7 & Edb4 & _).
    split; [by eapply held_trans; [exact Hh5|]; eapply held_trans|]. split; [|done]. intros _. exists (ident <$> rem').
    unfold ids at 2. rewrite Edb4. change (bi_hash <$> blocks (m_db st3)) with (ids st3).
    rewrite Eids3, Eids2. unfold height, zlen. rewrite Nat2Z.id. replace (length (blocks (m_db st1))) with (length (ids st1)) by (unfold ids; by rewrite length_fmap).
    rewrite take_app_length, <- app_assoc, <- fmap_app, <- Edn', Eid1. exact Eids.
Qed.

(** ** The branch below a block *)
Lemma alt_walk_spec fuel alts prev acc l : alt_walk fuel alts prev acc = Some l -> exists new, l = new ++ acc /\
  Forall (fun e => alts !! e.1 = Some e.2) new /\ (forall e, alts !! prev = Some e -> last new = Some (prev, e)) /\ (alts !! prev = None -> new = []).
Proof.
  revert prev acc. induction fuel as [|fuel IH]; intros prev acc; cbn [alt_walk]; (destruct (alts !! prev) as [e|] eqn:E;
    [|intros [= <-]; exists []; by split]); [done|].
  intros (new & -> & H1 & H2 & H3)%IH. exists (new ++ [(prev, e)]). rewrite <- app_assoc. split; [done|].
  split; [apply Forall_app; split; [done|by constructor]|]. split; [|done]. intros e' [= <-]. apply last_snoc.
Qed.

(** No two known blocks of different heights share an id. *)
Definition known_heights : Prop := forall k h h', known k h -> known k h' -> h = h'.

(** The parent in the map of an entry is one below it. *)
Lemma alt_parent_height st k e e' : known_heights -> alt_ok st -> m_alternative_chains st !! k = Some e ->
  m_alternative_chains st !! prev_id (hdr (bei_bl e)) = Some e' -> bei_height e' = bei_height e - 1.
Proof. intros Hk Ha E E'. apply Ha in E, E'. by apply (Hk (prev_id (hdr (bei_bl e)))); [apply (ae_known _ _ E')|apply (ae_parent _ _ E)]. Qed.

Lemma alt_walk_total st fuel prev acc : known_heights -> alt_ok st -> NoDup acc.*1 -> Forall (fun e => m_alternative_chains st !! e.1 = Some e.2) acc ->
  (forall e, m_alternative_chains st !! prev = Some e -> Forall (fun x => bei_height e < bei_height x.2) acc) ->
  (fuel + length acc = size (m_alternative_chains st))%nat -> is_Some (alt_walk fuel (m_alternative_chains st) prev acc).
Proof.
  intros Hk Ha. set (alts := m_alternative_chains st). revert prev acc. induction fuel as [|fuel IH]; intros prev acc Hnd Hacc Hlow Hsz; cbn [alt_walk];
    (destruct (alts !! prev) as [e|] eqn:E; [|by eexists]); specialize (Hlow e eq_refl).
  - exfalso. assert (prev ∈ acc.*1) as Hin.
    { assert (list_to_set acc.*1 = dom alts) as Hdom.
      { apply leibniz_equiv, set_subseteq_size_equiv; [|rewrite size_list_to_set, length_fmap, size_dom by done; lia].
        intros k. rewrite elem_of_list_to_set, list_elem_of_fmap. intros (x & -> & Hx). rewrite Forall_forall in Hacc. apply elem_of_dom. eexists. by apply Hacc. }
      apply (elem_of_list_to_set (C := gset blob)). rewrite Hdom. by apply elem_of_dom. }
    apply list_elem_of_fmap in Hin as (x & -> & Hx). rewrite Forall_forall in Hacc, Hlow. specialize (Hlow x Hx). rewrite (Hacc x Hx) in E. injection E as <-. lia.
  - apply IH; cbn; [| | |lia].
    + apply NoDup_cons. split; [|done]. intros (x & -> & Hx)%list_elem_of_fmap. rewrite Forall_forall in Hacc, Hlow.
      specialize (Hlow x Hx). rewrite (Hacc x Hx) in E. injection E as <-. lia.
    + by constructor.
    + intros e' E'. pose proof (alt_parent_height st prev e e' Hk Ha E E'). constructor; [cbn; lia|]. eapply Forall_impl; [exact Hlow|]. cbn. lia.
Qed.

(** ** A block offered to the branches *)

(** What a block has passed that becomes the next of a branch. *)
Record next_of_branch (st : blockchain) (l : list alt_entry) (b : block) (id : blob) (bei : block_extended_info) (cp : bool) (mcd : Z) : Prop := {
  nb_block : bei_bl bei = b;
  nb_height : Hashing.get_block_height b = bei_height bei;
  nb_time : exists ts, alt_timestamps (m_db st) l (prev_id (hdr b)) = Some (inr ts) /\ median ts <= timestamp (hdr b);
  nb_parent : exists ph pd d, bei_height bei = u64 (ph + 1) /\ bei_cumulative_difficulty bei = u64 (pd + d) /\
    get_next_difficulty_for_alternative_chain st l (bei_height bei) = Some d /\ d <> 0 /\
    (exists pow, get_block_longhash b (bei_height bei) = Some pow /\ check_hash pow d = true) /\
    match last l with
    | Some e => ph = bei_height e.2 /\ pd = bei_cumulative_difficulty e.2
    | None => get_block_height (m_db st) (prev_id (hdr b)) = Some ph /\ get_block_cumulative_difficulty (m_db st) ph = Some pd
    end;
  nb_checkpoint : check_block (m_checkpoints st) (bei_height bei) id = (true, cp);
  nb_main : get_block_cumulative_difficulty (m_db st) (height (m_db st) - 1) = Some mcd
}.

Lemma alternative_entry_inv st l b id bvc bei cp mcd : alternative_entry st l b id bvc = Some (inr (bei, cp, mcd)) ->
  next_of_branch st l b id bei cp mcd.
Proof.
  unfold alternative_entry. cbv zeta. destruct (alt_timestamps _ _ _) as [[|ts]|] eqn:Et; cbn [mbind option_bind]; [done| |done].
  unfold check_timestamps. cbn [fst]. destruct (Z.ltb_spec (timestamp (hdr b)) (median ts)) as [|Hts]; cbn [negb]; [done|].
  destruct (match last l with Some e => _ | None => _ end) as [[ph pd]|] eqn:Ep; cbn [mbind option_bind]; [|done].
  set (h := u64 (ph + 1)). destruct (check_block (m_checkpoints st) h id) as [[] cp'] eqn:Ec; cbn [negb]; [|done].
  destruct (get_next_difficulty_for_alternative_chain st l h) as [d|] eqn:Ed; cbn [mbind option_bind]; [|done].
  destruct (Z.eqb_spec d 0) as [|Hd]; [done|]. destruct (get_block_longhash b h) as [pow|] eqn:Epow; cbn [mbind option_bind]; [|done].
  destruct (check_hash pow d) eqn:Eh; cbn [negb]; [|done]. destruct (prevalidate_miner_transaction b h) eqn:Em; cbn [negb]; [|done].
  destruct (get_block_cumulative_difficulty _ (_ - 1)) as [m|] eqn:Ecum; cbn [mbind option_bind]; [|done]. intros [= <- <- <-].
  split; [done|by apply prevalidate_height|by exists ts| |done|done]. exists ph, pd, d. cbn [bei_height bei_cumulative_difficulty]. fold h.
  split; [done|]. split; [done|]. split; [done|]. split; [done|]. split; [by exists pow|]. destruct (last l); [by injection Ep as <- <-|].
  destruct (get_block_height (m_db st) _) as [pos|]; cbn [mbind option_bind] in Ep; [|done].
  destruct (get_block_cumulative_difficulty _ pos) as [pd'|] eqn:Epd; cbn [mbind option_bind] in Ep; [|done]. by injection Ep as <- <-.
Qed.

(** The new entry fits in. *)
Lemma next_entry_ok st l b id bei cp mcd : node_ok st -> block_fit b id -> known id (Hashing.get_block_height b) -> Hashing.get_block_height b <> 0 ->
  Forall (fun e => m_alternative_chains st !! e.1 = Some e.2) l -> (forall e, last l = Some e -> e.1 = prev_id (hdr b)) ->
  next_of_branch st l b id bei cp mcd -> alt_entry_ok id bei.
Proof.
  intros [Hs Ha] Hfit Hkn Hnz Hl Hlast [Eb Eh _ (ph & pd & d & Eph & _ & _ & _ & _ & Hp) _ _].
  assert (known (prev_id (hdr b)) ph /\ 0 <= ph < 2 ^ 64) as [Hph Hr].
  { destruct (last l) as [[k e]|] eqn:El.
    - destruct Hp as [-> _]. apply last_Some in El as [l' ->]. apply Forall_app in Hl as [_ Hl]. apply Forall_cons in Hl as [He _]. apply Ha in He.
      cbn in *. destruct (ae_fit _ _ He) as (_ & _ & Hu & _). rewrite (ae_height _ _ He) in Hu. rewrite <- (Hlast _ eq_refl). split; [apply (ae_known _ _ He)|exact Hu].
    - destruct Hp as [Hpos _]. apply find_hash_spec in Hpos as (bi & Ei & <- & Hge). rewrite Z.sub_0_r in Ei.
      destruct (stored_fit st _ bi Hs Ei) as ((_ & _ & Hu & _) & _ & Hk). rewrite (cs_heights _ (proj1 Hs) _ _ Ei) in *. rewrite Z2Nat.id in * by lia. done. }
  split; [by rewrite Eb|by rewrite Eb|by rewrite <- Eh|]. rewrite Eb. replace (bei_height bei - 1) with ph; [done|]. rewrite Eph. rewrite Eh, Eph in Hnz.
  unfold wrap in *. destruct (decide (ph + 1 = 2 ^ 64)) as [E|]; [rewrite E in Hnz; by vm_compute in Hnz|]. rewrite Z.mod_small; lia.
Qed.

(** The outcomes of one offer, [nested] being those of the offers it makes. *)
Record offer_outcome (nested : block_effect) (st : blockchain) (b : block) (id : blob) (version : Z) (r : bool) (st' : blockchain) (bvc' : block_verification_context) : Prop := {
  ao_held : held st st';
  ao_version : HF_VERSION_PROOF_OF_STAKE <= version -> r = false /\ st' = st;
  ao_refused : r = false -> m_added_to_main_chain bvc' = false;
  ao_not_added : m_added_to_main_chain bvc' = false -> ids st' `prefix_of` ids st;
  ao_kept : r = true -> m_added_to_main_chain bvc' = false -> m_marked_as_orphaned bvc' = false -> exists l bei mcd,
    next_of_branch (reset_window st) l b id bei false mcd /\ bei_cumulative_difficulty bei <= mcd /\ m_alternative_chains st !! id = None /\
    m_alternative_chains st' = <[id := bei]> (m_alternative_chains st) /\ m_db st' = m_db st /\ m_tx_pool st' = m_tx_pool st;
  ao_switched : m_added_to_main_chain bvc' = true -> exists l bei cp mcd,
    next_of_branch (reset_window st) l b id bei cp mcd /\ (cp = true \/ mcd < bei_cumulative_difficulty bei) /\
    switched nested st (l ++ [(id, bei)]) cp st'
}.

(** The outcomes of [handle_alternative_block]: those of its nested calls are
    outcomes too. *)
Fixpoint alternative_outcome (depth : nat) (st : blockchain) (b : block) (id : blob) (version : Z) (r : bool) (st' : blockchain) (bvc' : block_verification_context) : Prop :=
  offer_outcome (fun st b id st' => match depth with O => False | S depth => exists r bvc', alternative_outcome depth st b id version r st' bvc' end)
    st b id version r st' bvc'.

Lemma alternative_offer depth st b id version r st' bvc' : alternative_outcome depth st b id version r st' bvc' ->
  exists nested, offer_outcome nested st b id version r st' bvc'.
Proof. intros E. destruct depth; eexists; exact E. Qed.

(** Nothing but the difficulty window differs. *)
Lemma outcome_unchanged nested st b id version r bvc' : node_ok st -> version < HF_VERSION_PROOF_OF_STAKE -> m_added_to_main_chain bvc' = false ->
  r = false \/ m_marked_as_orphaned bvc' = true -> offer_outcome nested st b id version r (reset_window st) bvc'.
Proof.
  intros Hn Hv Ea Hr. destruct (reset_window_kept st (proj1 Hn)) as (K & Edb & _). split.
  - apply kept_held; [apply Hn|done].
  - lia.
  - done.
  - intros _. unfold ids. by rewrite Edb.
  - intros -> _ Ho. destruct Hr; congruence.
  - congruence.
Qed.

(** A block that takes its place in a branch, and the switch it may cause. *)
Lemma outcome_inserted ha nested now st l b id bei cp mcd bvc version r st' bvc' :
  node_ok st -> m_batch st = false -> version < HF_VERSION_PROOF_OF_STAKE -> m_added_to_main_chain bvc = false ->
  alt_entry_ok id bei -> Forall (fun e => m_alternative_chains st !! e.1 = Some e.2) l ->
  next_of_branch (reset_window st) l b id bei cp mcd -> m_alternative_chains st !! id = None ->
  offers ha nested ->
  (let st := set_alternative (reset_window st) (<[id := bei]> (m_alternative_chains st)) in
   let switch := fun discard : bool =>
     '(r, st) ← switch_to_alternative_blockchain ha now st (l ++ [(id, bei)]) discard version;
     Some (r, st, if r : bool then set_added bvc true else set_failed bvc true) in
   if cp then switch true else if mcd <? bei_cumulative_difficulty bei then switch false else Some (true, st, bvc)) = Some (r, st', bvc') ->
  offer_outcome nested st b id version r st' bvc'.
Proof.
  intros Hn Hb Hv Ea He Hl Hnext Hnone Hha. cbv zeta. set (st1 := set_alternative _ _).
  assert (held st st1 /\ ids st1 = ids st) as [Hh1 Ei1].
  { destruct (reset_window_kept st (proj1 Hn)) as ([K1 K2] & Edb & _). split; [|done]. split; [|done]. split; [apply (main_ok_ext st); [done|done|apply Hn|apply Hn]|].
    apply map_Forall_insert_2; [done|apply Hn]. }
  assert (Forall (fun e => alt_entry_ok e.1 e.2) (l ++ [(id, bei)])) as Hl1.
  { apply Forall_app. split; [|by constructor]. eapply Forall_impl; [exact Hl|]. intros e. apply (proj2 Hn). }
  assert (forall discard, (discard = true \/ mcd < bei_cumulative_difficulty bei) -> discard = cp ->
    ('(r, st) ← switch_to_alternative_blockchain ha now st1 (l ++ [(id, bei)]) discard version;
     Some (r, st, if r : bool then set_added bvc true else set_failed bvc true)) = Some (r, st', bvc') -> offer_outcome nested st b id version r st' bvc') as Hswitch.
  { intros discard Hd -> E. destruct (switch_to_alternative_blockchain _ _ _ _ _ _) as [[r1 st2]|] eqn:Es; cbn [mbind option_bind] in E; [|done]. injection E as -> -> <-.
    apply (switch_spec ha nested) in Es as (H1 & H2 & H3); [|apply Hh1|by eapply held_batch|done|done]. pose proof (held_trans _ _ _ Hh1 H1) as H4. rewrite Ei1 in *.
    split; [done|lia|by intros ->| |by intros ->|].
    - destruct r; [done|]. intros _. by apply H2.
    - destruct r; [intros _|cbn; congruence]. destruct (H3 eq_refl) as (_ & n & front & old & st3 & st4 & F1 & F2 & F3 & F4 & F5 & F6). rewrite Ei1 in *.
      exists l, bei, cp, mcd. split; [done|]. split; [done|]. exists n, front, old, st3, st4. pose proof (held_trans _ _ _ Hh1 F5). done. }
  destruct cp; [apply Hswitch; [by left|done]|]. destruct (Z.ltb_spec mcd (bei_cumulative_difficulty bei)); [apply Hswitch; [by right|done]|].
  intros [= <- <- <-]. split; [done|lia|done|intros _; by rewrite Ei1| |congruence]. intros _ _ _. exists l, bei, mcd. done.
Qed.

Lemma alternative_entry_refused st l b id bvc r bvc' : alternative_entry st l b id bvc = Some (inl (r, bvc')) ->
  r = false /\ m_added_to_main_chain bvc' = m_added_to_main_chain bvc.
Proof.
  unfold alternative_entry. cbv zeta. destruct (alt_timestamps _ _ _) as [[|ts]|]; cbn [mbind option_bind]; [by intros [= <- <-]| |done].
  destruct (negb _); [by intros [= <- <-]|]. destruct (match last l with Some e => _ | None => _ end) as [[ph pd]|]; cbn [mbind option_bind]; [|done].
  destruct (check_block _ _ _) as [[] cp]; cbn [negb]; [|by intros [= <- <-]].
  destruct (get_next_difficulty_for_alternative_chain _ _ _) as [d|]; cbn [mbind option_bind]; [|done]. destruct (d =? 0); [by intros [= <- <-]|].
  destruct (get_block_longhash _ _); cbn [mbind option_bind]; [|done]. destruct (negb (check_hash _ _)); [by intros [= <- <-]|].
  destruct (negb (prevalidate_miner_transaction _ _)); [by intros [= <- <-]|]. by destruct (get_block_cumulative_difficulty _ (_ - 1)).
Qed.

Lemma offer_outcomes ha nested now st b id bvc version r st' bvc' : node_ok st -> m_batch st = false -> block_fit b id -> known id (Hashing.get_block_height b) ->
  m_added_to_main_chain bvc = false ->
  offers ha nested ->
  offer_alternative_block ha now st b id bvc version = Some (r, st', bvc') -> offer_outcome nested st b id version r st' bvc'.
Proof.
  intros Hn Hb Hfit Hkn Ea Hha. unfold offer_alternative_block. destruct (Z.leb_spec HF_VERSION_PROOF_OF_STAKE version) as [Hv|Hv].
  { intros [= <- <- <-]. split; try done; cbn; congruence. }
  cbv zeta. set (goal := offer_outcome _ _ _ _ _ _ _ _).
  assert (forall r0 bvc0, r0 = false \/ m_marked_as_orphaned bvc0 = true -> m_added_to_main_chain bvc0 = false ->
    Some (r0, reset_window st, bvc0) = Some (r, st', bvc') -> goal) as Hun by (intros r0 bvc0 H0 H1 [= <- <- <-]; by apply outcome_unchanged).
  destruct (Z.eqb_spec (Hashing.get_block_height b) 0) as [|Hnz]; [apply Hun; [by left|done]|].
  destruct (is_alternative_block_allowed _ _ _); cbn [negb]; [|apply Hun; [by left|done]].
  destruct (check_for_height _ _ _); cbn [negb]; [|apply Hun; [by left|done]]. destruct (_ && _); [apply Hun; [by right|done]|].
  change (m_alternative_chains (reset_window st)) with (m_alternative_chains st).
  destruct (alt_walk _ _ _ _) as [l|] eqn:Ew; cbn [mbind option_bind]; [|done].
  destruct (alternative_entry _ _ _ _ _) as [[[r0 bvc0]|[[bei cp] mcd]]|] eqn:Ee; cbn [mbind option_bind]; [| |done].
  { apply alternative_entry_refused in Ee as [-> Ee]. apply Hun; [by left|congruence]. }
  destruct (m_alternative_chains st !! id) eqn:Eid; [apply Hun; [by left|done]|]. apply alternative_entry_inv in Ee.
  apply alt_walk_spec in Ew as (new & -> & Hl & Hlast & Hnil). rewrite app_nil_r in *. apply outcome_inserted; try done.
  destruct (reset_window_kept st (proj1 Hn)) as (K & _). apply (next_entry_ok (reset_window st) new b id bei cp mcd); try done; [by split; [apply K|apply Hn]|].
  intros e E. destruct (m_alternative_chains st !! prev_id (hdr b)) as [e'|]; [|by rewrite (Hnil eq_refl) in E]. rewrite (Hlast e' eq_refl) in E. by injection E as <-.
Qed.

Lemma handle_alternative_outcome depth now st b id bvc version r st' bvc' : node_ok st -> m_batch st = false -> block_fit b id ->
  known id (Hashing.get_block_height b) -> m_added_to_main_chain bvc = false -> handle_alternative_block depth now st b id bvc version = Some (r, st', bvc') ->
  alternative_outcome depth st b id version r st' bvc'.
Proof.
  revert st b id bvc r st' bvc'. induction depth as [|depth IH]; intros st b id bvc r st' bvc' Hn Hb Hfit Hkn Ea; cbn [handle_alternative_block];
    apply offer_outcomes; try done; intros st0 b0 id0 st1 Hn0 Hb0 Hf0 Hk0.
  destruct (handle_alternative_block _ _ _ _ _ _ _) as [[[r0 st2] bvc0]|] eqn:E; cbn [mbind option_bind]; [|done]. intros [= <-].
  apply IH in E; [|done..]. split; [|by exists r0, bvc0]. apply alternative_offer in E as [? E]. apply (ao_held _ _ _ _ _ _ _ _ E).
Qed.

(** ** Checkpoints *)
Lemma set_batch_kept st b : node_ok st -> node_ok (set_batch st b) /\ ids (set_batch st b) = ids st.
Proof. intros [Hs Ha]. split; [|done]. split; [|done]. apply (main_ok_ext st); [done|done|apply Hs|done]. Qed.

Lemma rollback_empty now st h r st' : node_ok st -> 0 <= h -> rollback_blockchain_switching now st [] h = Some (r, st') ->
  held st st' /\ ids st' = take (Z.to_nat h) (ids st).
Proof.
  intros Hn Hh E. destruct (decide (height (m_db st) < h)) as [Hlt|Hge].
  { unfold rollback_blockchain_switching in E. rewrite (proj2 (Z.ltb_lt _ _)) in E by done. injection E as <- <-. split; [by split|].
    rewrite take_ge; [done|]. unfold ids. rewrite length_fmap. unfold height, zlen in Hlt. lia. }
  apply rollback_spec in E as (K & dn & rem & Enil & Eids & _); [|apply Hn|done|constructor|lia]. symmetry in Enil. apply app_eq_nil in Enil as [-> _].
  split; [apply kept_held; [apply Hn|done]|]. by rewrite Eids, app_nil_r.
Qed.

(** Every point up to [pt] from height 2 on holds. *)
Definition points_hold (points : checkpoints) (st : blockchain) (l : list (Z * blob)) : Prop :=
  Forall (fun p => 2 <= p.1 -> points !! p.1 = Some p.2 -> p.1 < height (m_db st) -> ids st !! Z.to_nat p.1 = Some p.2) l.

Lemma points_hold_prefix points st st' l : ids st' `prefix_of` ids st -> points_hold points st l -> points_hold points st' l.
Proof.
  intros [k Ek] Hl. eapply Forall_impl; [exact Hl|]. cbn. intros p Hp H2 Hx Hlt. unfold height, zlen in *.
  assert (length (ids st') = length (blocks (m_db st'))) as E1 by (unfold ids; by rewrite length_fmap).
  assert (length (ids st) = length (blocks (m_db st))) as E2 by (unfold ids; by rewrite length_fmap).
  specialize (Hp H2 Hx). rewrite Ek, lookup_app_l in Hp by lia. apply Hp. rewrite <- E2, Ek, length_app. lia.
Qed.

Lemma hash_at_height st h : 0 <= h < height (m_db st) -> get_block_hash_from_height (m_db st) h = ids st !! Z.to_nat h.
Proof.
  intros Hh. unfold get_block_hash_from_height, get_block_info, ids. rewrite (proj2 (Z.leb_le 0 h)), (proj2 (Z.ltb_lt h _)) by lia. cbn [andb].
  by rewrite list_lookup_fmap.
Qed.

Lemma check_one_spec now points enforce st pt x st' : node_ok st -> is_u64 pt -> points !! pt = Some x -> check_one_checkpoint now points enforce st pt = Some st' ->
  held st st' /\ ids st' `prefix_of` ids st /\
  (enforce = true -> 2 <= pt -> pt < height (m_db st') -> ids st' !! Z.to_nat pt = Some x).
Proof.
  intros Hn Hu Hx. assert (held st st) as H0 by by split. unfold check_one_checkpoint. destruct (Z.leb_spec (height (m_db st)) pt) as [Hge|Hlt].
  { intros [= <-]. split; [done|]. split; [done|]. lia. }
  rewrite hash_at_height by (unfold in_range in Hu; lia). destruct (ids st !! Z.to_nat pt) as [h|] eqn:Eh; cbn [mbind option_bind]; [|done].
  unfold check_block. rewrite Hx. cbn [fst]. case_bool_decide as Eq.
  { intros [= <-]. split; [done|]. split; [done|]. intros _ _ _. by rewrite Eh, Eq. }
  destruct enforce; [|intros [= <-]; by split; [|split]].
  destruct (rollback_blockchain_switching _ _ _ _) as [[r st1]|] eqn:Er; cbn [mbind option_bind]; [|done]. intros [= <-].
  apply rollback_empty in Er as [Hh Eids]; [|done|unfold wrap; apply Z.mod_pos_bound; lia]. split; [done|]. split; [rewrite Eids; apply prefix_take|].
  intros _ H2 Hlt'. exfalso. apply (f_equal length) in Eids. unfold ids in Eids. rewrite length_take, !length_fmap in Eids.
  rewrite wrap_small in Eids by (unfold in_range in *; lia). unfold height, zlen in *. lia.
Qed.

Lemma check_all_spec now points enforce l st st' : node_ok st -> Forall (fun p => is_u64 p.1 /\ points !! p.1 = Some p.2) l ->
  foldl (fun st pt => st ← st; check_one_checkpoint now points enforce st pt.1) (Some st) l = Some st' ->
  held st st' /\ ids st' `prefix_of` ids st /\ (enforce = true -> points_hold points st' l).
Proof.
  intros Hn Hl. revert st Hn. induction Hl as [|[k x] l [Hu Hx] Hl IH]; intros st Hn; cbn [foldl].
  { intros [= <-]. split; [by split|]. split; [done|]. constructor. }
  cbn [mbind option_bind fst snd] in *. destruct (check_one_checkpoint now points enforce st k) as [st1|] eqn:E.
  - apply (check_one_spec _ _ _ _ _ x) in E as (H1 & H2 & H3); [|done..]. intros (G1 & G2 & G3)%IH; [|apply H1].
    split; [by eapply held_trans|]. split; [by etrans|]. intros He. constructor; [|by apply G3].
    assert (points_hold points st1 [(k, x)]) as Hp by (constructor; [cbn; intros ? _ ?; by apply H3|constructor]).
    apply (points_hold_prefix _ _ _ _ G2), Forall_cons in Hp as [Hp _]. exact Hp.
  - intros E'. exfalso. clear -E'. induction l as [|p l IHl]; [done|]. by apply IHl.
Qed.

Lemma sorted_points_spec points : map_Forall (fun k _ => is_u64 k) points ->
  Forall (fun p => is_u64 p.1 /\ points !! p.1 = Some p.2) (sorted_points points) /\ forall k x, points !! k = Some x -> (k, x) ∈ sorted_points points.
Proof.
  intros Hu. assert (forall p, p ∈ sorted_points points <-> p ∈ map_to_list points) as Hs by (intros p; unfold sorted_points; by rewrite merge_sort_Permutation).
  split; [|intros k x E; by apply Hs, elem_of_map_to_list]. apply Forall_forall. intros [k x] Hin%Hs%elem_of_map_to_list. split; [by eapply Hu|done].
Qed.

Lemma alt_walk_mono fuel fuel' alts prev acc l : (fuel <= fuel')%nat -> alt_walk fuel alts prev acc = Some l -> alt_walk fuel' alts prev acc = Some l.
Proof.
  revert fuel' prev acc. induction fuel as [|fuel IH]; intros fuel' prev acc Hf; destruct fuel' as [|fuel']; cbn [alt_walk]; destruct (alts !! prev); try done; [lia|].
  apply IH. lia.
Qed.

Lemma alt_walk_length fuel alts prev acc l : alt_walk fuel alts prev acc = Some l -> (length l <= fuel + length acc)%nat.
Proof.
  revert prev acc. induction fuel as [|fuel IH]; intros prev acc; cbn [alt_walk]; destruct (alts !! prev); try done; [by intros [= <-]..| |].
  - intros E%IH. cbn in E. lia.
  - intros [= <-]. lia.
Qed.

(** More depth never changes an answer. *)
Lemma offer_mono (ha ha' : blockchain -> block -> blob -> option blockchain) now st b id bvc version x :
  (forall st b id y, ha st b id = Some y -> ha' st b id = Some y) ->
  offer_alternative_block ha now st b id bvc version = Some x -> offer_alternative_block ha' now st b id bvc version = Some x.
Proof.
  intros Hm. unfold offer_alternative_block. destruct (_ <=? _); [done|]. cbv zeta. do 4 (case_match; [done|]).
  destruct (alt_walk _ _ _ _) as [l|]; cbn [mbind option_bind]; [|done]. destruct (alternative_entry _ _ _ _ _) as [[[]|[[bei cp] mcd]]|]; cbn [mbind option_bind]; [done| |done].
  case_match; [done|]. assert (forall st l discard y, switch_to_alternative_blockchain ha now st l discard version = Some y ->
    switch_to_alternative_blockchain ha' now st l discard version = Some y) as Hsw.
  { clear -Hm. intros st l discard y. unfold switch_to_alternative_blockchain. destruct (_ <=? _); [done|]. cbv zeta. destruct l as [|front l0]; [done|].
    set (l := front :: l0). destruct (negb _); [done|]. destruct (pop_until_hash _ _ _ _ _) as [[st1 old]|]; cbn [mbind option_bind]; [|done].
    destruct (connect _ _ _) as [[st2 rem]|]; cbn [mbind option_bind]; [|done]. destruct (drop _ _); [|done]. destruct discard; [done|].
    destruct (foldl _ (Some st2) old) as [st3|] eqn:E; cbn [mbind option_bind]; [|done]. intros Ey.
    replace (foldl _ (Some st2) old) with (Some st3); [exact Ey|]. symmetry. clear Ey. revert st2 E. induction old as [|b old IH]; intros st2; cbn [foldl]; [done|].
    cbn [mbind option_bind]. destruct (get_block_hash b).1 as [id|]; cbn [mbind option_bind].
    - destruct (ha st2 b id) as [st4|] eqn:Eha; [rewrite (Hm _ _ _ _ Eha); apply IH|]. intros E. exfalso. clear -E. induction old as [|b' old IH]; [done|]. by apply IH.
    - intros E. exfalso. clear -E. induction old as [|b' old IH]; [done|]. by apply IH. }
  destruct cp; [|case_match; [|done]]; destruct (switch_to_alternative_blockchain ha _ _ _ _ _) as [[r st1]|] eqn:E; cbn [mbind option_bind]; try done;
    by rewrite (Hsw _ _ _ _ E).
Qed.

Lemma handle_alternative_mono depth depth' now st b id bvc version x : (depth <= depth')%nat ->
  handle_alternative_block depth now st b id bvc version = Some x -> handle_alternative_block depth' now st b id bvc version = Some x.
Proof.
  revert depth' st b id bvc x. induction depth as [|depth IH]; intros depth' st b id bvc x Hd.
  - destruct depth'; [done|]. cbn [handle_alternative_block]. by apply offer_mono.
  - destruct depth' as [|depth']; [lia|]. cbn [handle_alternative_block]. apply offer_mono. intros st0 b0 id0 y.
    destruct (handle_alternative_block depth _ _ _ _ _ _) as [z|] eqn:E; cbn [mbind option_bind]; [|done]. apply (IH depth') in E; [|lia]. by rewrite E.
Qed.

(** ** Properties *)

(** Each entry is the parent of the next. *)
Fixpoint linked (l : list alt_entry) : Prop :=
  match l with
  | a :: (b :: _) as t => prev_id (hdr (bei_bl b.2)) = a.1 /\ linked t
  | _ => True
  end.

Lemma alt_walk_linked fuel alts prev acc l : linked acc -> (forall a, head acc = Some a -> prev_id (hdr (bei_bl a.2)) = prev) ->
  alt_walk fuel alts prev acc = Some l -> linked l.
Proof.
  revert prev acc. induction fuel as [|fuel IH]; intros prev acc Hl Hh; cbn [alt_walk]; (destruct (alts !! prev) as [e|]; [|by intros [= <-]]); [done|].
  apply IH; [|by intros a [= <-]]. destruct acc as [|a acc]; [done|]. split; [by apply Hh|done].
Qed.

Lemma alt_walk_maximal fuel alts prev acc l : (forall a, head acc = Some a -> prev_id (hdr (bei_bl a.2)) = prev) ->
  alt_walk fuel alts prev acc = Some l -> forall e, head l = Some e -> alts !! prev_id (hdr (bei_bl e.2)) = None.
Proof.
  revert prev acc. induction fuel as [|fuel IH]; intros prev acc Ha; cbn [alt_walk]; (destruct (alts !! prev) as [e|] eqn:E;
    [|intros [= <-] a Hd; by rewrite (Ha a Hd)]); [done|]. apply IH. by intros a [= <-].
Qed.

(** C16: looking up the branch below a block ends.  The loop of
    [handle_alternative_block] that follows [prev_id] through
    [m_alternative_chains] comes to an end after at most as many steps as there
    are entries, provided no two blocks the node was given have one id at
    different heights: it finds the whole branch, each block the parent of the
    next, the last the block it started from, the first without a parent among
    the alternative blocks. *)
Theorem alt_walk_terminates st prev : known_heights -> alt_ok st -> exists l,
  (forall fuel, (size (m_alternative_chains st) <= fuel)%nat -> alt_walk fuel (m_alternative_chains st) prev [] = Some l) /\
  linked l /\ Forall (fun e => m_alternative_chains st !! e.1 = Some e.2) l /\
  (forall e, m_alternative_chains st !! prev = Some e -> last l = Some (prev, e)) /\ (length l <= size (m_alternative_chains st))%nat /\
  (forall e, head l = Some e -> m_alternative_chains st !! prev_id (hdr (bei_bl e.2)) = None).
Proof.
  intros Hk Ha. destruct (alt_walk_total st (size (m_alternative_chains st)) prev []) as [l El]; [done|done|constructor|constructor|by constructor|cbn; lia|].
  exists l. split; [intros fuel Hf; by eapply alt_walk_mono|]. split; [by eapply alt_walk_linked, El|].
  pose proof (alt_walk_length _ _ _ _ _ El) as Hlen. pose proof (alt_walk_maximal _ _ _ [] _ ltac:(done) El) as Hmax.
  apply alt_walk_spec in El as (new & -> & H1 & H2 & _). rewrite app_nil_r in *. cbn in Hlen.
  split; [done|]. split; [done|]. split; [lia|done].
Qed.

(** C12: a block that does not extend the top cannot damage the node.  Whatever
    [handle_alternative_block] does with it, through any number of nested
    switches, the main chain stays sound (linked, without repeated key images,
    the supply within its bound) and the branches well formed.  If the block is
    not reported as added, the main chain holds only blocks it held before, in
    place; if it is kept aside, that is all that changes, and its branch has no
    more work than the main chain; if it is added, its branch has more work or
    the block is a checkpoint, the chain was cut at the fork point and the whole
    branch put on top.  At a checkpoint that is the resulting chain; otherwise
    the result is what is left after the blocks above the fork point were
    offered in turn, each with one of these outcomes.  From the proof-of-stake
    version on the block is refused and nothing changes.  No batch is open. *)
Theorem handle_alternative_block_sound depth now st b id bvc version r st' bvc' : node_ok st -> m_batch st = false -> block_fit b id ->
  known id (Hashing.get_block_height b) -> m_added_to_main_chain bvc = false ->
  handle_alternative_block depth now st b id bvc version = Some (r, st', bvc') -> alternative_outcome depth st b id version r st' bvc'.
Proof. apply handle_alternative_outcome. Qed.

Lemma check_against_spec now st points enforce st' : node_ok st -> map_Forall (fun k _ => is_u64 k) points ->
  check_against_checkpoints now st points enforce = Some st' ->
  held st st' /\ ids st' `prefix_of` ids st /\ (enforce = true -> points_hold points st' (sorted_points points)).
Proof.
  intros Hn Hu. unfold check_against_checkpoints. destruct (foldl _ _ _) as [st1|] eqn:E; cbn [mbind option_bind]; [|done]. intros [= <-].
  destruct (set_batch_kept st true Hn) as [Hn1 Ei1]. destruct (sorted_points_spec points Hu) as [Hs1 Hs2].
  apply check_all_spec in E as (H1 & H2 & H3); [|done..]. destruct (set_batch_kept st1 (m_batch st) (proj1 H1)) as [Hn2 Ei2].
  split; [split; [done|]|].
  { destruct H1 as [_ (E1 & E2 & E3 & E4 & _)]. by split_and!. }
  rewrite Ei2. split; [by rewrite <- Ei1|]. intros He. apply (points_hold_prefix _ st1); [by rewrite Ei2|by apply H3].
Qed.

(** C17: checkpoints are enforced.  After [check_against_checkpoints] with
    [enforce], the chain is what is left of the old one, still sound, and at
    every checkpoint from height 2 on it has either the block the checkpoint
    names or no block. *)
Theorem checkpoints_enforced now st points st' : node_ok st -> map_Forall (fun k _ => is_u64 k) points ->
  check_against_checkpoints now st points true = Some st' ->
  held st st' /\ ids st' `prefix_of` ids st /\
  forall h x, 2 <= h -> points !! h = Some x -> h < height (m_db st') -> get_block_hash_from_height (m_db st') h = Some x.
Proof.
  intros Hn Hu E. apply check_against_spec in E as (H1 & H2 & H3); [|done..]. split; [done|]. split; [done|].
  intros h x Hh Hx Hlt. rewrite hash_at_height by lia. specialize (H3 eq_refl). unfold points_hold in H3. rewrite Forall_forall in H3.
  apply (H3 (h, x)); [|done..]. by apply (sorted_points_spec points Hu).
Qed.
End steps.
End known.

(** ** A branch on a chain of two blocks *)
#[local] Existing Instance example_env.
Definition genesis_id : blob := Eval vm_compute in tail_id example_chain.
Definition branch_block : block := Block (Header 7 7 70 genesis_id 0) (coinbase 1 40000000000000000) [] None.
Definition branch_id : blob := Eval vm_compute in default [] (block_id branch_block).
Definition second_block : block := Block (Header 7 7 140 branch_id 0) (coinbase 2 1) [] None.
Definition second_id : blob := Eval vm_compute in default [] (block_id second_block).
Definition example_points : list (blob * Z) := [(genesis_id, 0); (example_id, 1); (branch_id, 1); (second_id, 2)].
Definition example_known (k : blob) (h : Z) : Prop := (k, h) ∈ example_points.

Lemma example_known_heights : known_heights example_known.
Proof.
  intros k h h' H1 H2. unfold example_known in *.
  assert (Forall (fun x => Forall (fun y => x.1 = y.1 -> x.2 = y.2) example_points) example_points) as HF by by_decide.
  rewrite Forall_forall in HF. specialize (HF _ H1). rewrite Forall_forall in HF. by apply (HF _ H2).
Qed.

Lemma branch_block_fit : block_fit branch_block branch_id.
Proof. split; [split; [split; discriminate|discriminate]|]. split; [by_decide|]. split; [by_decide|]. vm_compute. reflexivity. Qed.

Lemma second_block_fit : block_fit second_block second_id.
Proof. split; [split; [split; discriminate|discriminate]|]. split; [by_decide|]. split; [by_decide|]. vm_compute. reflexivity. Qed.

(** The chain of two blocks, the second block's rival on it, and a block on top
    of the rival. *)
Lemma example_branch : exists st st' bvc' st2 bvc2, node_ok example_known st /\ m_batch st = false /\
  handle_alternative_block 1 1000 st branch_block branch_id bvc_zero 7 = Some (true, st', bvc') /\
  m_added_to_main_chain bvc' = false /\ m_marked_as_orphaned bvc' = false /\ m_alternative_chains st = ∅ /\ ids st = [genesis_id; example_id] /\
  handle_alternative_block 1 1000 st' second_block second_id bvc_zero 7 = Some (true, st2, bvc2) /\
  m_added_to_main_chain bvc2 = true /\ ids st2 = [genesis_id; branch_id; second_id].
Proof.
  assert (match handle_block_to_main_chain 1000 example_chain example_block example_id bvc_zero with
    | Some (true, st, _) => match handle_alternative_block 1 1000 st branch_block branch_id bvc_zero 7 with
        | Some (true, st', bvc) => match handle_alternative_block 1 1000 st' second_block second_id bvc_zero 7 with
            | Some (true, st2, bvc2) => (m_batch st, bool_decide (ids st = [genesis_id; example_id]), bool_decide (m_alternative_chains st = ∅), m_added_to_main_chain bvc,
                m_marked_as_orphaned bvc, m_added_to_main_chain bvc2, bool_decide (ids st2 = [genesis_id; branch_id; second_id]))
            | _ => (true, false, false, true, true, false, false) end
        | _ => (true, false, false, true, true, false, false) end
    | _ => (true, false, false, true, true, false, false) end = (false, true, true, false, false, true, true)) as E by (vm_compute; reflexivity).
  destruct (handle_block_to_main_chain 1000 example_chain example_block example_id bvc_zero) as [[[r st] bvc]|] eqn:Eb; [|discriminate E].
  destruct r; [|discriminate E].
  destruct (handle_alternative_block 1 1000 st branch_block branch_id bvc_zero 7) as [[[r st'] bvc']|] eqn:Ea; [|discriminate E].
  destruct r; [|discriminate E]. destruct (handle_alternative_block 1 1000 st' second_block second_id bvc_zero 7) as [[[r st2] bvc2]|] eqn:Ea2; [|discriminate E].
  destruct r; [|discriminate E]. injection E as E1 E2 E3 E4 E5 E6 E7. apply bool_decide_eq_true in E2, E3, E7.
  exists st, st', bvc', st2, bvc2. split; [|exact (conj E1 (conj Ea (conj E4 (conj E5 (conj E3 (conj E2 (conj Ea2 (conj E6 E7))))))))]. clear Ea Ea2.
  apply handle_block_extends in Eb as (Hs & _); [|exact (ch_sound _ example_chain_ok)|exact example_block_ok|reflexivity]. clear E1 E4 E5 E6 E7.
  split; [split; [exact Hs|]|intros k e; by rewrite E3, lookup_empty].
  intros i k. rewrite E2. destruct i as [|[|]]; cbn; [intros [= <-]; by left|intros [= <-]; by right; left|done].
Qed.

(** The rival is kept aside; the block on top of it makes the chain switch. *)
Lemma handle_alternative_block_sound_witness : exists st st' bvc' st2 bvc2,
  alternative_outcome example_known 1 st branch_block branch_id 7 true st' bvc' /\ m_added_to_main_chain bvc' = false /\ ids st = [genesis_id; example_id] /\
  alternative_outcome example_known 1 st' second_block second_id 7 true st2 bvc2 /\ m_added_to_main_chain bvc2 = true /\ ids st2 = [genesis_id; branch_id; second_id].
Proof.
  destruct example_branch as (st & st' & bvc' & st2 & bvc2 & Hn & Hb & E & H1 & H2 & _ & Ei & E2 & H3 & Ei2). exists st, st', bvc', st2, bvc2.
  pose proof (handle_alternative_block_sound example_known 1 1000 st branch_block branch_id bvc_zero 7 true st' bvc' Hn Hb branch_block_fit
    ltac:(by right; right; left) eq_refl E) as Hx.
  pose proof (ao_held _ _ _ _ _ _ _ _ _ Hx) as Hh.
  pose proof (handle_alternative_block_sound example_known 1 1000 st' second_block second_id bvc_zero 7 true st2 bvc2 (proj1 Hh) (held_batch _ _ _ Hh Hb) second_block_fit
    ltac:(by right; right; right; left) eq_refl E2) as Hx2.
  exact (conj Hx (conj H1 (conj Ei (conj Hx2 (conj H3 Ei2))))).
Defined.

(** The rival's branch, found from its id. *)
Lemma alt_walk_terminates_witness : exists st e, m_alternative_chains st !! branch_id = Some e /\
  alt_walk (size (m_alternative_chains st)) (m_alternative_chains st) branch_id [] = Some [(branch_id, e)].
Proof.
  destruct example_branch as (st & st' & bvc' & _ & _ & Hn & Hb & E & H1 & H2 & He & _).
  apply (handle_alternative_outcome example_known) in E; [|exact Hn|exact Hb|exact branch_block_fit|by right; right; left|reflexivity].
  destruct (ao_kept _ _ _ _ _ _ _ _ _ E eq_refl H1 H2) as (l & bei & mcd & _ & _ & _ & Ealt & _). pose proof (ao_held _ _ _ _ _ _ _ _ _ E) as [[_ Ha] _].
  destruct (alt_walk_terminates example_known st' branch_id example_known_heights Ha) as (l' & Hw & Hl & Hin & Hlast & Hlen & _).
  exists st', bei. assert (m_alternative_chains st' !! branch_id = Some bei) as Ee by (rewrite Ealt; apply lookup_insert_eq). split; [exact Ee|].
  rewrite (Hw _ (le_n _)). specialize (Hlast _ Ee). rewrite Ealt, He, insert_empty, map_size_singleton in Hlen.
  destruct l' as [|x [|y l']]; [discriminate Hlast|injection Hlast as ->; reflexivity|cbn in Hlen; lia].
Defined.

Lemma checkpoints_enforced_witness : exists st', check_against_checkpoints 1000 example_chain {[2 := branch_id]} true = Some st' /\ ids st' `prefix_of` ids example_chain.
Proof.
  destruct (check_against_checkpoints 1000 example_chain {[2 := branch_id]} true) as [st'|] eqn:E.
  - exists st'. split; [reflexivity|].
    destruct (checkpoints_enforced example_known 1000 example_chain {[2 := branch_id]} st') as (_ & H & _); [| |exact E|exact H].
    + split; [split; [exact (ch_sound _ example_chain_ok)|]|intros k e Ek; discriminate (eq_trans (eq_sym Ek) (lookup_empty k))].
      assert (ids example_chain = [genesis_id]) as -> by (vm_compute; reflexivity).
      intros i k. destruct i; [intros [= <-]; by left|discriminate].
    + apply map_Forall_singleton. by_decide.
  - exfalso. apply (f_equal (fun o => match o with Some _ => true | None => false end)) in E. vm_compute in E. discriminate E.
Defined.
