(* ===== verification/BlockTemplate.v ===== *)
(** * Block templates

    Model of [Blockchain::create_block_template] of
    src/cryptonote_core/blockchain.cpp with its cache, over the state of
    [Blockchain].  The keys that [construct_miner_tx] draws are the argument
    [keys], by call.  The result is [None] for an exception, [Some None] where
    the method returns false.

    Theorems: the loop that pads the coinbase ends on the first try outside of a
    narrow range of extra sizes, inside of which it can spin to its limit; and a
    template is accepted by the chain it was made on. *)
From Stdlib Require Import ZArith Lia Bool.
From stdpp Require Import prelude gmap.
From S2P Require Import Prelude StringTools Varint Archive TxExtra Rct CryptonoteBasic Keccak TreeHash HardFork IntUtil Difficulty Hashing RctOps RctModel Money Reward TxPool Checkpoints Outputs ChainDb TempConsensus Blockchain.
Local Open Scope Z_scope.

#[local] Opaque cn_fast_hash.

#[export] Instance account_public_address_eq_dec : EqDecision account_public_address.
Proof. solve_decision. Defined.

(** ** The coinbase of the template *)
Definition insert_extra (tx : transaction) (delta : Z) : transaction :=
  let p := tx_prefix tx in
  Transaction (Prefix (version p) (unlock_time p) (vin p) (vout p) (extra p ++ replicate (Z.to_nat delta) 0))
    (signatures tx) (rct_signatures tx) (tx_hash tx) (tx_blob_size tx).

(** [extra.resize(extra.size() - 1)] on an extra that is not empty. *)
Definition shrink_extra (tx : transaction) : transaction :=
  let p := tx_prefix tx in
  Transaction (Prefix (version p) (unlock_time p) (vin p) (vout p) (take (length (extra p) - 1) (extra p)))
    (signatures tx) (rct_signatures tx) (tx_hash tx) (tx_blob_size tx).

Section template.
Context `{ChainEnv, KeyDerivation}.

(** What the calls of [construct_miner_tx] have in common. *)
Record miner_args := MinerArgs {
  a_height : Z; a_median_weight : Z; a_already_generated_coins : Z; a_txs_weight : Z; a_fee : Z;
  a_miner_address : account_public_address; a_ex_nonce : blob; a_max_outs : Z; a_hf_version : Z }.

Definition construct (keys : nat -> blob * blob) (i : nat) (a : miner_args) (weight : Z) (tx : transaction) : option transaction :=
  construct_miner_tx (keys i) (a_height a) (a_median_weight a) (a_already_generated_coins a) weight (a_fee a) (a_miner_address a) tx
    (a_ex_nonce a) (a_max_outs a) (a_hf_version a).

(** The loop over [try_count], with the tries left. *)
Fixpoint miner_tx_tries (tries : nat) (keys : nat -> blob * blob) (i : nat) (a : miner_args) (tx : transaction) (cumulative_weight : Z)
  : option (option transaction) :=
  match tries with
  | O => Some None
  | S tries =>
      match construct keys i a cumulative_weight tx with
      | None => Some None
      | Some tx =>
          let txs_weight := a_txs_weight a in
          let again := fun tx w => miner_tx_tries tries keys (S i) a tx w in
          let fits := fun tx => w ← get_transaction_weight tx; Some (if cumulative_weight =? u64 (txs_weight + w) then Some tx else None) in
          coinbase_weight ← get_transaction_weight tx;
          let left := u64 (cumulative_weight - txs_weight) in
          if left <? coinbase_weight then again tx (u64 (txs_weight + coinbase_weight))
          else if coinbase_weight <? left then
            let delta := u64 (left - coinbase_weight) in
            let tx := insert_extra tx delta in
            w ← get_transaction_weight tx;
            if negb (cumulative_weight =? u64 (txs_weight + w)) then
              if negb (u64 (cumulative_weight + 1) =? u64 (txs_weight + w)) then Some None
              else
                let tx := shrink_extra tx in
                w ← get_transaction_weight tx;
                if negb (cumulative_weight =? u64 (txs_weight + w)) then again tx (u64 (cumulative_weight + u64 (delta - 1)))
                else fits tx
            else fits tx
          else fits tx
      end
  end.

(** ** The template *)
Definition set_header (b : block) (major minor : Z) (prev : blob) (time : Z) : block :=
  Block (Header major minor time prev (nonce (hdr b))) (miner_tx b) (tx_hashes b) (b_hash b).
Definition set_body (b : block) (tx : transaction) (hashes : list blob) : block := Block (hdr b) tx hashes (b_hash b).

(** The block, its difficulty, its height, the expected reward. *)
Abbreviation template := (block * Z * Z * Z)%type.

Definition cached_template (st : blockchain) (now : Z) (miner_address : account_public_address) (ex_nonce : blob) : option (template * blockchain) :=
  match m_template st with
  | Some c =>
      if bool_decide (miner_address = m_btc_address c) && bool_decide (m_btc_nonce c = ex_nonce) && (m_btc_pool_cookie c =? m_cookie (m_tx_pool st)) then
        let b := set_timestamp (m_btc c) now in
        Some ((b, m_btc_difficulty c, height (m_db st), m_btc_expected_reward c),
              set_template st (Some (TemplateCache b (m_btc_address c) (m_btc_nonce c) (m_btc_difficulty c) (m_btc_expected_reward c) (m_btc_pool_cookie c))))
      else None
  | None => None
  end.

(** The header of a new template.  A timestamp that is refused without a
    median leaves [median_ts] unset in the code; [None] stands for that. *)
Definition template_header (st : blockchain) (now : Z) (b : block) : option block :=
  let b := set_header b (current_version st) (get_ideal_version (m_hardfork st)) (tail_id st) now in
  match check_block_timestamp st now b with
  | (true, _) => Some b
  | (false, median_ts) => t ← median_ts; Some (set_timestamp b t)
  end.

Definition create_block_template (now : Z) (keys : nat -> blob * blob) (st : blockchain) (b : block) (miner_address : account_public_address)
  (ex_nonce : blob) : option (option template * blockchain) :=
  match cached_template st now miner_address ex_nonce with
  | Some (t, st) => Some (Some t, st)
  | None =>
      let h := height (m_db st) in
      let st := invalidate_block_template_cache st in
      b ← template_header st now b;
      '(diffic, st) ← get_difficulty_for_next_block st;
      if diffic =? 0 then Some (None, st)
      else
        let median_weight := m_current_block_cumul_weight_limit st / 2 in
        already_generated_coins ← get_block_already_generated_coins (m_db st) (h - 1);
        let hf_version := current_version st in
        let '(hashes, txs_weight, fee, expected_reward, pool) :=
          fill_block_template (H := pool_chain now) st (m_tx_pool st) (tx_hashes b) median_weight already_generated_coins hf_version h in
        let st := set_pool st pool in
        let a := MinerArgs h median_weight already_generated_coins txs_weight fee miner_address ex_nonce (if 4 <=? hf_version then 1 else 20) hf_version in
        match construct keys 0 a txs_weight (miner_tx b) with
        | None => Some (None, st)
        | Some tx =>
            w ← get_transaction_weight tx;
            r ← miner_tx_tries 10 keys 1 a tx (u64 (txs_weight + w));
            match r with
            | None => Some (None, st)
            | Some tx =>
                let b := set_body b tx hashes in
                Some (Some (b, diffic, h, expected_reward),
                      set_template st (Some (TemplateCache b miner_address ex_nonce diffic expected_reward (m_cookie pool))))
            end
        end
  end.
End template.

(** ** The weight of a coinbase *)
Definition vlen (i : Z) : Z := zlen (write_varint i).

Lemma vlen_small i : 0 <= i < 128 -> vlen i = 1.
Proof. intros Hi. unfold vlen. rewrite write_varint_unfold by lia. by rewrite (proj2 (Z.leb_gt 128 i)) by lia. Qed.

Lemma vlen_step i : 128 <= i -> vlen i = 1 + vlen (i / 128).
Proof. intros Hi. unfold vlen. rewrite (write_varint_unfold i) by lia. rewrite (proj2 (Z.leb_le 128 i)) by lia. by rewrite zlen_cons. Qed.

Lemma vlen_two i : 128 <= i < 16384 -> vlen i = 2.
Proof. intros Hi. rewrite vlen_step, vlen_small; [done| |lia]. split; [apply Z.div_pos; lia|apply Z.div_lt_upper_bound; lia]. Qed.

Lemma vlen_mono i j : 0 <= i <= j -> 1 <= vlen i <= vlen j.
Proof.
  intros [Hi Hij]. revert j Hij. apply (varint_ind (fun i => forall j, i <= j -> 1 <= vlen i <= vlen j)); [| |done]; clear i Hi.
  - intros i Hi j Hij. rewrite vlen_small by lia. destruct (Z.ltb_spec j 128); [rewrite vlen_small by lia; lia|].
    rewrite vlen_step by lia. pose proof (zlen_nonneg (write_varint (j / 128))). unfold vlen. lia.
  - intros i Hi IH j Hij. rewrite (vlen_step i), (vlen_step j) by lia. specialize (IH (j / 128) (Z.div_le_mono i j 128 ltac:(lia) Hij)). lia.
Qed.

Definition coinbase_tx (h amount : Z) (key : blob) (ex : blob) (sigs : list (list blob)) : transaction :=
  Transaction (Prefix 2 (u64 (h + CRYPTONOTE_MINED_MONEY_UNLOCK_WINDOW)) [txin_gen h] [Tx_out amount (target_key key)] ex) sigs rct_null None None.

Lemma store_bytes l : exists bs, store_elements (uint_codec 8) l = (bs, true) /\ zlen bs = zlen l.
Proof.
  induction l as [|x l (bs & E & Hl)]; [by exists []|]. cbn [store_elements]. rewrite E. eexists. split; [reflexivity|].
  rewrite zlen_app, zlen_cons, <- Hl. done.
Qed.

Lemma coinbase_weight h amount key ex sigs : length key = 32%nat ->
  get_transaction_weight (coinbase_tx h amount key ex sigs) =
    Some (38 + vlen (u64 (h + CRYPTONOTE_MINED_MONEY_UNLOCK_WINDOW)) + vlen h + vlen amount + vlen (zlen ex) + zlen ex).
Proof.
  intros Hk. unfold get_transaction_weight, get_transaction_weight_of. cbn [coinbase_tx tx_prefix version rct_signatures Z.ltb Z.compare Pos.compare Pos.compare_cont].
  change (is_rct_bulletproof (rct_type rct_null)) with false. cbn [negb]. f_equal.
  unfold t_serializable_object_to_blob. cbn -[write_varint u64 Z.add store_elements]. change (zlen [txin_gen h] =? 0) with false. cbn iota.
  change (c_store (rctSig_codec 1 1 0) rct_null) with (wput [0]). unfold container_store.
  assert (store_elements txin_v_codec [txin_gen h] = (255 :: write_varint h ++ [], true)) as -> by reflexivity.
  assert (store_elements tx_out_codec [Tx_out amount (target_key key)] = ((write_varint amount ++ 2 :: key) ++ [], true)) as -> by reflexivity.
  destruct (store_bytes ex) as (bs & -> & Hb). unfold wseq. cbn [fst snd wput wguard]. unfold serialize_varint_store.
  repeat rewrite ?zlen_app, ?zlen_cons. rewrite Hb. change (zlen (write_varint 2)) with 1. change (zlen (write_varint (1 + zlen []))) with 1.
  change (zlen []) with 0. replace (zlen key) with 32 by (unfold zlen; lia). unfold vlen. lia.
Qed.

Lemma insert_coinbase h amount key ex sigs n : insert_extra (coinbase_tx h amount key ex sigs) n = coinbase_tx h amount key (ex ++ replicate (Z.to_nat n) 0) sigs.
Proof. done. Qed.

(** [delta] more bytes of extra weigh [delta], as long as the length of the
    extra does not need another byte. *)
Definition roomy (n : Z) : Prop := 0 <= n /\ n + 9 < 128 \/ 128 <= n /\ n + 9 < 16384.

Lemma roomy_vlen n d : roomy n -> 0 <= d <= 9 -> vlen (n + d) = vlen n /\ 1 <= vlen n <= 2.
Proof.
  intros [Hn|Hn] Hd; [rewrite !vlen_small by lia|rewrite !vlen_two by lia]; lia.
Qed.

Section tries.
Context `{ChainEnv, KeyDerivation}.

(** Keys that derive, and have the size of keys. *)
Definition keys_derive (keys : nat -> blob * blob) (address : account_public_address) : Prop :=
  forall i, pod_ok 32 (keys i).1 /\ exists d key, generate_key_derivation (m_view_public_key address) (keys i).2 = Some d /\
    derive_public_key d 0 (m_spend_public_key address) = Some key /\ pod_ok 32 key.

(** The arguments of a template: from version 5 on, one output. *)
Record args_ok (a : miner_args) : Prop := {
  ar_version : 4 <= a_hf_version a;
  ar_outs : a_max_outs a = 1;
  ar_nonce : zlen (a_ex_nonce a) <= TX_EXTRA_NONCE_MAX_COUNT;
  ar_height : 0 <= a_height a < 2 ^ 63;
  ar_median : 0 <= a_median_weight a < 2 ^ 31;
  ar_coins : 0 <= a_already_generated_coins a <= MONEY_SUPPLY;
  ar_fee : 0 <= a_fee a < 2 ^ 63;
  ar_weight : 0 <= a_txs_weight a < 2 ^ 33
}.

Lemma zlen_nonce_extra pub n : length pub = 32%nat -> zlen n <= TX_EXTRA_NONCE_MAX_COUNT ->
  zlen (nonce_extra pub n) = if bool_decide (n = []) then 33 else 35 + zlen n.
Proof.
  intros Hp Hn. unfold nonce_extra, add_extra_nonce_to_tx_extra, add_tx_pub_key_to_extra. rewrite (proj2 (Z.leb_le _ _)) by done.
  assert (zlen pub = 32) by (unfold zlen; lia). case_bool_decide; cbn [snd app]; repeat rewrite ?zlen_app, ?zlen_cons; lia.
Qed.

Lemma reward_positive m w already version height : 0 <= m < 2 ^ 31 -> 0 <= w -> w + 2 <= 2 * reward_zone m version ->
  0 <= already <= MONEY_SUPPLY -> exists r, get_block_reward m w already version height = Some r /\ 0 < r <= 40000000000000000.
Proof.
  intros Hm Hw Hz Ha. rewrite get_block_reward_ok by done. cbv zeta. rewrite (proj2 (Z.ltb_ge _ _)) by lia. eexists. split; [done|].
  pose proof (base_reward_bounds already version height Ha) as Hb. pose proof (get_min_block_weight_range version) as Hg.
  assert (2000000000 <= FINAL_SUBSIDY_PER_MINUTE * target_minutes version) by (unfold target_minutes; repeat case_match; by vm_compute).
  change PREMINE_BLOCK_REWARD with 40000000000000000 in Hb.
  assert (20000 <= reward_zone m version < 2 ^ 31) as Hz' by (unfold reward_zone; lia).
  set (z := reward_zone m version) in *. set (b := base_reward already version height) in *. clearbody z b.
  pose proof (penalised_range b z w ltac:(lia) ltac:(lia) ltac:(lia)). split; [|lia].
  unfold penalised. destruct (Z.leb_spec w z); [lia|]. apply Z.div_str_pos. split; [nia|].
  rewrite <- Z.mul_assoc. assert (2 * (z + 1) <= (2 * z - w) * w) by nia. nia.
Qed.

Lemma reward_antitone m w w' already version height r r' : 0 <= m < 2 ^ 31 -> 0 <= already <= MONEY_SUPPLY -> 0 <= w <= w' ->
  get_block_reward m w already version height = Some r -> get_block_reward m w' already version height = Some r' -> r' <= r.
Proof.
  intros Hm Ha Hw. rewrite !get_block_reward_ok by (done || lia). cbv zeta. destruct (Z.ltb_spec (2 * reward_zone m version) w'); [done|].
  destruct (_ <? w); [done|]. intros [= <-] [= <-]. pose proof (get_min_block_weight_range version).
  assert (0 < reward_zone m version) by (unfold reward_zone; lia). pose proof (base_reward_bounds already version height Ha).
  assert (0 <= FINAL_SUBSIDY_PER_MINUTE * target_minutes version) by (unfold target_minutes; repeat case_match; by vm_compute).
  apply penalised_antitone; lia.
Qed.

(** One call of [construct_miner_tx]. *)
Lemma construct_one keys i a w tx : args_ok a -> keys_derive keys (a_miner_address a) -> 0 <= w ->
  w + 2 <= 2 * reward_zone (a_median_weight a) (a_hf_version a) -> rct_signatures tx = rct_null ->
  exists r key ex, get_block_reward (a_median_weight a) w (a_already_generated_coins a) (a_hf_version a) (a_height a) = Some r /\ 0 < r <= 40000000000000000 /\
    construct keys i a w tx = Some (coinbase_tx (a_height a) (r + a_fee a) key ex (signatures tx)) /\ pod_ok 32 key /\
    ex = nonce_extra (keys i).1 (a_ex_nonce a) /\ zlen ex = if bool_decide (a_ex_nonce a = []) then 33 else 35 + zlen (a_ex_nonce a).
Proof.
  intros [Hv Ho Hn Hh Hm Ha Hf Ht] Hk Hw Hz Hr. destruct (Hk i) as (Hpub & d & key & Hd & Hkey & Hlen). destruct (keys i) as [pub sec] eqn:Ek.
  destruct (reward_positive (a_median_weight a) w (a_already_generated_coins a) (a_hf_version a) (a_height a) Hm Hw Hz Ha) as (r & Er & Hr0).
  exists r, key, (nonce_extra pub (a_ex_nonce a)). split; [done|]. split; [done|]. cbn [fst snd] in *.
  split; [|split; [done|split; [done|apply zlen_nonce_extra; [apply Hpub|done]]]]. unfold construct. rewrite Ek, Ho.
  rewrite (construct_miner_tx_one pub sec (a_height a) _ _ w _ _ d key tx (a_ex_nonce a) _ r) by (done || lia). by rewrite Hr.
Qed.

(** The first try of the loop succeeds.  [n] is the size of the extra. *)
Lemma first_try keys a tx r0 key0 ex0 tries : args_ok a -> keys_derive keys (a_miner_address a) ->
  let n := if bool_decide (a_ex_nonce a = []) then 33 else 35 + zlen (a_ex_nonce a) in
  roomy n -> n <= 500 -> a_txs_weight a + 600 <= 2 * reward_zone (a_median_weight a) (a_hf_version a) ->
  get_block_reward (a_median_weight a) (a_txs_weight a) (a_already_generated_coins a) (a_hf_version a) (a_height a) = Some r0 ->
  0 < r0 <= 40000000000000000 -> length key0 = 32%nat -> zlen ex0 = n ->
  exists w0, get_transaction_weight (coinbase_tx (a_height a) (r0 + a_fee a) key0 ex0 tx) = Some w0 /\ 0 < w0 <= 598 /\
  exists r key ex, get_block_reward (a_median_weight a) (a_txs_weight a + w0) (a_already_generated_coins a) (a_hf_version a) (a_height a) = Some r /\
    0 < r <= 40000000000000000 /\ pod_ok 32 key /\
    (exists k, ex = nonce_extra (keys 1%nat).1 (a_ex_nonce a) ++ replicate k 0 /\ (k <= 9)%nat /\ zlen ex = n + Z.of_nat k) /\
    miner_tx_tries (S tries) keys 1 a (coinbase_tx (a_height a) (r0 + a_fee a) key0 ex0 tx) (u64 (a_txs_weight a + w0)) =
      Some (Some (coinbase_tx (a_height a) (r + a_fee a) key ex tx)) /\
    get_transaction_weight (coinbase_tx (a_height a) (r + a_fee a) key ex tx) = Some w0.
Proof.
  intros Ha Hk n Hn Hn500 Hz Er0 Hr0 Hkey0 Hex0.
  set (U := u64 (a_height a + CRYPTONOTE_MINED_MONEY_UNLOCK_WINDOW)).
  assert (forall x, 0 <= x < 2 ^ 64 -> 1 <= vlen x <= 10) as Hv10.
  { intros x Hx. pose proof (vlen_mono x x ltac:(lia)). pose proof (zlen_write_varint_64 x Hx). unfold vlen in *. lia. }
  assert (0 <= U < 2 ^ 64) as HU by (apply Z.mod_pos_bound; lia).
  pose proof Ha as [_ _ _ Hh Hm Hc Hf Ht].
  pose proof (roomy_vlen n 0 Hn ltac:(lia)) as [_ Hvn].
  pose proof (Hv10 U HU). pose proof (Hv10 (a_height a) ltac:(lia)). pose proof (Hv10 (r0 + a_fee a) ltac:(lia)).
  exists (38 + vlen U + vlen (a_height a) + vlen (r0 + a_fee a) + vlen n + n). set (w0 := 38 + _ + _ + _ + _ + n).
  assert (0 <= n) by (destruct Hn; lia).
  split; [rewrite coinbase_weight by done; by rewrite Hex0|]. split; [lia|].
  rewrite (wrap_small 64 (a_txs_weight a + w0)) by (unfold in_range; lia).
  destruct (construct_one keys 1 a (a_txs_weight a + w0) (coinbase_tx (a_height a) (r0 + a_fee a) key0 ex0 tx) Ha Hk ltac:(lia) ltac:(lia) eq_refl)
    as (r & key & ex & Er & Hr & Ec & Hkey & Eex & Hex).
  pose proof (reward_antitone _ (a_txs_weight a) (a_txs_weight a + w0) _ _ _ _ _ Hm Hc ltac:(lia) Er0 Er) as Hle.
  pose proof (vlen_mono (r + a_fee a) (r0 + a_fee a) ltac:(lia)) as Hvle.
  set (delta := vlen (r0 + a_fee a) - vlen (r + a_fee a)).
  exists r, key, (ex ++ replicate (Z.to_nat delta) 0). fold n in Hex.
  assert (zlen (ex ++ replicate (Z.to_nat delta) 0) = n + delta) as Hex' by (rewrite zlen_app, Hex; unfold zlen; rewrite length_replicate; lia).
  destruct (roomy_vlen n delta Hn ltac:(lia)) as [Hvd _].
  assert (get_transaction_weight (coinbase_tx (a_height a) (r + a_fee a) key (ex ++ replicate (Z.to_nat delta) 0) tx) = Some w0) as Ew.
  { rewrite coinbase_weight, Hex', Hvd by apply Hkey. f_equal. unfold delta, w0. fold U. lia. }
  split; [done|]. split; [done|]. split; [done|]. split; [exists (Z.to_nat delta); rewrite Eex in *; split; [done|]; lia|]. split; [|done].
  cbn [miner_tx_tries]. rewrite Ec. cbn [signatures coinbase_tx]. fold (coinbase_tx (a_height a) (r + a_fee a) key ex tx).
  rewrite (coinbase_weight (a_height a) (r + a_fee a) key ex tx) by apply Hkey. cbn [mbind option_bind]. rewrite Hex. fold U.
  replace (a_txs_weight a + w0 - a_txs_weight a) with w0 by lia. rewrite (wrap_small 64 w0) by (unfold in_range; lia).
  rewrite (proj2 (Z.ltb_ge w0 _)) by lia.
  assert (w0 - (38 + vlen U + vlen (a_height a) + vlen (r + a_fee a) + vlen n + n) = delta) as -> by (unfold delta, w0; lia).
  rewrite (wrap_small 64 delta) by (unfold in_range; lia). rewrite insert_coinbase, Ew. cbn [mbind option_bind].
  rewrite (wrap_small 64 (a_txs_weight a + w0)) by (unfold in_range; lia). rewrite Z.eqb_refl. cbn [negb].
  destruct (Z.ltb_spec (38 + vlen U + vlen (a_height a) + vlen (r + a_fee a) + vlen n + n) w0) as [Hlt|Hge]; [done|].
  assert (delta = 0) as Hd0 by (unfold delta, w0 in *; lia). rewrite Hd0. cbn [Z.to_nat replicate]. rewrite app_nil_r.
  replace (38 + vlen U + vlen (a_height a) + vlen (r + a_fee a) + vlen n + n) with w0 by (unfold delta, w0 in *; lia).
  rewrite (wrap_small 64 (a_txs_weight a + w0)) by (unfold in_range; lia). by rewrite Z.eqb_refl.
Qed.

Lemma shrink_coinbase h amount key ex sigs : shrink_extra (coinbase_tx h amount key (ex ++ [0]) sigs) = coinbase_tx h amount key ex sigs.
Proof. unfold shrink_extra. cbn [coinbase_tx tx_prefix extra]. rewrite length_app, Nat.add_sub. by rewrite take_app_length. Qed.

(** the padding loop can spin.  With an extra of 127 bytes, when the
    coinbase at the present weight is one byte lighter than the weight allows
    for, one more byte of extra needs a second length byte and one less is too
    light; the code then raises the cumulative weight by [delta - 1], which is
    zero, so every further try repeats the first and the template fails, however
    many tries are left. *)
Theorem template_tries_stuck keys a tx i w r tries : args_ok a -> keys_derive keys (a_miner_address a) -> zlen (a_ex_nonce a) = 92 ->
  rct_signatures tx = rct_null -> 1 < w < 2 ^ 33 -> a_txs_weight a + w + 2 <= 2 * reward_zone (a_median_weight a) (a_hf_version a) ->
  get_block_reward (a_median_weight a) (a_txs_weight a + w) (a_already_generated_coins a) (a_hf_version a) (a_height a) = Some r ->
  w = 38 + vlen (u64 (a_height a + CRYPTONOTE_MINED_MONEY_UNLOCK_WINDOW)) + vlen (a_height a) + (vlen (r + a_fee a) + 1) + 1 + 127 ->
  miner_tx_tries tries keys i a tx (a_txs_weight a + w) = Some None.
Proof.
  intros Ha Hk Hn Htx Hw Hz Er Ew. revert i tx Htx. induction tries as [|tries IH]; intros i tx Htx; [done|].
  destruct (construct_one keys i a (a_txs_weight a + w) tx Ha Hk ltac:(pose proof (ar_weight _ Ha); lia) ltac:(lia) Htx) as (r' & key & ex & Er' & _ & Ec & [Hkey _] & _ & Hex).
  rewrite Er in Er'. injection Er' as <-. rewrite bool_decide_false in Hex by (intros E; rewrite E in Hn; by vm_compute in Hn). rewrite Hn in Hex.
  pose proof (ar_weight _ Ha). cbn [miner_tx_tries]. rewrite Ec, coinbase_weight by done. rewrite Hex. change (35 + 92) with 127. cbn [mbind option_bind].
  change (vlen 127) with 1. set (B := 38 + _ + _ + vlen (r + a_fee a)). assert (B + 1 + 127 = w - 1) as EB by (unfold B; lia). rewrite EB.
  replace (a_txs_weight a + w - a_txs_weight a) with w by lia. rewrite (wrap_small 64 w) by (unfold in_range; lia).
  rewrite (proj2 (Z.ltb_ge w _)), (proj2 (Z.ltb_lt _ w)) by lia. replace (w - (w - 1)) with 1 by lia. change (u64 1) with 1.
  rewrite insert_coinbase, shrink_coinbase, !coinbase_weight by done. rewrite zlen_app, Hex. change (35 + 92 + zlen (replicate (Z.to_nat 1) 0)) with 128.
  change (vlen 128) with 2. change (35 + 92) with 127. change (vlen 127) with 1. cbn [mbind option_bind]. fold B.
  rewrite EB. replace (B + 2 + 128) with (w + 1) by lia.
  rewrite !(wrap_small 64) by (unfold in_range; lia).
  rewrite (proj2 (Z.eqb_neq (a_txs_weight a + w) (a_txs_weight a + (w + 1)))), (proj2 (Z.eqb_eq (a_txs_weight a + w + 1) _)),
    (proj2 (Z.eqb_neq (a_txs_weight a + w) (a_txs_weight a + (w - 1)))) by lia. cbn [negb].
  change (u64 (1 - 1)) with 0. rewrite Z.add_0_r, (wrap_small 64 (a_txs_weight a + w)) by (unfold in_range; lia). by apply IH.
Qed.
End tries.


(** ** A block that fits is accepted *)
Section accept.
Context `{ChainEnv}.

(** The transactions a block may take from the pool. *)
Definition takeable (now : Z) (st : blockchain) (h : blob) : Prop :=
  tx_exists (m_db st) h = false /\ exists meta bd tx, txpool (m_tx_pool st) !! h = Some (meta, bd) /\ parse_and_validate_tx_from_blob bd = Some tx /\
    (check_tx_input_rings (m_db st) (current_version st) now tx tvc_zero).1.1 = true.

Definition stored_as (pool : tx_memory_pool) (h : blob) (tx : transaction) : Prop :=
  exists meta bd, txpool pool !! h = Some (meta, bd) /\ parse_and_validate_tx_from_blob bd = Some tx.

Lemma take_block_txs_forward now bl id hashes st i txs fee w : pool_ok (m_tx_pool st) -> NoDup hashes -> Forall (takeable now st) hashes ->
  is_u64 fee -> is_u64 w ->
  exists pool new, take_block_txs now bl id false hashes st i txs fee w =
      Some (inr (set_pool st pool, txs ++ new, u64 (fee + sum (fee_of (m_tx_pool st) <$> hashes)), u64 (w + sum (weight_of (m_tx_pool st) <$> hashes)))) /\
    Forall2 (stored_as (m_tx_pool st)) hashes new.
Proof.
  intros Hok Hnd Ht. revert st txs fee w Hok Ht. induction Hnd as [|h hashes Hh Hnd IH]; intros st txs fee w Hok Ht Hf Hw; cbn [take_block_txs].
  { exists (m_tx_pool st), []. cbn. rewrite app_nil_r, !Z.add_0_r, !wrap_small by done. split; [|constructor]. by destruct st. }
  apply Forall_cons in Ht as [(Hx & meta & bd & tx & Hl & Hp & Hr) Ht]. rewrite Hx.
  pose proof (take_tx_ok (m_tx_pool st) h Hok) as Hk. destruct (take_tx (m_tx_pool st) h) as [[k|] pool]; [|destruct Hk; congruence].
  destruct Hk as (meta' & bd' & Hl' & Hdel & Hp' & _ & Ew & Ef & Hok'). rewrite Hl in Hl'. injection Hl' as <- <-. rewrite Hp in Hp'. injection Hp' as ->.
  cbn [negb m_db set_pool]. change (current_version (set_pool st pool)) with (current_version st).
  destruct (check_tx_input_rings (m_db st) (current_version st) now (k_tx k) tvc_zero) as [[r t] hh]. cbn in Hr. subst r. cbn [negb].
  assert (forall h', h' ∈ hashes -> txpool pool !! h' = txpool (m_tx_pool st) !! h') as Hsame
    by (intros h' Hin; rewrite Hdel; apply lookup_delete_ne; by intros ->).
  destruct (IH (set_pool st pool) (txs ++ [k_tx k]) (u64 (fee + k_fee k)) (u64 (w + k_weight k))) as (pool' & new & E & Hn); [done| |apply wrap_range; lia|apply wrap_range; lia|].
  { apply Forall_forall. intros h' Hin. rewrite Forall_forall in Ht. destruct (Ht h' Hin) as (Hx' & m' & b' & t' & E1 & E2 & E3).
    split; [done|]. exists m', b', t'. cbn [m_tx_pool set_pool]. by rewrite Hsame. }
  exists pool', (k_tx k :: new). cbn [m_tx_pool set_pool] in E, Hn. split.
  - assert (fee_of pool <$> hashes = fee_of (m_tx_pool st) <$> hashes) as Ef1
      by (apply list_fmap_ext; intros ? h' Hin%list_elem_of_lookup_2; unfold fee_of; by rewrite Hsame).
    assert (weight_of pool <$> hashes = weight_of (m_tx_pool st) <$> hashes) as Ew1
      by (apply list_fmap_ext; intros ? h' Hin%list_elem_of_lookup_2; unfold weight_of; by rewrite Hsame).
    rewrite E, <- app_assoc, Ef1, Ew1, !wrap_add_l. cbn [app fmap list_fmap sum]. unfold fee_of at 2, weight_of at 2. rewrite Hl. cbn [from_option fst].
    rewrite Ef, Ew, !Z.add_assoc. done.
  - constructor; [by exists meta, bd|]. clear -Hn Hsame. induction Hn as [|h' t l1 l2 (m' & b' & E1 & E2) Hn IH]; constructor.
    + exists m', b'. split; [|done]. rewrite <- Hsame by (by left). done.
    + apply IH. intros h'' Hin. apply Hsame. by right.
Qed.

(** What [handle_block_to_main_chain] asks of a block, on a chain whose next
    difficulty is [d]. *)
Record fits (now : Z) (st : blockchain) (bl : block) (id : blob) (d cw reward : Z) (partial : bool) : Prop := {
  ft_prev : prev_id (hdr bl) = tail_id st;
  ft_version : check (m_hardfork st) bl = true;
  ft_time : (check_block_timestamp st now bl).1 = true;
  ft_diff : d <> 0 /\ exists st1, get_difficulty_for_next_block st = Some (d, st1);
  ft_pow : (if match m_temp_consensus_validator st with Some v => v_enabled v | None => false end then Some (true, false)
            else check_proof_of_work st bl id d) = Some (true, false);
  ft_checkpoint : is_in_checkpoint_zone (m_checkpoints st) (height (m_db st)) && negb (check_block (m_checkpoints st) (height (m_db st)) id).1 = false;
  ft_miner : prevalidate_miner_transaction bl (height (m_db st)) = true;
  ft_weight : get_transaction_weight (miner_tx bl) = Some cw /\ is_u64 cw;
  ft_txs : Forall (takeable now st) (tx_hashes bl);
  ft_reward : validate_miner_transaction bl (u64 (cw + sum (weight_of (m_tx_pool st) <$> tx_hashes bl))) (u64 (0 + sum (fee_of (m_tx_pool st) <$> tx_hashes bl)))
    (generated_coins st) (current_version st) (last_n_blocks_weights st CRYPTONOTE_REWARD_BLOCKS_WINDOW) (height (m_db st)) (current_version st) =
    Some (reward, partial);
  ft_id : id ∉ bi_hash <$> blocks (m_db st);
  ft_new : txs (m_db st) !! transaction_hash (miner_tx bl) = None /\ NoDup (block_tx_hashes bl);
  ft_coinbase : version (tx_prefix (miner_tx bl)) <= CURRENT_TRANSACTION_VERSION /\ storable (miner_tx bl);
  ft_images new : Forall2 (stored_as (m_tx_pool st)) (tx_hashes bl) new -> Forall good_tx new /\
    NoDup (concat ((fun tx => omap image_of (vin (tx_prefix tx))) <$> new)) /\
    (forall k, k ∈ concat ((fun tx => omap image_of (vin (tx_prefix tx))) <$> new) -> k ∉ spent_keys (m_db st))
}.

Lemma prevalidate_gen bl h : prevalidate_miner_transaction bl h = true -> vin (tx_prefix (miner_tx bl)) = [txin_gen h].
Proof.
  unfold prevalidate_miner_transaction. intros E. destruct (vin _) as [|[g| | |] []]; try done. destruct (Z.eqb_spec g h) as [Eg|]; [by rewrite Eg|done].
Qed.

Lemma difficulty_of_v13 db v : 13 <= v -> difficulty_of db v = Some 1.
Proof. intros Hv. unfold difficulty_of, next_difficulty_for_version. by repeat (case_match; try lia). Qed.

Lemma difficulty_v13 st : m_fixed_difficulty st = 0 -> height (m_db st) < 2 ^ 64 -> cache_ok st -> 13 <= current_version st ->
  exists c, get_difficulty_for_next_block st = Some (1, set_difficulty_cache st c).
Proof.
  intros Hfix Hh Hc Hv. pose proof (get_difficulty_spec st Hfix Hh Hc) as Hs.
  pose proof (difficulty_of_v13 (m_db st) _ Hv) as Ed.
  destruct (get_difficulty_for_next_block st) as [[d st']|]; [|congruence]. destruct Hs as (E & _ & _ & c & ->). exists c. congruence.
Qed.

Lemma handle_block_fits now st bl id bvc cw reward partial : chain_ok st -> pool_ok (m_tx_pool st) -> m_fixed_difficulty st = 0 ->
  height (m_db st) < 2 ^ 63 -> 13 <= current_version st -> block_cache_ok bl -> is_u8 (minor_version (hdr bl)) -> block_id bl = Some id ->
  m_verifivation_failed bvc = false -> fits now st bl id 1 cw reward partial ->
  exists st' bvc', handle_block_to_main_chain now st bl id bvc = Some (true, st', bvc') /\ m_partial_block_reward bvc' = partial.
Proof.
  intros Hok Hpok Hfix Hh Hv Hbc Hmin Hid Hf [Hprev Hver Htime [_ [st1 Hd]] Hpow Hcp Hm [Hcw Hcwr] Htx Hr Hnew [Htxn Hnd] [Hcv Hcs] Himg].
  destruct (difficulty_v13 st Hfix ltac:(lia) (ch_cache _ Hok) Hv) as [c Ed]. unfold handle_block_to_main_chain. cbv zeta.
  rewrite bool_decide_true by done. rewrite Hver, Htime, Ed. cbn [negb mbind option_bind Z.eqb].
  change (check_proof_of_work (set_difficulty_cache st c) bl id 1) with (check_proof_of_work st bl id 1). rewrite Hpow. cbn [mbind option_bind negb].
  change (m_checkpoints (set_difficulty_cache st c)) with (m_checkpoints st). change (m_db (set_difficulty_cache st c)) with (m_db st). rewrite Hcp, Hm. cbn [negb].
  rewrite Hcw. cbn [mbind option_bind]. pose proof Hnd as [_ Hnd2]%NoDup_cons.
  destruct (take_block_txs_forward now bl id (tx_hashes bl) (set_difficulty_cache st c) 0 [] 0 cw Hpok Hnd2 Htx ltac:(by_decide) Hcwr) as (pool & new & -> & Hnews).
  cbn [mbind option_bind app]. change (m_tx_pool (set_difficulty_cache st c)) with (m_tx_pool st) in *. unfold store_block. cbv zeta.
  set (fee := u64 (0 + _)) in *. set (w := u64 (cw + _)) in *.
  change (validate_miner_transaction bl w fee (generated_coins (clear_txs_check (set_pool (set_difficulty_cache st c) pool)))
    (current_version (clear_txs_check (set_pool (set_difficulty_cache st c) pool))) (last_n_blocks_weights (clear_txs_check (set_pool (set_difficulty_cache st c) pool)) CRYPTONOTE_REWARD_BLOCKS_WINDOW)
    (height (m_db (clear_txs_check (set_pool (set_difficulty_cache st c) pool)))) (current_version (clear_txs_check (set_pool (set_difficulty_cache st c) pool))))
    with (validate_miner_transaction bl w fee (generated_coins st) (current_version st) (last_n_blocks_weights st CRYPTONOTE_REWARD_BLOCKS_WINDOW) (height (m_db st)) (current_version st)).
  rewrite Hr. change (m_verifivation_failed (set_partial bvc partial)) with (m_verifivation_failed bvc). rewrite Hf.
  destruct (Himg new Hnews) as (Hgood & Hi1 & Hi2). pose proof (prevalidate_supported _ _ Hcv Hm) as Hms.
  assert (Forall tx_supported new) as Hs by (eapply Forall_impl; [exact Hgood|apply good_tx_supported]).
  destruct (add_block_done (m_batch st) (m_db st) (m_hardfork st) bl w (u64 (1 + default 0 (get_block_cumulative_difficulty (m_db st) (height (m_db st) - 1))))
    (next_generated_coins (generated_coins st) reward) new id (height (m_db st))) as (db & hf & Ea); try done; try apply Hok.
  { by apply prevalidate_gen. }
  { apply Hms. }
  { symmetry. by eapply Forall2_length. }
  { eapply Forall_impl; [exact Hgood|apply good_tx_storable]. }
  { intros h Hin. rewrite Forall_forall in Htx. destruct (Htx h Hin) as [Hx _]. unfold tx_exists in Hx. apply bool_decide_eq_false in Hx. by apply eq_None_not_Some. }
  match type of Ea with ?lhs = _ => match goal with |- context [match ?x with Done _ => _ | Thrown _ => _ end] => change x with lhs end end.
  rewrite Ea. match goal with |- context [get_difficulty_for_next_block ?x] => change x with (extended st c pool db hf) end.
  enough (height (m_db (extended st c pool db hf)) < 2 ^ 64 /\ cache_ok (extended st c pool db hf) /\ 13 <= current_version (extended st c pool db hf)) as (G1 & G2 & G3)
    by (destruct (difficulty_v13 (extended st c pool db hf) Hfix G1 G2 G3) as [c' ->]; by eexists _, _).
  destruct (add_block_ok _ _ _ _ _ _ _ _ _ _ Hms Hs (proj1 Hbc) Ea) as (h & Eh & Eb & _ & _ & Ehf & _).
  pose proof (get_block_hash_spec bl Hbc) as Hg. destruct (get_block_hash bl) as [r1 bl1], Hg as (-> & _). cbn [fst] in Eh. rewrite Hid in Eh. injection Eh as <-.
  pose proof (get_difficulty_spec st Hfix ltac:(lia) (ch_cache _ Hok)) as Hsp. rewrite Ed in Hsp. destruct Hsp as (_ & Hc1 & Etop & _).
  assert (tail_id st <> id) as Hne by (intros E; apply Hnew; rewrite <- E; apply tail_in_hashes, Hok).
  split; [|split; [by eapply extended_cache|]]. 
  - change (m_db (extended st c pool db hf)) with db. unfold height in *. rewrite Eb, zlen_app. change (zlen [_]) with 1. lia.
  - pose proof (hardfork_add_keeps (m_hardfork st) (Db (bi_block <$> blocks db) (hf_versions (m_db st))) bl (height (m_db st)) (cs_hf _ (ch_sound _ Hok)) Hmin) as Hk.
    destruct (HardFork.add _ _ _ _) as [[? ?] ?]. injection Ehf as -> _. destruct Hk as (_ & _ & _ & _ & Hk).
    change (current_version (extended st c pool db h)) with (get_current_version h). unfold current_version in Hv. lia.
Qed.
End accept.

(** ** Templates are accepted *)
Lemma median_in l : Nat.odd (length l) = true -> median l ∈ l.
Proof.
  intros Ho. destruct l as [|x [|y l]]; [done|by left|]. unfold median. set (v := x :: y :: l) in *.
  pose proof (sorting.merge_sort_Permutation Z.le v) as Hp. set (w := sorting.merge_sort Z.le v) in *. clearbody w.
  rewrite <- (Permutation_length Hp) in Ho |- *. rewrite Ho, <- Hp. apply list_elem_of_lookup_total_2. apply Nat.div_lt; [|lia].
  rewrite (Permutation_length Hp). cbn. lia.
Qed.

Lemma check_block_timestamp_ext st now b b' : timestamp (hdr b) = timestamp (hdr b') -> check_block_timestamp st now b = check_block_timestamp st now b'.
Proof. intros E. unfold check_block_timestamp, check_timestamps. by rewrite E. Qed.

(** The header has the version in force, the last version as its vote, the top
    as its parent, and a time that the chain accepts. *)
Lemma template_header_ok st now b : 13 <= current_version st -> 0 <= now < 2 ^ 63 ->
  Forall (fun bi => 0 <= bi_timestamp bi <= now + 240) (blocks (m_db st)) ->
  exists t, 0 <= t < 2 ^ 64 /\ template_header st now b = Some (set_header b (current_version st) (get_ideal_version (m_hardfork st)) (tail_id st) t) /\
    (check_block_timestamp st now (set_header b (current_version st) (get_ideal_version (m_hardfork st)) (tail_id st) t)).1 = true.
Proof.
  intros Hv Hn Ht. unfold template_header. set (b0 := set_header b _ _ _ now). destruct (check_block_timestamp st now b0) as [r m] eqn:E.
  destruct r; [exists now; split; [lia|]; split; [done|fold b0; by rewrite E]|]. revert E. unfold check_block_timestamp.
  assert (timestamp_rule (current_version st) = (240, 11)) as -> by (unfold timestamp_rule; repeat (case_match; try lia); done).
  cbn [timestamp hdr b0 set_header]. rewrite (wrap_small 64 (now + 240)) by (unfold in_range; lia).
  rewrite (proj2 (Z.ltb_ge (now + 240) now)) by lia. destruct (Z.ltb_spec (height (m_db st)) 11) as [|Hh]; [done|].
  unfold check_timestamps. intros [= E <-]. set (l := bi_timestamp <$> _) in *. cbn [mbind option_bind]. exists (median l).
  assert (0 <= median l <= now + 240) as Hm.
  { assert (median l ∈ l) as (bi & -> & Hin)%list_elem_of_fmap.
    - apply median_in. unfold l. rewrite length_fmap, length_drop. unfold height, zlen in *. by replace (_ - _)%nat with 11%nat by lia.
    - eapply (Forall_drop _ (Z.to_nat (height (m_db st) - 11))) in Ht. rewrite Forall_forall in Ht. by apply Ht. }
  split; [lia|]. split; [done|]. rewrite (proj2 (Z.ltb_ge (now + 240) _)) by lia. cbn [fst timestamp hdr set_header]. by rewrite Z.ltb_irrefl.
Qed.

Lemma images_omap tx ks : images tx = Some ks -> omap image_of (vin (tx_prefix tx)) = ks.
Proof.
  unfold images. generalize (vin (tx_prefix tx)) as ins. intros ins. revert ks.
  induction ins as [|i ins IH]; intros ks; cbn [images_of]; [by intros [= <-]|]. destruct i as [| | |a o k]; try done.
  destruct (images_of ins) as [ks'|] eqn:E; [|done]. intros [= <-]. cbn. by rewrite (IH ks' eq_refl).
Qed.

Lemma keyimges_unspent db ins : keyimges_as_spent db ins = false -> forall k, k ∈ omap image_of ins -> k ∉ spent_keys db.
Proof.
  induction ins as [|i ins IH]; cbn [keyimges_as_spent]; [intros _ k Hk; by apply elem_of_nil in Hk|]. destruct i as [| | |a o k0]; try done.
  unfold has_key_image. case_bool_decide as E; [done|]. intros Hs k. cbn. intros [->|Hk]%elem_of_cons; [done|by apply IH].
Qed.

Section selected.
Context `{ChainEnv}.

Lemma selected_images now valid st p p' sel kss new : same_txs p p' -> Forall2 (selectable (H := pool_chain now) valid st p) sel kss ->
  good_pool p' -> Forall2 (stored_as p') sel new ->
  Forall good_tx new /\ (fun tx => omap image_of (vin (tx_prefix tx))) <$> new = kss /\
  (forall k, k ∈ concat kss -> k ∉ spent_keys (m_db st)).
Proof.
  intros Hsame Hsel Hgood. revert new. induction Hsel as [|id ks sel kss (meta & bd & tx & Hl & (tx' & Hp' & _ & Hks & _) & Hp & Hun & _) Hsel IH]; intros new Hst.
  { inversion Hst. subst. split; [constructor|]. split; [done|]. intros k Hk. by apply elem_of_nil in Hk. }
  inversion Hst as [|? tx0 ? new' (m0 & bd0 & Hl0 & Hp0) Hst']. subst. destruct (IH _ Hst') as (H1 & H2 & H3).
  destruct (same_txs_lookup p p' id m0 bd0 Hsame Hl0) as (m1 & Hl1 & _). rewrite Hl in Hl1. injection Hl1 as <- <-.
  pose proof Hp0 as Hp1. rewrite Hp in Hp', Hp1. injection Hp' as <-. injection Hp1 as <-. pose proof (images_omap tx ks Hks) as E.
  destruct (good_entry_parse _ _ _ (Hgood _ _ _ Hl0) Hp0) as (Hg & _). split; [by constructor|]. split; [cbn; by rewrite E, H2|]. intros k. cbn. intros [Hk|Hk]%elem_of_app; [|by apply H3].
  rewrite <- E in Hk. revert k Hk. by apply keyimges_unspent.
Qed.

Lemma weight_of_same p p' id : same_txs p p' -> weight_of p' id = weight_of p id /\ fee_of p' id = fee_of p id.
Proof.
  intros [Hs _]. specialize (Hs id). unfold weight_of, fee_of.
  destruct (txpool p !! id) as [[m bd]|], (txpool p' !! id) as [[m' bd']|]; try done. injection Hs as E1 E2 _. cbn. by rewrite E1, E2.
Qed.

Lemma same_txs_sym p p' : same_txs p p' -> same_txs p' p.
Proof. intros (H1 & H2 & H3 & H4 & H5). by split; [|split; [|split; [|split]]]. Qed.

Lemma sum_same p p' (ids : list blob) : same_txs p p' -> weight_of p' <$> ids = weight_of p <$> ids /\ fee_of p' <$> ids = fee_of p <$> ids.
Proof. intros Hs. split; apply list_fmap_ext; intros; by apply weight_of_same. Qed.
End selected.

Lemma coins_at_top st : blocks (m_db st) <> [] -> get_block_already_generated_coins (m_db st) (height (m_db st) - 1) = Some (generated_coins st).
Proof.
  intros Hne. destruct (exists_last Hne) as (l & b & E). unfold generated_coins, get_block_already_generated_coins, get_block_info, height.
  rewrite E, zlen_app. change (zlen [b]) with 1. pose proof (zlen_nonneg l). rewrite (proj2 (Z.leb_le 0 _)), (proj2 (Z.ltb_lt _ _)) by lia. cbn [andb].
  replace (Z.to_nat (zlen l + 1 - 1)) with (length l) by (unfold zlen; lia). by rewrite list_lookup_middle.
Qed.

Lemma sum_sublist f (l k : list blob) : (forall x, 0 <= f x) -> l `sublist_of` k -> 0 <= sum (f <$> l) <= sum (f <$> k).
Proof. intros Hf. induction 1 as [|x l k Hs IH|x l k Hs IH]; cbn; [lia|specialize (Hf x); lia|specialize (Hf x); lia]. Qed.

Lemma block_id_is_some b : is_Some (block_id b).
Proof.
  unfold block_id, tree_hash, block_txs. cbn [length Nat.eqb]. destruct (tx_hashes b) as [|h [|]]; by eexists.
Qed.

Section templates.
Context `{ChainEnv, KeyDerivation}.

(** [block b = AUTO_VAL_INIT(b)] *)
Definition fresh_block : block := Block (Header 0 0 0 null_hash 0) set_null [] None.

Definition rings_ok (now : Z) (st : blockchain) (tx : transaction) : Prop :=
  (check_tx_input_rings (m_db st) (current_version st) now tx tvc_zero).1.1 = true.

(** A node of the temporary consensus that may make a block: the chain and the
    pool are sound, the weight limit is that of the last block, no checkpoint
    lies ahead, no block is more than the tolerated time ahead of the clock, the
    input checks the pool remembers still hold, no transaction of the pool is in
    the chain, the fees of the pool fit, and amounts have commitments. *)
Record template_ready (now : Z) (st : blockchain) : Prop := {
  tr_chain : chain_ok st;
  tr_pool : pool_ok (m_tx_pool st);
  tr_fixed : m_fixed_difficulty st = 0;
  tr_height : height (m_db st) < 2 ^ 63;
  tr_version : 13 <= current_version st;
  tr_validator : match m_temp_consensus_validator st with Some v => v_enabled v | None => false end = true;
  tr_median : 0 <= median (last_n_blocks_weights st CRYPTONOTE_REWARD_BLOCKS_WINDOW) < 2 ^ 31;
  tr_limit : m_current_block_cumul_weight_limit st = 2 * reward_zone (median (last_n_blocks_weights st CRYPTONOTE_REWARD_BLOCKS_WINDOW)) (current_version st);
  tr_checkpoint : is_in_checkpoint_zone (m_checkpoints st) (height (m_db st)) = false;
  tr_clock : 0 <= now < 2 ^ 63 /\ Forall (fun bi => 0 <= bi_timestamp bi <= now + 240) (blocks (m_db st));
  tr_verdicts : verdicts_ok (rings_ok now st) (m_tx_pool st);
  tr_apart id : is_Some (txpool (m_tx_pool st) !! id) -> tx_exists (m_db st) id = false;
  tr_fees : (forall id, 0 <= fee_of (m_tx_pool st) id) /\ sum (fee_of (m_tx_pool st) <$> (m_txs_by_fee_and_receive_time (m_tx_pool st)).*2) < 2 ^ 63;
  tr_commits amount : is_Some (zeroCommit amount)
}.

(** What a template is made of: [w] and [fee] are the weight and the fees of its
    transactions, [cw] the weight of the coinbase, [r] the reward. *)
Record template_of (now : Z) (pub ex_nonce : blob) (st : blockchain) (b : block) (w fee cw r : Z) (kss : list (list blob)) : Prop := {
  to_header : exists t, 0 <= t < 2 ^ 64 /\ hdr b = Header (current_version st) (get_ideal_version (m_hardfork st)) t (tail_id st) 0;
  to_time : (check_block_timestamp st now b).1 = true;
  to_miner : exists key k, miner_tx b = coinbase_tx (height (m_db st)) (r + fee) key (nonce_extra pub ex_nonce ++ replicate k 0) [] /\ pod_ok 32 key /\ (k <= 9)%nat;
  to_cached : b_hash b = None;
  to_weight : get_transaction_weight (miner_tx b) = Some cw /\ 0 < cw <= 598;
  to_reward : get_block_reward (m_current_block_cumul_weight_limit st / 2) (w + cw) (generated_coins st) (current_version st) (height (m_db st)) = Some r;
  to_pays : 0 < r <= 40000000000000000 /\ 0 <= fee < 2 ^ 63 /\ 0 <= w < 2 ^ 33;
  to_sums : w = u64 (sum (weight_of (m_tx_pool st) <$> tx_hashes b)) /\ fee = u64 (sum (fee_of (m_tx_pool st) <$> tx_hashes b));
  to_txs : tx_hashes b `sublist_of` (m_txs_by_fee_and_receive_time (m_tx_pool st)).*2;
  to_selected : Forall2 (selectable (H := pool_chain now) (rings_ok now st) st (m_tx_pool st)) (tx_hashes b) kss /\ NoDup (concat kss)
}.

(** The state a template leaves. *)
Abbreviation after_template st c pool t := (set_template (set_pool (set_difficulty_cache (invalidate_block_template_cache st) c) pool) t).

Lemma after_template_ok now st c d pool t : template_ready now st ->
  get_difficulty_for_next_block (invalidate_block_template_cache st) = Some (d, set_difficulty_cache (invalidate_block_template_cache st) c) ->
  good_pool pool -> chain_ok (after_template st c pool t).
Proof.
  intros Hr Ed Hg. assert (chain_ok (invalidate_block_template_cache st)) as Hok.
  { apply (refused_chain_ok st); [apply Hr|apply Hr|apply Hr|by left|done|done|apply Hr]. }
  apply (refused_chain_ok (invalidate_block_template_cache st)); [done|apply (tr_fixed _ _ Hr)|apply (tr_height _ _ Hr)| |done|done|done].
  right. by eexists _, _.
Qed.

Lemma rings_sound now st : verdicts_sound (H := pool_chain now) (rings_ok now st) st.
Proof.
  intros tx h i. unfold rings_ok. cbn. unfold check_tx_inputs_used. rewrite andb_false_r.
  by destruct (check_tx_input_rings _ _ _ _ _) as [[[] t] h'].
Qed.

Lemma create_block_template_makes now keys st address ex_nonce : template_ready now st -> keys_derive keys address ->
  let n := if bool_decide (ex_nonce = []) then 33 else 35 + zlen ex_nonce in roomy n -> n <= 500 ->
  cached_template st now address ex_nonce = None ->
  exists b er w fee cw r kss c pool, create_block_template now keys st fresh_block address ex_nonce =
      Some (Some (b, 1, height (m_db st), er), set_template (set_pool (set_difficulty_cache (invalidate_block_template_cache st) c) pool)
        (Some (TemplateCache b address ex_nonce 1 er (m_cookie pool)))) /\
    chain_ok (after_template st c pool (Some (TemplateCache b address ex_nonce 1 er (m_cookie pool)))) /\
    template_of now (keys 1%nat).1 ex_nonce st b w fee cw r kss /\ pool_ok pool /\ same_txs (m_tx_pool st) pool.
Proof.
  intros Hr Hk n Hn Hn500 Hca. pose proof Hr as [Hok Hpok Hfix Hh Hv Hval Hmed Hlim Hcp [Hnow Htime] Hver Hap [Hf0 Hfees] _].
  unfold create_block_template. rewrite Hca. cbv zeta.
  destruct (template_header_ok (invalidate_block_template_cache st) now fresh_block Hv Hnow Htime) as (t & Htr & -> & Ht). cbn [mbind option_bind].
  destruct (difficulty_v13 (invalidate_block_template_cache st) Hfix ltac:(change (height (m_db st) < 2 ^ 64); lia) ltac:(eapply cache_ok_ext; [..|apply Hok]; done) Hv) as [c Ed]. rewrite Ed.
  cbn [mbind option_bind Z.eqb]. set (st1 := set_difficulty_cache _ c).
  change (get_block_already_generated_coins (m_db st1)) with (get_block_already_generated_coins (m_db st)). rewrite coins_at_top by apply Hok.
  cbn [mbind option_bind]. change (m_tx_pool st1) with (m_tx_pool st). change (tx_hashes (set_header fresh_block _ _ _ _)) with (@nil blob).
  change (current_version st1) with (current_version st). change (m_current_block_cumul_weight_limit st1) with (m_current_block_cumul_weight_limit st).
  set (m := m_current_block_cumul_weight_limit st / 2). set (v := current_version st). set (h := height (m_db st)).
  pose proof (generated_coins_range st (cs_supply _ (ch_sound _ Hok))) as Hcoins. set (coins := generated_coins st) in *.
  pose proof (get_min_block_weight_range v) as Hg.
  assert (m = reward_zone (median (last_n_blocks_weights st CRYPTONOTE_REWARD_BLOCKS_WINDOW)) v) as Em
    by (unfold m; rewrite Hlim, Z.mul_comm, Z.div_mul by lia; done).
  assert (20000 <= m < 2 ^ 31) as Hm by (rewrite Em; unfold reward_zone; lia).
  assert (reward_zone m v = m) as Hz by (rewrite Em; unfold reward_zone; lia).
  pose proof (fill_block_template_inv (H := pool_chain now) (rings_ok now st) st1 (m_tx_pool st) [] m coins v h (rings_sound now st1) Hver Hpok ltac:(lia) Hcoins) as Hfill.
  pose proof (entries_fill good_entry (H := pool_chain now) st1 (m_tx_pool st) [] m coins v h (cs_pool _ (ch_sound _ Hok))) as Hgood.
  destruct (fill_block_template _ _ _ _ _ _ _) as [[[[hashes w] fee] er] pool]. cbn [snd] in Hgood. destruct Hfill as (Hpok' & Hsame & sel & kss & -> & Hsub & Ew & Ef & Hle & Hsel & Hnd & _).
  cbn [app] in *. pose proof (sum_sublist (fee_of (m_tx_pool st)) sel _ Hf0 Hsub) as Hfs.
  assert (0 <= fee < 2 ^ 63) as Hfee by (rewrite Ef, wrap_small by (unfold in_range; lia); lia).
  assert (0 <= w /\ w + 600 <= 2 * m) as [Hw0 Hw].
  { rewrite (proj2 (Z.leb_le 5 v)) in Hle by (unfold v; lia). rewrite (wrap_small 64 (2 * m)), (wrap_small 64 (2 * m - 600)) in Hle by (unfold in_range; lia).
    pose proof (wrap_range 64 (sum (weight_of (m_tx_pool st) <$> sel)) ltac:(lia)) as Hwr. rewrite <- Ew in Hwr. unfold in_range in Hwr.
    destruct Hle as [->|]; [|lia]. cbn in Ew. rewrite Ew. split; [done|]. change (u64 0) with 0. lia. }
  rewrite (proj2 (Z.leb_le 4 v)) by (unfold v; lia). set (a := MinerArgs _ _ _ _ _ _ _ _ _).
  assert (args_ok a) as Ha.
  { assert (0 <= h < 2 ^ 63) by (unfold h, height in *; pose proof (zlen_nonneg (blocks (m_db st))); lia). assert (13 <= v) by done.
    split; cbn; try lia. unfold n in Hn500. case_bool_decide as En; [rewrite En; by vm_compute|]. change TX_EXTRA_NONCE_MAX_COUNT with 5120. lia. }
  destruct (construct_one keys 0 a w set_null Ha Hk ltac:(done) ltac:(cbn; rewrite Hz; lia) eq_refl) as (r0 & key0 & ex0 & Er0 & Hr0 & Ec0 & [Hkey0 _] & _ & Hex0).
  cbn [miner_tx set_header fresh_block]. rewrite Ec0. cbn [signatures set_null].
  destruct (first_try keys a [] r0 key0 ex0 9 Ha Hk Hn Hn500 ltac:(cbn; rewrite Hz; lia) Er0 Hr0 Hkey0 Hex0)
    as (cw & Ecw & Hcw & r & key & ex & Er & Hrr & Hkey & (k & Eex & Hk9 & _) & Etry & Ecw').
  rewrite Ecw. cbn [mbind option_bind]. change (a_txs_weight a) with w in Etry, Er. rewrite Etry. cbn [mbind option_bind].
  eexists _, er, w, fee, cw, r, kss, c, pool. split; [reflexivity|]. split; [by eapply after_template_ok|]. split; [|by split].
  split; [by exists t|exact Ht|exists key, k; rewrite Eex; done|done|by split|exact Er|split; [done|split; [done|lia]]|by split|done|by split].
Qed.

(** A block that differs from the template in time, nonce and extra only, and
    weighs no more, as the leader makes it. *)
Record variant (b b' : block) (cw cw' : Z) : Prop := {
  vr_header : major_version (hdr b') = major_version (hdr b) /\ minor_version (hdr b') = minor_version (hdr b) /\ prev_id (hdr b') = prev_id (hdr b);
  vr_txs : tx_hashes b' = tx_hashes b;
  vr_miner : vin (tx_prefix (miner_tx b')) = vin (tx_prefix (miner_tx b)) /\ vout (tx_prefix (miner_tx b')) = vout (tx_prefix (miner_tx b)) /\
    unlock_time (tx_prefix (miner_tx b')) = unlock_time (tx_prefix (miner_tx b)) /\ version (tx_prefix (miner_tx b')) = version (tx_prefix (miner_tx b));
  vr_weight : get_transaction_weight (miner_tx b') = Some cw' /\ 0 <= cw' <= cw
}.

(** The hashes of the block are new to the chain. *)
Record hashes_new (st : blockchain) (b : block) (id : blob) : Prop := {
  hn_id : id ∉ bi_hash <$> blocks (m_db st);
  hn_miner : txs (m_db st) !! transaction_hash (miner_tx b) = None;
  hn_apart : transaction_hash (miner_tx b) ∉ tx_hashes b
}.

(** A state of the node on the same chain, under the same settings. *)
Record alike (st st2 : blockchain) : Prop := {
  al_db : m_db st2 = m_db st;
  al_hf : m_hardfork st2 = m_hardfork st;
  al_checkpoints : m_checkpoints st2 = m_checkpoints st;
  al_validator : m_temp_consensus_validator st2 = m_temp_consensus_validator st;
  al_fixed : m_fixed_difficulty st2 = m_fixed_difficulty st;
  al_pool : same_txs (m_tx_pool st) (m_tx_pool st2)
}.

Lemma coinbase_storable tx h o key : (forall amount, is_Some (zeroCommit amount)) -> vin (tx_prefix tx) = [txin_gen h] -> version (tx_prefix tx) = 2 ->
  vout (tx_prefix tx) = [Tx_out o (target_key key)] -> storable tx.
Proof.
  intros Hc Ei Ev Eo i [a t]. rewrite Eo. intros Hl. destruct i; [injection Hl as <- <-|done]. unfold storable_output, stored_output, is_miner_tx. rewrite Ei, Ev. cbn.
  destruct (Hc o) as [c ->]. done.
Qed.

Lemma variant_fits now pub nonce st st2 b w fee cw r kss b' cw' id : template_ready now st -> template_of now pub nonce st b w fee cw r kss ->
  variant b b' cw cw' -> (check_block_timestamp st now b').1 = true -> hashes_new st b' id -> alike st st2 -> chain_ok st2 ->
  exists partial, fits now st2 b' id 1 cw' r partial /\ (cw' = cw -> partial = false).
Proof.
  intros Hr Ht [Hhdr Etx (Evin & Evout & Eut & Eve) [Ecw' Hcw']] Htime [Hid Hmin Hap]
    [Edb Ehf Ecp Evl Efx Hsame] Hok'. pose proof Hr as [Hok Hpok Hfix Hh Hv Hval Hmed Hlim Hcp Hnow Hver Hpa Hfees Hcom].
  destruct Ht as [(t0 & _ & Eh) _ (key & k & Em & [Hkey _] & _) _ [Ecw Hcw] Er (Hr0 & Hfee & Hw) [Ew Ef] Hsub [Hsel Hnd]].
  rewrite Eh in Hhdr. cbn in Hhdr. destruct Hhdr as (Emaj & Emi & Epr). rewrite Em in Evin, Evout, Eut, Eve. cbn in Evin, Evout, Eut, Eve.
  destruct st2 as [db2 hf2 pool cp2 al2 inv2 ca2 te2 li2 me2 lo2 hc2 tc2 fi2 sy2 va2 ba2]. cbn in Edb, Ehf, Ecp, Evl, Efx, Hsame. subst db2 hf2 cp2 va2 fi2.
  set (m := m_current_block_cumul_weight_limit st / 2) in *. set (v := current_version st) in *.
  pose proof (get_min_block_weight_range v) as Hg.
  assert (m = reward_zone (median (last_n_blocks_weights st CRYPTONOTE_REWARD_BLOCKS_WINDOW)) v) as Emz
    by (unfold m; rewrite Hlim, Z.mul_comm, Z.div_mul by lia; done).
  assert (0 <= m < 2 ^ 31) as Hm by (rewrite Emz; unfold reward_zone; lia).
  pose proof (generated_coins_range st (cs_supply _ (ch_sound _ Hok))) as Hcoins.
  destruct (payment_valid (height (m_db st)) m (generated_coins st) (w + cw) fee v r key b' (last_n_blocks_weights st CRYPTONOTE_REWARD_BLOCKS_WINDOW) (w + cw'))
    as (Hpre & partial & Hvalid & Hpart); [unfold v; lia|done|done|lia|done|done| |done|done|done|].
  { rewrite Emz. unfold reward_zone. lia. }
  exists partial. split; [|intros ->; by apply Hpart].
  destruct (sum_same (m_tx_pool st) pool (tx_hashes b') Hsame) as [Esw Esf].
  split.
  - exact Epr.
  - unfold check, do_check, block_get_version, get_block_vote. rewrite Emaj, Emi. pose proof (current_le_ideal _ (cs_hf _ (ch_sound _ Hok))) as Hle.
    unfold v, current_version, get_current_version in *. cbn. rewrite Z.eqb_refl, (proj2 (Z.eqb_neq (get_ideal_version (m_hardfork st)) 0)) by lia. apply Z.leb_le. lia.
  - exact Htime.
  - split; [done|]. match type of Hok' with chain_ok ?x => destruct (difficulty_v13 x Hfix ltac:(change (height (m_db st) < 2 ^ 64); lia) (ch_cache _ Hok') Hv) as [c' E] end. by eexists.
  - cbn. by rewrite Hval.
  - cbn. by rewrite Hcp.
  - exact Hpre.
  - split; [done|]. unfold in_range. lia.
  - rewrite Etx. clear -Hsel Hsame Hpa. induction Hsel as [|h ks sel kss (meta & bd & tx & Hl & _ & Hp & _ & Hrg) Hsel IH]; constructor; [|done].
    split; [apply Hpa; by eexists|]. destruct (same_txs_lookup pool (m_tx_pool st) h meta bd (same_txs_sym _ _ Hsame) Hl) as (m' & Hl' & _). by exists m', bd, tx.
  - cbn. rewrite Esw, Esf, Etx, Z.add_0_l, <- Ef. rewrite <- wrap_add_r, <- Ew, wrap_small by (unfold in_range; lia). rewrite Z.add_comm. exact Hvalid.
  - exact Hid.
  - split; [exact Hmin|]. apply NoDup_cons. split; [done|]. rewrite Etx. eapply sublist_NoDup; [apply Hpok|exact Hsub].
  - split; [by rewrite Eve|]. by eapply coinbase_storable.
  - intros new Hnew. cbn in Hnew |- *. rewrite Etx in Hnew. destruct (selected_images now _ _ _ _ _ _ _ Hsame Hsel (cs_pool _ (ch_sound _ Hok')) Hnew) as (G1 & <- & G3). by split.
Qed.

(** Such a block is added, wherever its caches stand. *)
Lemma variant_accepted now pub nonce st st2 b w fee cw r kss b' cw' id : template_ready now st -> template_of now pub nonce st b w fee cw r kss ->
  variant b b' cw cw' -> (check_block_timestamp st now b').1 = true -> hashes_new st b' id -> alike st st2 -> chain_ok st2 -> pool_ok (m_tx_pool st2) ->
  block_cache_ok b' -> block_id b' = Some id ->
  exists st' bvc bi txs fee base r, handle_block_to_main_chain now st2 b' id bvc_zero = Some (true, st', bvc) /\
    (cw' = cw -> m_partial_block_reward bvc = false) /\ chain_ok st' /\ extends st2 st' b' id bi txs fee base r 1 /\ same_settings st2 st' /\
    m_added_to_main_chain bvc = true /\ m_verifivation_failed bvc = false.
Proof.
  intros Hr Ht Hvar Htime Hnew Hal Hok Hpok Hbc Hid. destruct (variant_fits _ _ _ _ st2 _ _ _ _ _ _ _ _ id Hr Ht Hvar Htime Hnew Hal Hok) as (partial & Hfit & Hpart).
  destruct (to_header _ _ _ _ _ _ _ _ _ _ Ht) as (t0 & _ & Eh). destruct (to_miner _ _ _ _ _ _ _ _ _ _ Ht) as (key & k & Em & _).
  destruct Hvar as [(_ & Emi & _) _ (Evin & _ & _ & Eve) _]. rewrite Eh in Emi. cbn in Emi.
  assert (is_u8 (minor_version (hdr b'))) as Hmi.
  { rewrite Emi. pose proof (cs_hf _ (ch_sound _ (tr_chain _ _ Hr))) as Hw. pose proof (wf_index _ Hw).
    pose proof (tw_range _ (wf_table _ Hw) (length (heights (m_hardfork st)) - 1)). unfold in_range, get_ideal_version, fork_version. lia. }
  rewrite Em in Eve. destruct Hal as [Edb Ehf _ _ Efx _].
  assert (m_fixed_difficulty st2 = 0) as Hfix by (rewrite Efx; apply Hr). assert (height (m_db st2) < 2 ^ 63) as Hh by (rewrite Edb; apply Hr).
  assert (13 <= current_version st2) as Hv by (unfold current_version; rewrite Ehf; apply Hr).
  destruct (handle_block_fits now st2 b' id bvc_zero cw' r partial Hok Hpok Hfix Hh Hv Hbc Hmi Hid eq_refl Hfit) as (st' & bvc & Eh' & Ep).
  assert (block_fit b' id) as Hbf.
  { split; [done|]. split; [split; [done|by rewrite Eve]|]. split; [|done]. unfold Hashing.get_block_height. rewrite Evin, Em. cbn. rewrite Edb in Hh. unfold in_range, height, zlen in *. lia. }
  destruct (handle_block_keeps now st2 b' id bvc_zero st' bvc Hok Hfix Hh Hbf eq_refl Eh') as (Hset & Hadd & Hok'' & bi & txs' & fee' & base & r' & d & Ed & Hext).
  rewrite difficulty_of_v13 in Ed by done. injection Ed as <-. exists st', bvc, bi, txs', fee', base, r'.
  split; [exact Eh'|]. split; [by rewrite Ep|]. split; [done|]. split; [done|]. split; [done|]. split; [done|].
  apply handle_block_inv in Eh' as (? & ? & ? & ? & ? & ? & ? & ? & Ha); [|done|apply Hok]. by rewrite (ac_bvc _ _ _ _ _ _ _ _ _ _ _ _ _ _ _ Ha).
Qed.

(** The caches a block carries make no difference. *)
Lemma same_block_variant b b' cw : same_block b b' -> get_transaction_weight (miner_tx b) = Some cw -> 0 <= cw -> variant b b' cw cw.
Proof.
  intros (E1 & E2 & E3) Ew Hcw. assert (get_transaction_weight (miner_tx b') = Some cw) as Ew'.
  { rewrite <- Ew. change (get_transaction_weight (tx_invalidate_hashes (miner_tx b')) = get_transaction_weight (tx_invalidate_hashes (miner_tx b))). by rewrite E3. }
  apply (f_equal tx_prefix) in E3. cbn in E3. split; [by rewrite E1|done|by rewrite E3|]. split; [done|lia].
Qed.

Lemma same_block_new st b b' id : same_block b b' -> block_cache_ok b -> block_cache_ok b' -> hashes_new st b id -> hashes_new st b' id.
Proof.
  intros (_ & E2 & E3) [Hc _] [Hc' _] [H1 H2 H3]. assert (transaction_hash (miner_tx b') = transaction_hash (miner_tx b)) as Eh
    by (rewrite <- (transaction_hash_clean (miner_tx b')), <- (transaction_hash_clean (miner_tx b)) by done; by rewrite E3).
  split; [done|by rewrite Eh|by rewrite Eh, <- E2].
Qed.

Lemma template_cache_ok now pub nonce st b w fee cw r kss : template_of now pub nonce st b w fee cw r kss -> block_cache_ok b.
Proof. intros Ht. destruct (to_miner _ _ _ _ _ _ _ _ _ _ Ht) as (key & k & Em & _). split; [rewrite Em; by split|rewrite (to_cached _ _ _ _ _ _ _ _ _ _ Ht); done]. Qed.

(** C7: the node accepts what it makes.  From a sound state of a node of the
    temporary consensus, [create_block_template] returns a template, and
    [handle_block_to_main_chain], given that block in the state the template
    left, appends it to the chain: the block names the top as its parent, its
    transactions leave the pool, the coinbase claims the reward and the fees in
    full, and the chain is sound again; all this unless one of the hashes of
    the block is already taken in the chain.  The node is [template_ready] and
    has no cached template, the keys derive, and the size of the extra stays
    clear of the lengths at which its own length field grows ([roomy]). *)
Theorem create_block_template_accepted now keys st address ex_nonce : template_ready now st -> keys_derive keys address ->
  let n := if bool_decide (ex_nonce = []) then 33 else 35 + zlen ex_nonce in roomy n -> n <= 500 ->
  cached_template st now address ex_nonce = None ->
  exists b er id st', create_block_template now keys st fresh_block address ex_nonce = Some (Some (b, 1, height (m_db st), er), st') /\
  m_db st' = m_db st /\ block_id b = Some id /\ (hashes_new st b id ->
  exists st'' bvc bi txs fee base r, handle_block_to_main_chain now st' b id bvc_zero = Some (true, st'', bvc) /\
    m_partial_block_reward bvc = false /\ chain_ok st'' /\ extends st' st'' b id bi txs fee base r 1).
Proof.
  intros Hr Hk n Hn Hn500 Hca.
  destruct (create_block_template_makes now keys st address ex_nonce Hr Hk Hn Hn500 Hca) as (b & er & w & fee & cw & r & kss & c & pool & E & Hok & Ht & Hpok & Hsame).
  destruct (block_id_is_some b) as [id Hid]. eexists b, er, id, _. split; [exact E|]. split; [done|]. split; [exact Hid|]. intros Hnew.
  destruct (to_weight _ _ _ _ _ _ _ _ _ _ Ht) as [Ew Hcw].
  assert (variant b b cw cw) as Hvar by (apply same_block_variant; [done|done|lia]).
  destruct (variant_accepted now (keys 1%nat).1 ex_nonce st _ b w fee cw r kss b cw id Hr Ht Hvar (to_time _ _ _ _ _ _ _ _ _ _ Ht) Hnew
    (Build_alike st (after_template st c pool _) eq_refl eq_refl eq_refl eq_refl eq_refl Hsame) Hok Hpok (template_cache_ok _ _ _ _ _ _ _ _ _ _ Ht) Hid)
    as (st'' & bvc & bi & txs & fee' & base & r' & Eh & Hp & Hok' & Hext & _).
  exists st'', bvc, bi, txs, fee', base, r'. auto.
Qed.
End templates.

(** Toy keys, and a template whose loop spins: the reward crosses a power of two
    between the weight of the transactions and that of the block. *)
Definition toy_derivation : KeyDerivation :=
  {| generate_key_derivation _ _ := Some (replicate 32 4); derive_public_key _ _ _ := Some (replicate 32 5) |}.
Definition toy_keys (i : nat) : blob * blob := (replicate 32 1, replicate 32 2).
Definition toy_address : account_public_address := Address (replicate 32 6) (replicate 32 7).
#[local] Existing Instance toy_derivation.

Definition stuck_args : miner_args :=
  MinerArgs 900000 300000 50000000000000000 400000 72057424495827242 toy_address (replicate 92 0) 1 13.

Lemma toy_keys_derive address : keys_derive toy_keys address.
Proof. intros i. split; [by_decide|]. exists (replicate 32 4), (replicate 32 5). split; [done|]. split; [done|by_decide]. Qed.

Lemma template_tries_stuck_witness : exists tx, construct toy_keys 0 stuck_args 400000 set_null = Some tx /\
  get_transaction_weight tx = Some 181 /\ miner_tx_tries 10 toy_keys 1 stuck_args tx (400000 + 181) = Some None.
Proof.
  eexists. split; [vm_compute; reflexivity|]. split; [vm_compute; reflexivity|].
  apply (template_tries_stuck toy_keys stuck_args _ 1 181 169465313464 10);
    [split; by_decide|apply toy_keys_derive|reflexivity|reflexivity|by_decide|by_decide|vm_compute; reflexivity|vm_compute; reflexivity].
Defined.

(** A chain at version 13 with one transaction in the pool, and its template. *)
#[local] Existing Instance example_env.
Definition v13_hf : HardFork := set_index example_hf 7.
Definition paying_tx : transaction := small_tx 2000000001 1.
Definition paying_meta : txpool_tx_meta_t := Meta null_hash null_hash 300 2000000000 0 0 1700000000 1700000000 false false false false.

Lemma paying_tx_admissible : admissible paying_tx [replicate 32 1].
Proof.
  split; [|by split; [by split|split; [reflexivity|split; [reflexivity|apply NoDup_singleton]]]].
  apply (parse_binary_ok transaction_codec _ (tx_to_blob paying_tx)); [by_decide|vm_compute; reflexivity].
Qed.

Definition paying_pool : tx_memory_pool := Eval vm_compute in pool_of paying_tx paying_meta.
Definition paying_hash : blob := Eval vm_compute in transaction_hash paying_tx.

Lemma paying_pool_eq : paying_pool = pool_of paying_tx paying_meta /\ transaction_hash paying_tx = paying_hash.
Proof. split; vm_compute; reflexivity. Qed.

Lemma paying_pool_spec : pool_ok paying_pool /\ txpool paying_pool = {[ paying_hash := (paying_meta, tx_to_blob paying_tx) ]}.
Proof.
  destruct paying_pool_eq as [-> <-]. apply (pool_of_spec paying_tx paying_meta _ paying_tx_admissible). by_decide.
Qed.

Definition v13_chain : blockchain := one_block_chain v13_hf paying_pool (Some (Validator true)).
Definition example_template : block := Eval vm_compute in
  match create_block_template 1700000100 toy_keys v13_chain fresh_block toy_address (replicate 170 0) with
  | Some (Some (b, _, _, _), _) => b
  | _ => fresh_block
  end.
Definition example_miner_hash : blob := Eval vm_compute in transaction_hash (miner_tx example_template).
Definition example_template_id : blob := Eval vm_compute in default [] (block_id example_template).

Lemma v13_ready : template_ready 1700000100 v13_chain.
Proof.
  destruct paying_pool_spec as [Hok Ht], example_blocks as (h & Eb & _). split.
  - apply one_block_chain_ok; [apply set_index_wf; [apply example_hf_wf|vm_compute; lia]|by_decide|apply (early_fork_heights 2 example_hf); [reflexivity|exact example_hf_early]|].
    intros id meta bd E. rewrite Ht in E. apply lookup_singleton_Some in E as [<- E]. injection E as <- <-.
    exists paying_tx. split; [split; [intros _; by repeat constructor|exists [replicate 32 1]; exact paying_tx_admissible]|split; [apply paying_pool_eq|reflexivity]].
  - exact Hok.
  - reflexivity.
  - by_decide.
  - by_decide.
  - reflexivity.
  - by_decide.
  - vm_compute. reflexivity.
  - vm_compute. reflexivity.
  - split; [lia|]. cbn [m_db v13_chain one_block_chain]. rewrite Eb. by repeat constructor.
  - intros id t h' i meta bd tx E. discriminate (eq_trans (eq_sym E) (lookup_empty id)).
  - intros id Hs. apply (bool_decide_eq_false_2 _). cbn [m_tx_pool v13_chain one_block_chain] in Hs. rewrite Ht in Hs. destruct Hs as [e E].
    apply lookup_singleton_Some in E as [<- _]. apply (bool_decide_eq_false_1 _). vm_compute. reflexivity.
  - split; [|vm_compute; reflexivity]. intros id. unfold fee_of. cbn [m_tx_pool v13_chain one_block_chain]. rewrite Ht.
    destruct (decide (paying_hash = id)) as [<-|Hne]; [rewrite lookup_singleton_eq; by_decide|rewrite lookup_singleton_ne by exact Hne; by_decide].
  - exact (zeroCommit_total (H0 := residues_laws)).
Qed.

Lemma example_template_facts : (exists er st', create_block_template 1700000100 toy_keys v13_chain fresh_block toy_address (replicate 170 0) =
    Some (Some (example_template, 1, 1, er), st')) /\
  block_id example_template = Some example_template_id /\ hashes_new v13_chain example_template example_template_id.
Proof.
  assert (match create_block_template 1700000100 toy_keys v13_chain fresh_block toy_address (replicate 170 0) with
    Some (Some (b, d, h, _), _) => Some (b, d, h) | _ => None end = Some (example_template, 1, 1)) as Ev by (vm_compute; reflexivity).
  assert (transaction_hash (miner_tx example_template) = example_miner_hash) as Em by (vm_compute; reflexivity). split; [|split].
  - destruct (create_block_template _ _ _ _ _ _) as [[[[[[b d] h] er] |] st']|]; [|discriminate Ev..]. injection Ev as -> -> ->. by exists er, st'.
  - unfold block_id, block_txs. change (default null_hash (calculate_transaction_hash (miner_tx example_template))) with (transaction_hash (miner_tx example_template)).
    rewrite Em. vm_compute. reflexivity.
  - split.
    + apply (bool_decide_eq_false_1 _). vm_compute. reflexivity.
    + rewrite Em. apply eq_None_not_Some, (bool_decide_eq_false_1 _). vm_compute. reflexivity.
    + rewrite Em. apply (bool_decide_eq_false_1 _). vm_compute. reflexivity.
Qed.

Lemma create_block_template_accepted_witness : exists b er st' st'' bvc,
  create_block_template 1700000100 toy_keys v13_chain fresh_block toy_address (replicate 170 0) = Some (Some (b, 1, 1, er), st') /\
  tx_hashes b = [] /\
  handle_block_to_main_chain 1700000100 st' b example_template_id bvc_zero = Some (true, st'', bvc) /\ chain_ok st''.
Proof.
  destruct (create_block_template_accepted 1700000100 toy_keys v13_chain toy_address (replicate 170 0) v13_ready (toy_keys_derive _)
    ltac:(right; by_decide) ltac:(by_decide) eq_refl) as (b & er & id & st' & E & Edb & Hid & H).
  destruct example_template_facts as ((er0 & st0 & E0) & Ei & Hn). rewrite E in E0. injection E0 as -> <- <-.
  rewrite Ei in Hid. injection Hid as <-. destruct (H Hn) as (st'' & bvc & bi & l & fee & base & r & Hh & _ & Hok & _).
  exists example_template, er, st', st'', bvc. split; [exact E|]. split; [vm_compute; reflexivity|]. split; [exact Hh|exact Hok].
Defined.
