(* ===== verification/TxIntake.v ===== *)
(** * Transactions on their way to the pool

    Model of the handling of transactions in src/cryptonote_core/cryptonote_core.cpp:
    parsing and first checks of each blob ([handle_incoming_tx_pre]), the
    semantic check of a group with one verification of all bulletproofs
    ([handle_incoming_tx_accumulated_batch]), and the hand-over to the pool
    ([add_new_tx]).  The transactions known to be bad are two sets of hashes. *)
From Stdlib Require Import ZArith Lia Bool.
From stdpp Require Import prelude gmap.
From S2P Require Import Prelude StringTools Varint Archive TxExtra Rct CryptonoteBasic Keccak TreeHash HardFork IntUtil Difficulty Hashing RctOps RctSigs Crypto RctModel Money Reward TxPool Checkpoints Outputs ChainDb TxCheck TempConsensus Blockchain BlockTemplate.
Local Open Scope Z_scope.

#[local] Opaque cn_fast_hash.

Definition CRYPTONOTE_MAX_TX_SIZE : Z := 1000000000.
Definition get_max_tx_size : Z := CRYPTONOTE_MAX_TX_SIZE.
Definition BAD_SEMANTICS_TXES_MAX_SIZE : nat := 100.
Definition BULLETPROOF_MAX_OUTPUTS : Z := 16.
Definition HASH_OF_HASHES_STEP : Z := 256.

(** [bad_semantics_txes], the newer set first. *)
Abbreviation bad_semantics := (gset blob * gset blob)%type.

Definition set_semantics_failed (bad : bad_semantics) (tx_hash : blob) : bad_semantics :=
  let b0 := {[ tx_hash ]} ∪ bad.1 in
  if bool_decide (BAD_SEMANTICS_TXES_MAX_SIZE <= size b0)%nat then (∅, b0) else (b0, bad.2).

Definition is_canonical_bulletproof_layout (proofs : list Bulletproof) : bool :=
  match proofs with
  | [p] => let sz := zlen (bp_V p) in negb ((sz =? 0) || (BULLETPROOF_MAX_OUTPUTS <? sz))
  | _ => false
  end.

(** One of [results], with its context.  [r_sig] is the signature as
    [expand_transaction_1] completes it. *)
Record result := Result {
  res : bool; r_tx : transaction; r_sig : rctSig; r_hash : blob; already_have : bool; r_tvc : tx_verification_context }.

Definition set_result (r : result) (x : bool) (tvc : tx_verification_context) : result :=
  Result x (r_tx r) (r_sig r) (r_hash r) (already_have r) tvc.
Definition set_have (r : result) : result := Result (res r) (r_tx r) (r_sig r) (r_hash r) true (r_tvc r).

(** A transaction of bad semantics. *)
Definition reject (r : result) : result := set_result r false (set_flag f_failed true (r_tvc r)).

(** ** Inputs of a transaction by themselves *)
Fixpoint check_tx_inputs_keyimages_diff (ins : list txin_v) (ki : gset blob) : bool :=
  match ins with
  | [] => true
  | txin_to_key _ _ k_image :: ins => if bool_decide (k_image ∈ ki) then false else check_tx_inputs_keyimages_diff ins ({[ k_image ]} ∪ ki)
  | _ => false
  end.

Definition check_tx_inputs_ring_members_diff (version : Z) (ins : list txin_v) : bool :=
  if 6 <=? version then
    forallb (fun i => match i with txin_to_key _ key_offsets _ => forallb (fun o => negb (o =? 0)) (tail key_offsets) | _ => false end) ins
  else true.

Section intake.
Context `{ChainEnv}.

(** [None]: a key image is no point, an exception. *)
Fixpoint check_tx_inputs_keyimages_domain (ins : list txin_v) : option bool :=
  match ins with
  | [] => Some true
  | txin_to_key _ _ k_image :: ins =>
      k ← scalarmultKey k_image curveOrder;
      if bool_decide (k = identity_key) then check_tx_inputs_keyimages_domain ins else Some false
  | _ => Some false
  end.

(** ** Parsing *)

(** The commitments of the bulletproof, divided by eight; [None] is an exception. *)
Definition with_V (tx : transaction) : option rctSig :=
  let sg := rct_signatures tx in
  if (2 <=? version (tx_prefix tx)) && negb (is_coinbase tx) && is_rct_bulletproof (rct_type sg) then
    match bulletproofs (rct_p sg) with
    | p :: ps =>
        V ← mapM (fun mask => scalarmultKey mask INV_EIGHT) (outPk sg);
        let p := MkBulletproof V (bp_A p) (bp_S p) (bp_T1 p) (bp_T2 p) (bp_taux p) (bp_mu p) (bp_L p) (bp_R p) (bp_a p) (bp_b p) (bp_t p) in
        Some (RctSig (rct_type sg) (txnFee sg) (pseudoOuts sg) (ecdhInfo sg) (outPk sg) (RctSigPrunable (rangeSigs (rct_p sg)) (p :: ps) (MGs (rct_p sg)) (p_pseudoOuts (rct_p sg))))
    | [] => Some sg
    end
  else Some sg.

(** [None] is an exception, [Some None] a refusal. *)
Definition parse_tx_from_blob (tx_blob : blob) : option (option (transaction * rctSig * blob)) :=
  match parse_and_validate_tx_from_blob tx_blob with
  | None => Some None
  | Some tx =>
      sg ← with_V tx;
      let '(r, tx) := get_transaction_hash false tx in
      Some (Some (tx, sg, default null_hash (fst <$> r)))
  end.

Definition handle_incoming_tx_pre (st : blockchain) (bad : bad_semantics) (tx_blob : blob) : result :=
  let refused tvc := Result false set_null rct_null null_hash false tvc in
  let failed := set_flag f_failed true tvc_zero in
  if get_max_tx_size <? zlen tx_blob then refused (set_flag f_too_big true failed)
  else
    match parse_tx_from_blob tx_blob with
    | None => refused tvc_zero
    | Some None => refused failed
    | Some (Some (tx, sg, tx_hash)) =>
        if bool_decide (tx_hash ∈ bad.1) || bool_decide (tx_hash ∈ bad.2) then refused failed
        else
          let max_tx_version := if current_version st =? 1 then 1 else 2 in
          if (version (tx_prefix tx) =? 0) || (max_tx_version <? version (tx_prefix tx)) then refused failed
          else Result true tx sg tx_hash false tvc_zero
    end.

Definition check_tx_syntax (tx : transaction) : bool := true.
Definition handle_incoming_tx_post (r : result) : result :=
  if negb (check_tx_syntax (r_tx r)) then set_result r false (set_flag f_failed true (r_tvc r)) else r.

(** ** Semantics *)

(** [None] is an exception. *)
Definition check_tx_semantic (st : blockchain) (kept : bool) (tx : transaction) : option bool :=
  let ins := vin (tx_prefix tx) in
  if bool_decide (ins = []) then Some false
  else if negb (check_inputs_types_supported tx) then Some false
  else if negb (check_outs_valid check_key tx) then Some false
  else if (1 <? version (tx_prefix tx)) && negb (zlen (outPk (rct_signatures tx)) =? zlen (vout (tx_prefix tx))) then Some false
  else if negb (check_money_overflow tx) then Some false
  else if (version (tx_prefix tx) =? 1) && (default 0 (get_inputs_money_amount tx) <=? get_outs_money_amount tx) then Some false
  else
    heavy ← (if kept then Some false
             else w ← get_transaction_weight tx; Some (u64 (m_current_block_cumul_weight_limit st - CRYPTONOTE_COINBASE_BLOB_RESERVED_SIZE) <=? w));
    if heavy : bool then Some false
    else if negb (check_tx_inputs_keyimages_diff ins ∅) then Some false
    else if negb (check_tx_inputs_ring_members_diff (current_version st) ins) then Some false
    else check_tx_inputs_keyimages_domain ins.

(** What remains to be done of a signature. *)
Inductive rct_verdict := v_bad | v_good | v_delayed.
Definition rct_now (sg : rctSig) : rct_verdict :=
  if rct_type sg =? RCTTypeSimple then if verRctSemanticsSimple sg then v_good else v_bad
  else if rct_type sg =? RCTTypeFull then if verRct_semantics sg then v_good else v_bad
  else if rct_type sg =? RCTTypeBulletproof then if is_canonical_bulletproof_layout (bulletproofs (rct_p sg)) then v_delayed else v_bad
  else v_bad.

(** The first loop: the sets, the results and the signatures to verify
    together; [Thrown] when a check throws. *)
Fixpoint semantic_loop (st : blockchain) (kept : bool) (bad : bad_semantics) (l : list result) : outcome (bad_semantics * list result * list rctSig) :=
  match l with
  | [] => Done (bad, [], [])
  | r :: l =>
      if negb (res r) || already_have r then
        match semantic_loop st kept bad l with
        | Done (bad, l, rvv) => Done (bad, r :: l, rvv)
        | Thrown (bad, l, rvv) => Thrown (bad, r :: l, rvv)
        end
      else
        match check_tx_semantic st kept (r_tx r) with
        | None => Thrown (bad, r :: l, [])
        | Some ok =>
            let verdict := if ok then if version (tx_prefix (r_tx r)) <? 2 then v_good else rct_now (r_sig r) else v_bad in
            let '(bad, r) := match verdict with v_bad => (set_semantics_failed bad (r_hash r), reject r) | _ => (bad, r) end in
            let mine := match verdict with v_delayed => [r_sig r] | _ => [] end in
            match semantic_loop st kept bad l with
            | Done (bad, l, rvv) => Done (bad, r :: l, mine ++ rvv)
            | Thrown (bad, l, rvv) => Thrown (bad, r :: l, mine ++ rvv)
            end
        end
  end.

(** The second loop, after the verification of the group has failed. *)
Fixpoint one_at_a_time (assumed_bad : bool) (bad : bad_semantics) (l : list result) : bad_semantics * list result :=
  match l with
  | [] => (bad, [])
  | r :: l =>
      let '(bad, r) :=
        if negb (res r) || already_have r || negb (rct_type (r_sig r) =? RCTTypeBulletproof) then (bad, r)
        else if assumed_bad || negb (verRctSemanticsSimple (r_sig r)) then (set_semantics_failed bad (r_hash r), reject r)
        else (bad, r) in
      let '(bad, l) := one_at_a_time assumed_bad bad l in
      (bad, r :: l)
  end.

Definition is_within_compiled_block_hash_area (hashes_of_hashes : Z) (st : blockchain) : bool :=
  height (m_db st) <? hashes_of_hashes * HASH_OF_HASHES_STEP.

(** The results that are good so far and new are [tx_info]. *)
Definition handle_incoming_tx_accumulated_batch (hashes_of_hashes : Z) (st : blockchain) (bad : bad_semantics) (l : list result) (kept : bool)
  : outcome (bad_semantics * list result) :=
  if kept && is_within_compiled_block_hash_area hashes_of_hashes st then Done (bad, l)
  else
    match semantic_loop st kept bad l with
    | Thrown (bad, l, _) => Thrown (bad, l)
    | Done (bad, l, rvv) =>
        if negb (bool_decide (rvv = [])) && negb (verRctSemanticsSimple_all rvv)
        then Done (one_at_a_time (bool_decide (length rvv = 1%nat)) bad l)
        else Done (bad, l)
    end.

(** ** To the pool *)
Definition on_new_tx_from_block (st : blockchain) (tx : transaction) : blockchain :=
  if height (m_db st) <? zlen (m_blocks_hash_check st)
  then set_tables st (m_blocks_longhash_table st) (m_blocks_txs_check st ++ [default null_hash (fst <$> (get_transaction_hash false tx).1)])
  else st.

Definition add_new_tx (now : Z) (st : blockchain) (tx : transaction) (tx_hash : blob) (tx_weight : Z) (tvc : tx_verification_context) (kept relayed do_not_relay : bool)
  : bool * tx_verification_context * blockchain :=
  let st := if kept then on_new_tx_from_block st tx else st in
  if have_tx (m_tx_pool st) tx_hash || tx_exists (m_db st) tx_hash then (true, tvc, st)
  else
    let '(r, tvc, pool) := add_tx_id (H := pool_chain now) st now (m_tx_pool st) tx tx_hash tx_weight tvc kept relayed do_not_relay (current_version st) in
    (r, tvc, set_pool st pool).

(** The last loop; a weight that cannot be computed ends it with an exception. *)
Fixpoint add_results (now : Z) (kept relayed do_not_relay : bool) (l : list (blob * result)) (ok : bool) (st : blockchain)
  : bool * list tx_verification_context * blockchain :=
  match l with
  | [] => (ok, [], st)
  | (tx_blob, r) :: l =>
      let next ok tvc st := let '(ok, tvcs, st) := add_results now kept relayed do_not_relay l ok st in (ok, tvc :: tvcs, st) in
      if already_have r then next ok (r_tvc r) st
      else if negb (res r) then next false (r_tvc r) st
      else
        match get_transaction_weight_of (r_tx r) (zlen tx_blob) with
        | None => (false, r_tvc r :: (r_tvc <$> l.*2), st)
        | Some weight =>
            let '(added, tvc, st) := add_new_tx now st (r_tx r) (r_hash r) weight (r_tvc r) kept relayed do_not_relay in
            next (ok && added) tvc st
        end
  end.

(** What is already known is skipped. *)
Definition mark_known (st : blockchain) (r : result) : result :=
  if negb (res r) then r
  else if have_tx (m_tx_pool st) (r_hash r) || tx_exists (m_db st) (r_hash r) then set_have r
  else handle_incoming_tx_post r.

Definition handle_incoming_txs (hashes_of_hashes now : Z) (st : blockchain) (bad : bad_semantics) (tx_blobs : list blob) (kept relayed do_not_relay : bool)
  : bool * list tx_verification_context * blockchain * bad_semantics :=
  let results := mark_known st <$> (handle_incoming_tx_pre st bad <$> tx_blobs) in
  match handle_incoming_tx_accumulated_batch hashes_of_hashes st bad results kept with
  | Thrown (bad, results) => (false, r_tvc <$> results, st, bad)
  | Done (bad, results) =>
      let '(ok, tvc, st) := add_results now kept relayed do_not_relay (zip tx_blobs results) true st in
      (ok, tvc, st, bad)
  end.

Definition handle_incoming_tx (hashes_of_hashes now : Z) (st : blockchain) (bad : bad_semantics) (tx_blob : blob) (kept relayed do_not_relay : bool)
  : bool * tx_verification_context * blockchain * bad_semantics :=
  let '(r, tvcv, st, bad) := handle_incoming_txs hashes_of_hashes now st bad [tx_blob] kept relayed do_not_relay in
  (r, default tvc_zero (head tvcv), st, bad).
End intake.

(** ** The semantic check of a group *)
Section batch.
Context `{ChainEnv} (st : blockchain) (kept : bool).

(** The signature of a transaction by itself. *)
Definition rct_semantics (sg : rctSig) : bool :=
  match rct_now sg with v_good => true | v_bad => false | v_delayed => verRctSemanticsSimple sg end.

(** A transaction by itself; [None] is an exception. *)
Definition semantics (tx : transaction) (sg : rctSig) : option bool :=
  ok ← check_tx_semantic st kept tx; Some (ok && ((version (tx_prefix tx) <? 2) || rct_semantics sg)).

Definition skipped (r : result) : bool := negb (res r) || already_have r.

(** What should become of a result. *)
Definition judge (r : result) : result :=
  if skipped r then r else if bool_decide (semantics (r_tx r) (r_sig r) = Some true) then r else reject r.

(** What the first loop finds of it. *)
Definition first_verdict (r : result) : rct_verdict :=
  match check_tx_semantic st kept (r_tx r) with
  | Some true => if version (tx_prefix (r_tx r)) <? 2 then v_good else rct_now (r_sig r)
  | _ => v_bad
  end.
Definition first_pass (r : result) : result :=
  if skipped r then r else match first_verdict r with v_bad => reject r | _ => r end.
Definition delayed (r : result) : list rctSig :=
  if skipped r then [] else match first_verdict r with v_delayed => [r_sig r] | _ => [] end.
Definition second_pass (assumed_bad : bool) (r : result) : result :=
  if skipped r || negb (rct_type (r_sig r) =? RCTTypeBulletproof) then r
  else if assumed_bad || negb (verRctSemanticsSimple (r_sig r)) then reject r else r.

(** The sets grow by hashes of rejected transactions. *)
Definition blamed (bad bad' : bad_semantics) (l : list result) : Prop :=
  forall h, h ∈ bad'.1 ∪ bad'.2 -> h ∈ bad.1 ∪ bad.2 \/ exists r, r ∈ l /\ r_hash r = h /\ judge r = reject r /\ skipped r = false.

Lemma set_semantics_failed_elem bad h x : let bad' := set_semantics_failed bad h in x ∈ bad'.1 ∪ bad'.2 -> x = h \/ x ∈ bad.1 ∪ bad.2.
Proof. unfold set_semantics_failed. cbv zeta. case_bool_decide; cbn; set_solver. Qed.

Lemma set_semantics_failed_size bad h : (size bad.1 < BAD_SEMANTICS_TXES_MAX_SIZE)%nat -> (size (set_semantics_failed bad h).1 < BAD_SEMANTICS_TXES_MAX_SIZE)%nat.
Proof. intros Hs. unfold set_semantics_failed. cbv zeta. case_bool_decide; cbn [fst]; [rewrite size_empty; unfold BAD_SEMANTICS_TXES_MAX_SIZE; lia|lia]. Qed.

Lemma first_bad r : first_verdict r = v_bad -> skipped r = false -> check_tx_semantic st kept (r_tx r) <> None -> judge r = reject r.
Proof.
  intros Hv Hs Hn. unfold judge. rewrite Hs. rewrite bool_decide_false; [done|]. unfold semantics, first_verdict, rct_semantics in *.
  destruct (check_tx_semantic _ _ _) as [[]|]; [|done|done]. cbn [mbind option_bind andb]. destruct (_ <? 2); [done|]. by rewrite Hv.
Qed.

Lemma semantic_loop_spec l bad : match semantic_loop st kept bad l with
  | Done (bad', l', rvv) => l' = first_pass <$> l /\ rvv = concat (delayed <$> l) /\ blamed bad bad' l /\
      Forall (fun r => skipped r = false -> check_tx_semantic st kept (r_tx r) <> None) l
  | Thrown (bad', _, _) => blamed bad bad' l /\ exists r, r ∈ l /\ skipped r = false /\ check_tx_semantic st kept (r_tx r) = None
  end.
Proof.
  revert bad. induction l as [|r l IH]; intros bad; cbn [semantic_loop]; [split; [done|]; split; [done|]; split; [by intros h Hh; left|constructor]|].
  fold (skipped r). destruct (skipped r) eqn:Es.
  { specialize (IH bad). destruct (semantic_loop st kept bad l) as [[[bad' l'] rvv]|[[bad' l'] rvv]].
    - destruct IH as (-> & -> & Hb & Hf). cbn [fmap list_fmap concat]. unfold first_pass at 2, delayed at 2. rewrite Es. split; [done|]. split; [done|].
      split; [|by constructor; [rewrite Es|]]. intros h Hh. destruct (Hb h Hh) as [?|(r' & ? & ?)]; [by left|right]. exists r'. by split; [right|].
    - destruct IH as (Hb & r' & Hr' & Hx). split; [|exists r'; by split; [right|]].
      intros h Hh. destruct (Hb h Hh) as [?|(x & ? & ?)]; [by left|right]. exists x. by split; [right|]. }
  destruct (check_tx_semantic st kept (r_tx r)) as [ok|] eqn:Ec; [|split; [by intros h Hh; left|exists r; by split; [left|]]].
  set (v := if ok then _ else v_bad). assert (first_verdict r = v) as Ev by (unfold first_verdict, v; rewrite Ec; by destruct ok).
  set (bad1 := match v with v_bad => set_semantics_failed bad (r_hash r) | _ => bad end). clearbody v.
  assert (blamed bad bad1 (r :: l)) as Hb1.
  { intros h Hh. unfold bad1 in Hh. destruct v; [|by left..]. apply set_semantics_failed_elem in Hh as [->|?]; [|by left].
    right. exists r. split; [left|]. split; [done|]. split; [|done]. apply first_bad; [done|done|by rewrite Ec]. }
  specialize (IH bad1). replace (match v with v_bad => _ | _ => _ end) with (bad1, first_pass r) by (unfold bad1, first_pass; rewrite Es, Ev; by destruct v).
  assert (match v with v_delayed => [r_sig (first_pass r)] | _ => [] end = delayed r) as -> by (unfold delayed, first_pass; rewrite Es, Ev; by destruct v).
  assert (forall bad', blamed bad1 bad' l -> blamed bad bad' (r :: l)) as Hbl.
  { intros bad' Hb h Hh. destruct (Hb h Hh) as [Hin|(x & ? & ?)]; [by apply Hb1|right]. exists x. by split; [right|]. }
  destruct (semantic_loop st kept bad1 l) as [[[bad' l'] rvv]|[[bad' l'] rvv]].
  - destruct IH as (-> & -> & Hb & Hf). split; [done|]. split; [done|]. split; [by apply Hbl|]. constructor; [by rewrite Ec|done].
  - destruct IH as (Hb & r' & Hr' & Hx). split; [by apply Hbl|]. exists r'. by split; [right|].
Qed.

Lemma one_at_a_time_spec assumed l bad : let '(bad', l') := one_at_a_time assumed bad l in
  l' = second_pass assumed <$> l /\ forall h, h ∈ bad'.1 ∪ bad'.2 -> h ∈ bad.1 ∪ bad.2 \/ exists r, r ∈ l /\ r_hash r = h /\ skipped r = false /\ second_pass assumed r = reject r.
Proof.
  revert bad. induction l as [|r l IH]; intros bad; cbn [one_at_a_time]; [split; [done|]; by intros h ?; left|].
  fold (skipped r). assert (exists bad1, (if skipped r || negb (rct_type (r_sig r) =? RCTTypeBulletproof) then (bad, r)
      else if assumed || negb (verRctSemanticsSimple (r_sig r)) then (set_semantics_failed bad (r_hash r), reject r) else (bad, r)) = (bad1, second_pass assumed r) /\
      forall h, h ∈ bad1.1 ∪ bad1.2 -> h ∈ bad.1 ∪ bad.2 \/ h = r_hash r /\ skipped r = false /\ second_pass assumed r = reject r) as (bad1 & -> & Hb1).
  { unfold second_pass. destruct (skipped r || _) eqn:E1; [exists bad; split; [done|]; by left|]. apply orb_false_iff in E1 as [E1 _]. destruct (assumed || _).
    - eexists. split; [done|]. intros h [->|?]%set_semantics_failed_elem; [by right|by left].
    - exists bad. split; [done|]. by left. }
  specialize (IH bad1). destruct (one_at_a_time assumed bad1 l) as [bad' l'], IH as [-> Hb]. split; [done|].
  intros h Hh. destruct (Hb h Hh) as [Hin|(x & ? & ?)]; [|right; exists x; by split; [right|]].
  destruct (Hb1 h Hin) as [?|(-> & ?)]; [by left|]. right. exists r. by split; [left|].
Qed.

Lemma first_pass_kept r : skipped (first_pass r) = false -> first_pass r = r.
Proof. unfold first_pass. destruct (skipped r) eqn:E; [done|]. by destruct (first_verdict r). Qed.

(** A signature that is verified later is a bulletproof. *)
Lemma rct_now_delayed sg : rct_now sg = v_delayed -> rct_type sg = RCTTypeBulletproof.
Proof. unfold rct_now. repeat (case_match; try done). intros _. by apply Z.eqb_eq. Qed.
Lemma rct_now_bulletproof sg : rct_type sg = RCTTypeBulletproof -> rct_now sg <> v_good.
Proof. unfold rct_now. intros ->. cbn. by destruct (is_canonical_bulletproof_layout _). Qed.

(** A result that is verified later, verified. *)
Lemma judge_passes assumed r : (skipped r = false -> check_tx_semantic st kept (r_tx r) <> None) ->
  (skipped r = false -> version (tx_prefix (r_tx r)) < 2 -> rct_type (r_sig r) <> RCTTypeBulletproof) ->
  (skipped r = false -> first_verdict r = v_delayed -> assumed = true -> verRctSemanticsSimple (r_sig r) = false) ->
  second_pass assumed (first_pass r) = judge r.
Proof.
  intros Hn Hv Ha. unfold first_pass, judge. destruct (skipped r) eqn:Es; [unfold second_pass; by rewrite Es|]. specialize (Hn eq_refl). specialize (Ha eq_refl). specialize (Hv eq_refl).
  unfold semantics, first_verdict, rct_semantics in *. destruct (check_tx_semantic st kept (r_tx r)) as [[]|]; [|by rewrite bool_decide_false|done].
  cbn [mbind option_bind andb]. destruct (Z.ltb_spec (version (tx_prefix (r_tx r))) 2) as [H2|H2]; cbn [orb].
  { rewrite bool_decide_true by done. unfold second_pass. rewrite Es, (proj2 (Z.eqb_neq _ _)) by auto. done. }
  destruct (rct_now (r_sig r)) eqn:Er; [by rewrite bool_decide_false|rewrite bool_decide_true by done|].
  - unfold second_pass. destruct (Z.eqb_spec (rct_type (r_sig r)) RCTTypeBulletproof) as [E|]; [by apply rct_now_bulletproof in E|]. by rewrite orb_true_r.
  - unfold second_pass. rewrite Es, (rct_now_delayed _ Er). cbn [orb negb Z.eqb RCTTypeBulletproof Pos.eqb]. destruct assumed; cbn [orb].
    + rewrite Ha by done. by rewrite bool_decide_false.
    + by destruct (verRctSemanticsSimple (r_sig r)).
Qed.

Lemma judge_verified r : skipped r = false -> first_verdict r <> v_delayed \/ verRctSemanticsSimple (r_sig r) = true -> check_tx_semantic st kept (r_tx r) <> None ->
  first_pass r = judge r.
Proof.
  intros Es Hd Hn. unfold first_pass, judge. rewrite Es. unfold semantics, first_verdict, rct_semantics in *.
  destruct (check_tx_semantic st kept (r_tx r)) as [[]|]; [|by rewrite bool_decide_false|done]. cbn [mbind option_bind andb].
  destruct (_ <? 2); [by rewrite bool_decide_true|]. cbn [orb]. destruct (rct_now (r_sig r)); [by rewrite bool_decide_false|by rewrite bool_decide_true|].
  destruct Hd as [Hd | ->]; [done|]. by rewrite bool_decide_true.
Qed.

(** Bulletproofs are valid together exactly when each of them is. *)
Hypothesis Hbatch : forall ps, ps <> [] -> verBulletproof ps = forallb (fun p => verBulletproof [p]) ps.

Lemma batch_exact hashes_of_hashes bad l : kept && is_within_compiled_block_hash_area hashes_of_hashes st = false ->
  Forall (fun r => skipped r = false -> version (tx_prefix (r_tx r)) < 2 -> rct_type (r_sig r) <> RCTTypeBulletproof) l ->
  match handle_incoming_tx_accumulated_batch hashes_of_hashes st bad l kept with
  | Done (bad', l') => l' = judge <$> l /\ blamed bad bad' l
  | Thrown (bad', _) => blamed bad bad' l /\ exists r, r ∈ l /\ skipped r = false /\ semantics (r_tx r) (r_sig r) = None
  end.
Proof.
  intros Ha Hl. unfold handle_incoming_tx_accumulated_batch. rewrite Ha. pose proof (semantic_loop_spec l bad) as Hs.
  destruct (semantic_loop st kept bad l) as [[[bad1 l1] rvv]|[[bad1 l1] rvv]].
  2: { destruct Hs as (Hb & r & Hr & Es & Ec). split; [done|]. exists r. unfold semantics. by rewrite Ec. }
  destruct Hs as (-> & -> & Hb & Hn). rewrite verRctSemanticsSimple_batch by exact Hbatch. set (rvv := concat (delayed <$> l)).
  assert (forall r, r ∈ l -> skipped r = false -> first_verdict r = v_delayed -> r_sig r ∈ rvv) as Hin.
  { intros r (l1 & l2 & El)%list_elem_of_split Es Ev. unfold rvv. rewrite El, fmap_app, concat_app. apply elem_of_app. right. cbn [fmap list_fmap concat].
    apply elem_of_app. left. unfold delayed. rewrite Es, Ev. by left. }
  rewrite Forall_forall in Hn, Hl. destruct (forallb verRctSemanticsSimple rvv) eqn:Ef.
  - rewrite andb_false_r. split; [|done]. apply list_fmap_ext. intros i r Hr%list_elem_of_lookup_2.
    destruct (skipped r) eqn:Es; [unfold first_pass, judge; by rewrite Es|]. apply judge_verified; [done| |by apply Hn].
    destruct (first_verdict r) eqn:Ev; [by left|by left|right]. rewrite forallb_elem in Ef. by apply Ef, Hin.
  - assert (rvv <> []) as Hne by (intros E; by rewrite E in Ef). rewrite bool_decide_false by done. cbn [negb andb].
    set (assumed := bool_decide (length rvv = 1%nat)). pose proof (one_at_a_time_spec assumed (first_pass <$> l) bad1) as Ho.
    assert (forall r, r ∈ l -> second_pass assumed (first_pass r) = judge r) as Hj.
    { intros r Hr. apply judge_passes; [by apply Hn|by apply Hl|]. intros Es Ev E1%bool_decide_eq_true. specialize (Hin r Hr Es Ev).
      destruct rvv as [|x [|]]; try done. apply list_elem_of_singleton in Hin as ->. cbn in Ef. by rewrite andb_true_r in Ef. }
    destruct (one_at_a_time assumed bad1 (first_pass <$> l)) as [bad' l'], Ho as [-> Hb']. split.
    + rewrite <- list_fmap_compose. apply list_fmap_ext. intros i r Hr%list_elem_of_lookup_2. by apply Hj.
    + intros h Hh. destruct (Hb' h Hh) as [?|(x & (r & -> & Hr)%list_elem_of_fmap & Eh & Esk & E)]; [by apply Hb|].
      rewrite (Hj r Hr) in E. rewrite first_pass_kept in Eh, E, Esk by done. right. by exists r.
Qed.

(** C11: the group is judged transaction by transaction.  Outside the area of
    known hashes, if bulletproofs are valid together exactly when each of them is,
    [handle_incoming_tx_accumulated_batch] rejects exactly the transactions that
    fail the semantic check or whose signature fails by itself, whatever else is in
    the group, and the set of bad transactions grows by those only; it ends with
    an exception only if the check of one of the transactions throws. *)
Theorem accumulated_batch_exact hashes_of_hashes bad l : kept && is_within_compiled_block_hash_area hashes_of_hashes st = false ->
  Forall (fun r => skipped r = false -> version (tx_prefix (r_tx r)) < 2 -> rct_type (r_sig r) <> RCTTypeBulletproof) l ->
  match handle_incoming_tx_accumulated_batch hashes_of_hashes st bad l kept with
  | Done (bad', l') => l' = judge <$> l /\ blamed bad bad' l
  | Thrown (bad', _) => blamed bad bad' l /\ exists r, r ∈ l /\ skipped r = false /\ semantics (r_tx r) (r_sig r) = None
  end.
Proof. apply batch_exact. Qed.
End batch.

(** ** What reaches the pool *)
Section reach.
Context `{ChainEnv}.

Lemma with_V_type tx sg : with_V tx = Some sg -> rct_type sg = rct_type (rct_signatures tx).
Proof.
  unfold with_V. destruct (_ && _ && _); [|by intros [= <-]]. destruct (bulletproofs _); [by intros [= <-]|]. destruct (mapM _ _); [|done]. by intros [= <-].
Qed.

Lemma parse_tx_from_blob_ok b tx sg h : bytes_ok b -> parse_tx_from_blob b = Some (Some (tx, sg, h)) ->
  tx_ok (tx_invalidate_hashes tx) /\ tx_cache_ok tx /\ expand_transaction_1 tx false = true /\ h = transaction_hash tx /\
  (version (tx_prefix tx) < 2 -> rct_type sg <> RCTTypeBulletproof).
Proof.
  intros Hb. unfold parse_tx_from_blob, parse_and_validate_tx_from_blob. destruct (parse_binary transaction_codec b) as [t|] eqn:Ep; cbn [mbind option_bind]; [|done].
  apply (parse_binary_ok transaction_codec _ _) in Ep; [|done]. destruct (expand_transaction_1 t false) eqn:Ex; [|done]. cbn [negb].
  destruct (with_V (tx_invalidate_hashes t)) as [sg'|] eqn:Es; cbn [mbind option_bind]; [|done]. apply with_V_type in Es.
  pose proof (get_transaction_hash_spec false (tx_invalidate_hashes t) ltac:(by split)) as Hs.
  destruct (get_transaction_hash false (tx_invalidate_hashes t)) as [r t'] eqn:Eh, Hs as (Er & Hc & Hsame & _). intros [= -> -> <-].
  assert (tx_invalidate_hashes tx = tx_invalidate_hashes t) as Et by exact (eq_sym Hsame).
  assert (tx_invalidate_hashes t = t) as Ec by (destruct Ep as (_ & _ & E1 & E2), t; cbn in *; by subst).
  split; [by rewrite Et, Ec|]. split; [done|]. split; [change (expand_transaction_1 (tx_invalidate_hashes tx) false = true); by rewrite Et, Ec|].
  split.
  - rewrite <- (transaction_hash_clean tx Hc), Et. unfold transaction_hash. rewrite Eh. by destruct r as [[]|].
  - change (tx_prefix tx) with (tx_prefix (tx_invalidate_hashes tx)). rewrite Et. intros Hv. rewrite Es. cbn in *. destruct Ep as ((Hv0 & _) & Hbd & _).
    destruct Hv0 as [[? ?] Hv0]. unfold version_supported in Hv0. destruct (Z.eqb_spec (version (tx_prefix t)) 0); [done|].
    unfold body_ok in Hbd. rewrite (proj2 (Z.eqb_eq (version (tx_prefix t)) 1)) in Hbd by lia. destruct Hbd as [_ Hnull]. cbn in Hnull. by rewrite <- Hnull.
Qed.

Lemma keyimages_diff_images ins ki : check_tx_inputs_keyimages_diff ins ki = true -> exists ks, images_of ins = Some ks /\ NoDup ks /\ forall k, k ∈ ks -> k ∉ ki.
Proof.
  revert ki. induction ins as [|i ins IH]; intros ki; cbn [check_tx_inputs_keyimages_diff]; [intros _; exists []; split; [done|]; split; [constructor|]; by intros k Hk%elem_of_nil|].
  destruct i as [| | |a o k]; try done. case_bool_decide as Hk; [done|]. intros (ks & E & Hn & Hd)%IH. exists (k :: ks). cbn [images_of]. rewrite E.
  split; [done|]. split; [constructor; [|done]; intros Hin; specialize (Hd k Hin); set_solver|]. intros k' [->|Hin]%elem_of_cons; [done|]. specialize (Hd k' Hin). set_solver.
Qed.

(** The semantic check leaves what the pool and the database rely on. *)
Lemma check_tx_semantic_good st kept tx : tx_ok (tx_invalidate_hashes tx) -> tx_cache_ok tx -> expand_transaction_1 tx false = true ->
  check_tx_semantic st kept tx = Some true -> good_tx tx.
Proof.
  intros Hok Hc Hx. unfold check_tx_semantic. cbv zeta. destruct (bool_decide _); [done|]. destruct (check_inputs_types_supported tx); [|done]. cbn [negb].
  destruct (check_outs_valid check_key tx) eqn:Eo; [|done]. cbn [negb]. destruct (_ && negb _); [done|]. destruct (check_money_overflow tx); [|done]. cbn [negb].
  destruct (_ && _); [done|]. destruct (if kept then _ else _) as [[]|]; cbn [mbind option_bind]; [done| |done].
  destruct (check_tx_inputs_keyimages_diff _ _) eqn:Ed; [|done]. cbn [negb]. intros _. split.
  - intros Ev. apply Forall_forall. intros o Ho. unfold check_outs_valid in Eo. rewrite forallb_elem in Eo. specialize (Eo o Ho). cbn in Eo.
    destruct (target o); try done. rewrite Ev in Eo. cbn in Eo. destruct (Z.ltb_spec 0 (out_amount o)); [lia|done].
  - apply keyimages_diff_images in Ed as (ks & E & Hn & _). by exists ks.
Qed.

(** The ids whose inputs the pool remembers as good. *)
Definition remembered (Q : blob -> Prop) (p : tx_memory_pool) : Prop := forall id t h i, m_input_cache p !! id = Some (true, t, h, i) -> Q id.

(** The rings of a transaction with this id hold on the chain. *)
Definition verified (now : Z) (st : blockchain) (id : blob) : Prop := exists tx, transaction_hash tx = id /\ rings_ok now st tx.

(** What handling transactions leaves alone. *)
Definition stays (st st' : blockchain) : Prop :=
  m_db st' = m_db st /\ m_hardfork st' = m_hardfork st /\ m_cache st' = m_cache st /\ m_temp_consensus_validator st' = m_temp_consensus_validator st.

Lemma rings_ok_stays now st st' tx : stays st st' -> rings_ok now st' tx <-> rings_ok now st tx.
Proof. intros (E1 & E2 & _). unfold rings_ok, current_version. by rewrite E1, E2. Qed.

Section keeps.
Context (now : Z) (st0 : blockchain) (P : blob -> blob -> Prop) (Q : blob -> Prop).
Hypothesis HQ : forall tx, rings_ok now st0 tx -> Q (transaction_hash tx).

Lemma inputs_checked st p tx h t : stays st0 st -> remembered Q p -> transaction_hash tx = h ->
  let x := TxPool.check_tx_inputs (H := pool_chain now) st p tx h false t 0 null_hash in remembered Q x.2 /\ (x.1.1.1.1 = true -> Q h).
Proof.
  intros Hs Hc Hh. cbv zeta. unfold TxPool.check_tx_inputs. destruct (m_input_cache p !! h) as [[[[r t'] hh] i]|] eqn:E; [split; [done|]; cbn; intros ->; by eapply Hc|].
  assert ((pc_check_tx_inputs (PoolChain := pool_chain now) st tx false t 0 null_hash).1.1.1 = true -> Q h) as Hr.
  { intros Hr. rewrite <- Hh. apply HQ, (rings_ok_stays now st0 st tx Hs). revert Hr. cbn [pc_check_tx_inputs pool_chain]. unfold check_tx_inputs_used, rings_ok. rewrite andb_false_r.
    pose proof (check_tx_inputs_tvc (m_db st) (current_version st) now ∅ max_concurrency tx t tvc_zero) as Et. unfold check_tx_input_rings. rewrite <- Et.
    by destruct (TxCheck.check_tx_inputs _ _ _ _ _ _ _) as [[[] ?] ?]. }
  destruct (pc_check_tx_inputs _ _ _ _ _ _) as [[[r t'] hh] i]. cbn [fst snd] in *. split; [|done].
  intros id t1 h1 i1 El. cbn in El. apply lookup_insert_Some in El as [[<- El]|[_ El]]; [|by eapply Hc]. injection El as -> -> -> ->. by apply Hr.
Qed.

Lemma add_new_tx_keeps st tx h w tvc kept relayed no_relay : stays st0 st -> remembered Q (m_tx_pool st) -> transaction_hash tx = h ->
  (tx_exists (m_db st0) h = false -> kept = true \/ Q h -> P h (tx_to_blob tx)) -> all_entries P (m_tx_pool st) ->
  let st' := (add_new_tx now st tx h w tvc kept relayed no_relay).2 in stays st0 st' /\ remembered Q (m_tx_pool st') /\ all_entries P (m_tx_pool st').
Proof.
  intros Hs Hc Hh HP Hp. cbv zeta. unfold add_new_tx. set (st1 := if kept then on_new_tx_from_block st tx else st).
  assert (stays st0 st1 /\ m_tx_pool st1 = m_tx_pool st) as [Hs1 Ep] by (unfold st1, on_new_tx_from_block; destruct kept; [case_match|]; by split).
  clearbody st1. rewrite Ep. destruct (have_tx _ _ || tx_exists _ _) eqn:Ex; [cbn; by rewrite Ep|]. apply orb_false_iff in Ex as [_ Ex].
  assert (tx_exists (m_db st0) h = false) as Ex0 by (destruct Hs1 as (<- & _); exact Ex).
  pose proof (entries_add_tx_id P (H := pool_chain now) st1 now (m_tx_pool st) tx h w tvc kept relayed no_relay (current_version st1)) as He.
  pose proof (add_tx_id_cache (H := pool_chain now) st1 now (m_tx_pool st) tx h w tvc kept relayed no_relay (current_version st1)) as Hca. cbv zeta in Hca.
  destruct (add_tx_id _ _ _ _ _ _ _ _ _ _ _) as [[r tvc'] pool]. cbn [fst snd] in *. split; [done|]. split.
  - intros id t hh i E. cbn in E. destruct Hca as [Ec|[t0 Ec]]; rewrite Ec in E; [by eapply Hc|].
    destruct kept; [apply (Hc id t hh i); revert E; unfold TxPool.check_tx_inputs; by destruct (pc_check_tx_inputs _ _ _ _ _ _) as [[[]]]|].
    by eapply (inputs_checked st1 (m_tx_pool st) tx h t0 Hs1 Hc Hh).
  - apply He; [|done]. intros t [->|Et]; rewrite Hh; [apply HP; [done|by left]|]. destruct kept; [apply HP; [done|by left]|].
    apply HP; [done|]. right. by apply (inputs_checked st1 (m_tx_pool st) tx h t Hs1 Hc Hh).
Qed.

Lemma add_results_keeps kept relayed no_relay l ok st : stays st0 st -> remembered Q (m_tx_pool st) -> all_entries P (m_tx_pool st) ->
  Forall (fun x => skipped x.2 = false -> transaction_hash (r_tx x.2) = r_hash x.2 /\
    (tx_exists (m_db st0) (r_hash x.2) = false -> kept = true \/ Q (r_hash x.2) -> P (r_hash x.2) (tx_to_blob (r_tx x.2)))) l ->
  let st' := (add_results now kept relayed no_relay l ok st).2 in stays st0 st' /\ remembered Q (m_tx_pool st') /\ all_entries P (m_tx_pool st').
Proof.
  intros Hs Hc Hp Hl. cbv zeta. revert ok st Hs Hc Hp. induction Hl as [|[b r] l Hr Hl IH]; intros ok st Hs Hc Hp; [done|]. cbn [add_results]. cbv zeta. cbn [snd] in Hr.
  assert (forall ok' tvc st', stays st0 st' -> remembered Q (m_tx_pool st') -> all_entries P (m_tx_pool st') ->
    let st'' := (let '(ok, tvcs, st) := add_results now kept relayed no_relay l ok' st' in (ok, tvc :: tvcs, st)).2 in
    stays st0 st'' /\ remembered Q (m_tx_pool st'') /\ all_entries P (m_tx_pool st'')) as Hnext.
  { intros ok' tvc st' H1 H2 H3. specialize (IH ok' st' H1 H2 H3). by destruct (add_results _ _ _ _ _ _ _) as [[? ?] ?]. }
  destruct (already_have r) eqn:Eh; [by apply Hnext|]. destruct (res r) eqn:Er; [|by apply Hnext]. cbn [negb].
  destruct (get_transaction_weight_of _ _) as [w|]; [|done]. destruct Hr as [Hh HP]; [unfold skipped; by rewrite Er, Eh|].
  pose proof (add_new_tx_keeps st (r_tx r) (r_hash r) w (r_tvc r) kept relayed no_relay Hs Hc Hh HP Hp) as Ha. cbv zeta in Ha.
  destruct (add_new_tx _ _ _ _ _ _ _ _ _) as [[added tvc] st']. destruct Ha as (H1 & H2 & H3). by apply Hnext.
Qed.
End keeps.

Lemma verified_stays now st st' p : stays st st' -> remembered (verified now st) p -> remembered (verified now st') p.
Proof. intros Hs Hc id t h i E. destruct (Hc id t h i E) as (tx & Hid & Hr). exists tx. split; [done|]. by apply (rings_ok_stays now st st'). Qed.

Lemma chain_ok_ext st st' : m_cache st' = m_cache st -> m_db st' = m_db st -> m_hardfork st' = m_hardfork st -> good_pool (m_tx_pool st') ->
  chain_ok st -> chain_ok st'.
Proof.
  intros Ec Edb Ehf Hp [Hs Hc Ht]. split; [by apply (chain_sound_ext st)|by apply (cache_ok_ext st)|]. unfold tail_id. by rewrite Ec, Edb.
Qed.

(** A transaction of the pool that came with these blobs: its blob parses, it is
    not in the chain, it passes the semantic check and its signature holds by
    itself; and unless it came with a block, the rings of a transaction with its id
    have been verified. *)
Definition arrived (now : Z) (st : blockchain) (kept : bool) (tx_blobs : list blob) (id bd : blob) : Prop :=
  exists b tx sg, b ∈ tx_blobs /\ parse_tx_from_blob b = Some (Some (tx, sg, id)) /\ bd = tx_to_blob tx /\ tx_exists (m_db st) id = false /\
    semantics st kept tx sg = Some true /\ (kept = true \/ verified now st id).

Lemma pre_parsed st bad b : skipped (mark_known st (handle_incoming_tx_pre st bad b)) = false ->
  let r := mark_known st (handle_incoming_tx_pre st bad b) in parse_tx_from_blob b = Some (Some (r_tx r, r_sig r, r_hash r)).
Proof.
  unfold handle_incoming_tx_pre. cbv zeta. destruct (_ <? _); [done|]. destruct (parse_tx_from_blob b) as [[[[tx sg] h]|]|]; [|done|done].
  destruct (_ || _); [done|]. destruct (_ || _); [done|]. unfold mark_known. cbn [res negb r_hash]. by destruct (_ || _).
Qed.

Lemma judge_skipped st kept r : skipped (judge st kept r) = false -> skipped r = false /\ judge st kept r = r /\ semantics st kept (r_tx r) (r_sig r) = Some true.
Proof. unfold judge. destruct (skipped r) eqn:E; [congruence|]. case_bool_decide; done. Qed.

Lemma semantics_check st kept tx sg : semantics st kept tx sg = Some true -> check_tx_semantic st kept tx = Some true.
Proof. unfold semantics. destruct (check_tx_semantic st kept tx) as [[]|]; done. Qed.

Lemma arrived_good now st kept tx_blobs id bd : Forall bytes_ok tx_blobs -> arrived now st kept tx_blobs id bd -> good_entry id bd.
Proof.
  intros Hb (b & tx & sg & Hin & Ep & -> & _ & Hs%semantics_check & _). rewrite Forall_forall in Hb.
  destruct (parse_tx_from_blob_ok b tx sg id (Hb b Hin) Ep) as (H1 & H2 & H3 & -> & _). exists tx. split; [by eapply check_tx_semantic_good|done].
Qed.

(** Whatever is made of the signatures, what is left has passed the check. *)
Lemma batch_passes st kept hashes_of_hashes bad l bad' l' : kept && is_within_compiled_block_hash_area hashes_of_hashes st = false ->
  handle_incoming_tx_accumulated_batch hashes_of_hashes st bad l kept = Done (bad', l') ->
  forall r, r ∈ l' -> skipped r = false -> r ∈ l /\ check_tx_semantic st kept (r_tx r) = Some true.
Proof.
  intros Ha. unfold handle_incoming_tx_accumulated_batch. rewrite Ha. pose proof (semantic_loop_spec st kept l bad) as Hs.
  destruct (semantic_loop st kept bad l) as [[[bad1 l1] rvv]|[[? ?] ?]]; [|done]. destruct Hs as (-> & _ & _).
  assert (forall r, r ∈ first_pass st kept <$> l -> skipped r = false -> r ∈ l /\ check_tx_semantic st kept (r_tx r) = Some true) as Hf.
  { intros r (r0 & -> & Hr)%list_elem_of_fmap Es. pose proof (first_pass_kept st kept r0 Es) as E. rewrite E in *. split; [done|].
    unfold first_pass, first_verdict in E. rewrite Es in E. unfold skipped in Es. destruct (check_tx_semantic _ _ _) as [[]|]; [done|..]; apply (f_equal res) in E; cbn in E; by rewrite <- E in Es. }
  clear Ha. destruct (_ && _); intros E; [apply (f_equal Outputs.result) in E; cbn [Outputs.result] in E|apply (f_equal (fun o => (Outputs.result o).2)) in E; cbn [Outputs.result snd] in E; rewrite <- E; exact Hf]. pose proof (one_at_a_time_spec (bool_decide (length rvv = 1%nat)) (first_pass st kept <$> l) bad1) as Ho.
  rewrite E in Ho. destruct Ho as [-> _]. intros r (r0 & -> & Hr)%list_elem_of_fmap Es. assert (second_pass (bool_decide (length rvv = 1%nat)) r0 = r0) as E0.
  { revert Es. unfold second_pass. destruct (_ || _); [done|]. by destruct (_ || _). }
  rewrite E0 in *. by apply Hf.
Qed.

(** The chain stays, and the pool holds what it may hold. *)
Lemma handle_incoming_txs_good hashes_of_hashes now st bad tx_blobs kept relayed no_relay : good_pool (m_tx_pool st) -> Forall bytes_ok tx_blobs ->
  kept && is_within_compiled_block_hash_area hashes_of_hashes st = false ->
  let st' := (handle_incoming_txs hashes_of_hashes now st bad tx_blobs kept relayed no_relay).1.2 in stays st st' /\ good_pool (m_tx_pool st').
Proof.
  intros Hp Hb Ha. cbv zeta. unfold handle_incoming_txs. set (results := mark_known st <$> _). rewrite Forall_forall in Hb.
  destruct (handle_incoming_tx_accumulated_batch _ _ _ _ _) as [[bad' l']|[bad' l']] eqn:E; [|done].
  pose proof (add_results_keeps now st good_entry (fun _ => True) ltac:(done) kept relayed no_relay (zip tx_blobs l') true st) as Hk. cbv zeta in Hk.
  destruct (add_results _ _ _ _ _ _ _) as [[ok tvc] st']. cbn [snd] in Hk. destruct Hk as (Hs & _ & He); [done|done|done| |by split].
  apply Forall_forall. intros [b0 r] Hz. apply elem_of_zip_r in Hz. cbn [snd]. intros Es. destruct (batch_passes _ _ _ _ _ _ _ Ha E r Hz Es) as [Hr Hc].
  apply list_elem_of_fmap in Hr as (r0 & -> & (b & -> & Hin)%list_elem_of_fmap). apply pre_parsed in Es as Ep. cbv zeta in Ep. set (r := mark_known _ _) in *. clearbody r.
  destruct (parse_tx_from_blob_ok b _ _ _ (Hb b Hin) Ep) as (H1 & H2 & H3 & -> & _). split; [done|]. intros _ _. apply good_tx_entry. by eapply check_tx_semantic_good.
Qed.

(** C10: only sound transactions reach the pool.  Whatever blobs arrive, in
    whatever grouping, from peers or with a block outside the area of known hashes,
    [handle_incoming_txs] leaves the chain alone and sound, and every transaction
    in the pool was there before or came in one of the blobs: it parses, it is not
    in the chain, its amounts, key images and outputs are well formed, its RingCT
    signature balances and is in range by itself though it was verified with the
    group, and, unless it came with a block, its rings were verified against the
    chain.  A transaction is put in the set of bad ones only if it fails by
    itself. *)
Theorem handle_incoming_txs_sound hashes_of_hashes now st bad tx_blobs kept relayed no_relay :
  (forall ps, ps <> [] -> verBulletproof ps = forallb (fun p => verBulletproof [p]) ps) ->
  chain_ok st -> remembered (verified now st) (m_tx_pool st) -> Forall bytes_ok tx_blobs -> kept && is_within_compiled_block_hash_area hashes_of_hashes st = false ->
  let '(_, _, st', bad') := handle_incoming_txs hashes_of_hashes now st bad tx_blobs kept relayed no_relay in
  stays st st' /\ chain_ok st' /\ remembered (verified now st') (m_tx_pool st') /\
  (forall id meta bd, txpool (m_tx_pool st') !! id = Some (meta, bd) -> (exists meta0, txpool (m_tx_pool st) !! id = Some (meta0, bd)) \/ arrived now st kept tx_blobs id bd) /\
  (forall h, h ∈ bad'.1 ∪ bad'.2 -> h ∈ bad.1 ∪ bad.2 \/ exists b tx sg, b ∈ tx_blobs /\ parse_tx_from_blob b = Some (Some (tx, sg, h)) /\ semantics st kept tx sg <> Some true).
Proof.
  intros Hbatch Hok Hch Hb Ha. unfold handle_incoming_txs. set (results := mark_known st <$> _). rewrite Forall_forall in Hb.
  assert (forall r, r ∈ results -> skipped r = false -> exists b, b ∈ tx_blobs /\ parse_tx_from_blob b = Some (Some (r_tx r, r_sig r, r_hash r))) as Hres.
  { intros r (r0 & -> & (b & -> & Hin)%list_elem_of_fmap)%list_elem_of_fmap Es. exists b. split; [done|]. by apply pre_parsed. }
  assert (Forall (fun r => skipped r = false -> version (tx_prefix (r_tx r)) < 2 -> rct_type (r_sig r) <> RCTTypeBulletproof) results) as Hv.
  { apply Forall_forall. intros r Hr Es. destruct (Hres r Hr Es) as (b & Hin & Ep). by apply (parse_tx_from_blob_ok b _ _ _ (Hb b Hin) Ep). }
  pose proof (batch_exact st kept Hbatch hashes_of_hashes bad results Ha Hv) as Hx.
  assert (forall bad', blamed st kept bad bad' results -> forall h, h ∈ bad'.1 ∪ bad'.2 -> h ∈ bad.1 ∪ bad.2 \/
    exists b tx sg, b ∈ tx_blobs /\ parse_tx_from_blob b = Some (Some (tx, sg, h)) /\ semantics st kept tx sg <> Some true) as Hbl.
  { intros bad' Hbl h Hh. destruct (Hbl h Hh) as [?|(r & Hr & <- & Hj & Es)]; [by left|right]. destruct (Hres r Hr Es) as (b & Hin & Ep).
    exists b, (r_tx r), (r_sig r). split; [done|]. split; [done|]. unfold judge in Hj. rewrite Es in Hj. case_bool_decide; [|done].
    apply (f_equal res) in Hj. unfold skipped in Es. cbn in Hj. by rewrite Hj in Es. }
  set (P := fun id bd => (exists meta0, txpool (m_tx_pool st) !! id = Some (meta0, bd)) \/ arrived now st kept tx_blobs id bd).
  destruct (handle_incoming_tx_accumulated_batch _ _ _ _ _) as [[bad' l']|[bad' l']].
  2: { destruct Hx as [Hx _]. split; [done|]. split; [done|]. split; [done|]. split; [|by apply Hbl]. intros id meta bd E. left. by exists meta. }
  destruct Hx as [-> Hx]. pose proof (add_results_keeps now st P (verified now st) ltac:(intros tx ?; by exists tx) kept relayed no_relay (zip tx_blobs (judge st kept <$> results)) true st) as Hk. cbv zeta in Hk.
  destruct (add_results _ _ _ _ _ _ _) as [[ok tvc] st']. cbn [snd] in Hk. destruct Hk as (Hs & Hc & He); [done|done|by intros id meta bd E; left; exists meta| |].
  { apply Forall_forall. intros [b0 r] Hz. apply elem_of_zip_r in Hz as (r0 & -> & Hr)%list_elem_of_fmap. cbn [snd]. intros (Es & -> & Hse)%judge_skipped.
    destruct (Hres r0 Hr Es) as (b & Hin & Ep). split; [symmetry; by apply (parse_tx_from_blob_ok b _ _ _ (Hb b Hin) Ep)|].
    intros Hex Hkr. right. exists b, (r_tx r0), (r_sig r0). by split_and!. }
  split; [done|]. split; [|split; [by apply (verified_stays now st)|split; [exact He|by apply Hbl]]]. destruct Hs as (E1 & E2 & E3 & _).
  apply (chain_ok_ext st); [done|done|done| |done]. intros id meta bd E. destruct (He id meta bd E) as [[meta0 E0]|Har].
  - by apply (cs_pool _ (ch_sound _ Hok) id meta0 bd).
  - apply (arrived_good now st kept tx_blobs); [by apply Forall_forall|done].
Qed.
End reach.

(** ** Two transactions, with a block and from a peer *)
#[local] Existing Instance example_env.
Definition arriving_tx : transaction := small_tx 2000000002 2.
Definition arriving_result : result := Result true arriving_tx rct_null null_hash false tvc_zero.

(** A transaction with a bulletproof whose commitments balance when the fee is 0. *)
Definition proof_sig (fee : Z) : rctSig :=
  RctSig RCTTypeBulletproof fee [] (replicate 2 (EcdhTuple zero_key zero_key)) (replicate 2 identity_key)
    (RctSigPrunable [] [MkBulletproof (replicate 2 zero_key) zero_key zero_key zero_key zero_key zero_key zero_key (replicate 7 zero_key) (replicate 7 zero_key) zero_key zero_key zero_key]
       [MgSig [] zero_key] [identity_key]).
Definition proof_tx (fee : Z) : transaction :=
  Transaction (Prefix 2 0 [txin_to_key 0 [1] (replicate 32 2)] (replicate 2 (Tx_out 0 (target_key (replicate 32 2)))) []) [] (proof_sig fee) None None.
Definition proof_result (fee : Z) : result := Result true (proof_tx fee) (proof_sig fee) [fee] false tvc_zero.

(** Of two bulletproofs in a group that fails, one is bad. *)
Lemma accumulated_batch_exact_witness :
  let group := [arriving_result; proof_result 0; proof_result 1] in
  exists bad, handle_incoming_tx_accumulated_batch 0 v13_chain (∅, ∅) group false = Done (bad, [arriving_result; proof_result 0; reject (proof_result 1)]) /\
  blamed v13_chain false (∅, ∅) bad group /\ judge v13_chain false <$> group = [arriving_result; proof_result 0; reject (proof_result 1)].
Proof.
  intros group. pose proof (accumulated_batch_exact v13_chain false ltac:(intros ps _; by induction ps) 0 (∅, ∅) group eq_refl
    ltac:(repeat constructor; discriminate)) as Hx.
  assert ((match handle_incoming_tx_accumulated_batch 0 v13_chain (∅, ∅) group false with Done (_, l) => Some l | Thrown _ => None end) =
    Some [arriving_result; proof_result 0; reject (proof_result 1)]) as E by (vm_compute; reflexivity).
  destruct (handle_incoming_tx_accumulated_batch _ _ _ _ _) as [[bad l]|[bad l]]; [|discriminate E]. injection E as E. exists bad. rewrite E.
  split; [reflexivity|]. rewrite E in Hx. split; [exact (proj2 Hx)|exact (eq_sym (proj1 Hx))].
Defined.

Definition arriving_id : blob := Eval vm_compute in transaction_hash arriving_tx.

(** With a block come a transaction and bytes that are none: the transaction is
    in the pool afterwards, and passed the checks. *)
Lemma handle_incoming_txs_sound_witness : exists tvc st bad meta bd,
  handle_incoming_txs 0 1700000100 v13_chain (∅, ∅) [tx_to_blob arriving_tx; [1; 2; 3]] true false false = (false, tvc, st, bad) /\
  chain_ok st /\ m_db st = m_db v13_chain /\ txpool (m_tx_pool v13_chain) !! arriving_id = None /\ txpool (m_tx_pool st) !! arriving_id = Some (meta, bd) /\
  arrived 1700000100 v13_chain true [tx_to_blob arriving_tx; [1; 2; 3]] arriving_id bd.
Proof.
  pose proof (handle_incoming_txs_sound 0 1700000100 v13_chain (∅, ∅) [tx_to_blob arriving_tx; [1; 2; 3]] true false false ltac:(intros ps _; by induction ps)
    (tr_chain _ _ v13_ready) ltac:(intros id t h i E; discriminate (eq_trans (eq_sym E) (lookup_empty id))) ltac:(by_decide) eq_refl) as Hx.
  assert ((let '(r, _, st, _) := handle_incoming_txs 0 1700000100 v13_chain (∅, ∅) [tx_to_blob arriving_tx; [1; 2; 3]] true false false in
    (r, bool_decide (is_Some (txpool (m_tx_pool st) !! arriving_id)))) = (false, true)) as E by (vm_compute; reflexivity).
  assert (bool_decide (txpool (m_tx_pool v13_chain) !! arriving_id = None) = true) as E0%bool_decide_eq_true by (vm_compute; reflexivity).
  destruct (handle_incoming_txs _ _ _ _ _ _ _ _) as [[[r tvc] st] bad]. injection E as Er E1. apply bool_decide_eq_true in E1 as [[meta bd] E1].
  destruct Hx as ((Edb & _) & Hok & _ & Hin & _). exists tvc, st, bad, meta, bd. rewrite Er. split; [reflexivity|]. split; [exact Hok|]. split; [exact Edb|]. split; [exact E0|].
  split; [exact E1|]. destruct (Hin _ _ _ E1) as [[m E2]|Ha]; [|exact Ha]. discriminate (eq_trans (eq_sym E0) E2).
Defined.
