(* ===== verification/Node.v ===== *)
(** * The node around the temporary consensus

    Model of [t_temp_consensus::run] and [stop] (src/daemon/temp_consensus.cpp)
    and of [Blockchain::add_new_block] (src/cryptonote_core/blockchain.cpp), the
    place where the validator guards the chain and through which every block
    arrives; and what that means for the chain, before and past the
    proof-of-stake fork. *)
From Stdlib Require Import ZArith Lia Bool.
From stdpp Require Import prelude gmap.
From S2P Require Import Prelude StringTools Varint Archive TxExtra Rct CryptonoteBasic Keccak TreeHash HardFork IntUtil Difficulty Hashing Money Reward TxPool Checkpoints Outputs ChainDb TempConsensus LeaderService Blockchain AltChain BlockTemplate.
Local Open Scope Z_scope.

#[local] Opaque cn_fast_hash.

(** ** The daemon *)
Definition run {ST} (tc : t_temp_consensus) (v : service ST) : bool * service ST :=
  if m_config_error tc then (false, v)
  else if negb (m_enabled tc) then (true, v)
  else
    match m_is_leader tc, m_leader_service tc with
    | true, Some _ =>
        let '(started, v) := start v in
        if negb started then (false, v) else (true, v)
    | _, _ => (true, v)
    end.

(** [temp_consensus_leader_service::stop] as its caller sees it: [meanwhile] is
    what the loop does between the store of the flag and the join; [None] while
    the join waits. *)
Definition service_stop {ST} (meanwhile : service ST -> service ST) (v : service ST) : option (service ST) :=
  if negb (running v) then Some v
  else v ← join (meanwhile (store_stop true v)); Some (store_running false v).

Definition stop {ST} (meanwhile : service ST -> service ST) (tc : t_temp_consensus) (v : service ST) : option (t_temp_consensus * service ST) :=
  if negb (m_enabled tc) then Some (tc, v)
  else
    v ← match m_leader_service tc with Some _ => service_stop meanwhile v | None => Some v end;
    Some (TempConsensus (m_enabled tc) (m_is_leader tc) (m_config_error tc) (m_leader_service tc)
            ((fun val => set_enabled val false) <$> m_validator tc), v).

(** ** Blocks from the wire *)

(** A block that was parsed from a blob of the size the node takes is one it can
    hold. *)
Lemma container_count {A} (c : codec A) s l r : container_load c s = Some (l, r) -> bytes_ok s -> zlen l <= zlen s.
Proof.
  intros (n & s1 & H1 & H2)%rbind_some Hs. apply (codec_load_ok (c := varint_codec 64)) in H1 as (Hn & _ & Hl); [|done].
  destruct (Z.ltb_spec (remaining_bytes s1) n); [done|]. assert (length l = Z.to_nat n) as Hc.
  { clear -H2. revert r s1 l H2. induction (Z.to_nat n) as [|k IH]; intros r s1 l; cbn [load_elements]; [by intros [= <- _]|].
    intros (e & s2 & _ & (l1 & s3 & H3 & [= <- _])%rbind_some)%rbind_some. cbn. by erewrite IH. }
  unfold remaining_bytes, in_range, zlen in *. lia.
Qed.

Lemma parsed_extra_size s p r : bytes_ok s -> c_load transaction_prefix_codec s = Some (p, r) -> zlen (extra p) <= zlen s.
Proof.
  intros Hs. assert (forall A (c : codec A) ok `{!CodecOk c ok} s a r, bytes_ok s -> c_load c s = Some (a, r) -> bytes_ok r /\ zlen r <= zlen s) as Hstep.
  { intros A c ok ? s0 a r0 Hs0 E. apply codec_load_ok in E as (_ & ? & ?); [|done]. split; [done|]. unfold zlen. lia. }
  intros (x & s1 & H1 & [= <- _])%rbind_some. cbn [extra].
  apply rbind_some in H1 as (v & s2 & H1 & H2). apply rbind_some in H2 as (y & s3 & H2 & [= <- _]). cbn [fst snd].
  apply rbind_some in H2 as (u & s4 & H2 & H3). apply rbind_some in H3 as (y' & s5 & H3 & [= <- _]). cbn [fst snd].
  apply rbind_some in H3 as (i & s6 & H3 & H4). apply rbind_some in H4 as (y'' & s7 & H4 & [= <- _]). cbn [fst snd].
  apply rbind_some in H4 as (o & s8 & H4 & H5). apply rbind_some in H5 as (e & s9 & H5 & [= <- _]). cbn [fst snd].
  apply (Hstep _ (guard_codec version_supported (varint_codec 64)) _ _) in H1 as [B1 L1]; [|done].
  apply (Hstep _ (varint_codec 64) _ _) in H2 as [B2 L2]; [|done].
  apply (Hstep _ (container_codec txin_v_codec) _ _) in H3 as [B3 L3]; [|done].
  apply (Hstep _ (container_codec tx_out_codec) _ _) in H4 as [B4 L4]; [|done].
  apply container_count in H5; [|done]. lia.
Qed.

Lemma parsed_in_memory s b : bytes_ok s -> zlen s <= 500000000 -> parse_and_validate_block_from_blob s = Some b -> in_memory b /\ block_cache_ok b.
Proof.
  intros Hs Hz. unfold parse_and_validate_block_from_blob. destruct (parse_binary block_codec s) as [b0|] eqn:E; [|done]. intros [= <-].
  split; [|split; [split; intros ? [=]|intros ? [=]]]. fold (clean b0). pose proof (parse_binary_ok block_codec _ s b0 Hs E) as Hok.
  assert (clean b0 = b0) as Ecl by (destruct Hok as (_ & (_ & _ & E1 & E2) & _ & E3); destruct b0 as [? [] ? ?]; cbn in *; by subst). rewrite Ecl.
  unfold parse_binary in E. destruct (c_load block_codec s) as [[b1 [|]]|] eqn:El; [|done..]. injection E as ->.
  apply rbind_some in El as (x & s1 & H1 & [= Eb _]). apply rbind_some in H1 as (h & s2 & H1 & H2). apply rbind_some in H2 as (y & s3 & H2 & [= <- _]).
  apply rbind_some in H2 as (t & s4 & H2 & H3). apply rbind_some in H3 as (l & s5 & H3 & [= <- _]). cbn [fst snd] in Eb.
  apply (codec_load_ok (c := block_header_codec)) in H1 as (_ & B1 & L1); [|done].
  assert (zlen (miner_extra b0) <= zlen s) as Hx.
  { rewrite <- Eb. cbn [miner_extra miner_tx]. apply rbind_some in H2 as (z & s6 & H2 & [= <- _]). apply rbind_some in H2 as (p & s7 & H2 & H4).
    apply rbind_some in H4 as (z' & s8 & _ & [= <- _]). unfold miner_extra. cbn [miner_tx tx_prefix fst]. apply parsed_extra_size in H2; [|done]. unfold zlen in *. lia. }
  apply (codec_load_ok (c := transaction_codec)) in H2 as (_ & B2 & L2); [|done].
  assert (zlen (tx_hashes b0) < 2 ^ 28) as Hn.
  { rewrite <- Eb. cbn [tx_hashes]. apply rbind_some in H3 as (n & s6 & H3 & H4). apply (codec_load_ok (c := varint_codec 64)) in H3 as (_ & _ & L3); [|done].
    case_match; [done|]. apply elements_size in H4. pose proof (zlen_nonneg s5). unfold zlen in *. lia. }
  split; [by rewrite Ecl|]. split; [exact Hn|]. change (miner_extra (strip b0)) with (remove_leader_info_from_tx_extra (miner_extra b0)).2.
  assert (bytes_ok (miner_extra b0)) as Hb by apply Hok. pose proof (remove_leader_info_size _ Hb). pose proof (zlen_nonneg (miner_extra b0)).
  pose proof (zlen_nonneg (remove_leader_info_from_tx_extra (miner_extra b0)).2). unfold in_range. nia.
Qed.

(** ** [Blockchain::add_new_block] *)

(** The external proof-of-stake module, asked about a block at a height. *)
Class ProofOfStake := check_block_validity : block -> Z -> bool.

Section add_new_block.
Context `{ChainEnv, Sodium, ProofOfStake}.

(** The check that guards the main chain: the validator of the temporary
    consensus if there is an enabled one, else the external module from the
    proof-of-stake version on. *)
Definition consensus_check (st : blockchain) (bl : block) : option bool :=
  let h := height (m_db st) in
  let external := Some ((current_version st <? HF_VERSION_PROOF_OF_STAKE) || check_block_validity bl h) in
  match m_temp_consensus_validator st with
  | Some v => if v_enabled v then validate_leader_block v bl h else external
  | None => external
  end.

Definition add_new_block (depth : nat) (now : Z) (st : blockchain) (bl : block) (bvc : block_verification_context)
  : option (bool * blockchain * block_verification_context) :=
  match get_block_hash bl with
  | (None, _) => None
  | (Some id, bl) =>
      if have_block st id then Some (false, clear_txs_check st, set_already_exists bvc true)
      else
        let version := current_version st in
        if (version <? HF_VERSION_PROOF_OF_STAKE) && negb (bool_decide (prev_id (hdr bl) = tail_id st)) then
          '(r, st, bvc) ← handle_alternative_block depth now st bl id (set_added bvc false) version;
          Some (r, clear_txs_check st, bvc)
        else
          valid ← consensus_check st bl;
          if negb valid then Some (false, clear_txs_check st, set_added bvc false)
          else handle_block_to_main_chain now st bl id bvc
  end.

Lemma strip_same b b' : same_block b b' -> strip b = strip b' /\ miner_extra b = miner_extra b'.
Proof.
  intros Hs. assert (miner_extra b = miner_extra b') as E.
  { destruct Hs as (_ & _ & Hs). by apply (f_equal (fun t => extra (tx_prefix t))) in Hs. }
  split; [|done]. unfold strip. rewrite E. by apply same_block_set_extra.
Qed.

Lemma in_memory_same b b' : same_block b b' -> in_memory b -> in_memory b'.
Proof.
  intros Hs (Hb & Hx & Hz). unfold in_memory. destruct (strip_same b b' Hs) as [<- _].
  destruct Hs as (E1 & E2 & E3). rewrite <- E2. split; [|done].
  destruct b as [h [p s r c z] x i], b' as [h' [p' s' r' c' z'] x' i'].
  unfold same_tx, tx_invalidate_hashes in E3. simpl in *. injection E3 as -> -> ->. by subst.
Qed.

Lemma leader_signed_same b b' : same_block b b' -> leader_signed b' -> leader_signed b.
Proof. intros [E1 E2]%strip_same. unfold leader_signed. by rewrite E1, E2. Qed.

(** What the validator makes of a block. *)
Lemma add_new_block_guard depth now v st bl bvc : m_temp_consensus_validator st = Some v -> v_enabled v = true ->
  in_memory bl -> block_cache_ok bl ->
  HF_VERSION_PROOF_OF_STAKE <= current_version st -> TEMPORARY_CONSENSUS_ACTIVATION_HEIGHT <= height (m_db st) ->
  exists id bl', block_id bl = Some id /\ same_block bl bl' /\
  (have_block st id = true ->
     add_new_block depth now st bl bvc = Some (false, clear_txs_check st, set_already_exists bvc true)) /\
  (have_block st id = false -> leader_signed bl ->
     add_new_block depth now st bl bvc = handle_block_to_main_chain now st bl' id bvc) /\
  (have_block st id = false -> ~ leader_signed bl ->
     add_new_block depth now st bl bvc = Some (false, clear_txs_check st, set_added bvc false)).
Proof.
  intros Ev Hv Hm Hc Hver Hh. unfold add_new_block, consensus_check. rewrite Ev, Hv. pose proof (get_block_hash_spec bl Hc) as Hs.
  destruct (block_id_some (clean bl)) as (root & _ & _ & _ & Eid); [apply Hm|apply Hm|].
  change (block_id (clean bl)) with (block_id bl) in Eid. set (id := get_object_hash _ _) in Eid.
  destruct (get_block_hash bl) as [r bl'], Hs as (-> & _ & Hsame). rewrite Eid. exists id, bl'.
  split; [done|]. split; [done|]. rewrite (proj2 (Z.ltb_ge _ _)) by lia. cbn [andb].
  assert (in_memory bl') as Hm' by by eapply in_memory_same.
  pose proof (validate_signed v bl' (height (m_db st)) Hm' Hh Hv) as Hval.
  assert (leader_signed bl' <-> leader_signed bl) as Hsig.
  { split; apply leader_signed_same; [done|]. destruct Hsame as (? & ? & ?). done. }
  rewrite Hsig in Hval. rewrite validate_leader_block_spec in * by done.
  set (ans := match get_leader_info_from_tx_extra _ with Some _ => _ | None => _ end) in *. clearbody ans. cbn [mbind option_bind].
  split; [by intros ->|]. destruct (have_block st id); [by split|]. split; intros _ Hl.
  - by apply Hval in Hl as [= ->].
  - destruct ans; [|done]. exfalso. by apply Hl, Hval.
Qed.

(** C4: the chain is guarded.  While an enabled validator is installed and the
    network is past the proof-of-stake fork and the activation height, a block
    (as the node holds it, caches coherent) reaches [handle_block_to_main_chain]
    only when it is signed by an authorised leader; for every other block
    [add_new_block] answers false, reports nothing added, and leaves the chain
    as it was but for the cleared list of checked transactions. *)
Theorem add_new_block_guarded depth now v st bl bvc : m_temp_consensus_validator st = Some v -> v_enabled v = true ->
  in_memory bl -> block_cache_ok bl ->
  HF_VERSION_PROOF_OF_STAKE <= current_version st -> TEMPORARY_CONSENSUS_ACTIVATION_HEIGHT <= height (m_db st) ->
  exists id bl', block_id bl = Some id /\ same_block bl bl' /\
  (have_block st id = true ->
     add_new_block depth now st bl bvc = Some (false, clear_txs_check st, set_already_exists bvc true)) /\
  (have_block st id = false -> leader_signed bl ->
     add_new_block depth now st bl bvc = handle_block_to_main_chain now st bl' id bvc) /\
  (have_block st id = false -> ~ leader_signed bl ->
     add_new_block depth now st bl bvc = Some (false, clear_txs_check st, set_added bvc false)).
Proof. apply add_new_block_guard. Qed.

(** ** Every block goes through [add_new_block] *)

(** Computing the id fills caches only. *)
Lemma hash_fit bl id : block_fit bl id -> exists bl', get_block_hash bl = (Some id, bl') /\ same_block bl bl' /\ block_fit bl' id.
Proof.
  intros (Hc & Hm & Hu & Hid). pose proof (get_block_hash_spec bl Hc) as Hs. destruct (get_block_hash bl) as [r bl'], Hs as (-> & Hc' & Hsame).
  exists bl'. rewrite Hid. split; [done|]. split; [done|]. pose proof (same_block_id bl bl' Hsame) as Eid. destruct Hsame as (E1 & E2 & E3).
  apply (f_equal tx_prefix) in E3. cbn in E3. unfold block_fit, Hashing.get_block_height in *.
  split; [done|]. split; [by rewrite <- E1, <- E3|]. split; [by rewrite <- E3|congruence].
Qed.

Lemma version_supported_le v : version_supported v = true -> v <= CURRENT_TRANSACTION_VERSION.
Proof. unfold version_supported. destruct (Z.ltb_spec CURRENT_TRANSACTION_VERSION v); [by rewrite orb_true_r|done]. Qed.

(** A block as the node holds it has an id. *)
Lemma in_memory_fit bl : in_memory bl -> block_cache_ok bl -> exists id, block_fit bl id.
Proof.
  intros Hm Hc. destruct (block_id_some (clean bl)) as (root & _ & _ & _ & Eid); [apply Hm|apply Hm|].
  change (block_id (clean bl)) with (block_id bl) in Eid. eexists. split; [done|]. destruct Hm as ((Hh & Ht & _) & _).
  unfold Hashing.get_block_height. cbn in Ht. destruct Ht as (([_ Hv] & _ & [Hin _] & _) & _). cbn in Hin, Hv.
  split; [split; [apply Hh|apply version_supported_le, Hv]|]. split; [|exact Eid].
  destruct (vin _) as [|[] []]; try (unfold is_u64, in_range; lia). by apply Forall_inv in Hin.
Qed.

(** ** Past the proof-of-stake fork *)

(** One event in the life of a node: a block arrives, from a peer or its own
    leader, or something other than the chain changes (the pool, the template,
    the caches, the branches, a batch being opened or closed). *)
Inductive node_step : blockchain -> blockchain -> Prop :=
  | step_block depth now st bl r st' bvc : in_memory bl -> block_cache_ok bl -> add_new_block depth now st bl bvc_zero = Some (r, st', bvc) ->
      node_step st st'
  | step_other st st' : m_db st' = m_db st -> m_hardfork st' = m_hardfork st -> m_temp_consensus_validator st' = m_temp_consensus_validator st ->
      good_pool (m_tx_pool st') -> node_step st st'.

(** The network is past the fork. *)
Record past_fork (st : blockchain) : Prop := {
  pf_version : HF_VERSION_PROOF_OF_STAKE <= current_version st;
  pf_hf : hf_wf (m_hardfork st);
  pf_pool : good_pool (m_tx_pool st)
}.

(** The temporary consensus is in force. *)
Definition guarded (st : blockchain) : Prop :=
  (exists v, m_temp_consensus_validator st = Some v /\ v_enabled v = true) /\ TEMPORARY_CONSENSUS_ACTIVATION_HEIGHT <= height (m_db st).

(** What a step or a run of steps does to the chain. *)
Definition grows (st st' : blockchain) : Prop :=
  m_temp_consensus_validator st' = m_temp_consensus_validator st /\
  exists new, blocks (m_db st') = blocks (m_db st) ++ new /\ (guarded st -> Forall (fun bi => leader_signed (bi_block bi)) new).

Lemma grows_guarded st st' : grows st st' -> guarded st -> guarded st'.
Proof.
  intros (Ev & new & Eb & _) [Hv Hh]. unfold guarded. rewrite Ev. split; [done|]. unfold height in *. rewrite Eb, zlen_app. pose proof (zlen_nonneg new). lia.
Qed.

#[export] Instance grows_refl : Reflexive grows.
Proof. intros st. split; [done|]. exists []. by rewrite app_nil_r. Qed.
#[export] Instance grows_trans : Transitive grows.
Proof.
  intros st1 st2 st3 H12 (Ev' & new' & Eb' & Hs'). pose proof (grows_guarded _ _ H12) as Hg. destruct H12 as (Ev & new & Eb & Hs).
  split; [congruence|]. exists (new ++ new'). rewrite Eb', Eb, app_assoc. split; [done|]. intros Hg1. apply Forall_app. auto.
Qed.

Lemma grows_same st st' : m_db st' = m_db st -> m_temp_consensus_validator st' = m_temp_consensus_validator st -> grows st st'.
Proof. intros Edb Ev. split; [done|]. exists []. by rewrite Edb, app_nil_r. Qed.

(** An accepted block is appended, and nothing else is. *)
Lemma add_new_block_past depth now st bl bvc r st' bvc' : past_fork st -> in_memory bl -> block_cache_ok bl -> m_verifivation_failed bvc = false ->
  add_new_block depth now st bl bvc = Some (r, st', bvc') ->
  past_fork st' /\ grows st st' /\ exists id, block_id bl = Some id /\ ids st' = ids st ++ (if r : bool then [id] else []).
Proof.
  intros [Hver Hhf Hp] Hm Hc Hf. destruct (in_memory_fit bl Hm Hc) as [id Hfit]. destruct (hash_fit bl id Hfit) as (bl' & Eh & Hsame & Hfit').
  unfold add_new_block. rewrite Eh, (proj2 (Z.ltb_ge _ _)) by lia. cbn [andb].
  assert (past_fork (clear_txs_check st) /\ grows st (clear_txs_check st) /\ exists id0, block_id bl = Some id0 /\ ids (clear_txs_check st) = ids st ++ []) as Hun.
  { split; [by split|]. split; [by apply grows_same|]. exists id. rewrite app_nil_r. split; [apply Hfit|done]. }
  destruct (have_block st id); [intros [= <- <- <-]; exact Hun|].
  assert (consensus_check st bl' = Some true -> guarded st -> leader_signed bl) as Hsig.
  { intros Hcc [(v & Ev & Hen) Hh]. unfold consensus_check in Hcc. rewrite Ev, Hen in Hcc. apply validate_signed in Hcc; [|by eapply in_memory_same|done|done].
    by eapply leader_signed_same. }
  destruct (consensus_check st bl') as [[]|]; cbn [mbind option_bind negb]; [|intros [= <- <- <-]; exact Hun|done].
  intros E. apply handle_block_appends in E as (K1 & K2 & K3 & K4 & new & Eb & Hnew); [|done..].
  split; [split; [lia|done|done]|]. destruct K4 as (_ & _ & _ & _ & Ev & _). split.
  - split; [done|]. exists new. split; [done|]. intros Hg. destruct r; [|subst new; constructor]. destruct Hnew as (bi & -> & _ & Ebi).
    constructor; [|constructor]. rewrite Ebi. apply (leader_signed_same _ bl); [|by apply Hsig]. destruct Hsame as (E1 & E2 & E3).
    split; [by rewrite E1|]. split; [by rewrite E2|]. unfold same_tx in *. cbn. by rewrite E3.
  - exists id. split; [apply Hfit|]. unfold ids. rewrite Eb, fmap_app. f_equal. destruct r; [|by rewrite Hnew]. by destruct Hnew as (bi & -> & <- & _).
Qed.

Lemma node_step_past st st' : past_fork st -> node_step st st' -> past_fork st' /\ grows st st'.
Proof.
  intros Hp Hst. destruct Hst as [depth now st bl r st' bvc Hm Hc E|st st' Edb Ehf Ev Hpool].
  - apply add_new_block_past in E as (K1 & K2 & _); [|done..]. by split.
  - destruct Hp as [K1 K2 K3]. split; [split; unfold current_version in *; by rewrite ?Ehf|by apply grows_same].
Qed.

(** A run of events. *)
Lemma node_steps_past st st' : past_fork st -> rtc node_step st st' -> past_fork st' /\ grows st st'.
Proof.
  intros Hp Hst. induction Hst as [|st1 st2 st3 H12 _ IH]; [done|]. destruct (node_step_past _ _ Hp H12) as [Hp2 Hg2]. destruct (IH Hp2) as [Hp3 Hg3].
  split; [done|]. by etrans.
Qed.

(** ** The node as a whole *)
Section known.
Variable known : blob -> Z -> Prop.

(** A block whose id and height are among those the node was given. *)
Definition given (bl : block) : Prop :=
  in_memory bl /\ block_cache_ok bl /\ forall id, block_id bl = Some id -> known id (Hashing.get_block_height bl).

Lemma same_block_height b b' : same_block b b' -> Hashing.get_block_height b = Hashing.get_block_height b'.
Proof. intros (_ & _ & E). apply (f_equal (fun t => vin (tx_prefix t))) in E. cbn in E. unfold Hashing.get_block_height. by rewrite E. Qed.

Lemma main_step_held now st bl id bvc r st' bvc' : node_ok known st -> m_batch st = false -> block_fit bl id -> known id (Hashing.get_block_height bl) ->
  m_verifivation_failed bvc = false -> handle_block_to_main_chain now st bl id bvc = Some (r, st', bvc') ->
  held known st st' /\ ids st' = ids st ++ (if r : bool then [id] else []) /\ m_added_to_main_chain bvc' = r || m_added_to_main_chain bvc.
Proof.
  intros Hn Hb Hfit Hk Hf E. destruct r.
  - pose proof E as E'. apply handle_block_appends in E' as (_ & _ & _ & _ & new & Eb & bi & -> & Ei & Ec); [|apply Hn|apply Hn|done..].
    apply handle_block_extends in E as (K1 & K2 & _ & K3 & _); [|apply Hn|done..].
    assert (ids st' = ids st ++ [id]) as Eids by (unfold ids; by rewrite Eb, fmap_app, <- Ei).
    split; [|split; [done|by rewrite K3]]. apply kept_held; [apply Hn|]. split; [|done]. split; [done|]. intros i k. rewrite Eids.
    intros [Hi|[Hi [Hj <-]%list_lookup_singleton_Some]]%lookup_app_Some; [by apply Hn|].
    assert (blocks (m_db st') !! i = Some bi) as Ebi by (rewrite Eb; apply lookup_app_Some; right; unfold ids in *; rewrite length_fmap in *; by rewrite Hj).
    apply (cs_heights _ K1) in Ebi. rewrite <- Ebi, Ec. exact Hk.
  - apply handle_block_refused in E as (K1 & K2 & K3 & K4 & K5); [|apply Hn|done..]. rewrite app_nil_r. unfold ids. rewrite K3. split; [|done].
    apply kept_held; [apply Hn|]. split; [|done]. split; [done|]. unfold ids. rewrite K3. apply Hn.
Qed.

(** The answers and effects of [add_new_block] outside of a batch. *)
Record arrival (st : blockchain) (id : blob) (r : bool) (st' : blockchain) (bvc : block_verification_context) : Prop := {
  ar_held : held known st st';
  ar_not_added : m_added_to_main_chain bvc = false -> ids st' `prefix_of` ids st;
  ar_present : id ∈ ids st -> r = false /\ ids st' = ids st;
  ar_past : HF_VERSION_PROOF_OF_STAKE <= current_version st -> m_added_to_main_chain bvc = r /\ ids st' = ids st ++ (if r : bool then [id] else [])
}.

Lemma have_block_main st id : id ∈ ids st -> have_block st id = true.
Proof. intros Hin. unfold have_block. destruct (block_exists (m_db st) id) eqn:E; [done|]. by apply block_exists_false in E. Qed.

Lemma add_new_block_arrival depth now st bl id r st' bvc : node_ok known st -> m_batch st = false -> given bl -> block_id bl = Some id ->
  add_new_block depth now st bl bvc_zero = Some (r, st', bvc) -> arrival st id r st' bvc.
Proof.
  intros Hn Hb (Hm & Hc & Hk) Hid. destruct (in_memory_fit bl Hm Hc) as [id' Hfit]. assert (id' = id) as -> by (destruct Hfit as (_ & _ & _ & ?); congruence).
  destruct (hash_fit bl id Hfit) as (bl' & Eh & Hsame & Hfit'). specialize (Hk id Hid). rewrite (same_block_height bl bl' Hsame) in Hk.
  pose proof (have_block_main st id) as Hin. unfold add_new_block. rewrite Eh.
  assert (held known st (clear_txs_check st)) as Hun.
  { split; [|done]. split; [apply (main_ok_ext known st); [done|done|apply Hn|apply Hn]|apply Hn]. }
  assert (forall b, m_added_to_main_chain b = false -> arrival st id false (clear_txs_check st) b) as Hsame'.
  { intros b Eb. split; [done|done|done|]. by rewrite app_nil_r. }
  destruct (have_block st id); [intros [= <- <- <-]; by apply Hsame'|]. assert (id ∉ ids st) as Hni by (intros ?; by discriminate Hin).
  destruct (Z.ltb_spec (current_version st) HF_VERSION_PROOF_OF_STAKE) as [Hv|Hv]; cbn [andb].
  - case_bool_decide; cbn [negb].
    + destruct (consensus_check st bl') as [[]|]; cbn [mbind option_bind negb]; [|intros [= <- <- <-]; by apply Hsame'|done].
      intros E. apply main_step_held in E as (K1 & K2 & K3); [|done..]. split; [done| |done|lia]. rewrite K3. destruct r; [done|]. by rewrite K2, app_nil_r.
    + destruct (handle_alternative_block _ _ _ _ _ _ _) as [[[r0 st0] bvc0]|] eqn:E; cbn [mbind option_bind]; [|done]. intros [= <- <- <-].
      apply (handle_alternative_outcome known), alternative_offer in E as [? [K1 _ _ K2 _ _]]; [|done..]. split; [|done|done|lia].
      eapply held_trans; [exact K1|]. split; [|done]. split; [apply (main_ok_ext known st0); [done|done|apply K1|apply K1]|apply K1].
  - destruct (consensus_check st bl') as [[]|]; cbn [mbind option_bind negb]; [|intros [= <- <- <-]; by apply Hsame'|done].
    intros E. apply main_step_held in E as (K1 & K2 & K3); [|done..]. split; [done| |done|].
    + rewrite K3. destruct r; [done|]. by rewrite K2, app_nil_r.
    + by rewrite K3, orb_false_r.
Qed.

(** What happens to a node outside of a batch: a block arrives, checkpoints are
    looked at, or something other than the chain changes. *)
Inductive node_change : blockchain -> blockchain -> Prop :=
  | change_block depth now st bl r st' bvc : m_batch st = false -> given bl -> add_new_block depth now st bl bvc_zero = Some (r, st', bvc) -> node_change st st'
  | change_checkpoints now st points enforce st' : map_Forall (fun k _ => is_u64 k) points -> check_against_checkpoints now st points enforce = Some st' ->
      node_change st st'
  | change_other st st' : m_db st' = m_db st -> m_hardfork st' = m_hardfork st -> good_pool (m_tx_pool st') ->
      m_alternative_chains st' ⊆ m_alternative_chains st -> node_change st st'.

Lemma node_change_ok st st' : node_ok known st -> node_change st st' -> node_ok known st'.
Proof.
  intros Hn Hc. destruct Hc as [depth now st bl r st' bvc Hb Hg E|now st points enforce st' Hu E|st st' Edb Ehf Hp Halt].
  - destruct (in_memory_fit bl (proj1 Hg) (proj1 (proj2 Hg))) as (id & _ & _ & _ & Hid).
    apply (add_new_block_arrival depth now st bl id) in E; [apply (ar_held _ _ _ _ _ E)|done..].
  - apply (check_against_spec known) in E; [apply E|done..].
  - destruct Hn as [Hs Ha]. split; [by apply (main_ok_ext known st)|]. intros k e Ek. apply Ha. by eapply lookup_weaken.
Qed.

(** C5: a node stays sound.  From a sound state (for example the genesis block
    alone), whatever blocks arrive through [add_new_block], in any order, valid
    or not, extending the top or a branch, with whatever reorganisations they
    cause, and whatever checkpoints are enforced in between, the main chain
    stays a linked chain whose blocks carry their heights and ids, without a key
    image spent twice, with the supply within its bound and a well-formed hard fork
    state, and every branch stays well formed. *)
Theorem node_reachable_sound st st' : node_ok known st -> rtc node_change st st' -> node_ok known st'.
Proof. intros Hn Hst. induction Hst as [|st1 st2 st3 H12 _ IH]; [done|]. by apply IH, (node_change_ok st1). Qed.
End known.
End add_new_block.

(** ** The configured node *)
(** C40: a node that runs is configured as a seed.  If the temporary consensus
    is switched on and [run] of the freshly constructed node succeeds, then the
    delegate address is one of the authorised seeds and an enabled validator is
    installed; and a leader has a service that signs with the secret key whose
    public key is the one published for that very seed.  A configuration that
    fails any check yields a node with neither service nor validator. *)
Theorem run_config_sound `{Hs : Sodium, !SodiumLaws} {ST} parse vm (s : ST) :
  let tc := t_temp_consensus_new parse vm in
  arg_temp_consensus_enabled vm = true ->
  ((run tc (service_new s)).1 = true ->
     m_validator tc = Some (Validator true) /\
     exists i, authorized_seeds !! i = Some (arg_delegates_public_address vm) /\
       (arg_temp_consensus_leader vm = true ->
          threads (run tc (service_new s)).2 = [at_check] /\
          exists cfg, m_leader_service tc = Some cfg /\ leader_id cfg = arg_delegates_public_address vm /\
            crypto_sign_seed_keypair (leader_seckey cfg) = Some (seed_pubkey i, libsodium_seckey cfg))) /\
  ((run tc (service_new s)).1 = false -> m_leader_service tc = None /\ m_validator tc = None).
Proof.
  cbv zeta. intros He. unfold t_temp_consensus_new. rewrite He. cbn [negb]. cbv zeta.
  destruct (zlen (arg_delegates_public_address vm) =? 0); [done|].
  destruct (seed_index _ _) as [i|] eqn:Ei; [|done]. apply seed_index_lt in Ei as [_ Ei].
  destruct (parse _ _) as [address|]; [|done]. destruct (arg_temp_consensus_leader vm).
  - destruct (leader_config _ _ _) as [cfg|] eqn:Ec; [|done]. split; [|done]. intros _. split; [done|].
    apply leader_config_sound in Ec as (E1 & _ & _ & _ & j & Hj & Ek). exists j. split; [done|]. intros _.
    split; [done|]. exists cfg. by rewrite E1.
  - split; [|done]. intros _. split; [done|]. exists i. by split.
Qed.

#[local] Existing Instances toy_sodium toy_sodium_laws.

Lemma run_config_sound_witness :
  m_validator (t_temp_consensus_new example_parse example_vm) = Some (Validator true).
Proof.
  apply (run_config_sound (H := toy_sodium_laws) example_parse example_vm ([] : list block));
    [reflexivity|].
  unfold run. vm_compute. reflexivity.
Defined.

(** ** Concrete nodes *)
#[local] Existing Instance example_env.
#[local] Instance toy_pos : ProofOfStake := fun _ _ => true.

(** A chain past the activation height; what its blocks are does not matter. *)
Definition tall_chain : blockchain :=
  set_chain (one_block_chain v13_hf empty_pool (Some (Validator true)))
    (ChainDb (replicate (Z.to_nat 1085640) (BlockInfo (genesis_block []) 0 5 80 1 [])) ∅ ∅ ∅ no_outputs) v13_hf.

Lemma tall_chain_height : height (m_db tall_chain) = 1085640.
Proof. cbn [m_db tall_chain set_chain blocks]. unfold height. cbn [blocks]. unfold zlen. rewrite length_replicate. by_decide. Qed.

Lemma tall_chain_new id b : block_id b = Some id -> have_block tall_chain id = false.
Proof.
  intros Hid. unfold have_block. rewrite not_block_exists; [reflexivity|]. cbn [m_db tall_chain set_chain blocks].
  rewrite fmap_replicate. intros [E _]%elem_of_replicate. revert Hid. unfold block_id. destruct (tree_hash _) as [root|]; [|discriminate]. intros Hid.
  apply (inj Some) in Hid. apply (f_equal length) in Hid. rewrite E in Hid. unfold get_object_hash, get_blob_hash in Hid. by rewrite hash_length in Hid.
Qed.


(** A block without a signature does not get in. *)
Lemma unsigned_in_memory : in_memory LeaderService.example_template /\ block_cache_ok LeaderService.example_template /\
  ~ leader_signed LeaderService.example_template.
Proof.
  split; [split; [exact LeaderService.example_template_ok|split; by_decide]|]. split; [split; [split; intros ? [=]|intros ? [=]]|].
  intros (l & sig & i & h & Hg & _). assert (get_leader_info_from_tx_extra (miner_extra LeaderService.example_template) = None) as E by (vm_compute; reflexivity).
  rewrite E in Hg. discriminate Hg.
Qed.

Lemma tall_chain_refuses :
  add_new_block 0 1700000100 tall_chain LeaderService.example_template bvc_zero = Some (false, clear_txs_check tall_chain, bvc_zero).
Proof.
  destruct unsigned_in_memory as (Hm & Hc & Hn).
  destruct (add_new_block_guard 0 1700000100 (Validator true) tall_chain LeaderService.example_template bvc_zero) as (id & bl' & Hid & _ & _ & _ & H);
    [reflexivity|reflexivity|exact Hm|exact Hc|by_decide|rewrite tall_chain_height; by_decide|].
  exact (H (tall_chain_new _ _ Hid) Hn).
Qed.

Lemma add_new_block_guarded_witness :
  add_new_block 0 1700000100 tall_chain LeaderService.example_template bvc_zero = Some (false, clear_txs_check tall_chain, bvc_zero).
Proof.
  destruct unsigned_in_memory as (Hm & Hc & Hn).
  destruct (add_new_block_guarded 0 1700000100 (Validator true) tall_chain LeaderService.example_template bvc_zero) as (id & bl' & Hid & _ & _ & _ & H);
    [reflexivity|reflexivity|exact Hm|exact Hc|by_decide|rewrite tall_chain_height; by_decide|].
  exact (H (tall_chain_new _ _ Hid) Hn).
Defined.

(** A block on top of the genesis block. *)
Lemma example_arrival : given example_known example_block /\ exists st' bvc, add_new_block 0 1000 example_chain example_block bvc_zero = Some (true, st', bvc).
Proof.
  split.
  - split; [split; [|split; by_decide]|split; [apply example_block_ok|]].
    + apply (parse_binary_ok block_codec _ (t_serializable_object_to_blob block_codec example_block)); [by_decide|vm_compute; reflexivity].
    + destruct example_block_ok as (_ & _ & _ & ->). intros id [= <-]. by right; left.
  - assert (fst <$> (fst <$> add_new_block 0 1000 example_chain example_block bvc_zero) = Some true) as E by (vm_compute; reflexivity).
    destruct (add_new_block 0 1000 example_chain example_block bvc_zero) as [[[r st'] bvc]|]; [|discriminate E]. injection E as ->. by exists st', bvc.
Qed.

Lemma node_reachable_sound_witness : exists st', rtc (node_change example_known) example_chain st' /\ node_ok example_known st'.
Proof.
  destruct example_arrival as [Hg (st' & bvc & E)]. exists st'.
  assert (rtc (node_change example_known) example_chain st') as Hr by (apply rtc_once; eapply change_block; [reflexivity|exact Hg|exact E]).
  split; [exact Hr|]. apply (node_reachable_sound example_known example_chain st'); [|exact Hr].
  split; [split; [exact (ch_sound _ example_chain_ok)|]|intros k e Ek; discriminate (eq_trans (eq_sym Ek) (lookup_empty k))].
  assert (ids example_chain = [genesis_id]) as -> by (vm_compute; reflexivity).
  intros i k. destruct i; [intros [= <-]; by left|discriminate].
Defined.
