(* ===== verification/NodeCore.v ===== *)
(** * The core of the node

    Model of the part of the class [core] (src/cryptonote_core/cryptonote_core.cpp)
    through which blocks reach the chain, and of the two methods of [Blockchain]
    that enclose them ([prepare_handle_incoming_blocks] and
    [cleanup_handle_incoming_blocks] of src/cryptonote_core/blockchain.cpp).
    This core is the one the service of the leader talks to (the class [Core] of
    TempConsensus.v), so the theorems about the leader, the template and the chain meet here. *)
From Stdlib Require Import ZArith Lia Bool.
From stdpp Require Import prelude gmap.
From S2P Require Import Prelude StringTools Varint Archive TxExtra Rct CryptonoteBasic Keccak TreeHash HardFork IntUtil Difficulty Hashing Money Reward TxPool Checkpoints ChainDb TempConsensus LeaderService Blockchain AltChain BlockTemplate TxIntake Node.
Local Open Scope Z_scope.

#[local] Opaque cn_fast_hash.

(** [block_complete_entry]: the blob of a block and those of its transactions. *)
Abbreviation block_complete_entry := (blob * list blob)%type.

(** [NOTIFY_NEW_BLOCK::request] *)
Record new_block_message := NewBlock { current_blockchain_height : Z; nb_b : block_complete_entry }.

(** The core: the chain with its pool, the times of the last updates of the
    checkpoints, what was handed to the protocol for relaying, and the
    transactions known to be bad. *)
Record node := NodeState {
  m_blockchain_storage : blockchain;
  m_last_dns_checkpoints_update : Z;
  m_last_json_checkpoints_update : Z;
  relayed : list new_block_message;
  bad_semantics_txes : bad_semantics }.

Definition set_storage (n : node) (st : blockchain) : node :=
  NodeState st (m_last_dns_checkpoints_update n) (m_last_json_checkpoints_update n) (relayed n) (bad_semantics_txes n).
Definition set_updates (n : node) (dns json : Z) : node := NodeState (m_blockchain_storage n) dns json (relayed n) (bad_semantics_txes n).
Definition relay_block (n : node) (arg : new_block_message) : node :=
  NodeState (m_blockchain_storage n) (m_last_dns_checkpoints_update n) (m_last_json_checkpoints_update n) (relayed n ++ [arg]) (bad_semantics_txes n).
Definition set_bad (n : node) (bad : bad_semantics) : node :=
  NodeState (m_blockchain_storage n) (m_last_dns_checkpoints_update n) (m_last_json_checkpoints_update n) (relayed n) bad.

Definition CRYPTONOTE_MAX_BLOCK_SIZE : Z := 500000000.
Definition get_max_block_size : Z := CRYPTONOTE_MAX_BLOCK_SIZE.

(** [tx_memory_pool::get_transaction] *)
Definition get_transaction (pool : tx_memory_pool) (id : blob) : option blob := snd <$> txpool pool !! id.

(** [None]: "Transaction not found in pool". *)
Definition get_block_complete_entry (b : block) (pool : tx_memory_pool) : option block_complete_entry :=
  txs ← mapM (get_transaction pool) (tx_hashes b); Some (block_to_blob b, txs).

(** The blobs found in the database, and the ids that are not there. *)
Fixpoint get_transactions_blobs (db : chain_db) (txs_ids : list blob) : list blob * list blob :=
  match txs_ids with
  | [] => ([], [])
  | h :: txs_ids =>
      let '(found, missed_txs) := get_transactions_blobs db txs_ids in
      match txs db !! h with
      | Some (tx, _) => (tx_to_blob tx :: found, missed_txs)
      | None => (found, h :: missed_txs)
      end
  end.

(** ** Before and after a group of blocks *)
Definition set_hash_check (st : blockchain) (l : list blob) : blockchain :=
  Blockchain (m_db st) (m_hardfork st) (m_tx_pool st) (m_checkpoints st) (m_alternative_chains st) (m_invalid_blocks st) (m_cache st) (m_template st)
    (m_current_block_cumul_weight_limit st) (m_current_block_cumul_weight_median st) (m_blocks_longhash_table st) l
    (m_blocks_txs_check st) (m_fixed_difficulty st) (m_sync_counter st) (m_temp_consensus_validator st) (m_batch st).

Section core.
Context `{ChainEnv}.

(** [map.emplace]: the first entry stays. *)
Definition emplace_hash {A} (k : blob) (x : A) (m : gmap blob A) : gmap blob A := match m !! k with Some _ => m | None => <[k := x]> m end.

Fixpoint block_longhash_worker (h : Z) (blocks : list block) (map : gmap blob blob) : option (gmap blob blob) :=
  match blocks with
  | [] => Some map
  | b :: blocks =>
      id ← (get_block_hash b).1;
      pow ← get_block_longhash b h;
      block_longhash_worker (u64 (h + 1)) blocks (emplace_hash id pow map)
  end.

(** The blocks of thread [i]: its share of the entries, and one of those left
    over by the division.  Entries that do not parse are skipped. *)
Definition thread_blocks (parsed : list (option block)) (threads batches extra i : Z) : list block :=
  omap id (take (Z.to_nat batches) (drop (Z.to_nat (i * batches)) parsed)) ++
  (if i <? extra then omap id (take 1 (drop (Z.to_nat (threads * batches + i)) parsed)) else []).

(** The threads, one after the other: each fills a map of its own, from the
    height the blocks before it reach. *)
Fixpoint longhash_maps (h : Z) (shares : list (list block)) (table : gmap blob blob) : option (gmap blob blob) :=
  match shares with
  | [] => Some table
  | blocks :: shares =>
      map ← block_longhash_worker h blocks ∅;
      longhash_maps (u64 (h + zlen blocks)) shares (table ∪ map)
  end.

(** [concurrency] is what the thread pool offers.  The table of the ring members
    the method prepares as well is not part of the state.  [None] is an
    exception. *)
Definition prepare_handle_incoming_blocks (concurrency m_max_prepare_blocks_threads : Z) (st : blockchain) (blocks_entry : list block_complete_entry)
  : option blockchain :=
  let n := zlen blocks_entry in
  if n =? 0 then Some st
  else
    let st := set_batch st true in
    if height (m_db st) + n <? zlen (m_blocks_hash_check st) then Some st
    else if (1 <? n) && (1 <? concurrency) && (1 <? m_max_prepare_blocks_threads) then
      let threads := Z.min concurrency m_max_prepare_blocks_threads in
      let batches := n / threads in
      let extra := n mod threads in
      let parsed := (fun e => parse_and_validate_block_from_blob e.1) <$> blocks_entry in
      let unchained := match parsed with
        | Some b :: _ => (0 <? batches) && negb (bool_decide (prev_id (hdr b) = tail_id st))
        | _ => false
        end in
      if unchained then Some st
      else
        ids ← mapM (fun b => (get_block_hash b).1) (omap id parsed);
        if existsb (have_block st) ids then Some st
        else
          table ← longhash_maps (height (m_db st)) (thread_blocks parsed threads batches extra <$> seqZ 0 threads) ∅;
          Some (set_tables st table (m_blocks_txs_check st))
    else Some st.

(** [sync_due]: the threshold of asynchronous syncing is met. *)
Definition cleanup_handle_incoming_blocks (sync_due : bool) (st : blockchain) (force_sync : bool) : bool * blockchain :=
  let success := m_batch st in
  let st := set_batch st false in
  let st := if success && (0 <? m_sync_counter st) && (force_sync || sync_due) then set_sync st 0 else st in
  let st := set_tables st ∅ [] in
  let l := m_blocks_hash_check st in
  (success, if negb (zlen l =? 0) && (zlen l + 4096 <? height (m_db st)) then set_hash_check st [] else st).

(** ** Blocks *)
Context `{KeyDerivation, Sodium, ProofOfStake}.

(** What the calls read from outside: the clock, the one-time keys, the number
    of threads, the network, the checkpoint file and the DNS records; and the bound on nested
    switches. *)
Record surroundings := Surroundings {
  clock : Z; one_time_keys : nat -> blob * blob; concurrency : Z; m_max_prepare_blocks_threads : Z; sync_due : bool;
  m_nettype : network_type; m_disable_dns_checkpoints : bool; m_enforce_dns_checkpoints : bool; m_offline : bool;
  checkpoint_file : option (option (list (Z * blob))); dns_records : option (list blob); switch_depth : nat }.

Variable s : surroundings.

(** [core::update_checkpoints]; [m_checkpoints_updating] is clear. *)
Definition core_update_checkpoints (n : node) : option (bool * node) :=
  if match m_nettype s with MAINNET => m_disable_dns_checkpoints s | _ => true end then Some (true, n)
  else if 3600 <=? clock s - m_last_dns_checkpoints_update n then
    '(res, st) ← update_checkpoints (clock s) (m_blockchain_storage n) (m_enforce_dns_checkpoints s) (m_offline s) (checkpoint_file s) true (dns_records s);
    Some (res, set_updates (set_storage n st) (clock s) (clock s))
  else if 600 <=? clock s - m_last_json_checkpoints_update n then
    '(res, st) ← update_checkpoints (clock s) (m_blockchain_storage n) (m_enforce_dns_checkpoints s) (m_offline s) (checkpoint_file s) false (dns_records s);
    Some (res, set_updates (set_storage n st) (m_last_dns_checkpoints_update n) (clock s))
  else Some (true, n).

(** [check_incoming_block_size] *)
Definition incoming_block_size_ok (block_blob : blob) : bool := negb (get_max_block_size <? zlen block_blob).

Definition handle_incoming_block (n : node) (block_blob : blob) (bvc : block_verification_context) : option (bool * node * block_verification_context) :=
  '(r, n) ← core_update_checkpoints n;
  if negb r then Some (false, n, bvc)
  else
    let bvc := Bvc false false false false false in
    if get_max_block_size <? zlen block_blob then Some (false, n, set_failed bvc true)
    else
      match parse_and_validate_block_from_blob block_blob with
      | None => Some (false, n, set_failed bvc true)
      | Some b =>
          '(_, st, bvc) ← add_new_block (switch_depth s) (clock s) (m_blockchain_storage n) b bvc;
          Some (true, set_storage n st, bvc)
      end.

(** [core::handle_block_found], with the built-in miner idle.  Nothing catches
    an exception of [add_new_block] here, so that the batch opened before it
    stays open (and the lock taken with it held, but locks are not modelled);
    what that call had changed by then is not part of the model. *)
Definition core_handle_block_found (n : node) (b : block) : option bool * node :=
  match get_block_complete_entry b (m_tx_pool (m_blockchain_storage n)) with
  | None => (Some false, n)
  | Some entry =>
      match prepare_handle_incoming_blocks (concurrency s) (m_max_prepare_blocks_threads s) (m_blockchain_storage n) [entry] with
      | None => (None, n)
      | Some prepared =>
      match add_new_block (switch_depth s) (clock s) prepared b (Bvc false false false false false) with
      | None => (None, set_storage n prepared)
      | Some (_, st, bvc) =>
          let st := (cleanup_handle_incoming_blocks (sync_due s) st true).2 in
          let n := set_storage n st in
          if m_verifivation_failed bvc then (Some false, n)
          else if m_added_to_main_chain bvc then
            let '(found, missed_txs) := get_transactions_blobs (m_db st) (tx_hashes b) in
            if negb (zlen missed_txs =? 0) && negb (bool_decide (Some (get_block_id_by_height st (Hashing.get_block_height b)) = (get_block_hash b).1)) then (Some true, n)
            else if negb ((zlen found =? zlen (tx_hashes b)) && (zlen missed_txs =? 0)) then (Some false, n)
            else (Some true, relay_block n (NewBlock (height (m_db st)) (block_to_blob b, found)))
          else (Some false, n)
      end
      end
  end.

(** [core::get_block_template] *)
Definition core_get_block_template (n : node) (adr : account_public_address) (ex_nonce : blob) : option (option (block * Z * Z * Z)) * node :=
  match create_block_template (clock s) (one_time_keys s) (m_blockchain_storage n) fresh_block adr ex_nonce with
  | Some (t, st) => (Some t, set_storage n st)
  | None => (None, n)
  end.

#[local] Instance node_core : Core node := {|
  get_block_template := core_get_block_template;
  check_incoming_block_size _ := incoming_block_size_ok;
  handle_block_found := core_handle_block_found |}.
End core.

(** ** The template as a block on the wire *)
Lemma block_id_pod b h : block_id b = Some h -> pod_ok 32 h.
Proof. unfold block_id. destruct (tree_hash _); [|done]. intros [= <-]. apply cn_fast_hash_ok. Qed.

Lemma transaction_hash_pod tx ks : admissible tx ks -> pod_ok 32 (transaction_hash tx).
Proof.
  intros (Hok & Hc & _). rewrite <- transaction_hash_clean by done. unfold transaction_hash.
  pose proof (get_transaction_hash_spec false (tx_invalidate_hashes tx) ltac:(by split)) as Hs.
  destruct (get_transaction_hash _ _) as [[[h sz]|] t'], Hs as (E & _); cbn in *; [|by_decide].
  rewrite calculate_transaction_hash_ok in E by done. injection E as ->. case_match; apply cn_fast_hash_ok.
Qed.

Lemma tail_pod `{ChainEnv} st : chain_sound st -> pod_ok 32 (tail_id st).
Proof.
  intros Hs. destruct (exists_last (cs_genesis _ Hs)) as (l & bi & E). pose proof (dk_ids _ (cs_db _ Hs)) as Hi. rewrite E in Hi.
  apply Forall_app in Hi as [_ Hi%Forall_inv]. apply block_id_pod in Hi. unfold tail_id, top_block_hash. rewrite E, last_snoc. exact Hi.
Qed.

Lemma nonce_extra_bytes pub nonce : pod_ok 32 pub -> bytes_ok nonce -> bytes_ok (nonce_extra pub nonce).
Proof.
  intros [_ Hp] Hn. unfold nonce_extra, add_extra_nonce_to_tx_extra, add_tx_pub_key_to_extra. case_bool_decide; [constructor; [by_decide|done]|].
  case_match; cbn [snd app]; [|constructor; [by_decide|done]]. constructor; [by_decide|]. apply bytes_ok_app. split; [done|]. constructor; [by_decide|].
  constructor; [apply wrap_range; lia|done].
Qed.

Section wire.
Context `{ChainEnv, KeyDerivation}.

Lemma template_block_ok now pub nonce st b w fee cw r kss : template_ready now st -> template_of now pub nonce st b w fee cw r kss ->
  pod_ok 32 pub -> bytes_ok nonce -> zlen nonce <= 255 -> zlen (m_txs_by_fee_and_receive_time (m_tx_pool st)) <= 2 ^ 23 ->
  block_ok b /\ zlen (tx_hashes b) <= 2 ^ 23.
Proof.
  intros Hr [(t & Ht & Eh) _ (key & k & Em & Hkey & Hk) Ec _ _ (Hr0 & Hf & _) _ Hsub [Hsel _]] Hp Hn Hnz Hpool.
  assert (zlen (tx_hashes b) <= 2 ^ 23) as Hz.
  { apply sublist_length in Hsub. rewrite length_fmap in Hsub. etrans; [apply Nat2Z.inj_le, Hsub|exact Hpool]. }
  pose proof (cs_hf _ (ch_sound _ (tr_chain _ _ Hr))) as Hw. pose proof (wf_index _ Hw).
  assert (forall i, (i < length (heights (m_hardfork st)))%nat -> is_u8 (fork_version (m_hardfork st) i)) as Hu8.
  { intros i Hi. pose proof (tw_range _ (wf_table _ Hw) i Hi). unfold in_range, fork_version. lia. }
  pose proof (tr_height _ _ Hr) as Hh. assert (0 <= height (m_db st)) by apply zlen_nonneg.
  assert (is_u64 (height (m_db st)) /\ is_u64 (r + fee)) as [Hu1 Hu2] by (unfold in_range; lia).
  split; [|done]. split; [|split; [|split; [|done]]].
  - rewrite Eh. split; [by apply Hu8|]. split; [apply Hu8; lia|]. split; [done|]. split; [apply tail_pod, Hr|by_decide].
  - rewrite Em. split; [|split; [|done]].
    + split; [by_decide|]. split; [apply wrap_range; lia|]. split; [split; [constructor; [exact Hu1|constructor]|by_decide]|].
      split; [split; [constructor; [split; [exact Hu2|exact Hkey]|constructor]|by_decide]|]. cbn [extra tx_prefix coinbase_tx].
      split; [apply bytes_ok_app; split; [by apply nonce_extra_bytes|apply Forall_replicate; by_decide]|].
      rewrite zlen_app, zlen_nonce_extra; [|apply Hp|change TX_EXTRA_NONCE_MAX_COUNT with 5120; lia]. unfold in_range. pose proof (zlen_nonneg nonce).
      replace (zlen (replicate k 0)) with (Z.of_nat k) by (unfold zlen; by rewrite length_replicate). case_bool_decide; lia.
    + split; [done|]. change (rctSig_ok 1 1 0 rct_null). split; [by_decide|]. split; [by repeat split|by repeat split].
  - split; [|unfold in_range; pose proof (zlen_nonneg (tx_hashes b)); lia].
    clear -Hsel Hr. induction Hsel as [|h ks hashes kss (meta & bd & tx & Hl & _) _ IH]; constructor; [|done].
    destruct (cs_pool _ (ch_sound _ (tr_chain _ _ Hr)) _ _ _ Hl) as (tx' & (_ & ks' & Ha) & <- & _). by eapply transaction_hash_pod.
Qed.
End wire.

(** The size of a block on the wire. *)
Lemma hashes_size l : Forall hash_ok l -> zlen (store_elements hash_codec l).1 = 32 * zlen l.
Proof.
  induction 1 as [|h l [Hh Hb] Hl IH]; [done|]. rewrite (store_elements_cons hash_codec hash_ok) by done. rewrite zlen_app, IH, zlen_cons.
  change (c_store hash_codec h).1 with h. unfold zlen at 1. rewrite Hh. lia.
Qed.

Lemma block_size b n : block_ok b -> get_transaction_weight (miner_tx b) = Some n -> version (tx_prefix (miner_tx b)) = 2 ->
  rct_type (rct_signatures (miner_tx b)) = 0 -> zlen (block_to_blob b) <= 66 + n + 10 + 32 * zlen (tx_hashes b).
Proof.
  intros (Hh & Ht & Hx & _) Hn Hv Hty. unfold get_transaction_weight, get_transaction_weight_of in Hn. rewrite Hv, Hty in Hn. cbn in Hn. injection Hn as <-.
  assert (block_to_blob b = t_serializable_object_to_blob block_header_codec (hdr b) ++ t_serializable_object_to_blob transaction_codec (miner_tx b) ++
    write_varint (zlen (tx_hashes b)) ++ (store_elements hash_codec (tx_hashes b)).1) as ->.
  { unfold block_to_blob, t_serializable_object_to_blob. change (c_store block_codec b) with
      (wseq (c_store block_header_codec (hdr b)) (wseq (c_store transaction_codec (miner_tx b)) (c_store (container_codec hash_codec) (tx_hashes b)))).
    rewrite !wseq_true; [|by apply (codec_store_true (c := transaction_codec))|by apply (codec_store_true (c := block_header_codec))]. done. }
  rewrite !zlen_app, hashes_size by apply Hx. pose proof (zlen_write_varint_64 (zlen (tx_hashes b)) (proj2 Hx)).
  pose proof (header_length_bound (hdr b) Hh). lia.
Qed.

(** ** The leader's block and its way into the chain *)
Lemma slot_time_ok st now b : 13 <= current_version st -> 0 <= now < 2 ^ 63 -> timestamp (hdr b) <= now + 240 ->
  Forall (fun bi => bi_timestamp bi <= timestamp (hdr b)) (blocks (m_db st)) -> (check_block_timestamp st now b).1 = true.
Proof.
  intros Hv Hn Hle Hall. unfold check_block_timestamp.
  assert (timestamp_rule (current_version st) = (240, 11)) as -> by (unfold timestamp_rule; repeat (case_match; try lia); done).
  rewrite (wrap_small 64 (now + 240)) by (unfold in_range; lia). rewrite (proj2 (Z.ltb_ge _ _)) by lia. destruct (Z.ltb_spec (height (m_db st)) 11) as [|Hh]; [done|].
  unfold check_timestamps. set (l := bi_timestamp <$> _). cbn [fst]. apply negb_true_iff, Z.ltb_ge.
  assert (median l ∈ l) as (bi & -> & Hin)%list_elem_of_fmap.
  - apply median_in. unfold l. rewrite length_fmap, length_drop. unfold height, zlen in *. by replace (_ - _)%nat with 11%nat by lia.
  - eapply (Forall_drop _ (Z.to_nat (height (m_db st) - 11))) in Hall. rewrite Forall_forall in Hall. by apply Hall.
Qed.

Lemma leader_extra_length pub i id sig : pod_ok 32 pub -> authorized_seeds !! i = Some id -> pod_ok 64 sig ->
  zlen (fields_bytes [tx_extra_pub_key pub; tx_extra_leader_info id sig]) = 197.
Proof.
  intros [Hp _] Hi [Hs _]. assert (Forall (fun id => zlen id = 98) authorized_seeds) as HF by by_decide. pose proof (Forall_lookup_1 _ _ _ _ HF Hi) as Hid. cbn in Hid.
  rewrite !fields_bytes_cons. change (fields_bytes []) with (@nil Z). rewrite app_nil_r, zlen_app.
  change (field_bytes (tx_extra_pub_key pub)) with (TX_EXTRA_TAG_PUBKEY :: pub).
  change (field_bytes (tx_extra_leader_info id sig)) with (TX_EXTRA_TAG_LEADER_INFO :: (write_varint (zlen id) ++ id) ++ sig).
  rewrite !zlen_cons, !zlen_app, Hid. change (zlen (write_varint 98)) with 1. unfold zlen at 1 2. rewrite Hp, Hs. lia.
Qed.

(** The signed block differs from its template in time, nonce and extra, and weighs
    less. *)
Lemma signed_variant cfg tb slot pub i id sig h amount key k cw : miner_tx tb = coinbase_tx h amount key (template_extra pub k) [] -> pod_ok 32 key ->
  get_transaction_weight (miner_tx tb) = Some cw -> 0 <= h < 2 ^ 63 -> 0 <= amount < 2 ^ 64 ->
  pod_ok 32 pub -> authorized_seeds !! i = Some id -> pod_ok 64 sig ->
  let b := signed_block (unsigned_block cfg tb slot pub) pub id sig in
  miner_tx b = coinbase_tx h amount key (fields_bytes [tx_extra_pub_key pub; tx_extra_leader_info id sig]) [] /\
  exists cw', variant tb b cw cw'.
Proof.
  intros Em Hkey Hcw Hh Ha Hp Hi Hs b. pose proof (leader_extra_length pub i id sig Hp Hi Hs) as Hl.
  assert (miner_tx b = coinbase_tx h amount key (fields_bytes [tx_extra_pub_key pub; tx_extra_leader_info id sig]) []) as Emb.
  { unfold b, signed_block, unsigned_block. destruct (negb (enable_pow cfg)); cbn; by rewrite Em. }
  assert (zlen (template_extra pub k) = 205 + Z.of_nat k) as Ht.
  { change (template_extra pub k) with (TX_EXTRA_TAG_PUBKEY :: (pub ++ 2 :: 170 :: replicate 170 0) ++ replicate k 0).
    rewrite zlen_cons, !zlen_app, !zlen_cons. unfold zlen. rewrite (proj1 Hp), !length_replicate. lia. }
  split; [done|]. rewrite Em, coinbase_weight in Hcw by apply Hkey. injection Hcw as <-. rewrite Ht. eexists. split.
  - unfold b, signed_block, unsigned_block. by destruct (negb (enable_pow cfg)).
  - unfold b, signed_block, unsigned_block. by destruct (negb (enable_pow cfg)).
  - rewrite Emb, Em. done.
  - rewrite Emb, coinbase_weight by apply Hkey. split; [reflexivity|]. rewrite Hl. pose proof (vlen_mono 197 (205 + Z.of_nat k) ltac:(lia)).
    pose proof (wrap_range 64 (h + CRYPTONOTE_MINED_MONEY_UNLOCK_WINDOW) ltac:(lia)) as Hw. unfold in_range in Hw.
    pose proof (vlen_mono 0 _ (conj (Z.le_refl 0) (proj1 Hw))). pose proof (vlen_mono 0 h ltac:(lia)). pose proof (vlen_mono 0 amount ltac:(lia)). lia.
Qed.

Lemma entry_complete b pool : Forall (fun h => is_Some (txpool pool !! h)) (tx_hashes b) -> is_Some (get_block_complete_entry b pool).
Proof.
  intros Hf. unfold get_block_complete_entry. assert (is_Some (mapM (get_transaction pool) (tx_hashes b))) as [l ->]; [|by eexists].
  apply mapM_is_Some. eapply Forall_impl; [exact Hf|]. intros h [e E]. cbn. unfold get_transaction. rewrite E. by eexists.
Qed.

Lemma blobs_found db l : Forall (fun h => is_Some (txs db !! h)) l -> exists found, get_transactions_blobs db l = (found, []) /\
  Forall2 (fun h bd => exists tx i, txs db !! h = Some (tx, i) /\ bd = tx_to_blob tx) l found.
Proof.
  induction 1 as [|h l [[tx i] E] Hl (found & IH & Hf)]; [by exists []|]. exists (tx_to_blob tx :: found). cbn. rewrite IH, E.
  split; [done|]. constructor; [by exists tx, i|done].
Qed.

Section leader.
Context `{ChainEnv, KeyDerivation, SodiumLaws, ProofOfStake}.

(** The validator lets a signed block through. *)
Lemma add_new_block_signed depth now v st bl id bvc : m_temp_consensus_validator st = Some v -> v_enabled v = true ->
  in_memory bl -> block_fit bl id -> leader_signed bl -> HF_VERSION_PROOF_OF_STAKE <= current_version st -> have_block st id = false ->
  exists bl', same_block bl bl' /\ block_fit bl' id /\ add_new_block depth now st bl bvc = handle_block_to_main_chain now st bl' id bvc.
Proof.
  intros Ev Hen Hm Hfit Hsig Hver Hnew. destruct (hash_fit bl id Hfit) as (bl' & Eh & Hsame & Hfit'). exists bl'. split; [done|]. split; [done|].
  unfold add_new_block. rewrite Eh, Hnew, (proj2 (Z.ltb_ge _ _)) by lia. cbn [andb].
  assert (consensus_check st bl' = Some true) as ->; [|done]. unfold consensus_check. rewrite Ev, Hen.
  apply validate_leader_block_complete; [by eapply in_memory_same|done|]. right. eapply leader_signed_same; [|exact Hsig].
  destruct Hsame as (? & ? & ?). done.
Qed.

Variable s : surroundings.

(** A block that [add_new_block] adds in a batch of its own is added and
    relayed by [handle_block_found]. *)
Lemma found_block_relayed n b st' bvc id : is_Some (get_block_complete_entry b (m_tx_pool (m_blockchain_storage n))) ->
  add_new_block (switch_depth s) (clock s) (set_batch (m_blockchain_storage n) true) b bvc_zero = Some (true, st', bvc) ->
  m_verifivation_failed bvc = false -> m_added_to_main_chain bvc = true -> chain_ok st' -> (exists bi, last (blocks (m_db st')) = Some bi /\ bi_block bi = clean_block b /\ bi_hash bi = id) ->
  exists n' found, core_handle_block_found s n b = (Some true, n') /\ chain_ok (m_blockchain_storage n') /\ m_db (m_blockchain_storage n') = m_db st' /\
    m_tx_pool (m_blockchain_storage n') = m_tx_pool st' /\ m_batch (m_blockchain_storage n') = false /\
    m_temp_consensus_validator (m_blockchain_storage n') = m_temp_consensus_validator st' /\
    relayed n' = relayed n ++ [NewBlock (height (m_db st')) (block_to_blob b, found)] /\
    Forall2 (fun h bd => exists tx i, txs (m_db st') !! h = Some (tx, i) /\ bd = tx_to_blob tx) (tx_hashes b) found.
Proof.
  intros [e Ee] Ea Hf Hadd Hok (bi & El & Eb & _). unfold core_handle_block_found. rewrite Ee.
  assert (prepare_handle_incoming_blocks (concurrency s) (m_max_prepare_blocks_threads s) (m_blockchain_storage n) [e] = Some (set_batch (m_blockchain_storage n) true)) as ->.
  { unfold prepare_handle_incoming_blocks. change (zlen [e]) with 1. cbn. by destruct (_ <? _). }
  cbn [mbind option_bind]. change (Bvc false false false false false) with bvc_zero. rewrite Ea, Hf, Hadd.
  set (st3 := (cleanup_handle_incoming_blocks (sync_due s) st' true).2).
  assert (m_cache st3 = m_cache st' /\ m_db st3 = m_db st' /\ m_hardfork st3 = m_hardfork st' /\ m_tx_pool st3 = m_tx_pool st' /\ m_batch st3 = false /\
    m_temp_consensus_validator st3 = m_temp_consensus_validator st') as (E1 & E2 & E3 & E4 & E5 & E6).
  { unfold st3, cleanup_handle_incoming_blocks. cbv zeta. destruct (_ && _ && _), (_ && _); done. }
  clearbody st3. assert (chain_ok st3) as Hok3 by (apply (chain_ok_ext st'); [done|done|done|rewrite E4; apply Hok|done]).
  assert (Forall (fun h => is_Some (txs (m_db st') !! h)) (tx_hashes b)) as Hfound.
  { rewrite last_lookup in El. destruct (dk_stored _ (cs_db _ (ch_sound _ Hok)) _ _ El) as [_ Hst]. rewrite Eb in Hst. apply Forall_cons in Hst as [_ Hst].
    eapply Forall_impl; [exact Hst|]. intros h [tx E]. by eexists. }
  destruct (blobs_found _ _ Hfound) as (found & Eg & Hbl). rewrite E2, Eg. pose proof (Forall2_length _ _ _ Hbl) as Hlen.
  cbn [negb andb Z.eqb zlen length Z.of_nat]. assert (zlen found = zlen (tx_hashes b)) as -> by (unfold zlen; by rewrite Hlen). rewrite (Z.eqb_refl (zlen (tx_hashes b))). cbn [andb negb].
  eexists _, found. split; [reflexivity|]. cbn. by split_and!.
Qed.
(** The template of a leader, signed for a slot. *)
Lemma leader_template_signed cfg i n slot : authorized_seeds !! i = Some (leader_id cfg) ->
  crypto_sign_seed_keypair (leader_seckey cfg) = Some (seed_pubkey i, libsodium_seckey cfg) ->
  template_ready (clock s) (m_blockchain_storage n) -> keys_derive (one_time_keys s) (miner_address cfg) -> (one_time_keys s 1%nat).1 <> null_pkey ->
  cached_template (m_blockchain_storage n) (clock s) (miner_address cfg) (replicate LEADER_INFO_RESERVED_SIZE 0) = None ->
  zlen (m_txs_by_fee_and_receive_time (m_tx_pool (m_blockchain_storage n))) <= 2 ^ 23 -> is_u64 slot ->
  let st := m_blockchain_storage n in
  exists tb er st1 b w fee cw r kss cw',
    core_get_block_template s n (miner_address cfg) (replicate LEADER_INFO_RESERVED_SIZE 0) = (Some (Some (tb, 1, height (m_db st), er)), set_storage n st1) /\
    sign_template cfg tb slot = Some (Some (block_to_blob b, b)) /\
    template_of (clock s) (one_time_keys s 1%nat).1 (replicate LEADER_INFO_RESERVED_SIZE 0) st tb w fee cw r kss /\ variant tb b cw cw' /\
    alike st st1 /\ chain_ok st1 /\ pool_ok (m_tx_pool st1) /\ m_alternative_chains st1 = m_alternative_chains st /\ m_invalid_blocks st1 = m_invalid_blocks st /\
    in_memory b /\ block_ok b /\ leader_signed b /\ timestamp (hdr b) = slot /\ zlen (block_to_blob b) <= 500000000.
Proof.
  intros Hi Hkey Hr Hk Hnull Hca Hpool Hslot st. set (nonce := replicate LEADER_INFO_RESERVED_SIZE 0) in *.
  assert (nonce <> []) as Hne by done. assert (bool_decide (nonce = []) = false) as Eb by by apply bool_decide_eq_false.
  destruct (create_block_template_makes (clock s) (one_time_keys s) st (miner_address cfg) nonce Hr Hk) as
    (tb & er & w & fee & cw & r & kss & c & pool & E & Hok & Ht & Hpok & Hsame); [rewrite Eb; right; by_decide|rewrite Eb; by_decide|done|].
  set (pub := (one_time_keys s 1%nat).1) in *. assert (pod_ok 32 pub) as Hpub by apply Hk.
  destruct (template_block_ok _ _ _ _ _ _ _ _ _ _ Hr Ht Hpub ltac:(by_decide) ltac:(by_decide) Hpool) as [Htb Hz].
  destruct (to_miner _ _ _ _ _ _ _ _ _ _ Ht) as (key & k & Em & Hkk & Hk9). assert (nonce_extra pub nonce ++ replicate k 0 = template_extra pub k) as Ex
    by (unfold nonce_extra; by rewrite Eb). rewrite Ex in Em. assert (miner_extra tb = template_extra pub k) as Ex' by (unfold miner_extra; by rewrite Em).
  destruct (seeds_string i _ Hi) as [Hs1 Hs2]. destruct (seed_keypair_size _ _ _ Hkey) as [_ Hsk].
  assert (clean tb = tb) as Ecl by (destruct Htb as (_ & (_ & _ & E1 & E2) & _ & E3); destruct tb as [? [] ? ?]; cbn in *; by subst).
  destruct (sign_template_spec cfg tb slot pub k) as (h & sig & Eh & Esig & Hsig & Hb & Est); [by rewrite Ecl|lia|done|done|done|done|lia|done|done|done|].
  set (u := unsigned_block cfg tb slot pub) in *. set (b := signed_block u pub (leader_id cfg) sig) in *.
  assert (tx_hashes u = tx_hashes tb /\ miner_extra u = fields_bytes [tx_extra_pub_key pub] /\ timestamp (hdr u) = slot) as (Eu1 & Eu2 & Eu3)
    by (unfold u, unsigned_block; by destruct (negb (enable_pow cfg))).
  assert (block_ok u) as Hu by (apply unsigned_block_ok; [by rewrite Ecl|done|done]).
  destruct (signed_block_view u pub i (leader_id cfg) sig Hu ltac:(rewrite Eu1; lia) Eu2 Hpub Hi Hsig Hb) as (Hm & Estrip & Hget).
  destruct (to_weight _ _ _ _ _ _ _ _ _ _ Ht) as [Ecw Hcw]. destruct (to_pays _ _ _ _ _ _ _ _ _ _ Ht) as (Hr1 & Hf1 & _).
  assert (0 <= height (m_db st) < 2 ^ 63) as Hh by (split; [apply zlen_nonneg|exact (tr_height _ _ Hr)]).
  destruct (signed_variant cfg tb slot pub i (leader_id cfg) sig (height (m_db st)) (r + fee) key k cw Em Hkk Ecw Hh ltac:(lia) Hpub Hi Hsig) as [Emb [cw' Hvar]]. fold u in Emb, Hvar. fold b in Emb, Hvar.
  assert (tx_hashes b = tx_hashes tb) as Etx by apply Hvar. destruct (vr_weight _ _ _ _ Hvar) as [Ecw' Hcw'].
  exists tb, er, (set_template (set_pool (set_difficulty_cache (invalidate_block_template_cache st) c) pool) (Some (TemplateCache tb (miner_address cfg) nonce 1 er (m_cookie pool)))), b, w, fee, cw, r, kss, cw'.
  split; [unfold core_get_block_template; fold st; by rewrite E|]. split; [exact Est|]. split; [exact Ht|]. split; [exact Hvar|].
  split; [by split|]. split; [exact Hok|]. split; [exact Hpok|]. split; [done|]. split; [done|]. split; [exact Hm|]. split; [exact Hb|]. split.
  { exists (leader_id cfg), sig, i, h. split; [exact Hget|]. split; [exact Hi|]. unfold b. rewrite Estrip. split; [exact Eh|]. by eapply sign_verify. }
  split; [exact Eu3|]. pose proof (block_size b cw' Hb Ecw') as Hsz. rewrite Emb in Hsz. specialize (Hsz eq_refl eq_refl). rewrite Etx in Hsz. lia.
Qed.

Lemma variant_same b b' b'' cw cw' : variant b b' cw cw' -> same_block b' b'' -> variant b b'' cw cw'.
Proof.
  intros [H1' H2' H3' [H4' H5']] Hs. destruct (same_block_variant b' b'' cw' Hs H4' ltac:(lia)) as [(F1 & F2 & F3) F4 (F5 & F6 & F7) [F8 _]].
  split; [by rewrite F1, F2, F3|by rewrite F4|destruct F7 as [F7 F9]; by rewrite F5, F6, F7, F9|by split].
Qed.

(** C1: the leader makes the chain grow.  On a node of the temporary consensus
    whose state is sound, configured as a leader's, [generate_block] for a slot
    that is not in the past of the chain nor more than the tolerated time ahead
    of the clock does the whole way: the core's template is taken, stamped and
    signed, passes the validator and every check of the chain, and becomes the
    new top with its transactions; the chain is sound again and outside of a
    batch, and the block is relayed with its transactions.  The only way out is that a hash of the new block is already
    known to the node. *)
Theorem leader_extends_chain parse vm cfg n slot :
  m_leader_service (t_temp_consensus_new parse vm) = Some cfg ->
  let st := m_blockchain_storage n in
  template_ready (clock s) st -> keys_derive (one_time_keys s) (miner_address cfg) -> (one_time_keys s 1%nat).1 <> null_pkey ->
  cached_template st (clock s) (miner_address cfg) (replicate LEADER_INFO_RESERVED_SIZE 0) = None ->
  zlen (m_txs_by_fee_and_receive_time (m_tx_pool st)) <= 2 ^ 23 ->
  0 <= slot <= clock s + 240 -> Forall (fun bi => bi_timestamp bi <= slot) (blocks (m_db st)) ->
  exists tb er n1 b id,
    core_get_block_template s n (miner_address cfg) (replicate LEADER_INFO_RESERVED_SIZE 0) = (Some (Some (tb, 1, height (m_db st), er)), n1) /\
    sign_template cfg tb slot = Some (Some (block_to_blob b, b)) /\
    block_id b = Some id /\ leader_signed b /\ timestamp (hdr b) = slot /\
  (have_block st id = false -> hashes_new st b id ->
   exists n' bi found, generate_block (H0 := node_core s) cfg n slot = (Some true, n') /\
     blocks (m_db (m_blockchain_storage n')) = blocks (m_db st) ++ [bi] /\ bi_block bi = b /\ bi_hash bi = id /\
     chain_ok (m_blockchain_storage n') /\ m_batch (m_blockchain_storage n') = false /\
     relayed n' = relayed n ++ [NewBlock (height (m_db st) + 1) (block_to_blob b, found)] /\
     Forall2 (fun h bd => exists tx i, txs (m_db (m_blockchain_storage n')) !! h = Some (tx, i) /\ bd = tx_to_blob tx) (tx_hashes b) found).
Proof.
  cbv zeta. intros Hcfg. set (st := m_blockchain_storage n). intros Hr Hk Hnull Hca Hpool Hslot Hpast. apply new_leader_sound in Hcfg as (addr & key & address & Hcfg).
  apply leader_config_sound in Hcfg as (Eid & _ & _ & _ & i & Hi & Ek). rewrite <- Eid in Hi. destruct (tr_clock _ _ Hr) as [Hclock _].
  assert (is_u64 slot) as Hu by (unfold in_range; lia).
  destruct (leader_template_signed cfg i n slot Hi Ek Hr Hk Hnull Hca Hpool Hu) as
    (tb & er & st1 & b & w & fee & cw & r & kss & cw' & Et & Est & Ht & Hvar & Hal & Hok & Hpok & Ealt & Einv & Hm & Hb & Hsig & Ets & Hsz). fold st in Et, Ht, Hal, Ealt, Einv.
  assert (block_cache_ok b) as Hbc by (destruct Hb as (_ & (_ & _ & E1 & E2) & _ & E3); split; [split; intros ?; by rewrite ?E1, ?E2|by rewrite E3]).
  destruct (in_memory_fit b Hm Hbc) as [id Hfit]. exists tb, er, (set_storage n st1), b, id. split; [exact Et|]. split; [exact Est|]. split; [apply Hfit|]. split; [exact Hsig|]. split; [exact Ets|]. intros Hhb Hnew.
  pose proof Hal as [A1 A2 A3 A4 A5 A6]. set (st2 := set_batch st1 true).
  pose proof (tr_validator _ _ Hr) as Hv. destruct (m_temp_consensus_validator st) as [v|] eqn:Ev; [|discriminate Hv].
  destruct (add_new_block_signed (switch_depth s) (clock s) v st2 b id bvc_zero) as (bl & Hsame & Hfit' & Ea); [exact A4|done|done|done|done| | |].
  { change (13 <= current_version st1). unfold current_version. rewrite A2. apply Hr. }
  { unfold have_block in *. change (m_db st2) with (m_db st1). change (m_alternative_chains st2) with (m_alternative_chains st1).
    change (m_invalid_blocks st2) with (m_invalid_blocks st1). by rewrite A1, Ealt, Einv. }
  assert ((check_block_timestamp st (clock s) bl).1 = true) as Htime.
  { apply slot_time_ok; [apply Hr|done|destruct Hsame as [<- _]; rewrite Ets; lia|]. destruct Hsame as [<- _]. by rewrite Ets. }
  assert (chain_ok st2) as Hok2 by (apply (chain_ok_ext st1); [done|done|done|apply Hok|done]).
  assert (alike st st2) as Hal2 by (split; [exact A1|exact A2|exact A3|by rewrite Ev|exact A5|exact A6]).
  destruct (variant_accepted (clock s) _ _ st st2 tb w fee cw r kss bl cw' id Hr Ht (variant_same _ _ _ _ _ Hvar Hsame) Htime
    (same_block_new _ _ _ _ Hsame Hbc (proj1 Hfit') Hnew) Hal2 Hok2 Hpok (proj1 Hfit') ltac:(apply Hfit'))
    as (st3 & bvc & bi & l & fee' & base & r' & Eh & _ & Hok3 & Hext & _ & Hadd & Hfail).
  rewrite <- Ea in Eh. destruct (ex_block _ _ _ _ _ _ _ _ _ _ Hext) as (Eb & Ei & _). pose proof (ex_blocks _ _ _ _ _ _ _ _ _ _ Hext) as Ebs.
  assert (clean_block bl = b) as Ecl.
  { destruct Hsame as (S1 & S2 & S3), Hb as (_ & (_ & _ & E1 & E2) & _ & E3). unfold clean_block. rewrite <- S1, <- S2, <- S3.
    destruct b as [? [] ? ?]. cbn in *. by subst. }
  destruct (found_block_relayed (set_storage n st1) b st3 bvc id) as (n' & found & Ef & F1 & F2 & _ & F3 & _ & F4 & F5); [|exact Eh|done|done|done| |].
  { apply entry_complete. destruct (to_selected _ _ _ _ _ _ _ _ _ _ Ht) as [Hsel _]. rewrite (vr_txs _ _ _ _ Hvar). cbn [set_storage m_blockchain_storage].
    clear -Hsel A6. induction Hsel as [|h ks hs kss (meta & bd & tx & Hl & _) _ IH]; constructor; [|done].
    destruct (same_txs_lookup _ _ h meta bd (same_txs_sym _ _ A6) Hl) as (m' & -> & _). by eexists. }
  { exists bi. rewrite Ebs, last_snoc, Eb. split; [done|]. split; [|done]. rewrite Ecl. by destruct Hb as (_ & (_ & _ & E1 & E2) & _ & E3); destruct b as [? [] ? ?]; cbn in *; subst. }
  exists n', bi, found. split.
  - unfold generate_block. cbn [get_block_template node_core check_incoming_block_size handle_block_found]. rewrite Et, Est. unfold incoming_block_size_ok.
    rewrite (proj2 (Z.ltb_ge _ _)) by exact Hsz. cbn [negb]. rewrite Ef. done.
  - rewrite F2, F4, Ebs. change (m_db st2) with (m_db st1). rewrite A1. split; [done|]. split; [congruence|]. split; [done|]. split; [done|]. split; [done|].
    split; [|done]. unfold height. rewrite Ebs, zlen_app. change (m_db st2) with (m_db st1). by rewrite A1.
Qed.
End leader.

(** ** Whatever peers send *)
Section final.
Context `{ChainEnv, KeyDerivation, Sodium, ProofOfStake}.

(** The points an update of the checkpoints ends with. *)
Definition updated_checkpoints (points : checkpoints) (enforce_dns offline : bool) (file : option (option (list (Z * blob))))
  (check_dns : bool) (records : option (list blob)) : option (bool * checkpoints) :=
  '(r, cp) ← load_checkpoints_from_json points file;
  Some (if r && (enforce_dns && check_dns && negb offline) then load_checkpoints_from_dns cp records else (r, cp)).

(** The chain has the block of every point it has reached. *)
Definition points_agree (points : checkpoints) (st : blockchain) : Prop :=
  forall pt h h', points !! pt = Some h -> get_block_hash_from_height (m_db st) pt = Some h' -> h = h'.

(** The checkpoints are not updated, or those an update would bring agree with
    the chain. *)
Definition checkpoints_agree (s : surroundings) (n : node) : Prop := m_disable_dns_checkpoints s = false ->
  forall check_dns r cp, updated_checkpoints (m_checkpoints (m_blockchain_storage n)) (m_enforce_dns_checkpoints s) (m_offline s)
    (checkpoint_file s) check_dns (dns_records s) = Some (r, cp) -> points_agree cp (m_blockchain_storage n).

(** What a core does: it takes bytes from a peer for a block (and updates its
    checkpoints before that), or a block from its own leader, makes a template,
    brackets a group of blocks, or takes bytes for transactions.  Checkpoints
    that contradict the chain do not arrive: their enforcement is the one thing
    that takes blocks off the chain.  Transactions that come with a block of the
    area of known hashes, of which the checks are left out, are not offered.  The
    calls end, a block of the leader and a template also by an exception. *)
Inductive core_step : node -> node -> Prop :=
  | core_incoming s n bytes bvc r n' bvc' : checkpoints_agree s n -> bytes_ok bytes ->
      handle_incoming_block s n bytes bvc = Some (r, n', bvc') -> core_step n n'
  | core_found s n b r n' : in_memory b -> block_cache_ok b -> core_handle_block_found s n b = (r, n') -> core_step n n'
  | core_template s n adr ex_nonce t n' : core_get_block_template s n adr ex_nonce = (t, n') -> core_step n n'
  | core_prepare concurrency threads n entries st : prepare_handle_incoming_blocks concurrency threads (m_blockchain_storage n) entries = Some st ->
      core_step n (set_storage n st)
  | core_txs hashes_of_hashes now n tx_blobs kept relayed no_relay r tvc st bad : Forall bytes_ok tx_blobs ->
      kept && is_within_compiled_block_hash_area hashes_of_hashes (m_blockchain_storage n) = false ->
      handle_incoming_txs hashes_of_hashes now (m_blockchain_storage n) (bad_semantics_txes n) tx_blobs kept relayed no_relay = (r, tvc, st, bad) ->
      core_step n (set_bad (set_storage n st) bad)
  | core_cleanup due n force : core_step n (set_storage n (cleanup_handle_incoming_blocks due (m_blockchain_storage n) force).2).

(** Nothing of what the chain depends on changes. *)
Definition still (st st' : blockchain) : Prop :=
  m_db st' = m_db st /\ m_hardfork st' = m_hardfork st /\ m_temp_consensus_validator st' = m_temp_consensus_validator st /\ m_tx_pool st' = m_tx_pool st.

Lemma still_step st st' : good_pool (m_tx_pool st) -> still st st' -> node_step st st'.
Proof. intros Hp (E1 & E2 & E3 & E4). apply step_other; [done|done|done|by rewrite E4]. Qed.

Lemma prepare_still c t st entries st' : prepare_handle_incoming_blocks c t st entries = Some st' -> still st st'.
Proof.
  unfold prepare_handle_incoming_blocks. cbv zeta. destruct (_ =? 0); [by intros [= <-]|]. destruct (_ <? _); [by intros [= <-]|].
  destruct (_ && _ && _); [|by intros [= <-]]. destruct (match _ with [] => _ | _ => _ end); [by intros [= <-]|].
  destruct (mapM _ _) as [l|]; cbn [mbind option_bind]; [|done]. destruct (existsb _ _); [by intros [= <-]|].
  destruct (longhash_maps _ _ _) as [m|]; cbn [mbind option_bind]; [|done]. by intros [= <-].
Qed.

Lemma cleanup_still due st force : still st (cleanup_handle_incoming_blocks due st force).2.
Proof. unfold cleanup_handle_incoming_blocks. cbv zeta. by destruct (_ && _ && _), (_ && _). Qed.

Lemma template_step now keys st adr ex_nonce t st' : good_pool (m_tx_pool st) ->
  create_block_template now keys st fresh_block adr ex_nonce = Some (t, st') -> node_step st st'.
Proof.
  intros Hp. unfold create_block_template. destruct (cached_template st now adr ex_nonce) as [[t0 st0]|] eqn:Ec.
  { intros [= <- <-]. unfold cached_template in Ec. destruct (m_template st) as [c|]; [|done]. destruct (_ && _ && _); [|done]. injection Ec as _ <-.
    by apply step_other. }
  clear Ec. cbv zeta. destruct (template_header _ _ _) as [b|]; cbn [mbind option_bind]; [|done].
  destruct (get_difficulty_for_next_block _) as [[d st1]|] eqn:Ed; cbn [mbind option_bind]; [|done]. apply get_difficulty_only in Ed as [c ->].
  destruct (d =? 0); [intros [= <- <-]; by apply step_other|].
  destruct (get_block_already_generated_coins _ _) as [coins|]; cbn [mbind option_bind]; [|done]. set (st1 := set_difficulty_cache _ c).
  pose proof (entries_fill good_entry (H := pool_chain now) st1 (m_tx_pool st1) (tx_hashes b) (m_current_block_cumul_weight_limit st1 / 2) coins (current_version st1) (height (m_db st)) Hp) as Hg.
  change (height (m_db st1)) with (height (m_db st)).
  destruct (fill_block_template _ _ _ _ _ _ _) as [[[[hashes w] fee] er] pool]. cbn [snd] in Hg.
  destruct (construct _ _ _ _ _) as [tx|]; [|intros [= <- <-]; by apply step_other].
  destruct (get_transaction_weight tx) as [cw|]; cbn [mbind option_bind]; [|done].
  destruct (miner_tx_tries _ _ _ _ _ _) as [[tx'|]|]; cbn [mbind option_bind]; [|intros [= <- <-]; by apply step_other|done].
  intros [= <- <-]. by apply step_other.
Qed.

(** Points that agree with the chain, or are not enforced, leave it alone. *)
Lemma check_against_still now st points enforce st' : (enforce = true -> points_agree points st) ->
  check_against_checkpoints now st points enforce = Some st' -> st' = st.
Proof.
  intros Ha. unfold check_against_checkpoints. cbv zeta.
  assert (forall (l : list (Z * blob)) st1, m_db st1 = m_db st ->
    foldl (fun st pt => st ← st; check_one_checkpoint now points enforce st pt.1) (Some st1) l = Some st1 \/
    foldl (fun st pt => st ← st; check_one_checkpoint now points enforce st pt.1) (Some st1) l = None) as Hl.
  { induction l as [|[pt h] l IH]; intros st1 E; cbn [foldl fst]; [by left|]. cbn [mbind option_bind].
    assert (check_one_checkpoint now points enforce st1 pt = Some st1 \/ check_one_checkpoint now points enforce st1 pt = None) as [->| ->].
    { unfold check_one_checkpoint. rewrite E. destruct (_ <=? _); [by left|]. destruct (get_block_hash_from_height _ _) as [h'|] eqn:Eh; cbn [mbind option_bind]; [|by right].
      destruct enforce; [|left; by destruct (check_block _ _ _).1]. left. unfold check_block. destruct (points !! pt) as [p|] eqn:Ep; [|done].
      cbn [fst]. by rewrite (bool_decide_eq_true_2 _ (Ha eq_refl pt p h' Ep Eh)). }
    - by apply IH.
    - right. clear. by induction l. }
  destruct (Hl (sorted_points points) (set_batch st true) eq_refl) as [->| ->]; cbn [mbind option_bind]; [|done]. intros [= <-]. by destruct st.
Qed.

Lemma update_still now st enforce_dns offline file check_dns records r st' :
  (forall r cp, updated_checkpoints (m_checkpoints st) enforce_dns offline file check_dns records = Some (r, cp) -> points_agree cp st) ->
  update_checkpoints now st enforce_dns offline file check_dns records = Some (r, st') -> still st st'.
Proof.
  unfold update_checkpoints, updated_checkpoints. destruct (load_checkpoints_from_json _ _) as [[[] cp]|]; cbn [mbind option_bind negb andb]; [|by intros _ [= <- <-]|done].
  assert (forall cp', points_agree cp' st -> points_agree cp' (set_checkpoints st cp')) as Hset by done.
  assert (forall cp', points_agree cp' st -> forall st1, check_against_checkpoints now (set_checkpoints st cp') (m_checkpoints (set_checkpoints st cp')) true = Some st1 -> still st st1) as Henf.
  { intros cp' Hcp st1 E. apply check_against_still in E; [by subst st1|intros _; by apply Hset]. }
  destruct (enforce_dns && check_dns && negb offline); cbn [andb].
  - change (m_checkpoints (set_checkpoints st cp)) with cp.
    destruct (load_checkpoints_from_dns cp records) as [[] cp']; cbn [negb]; intros Ha; [|by intros [= <- <-]]. specialize (Ha _ _ eq_refl).
    change (set_checkpoints (set_checkpoints st cp) cp') with (set_checkpoints st cp').
    destruct (check_against_checkpoints _ _ _ _) as [st1|] eqn:E; cbn [mbind option_bind]; [|done]. intros [= <- <-]. by eapply Henf.
  - intros Ha. specialize (Ha _ _ eq_refl).
    assert (forall st0, st0 = set_checkpoints st cp -> (st1 ← check_against_checkpoints now st0 (m_checkpoints st0) true; Some (true, st1)) = Some (r, st') -> still st st') as Hend.
    { intros st0 ->. destruct (check_against_checkpoints _ _ _ _) as [st1|] eqn:E; cbn [mbind option_bind]; [|done]. intros [= <- <-]. by eapply Henf. }
    destruct (check_dns && negb offline); [|by apply Hend]. destruct (check_for_conflicts _ _); [|by apply Hend].
    destruct (check_against_checkpoints now _ _ false) as [st0|] eqn:E; cbn [mbind option_bind]; [|done]. apply Hend. by apply check_against_still in E.
Qed.

Lemma core_update_still s n r n' : checkpoints_agree s n -> core_update_checkpoints s n = Some (r, n') -> still (m_blockchain_storage n) (m_blockchain_storage n').
Proof.
  intros Ha. unfold core_update_checkpoints. destruct (match m_nettype s with MAINNET => _ | _ => _ end) eqn:E0; [by intros [= <- <-]|].
  assert (m_disable_dns_checkpoints s = false) as Hd by by destruct (m_nettype s). specialize (Ha Hd).
  destruct (3600 <=? _); [|destruct (600 <=? _); [|by intros [= <- <-]]].
  all: destruct (update_checkpoints _ _ _ _ _ _ _) as [[res st]|] eqn:E; cbn [mbind option_bind]; [|done]; intros [= <- <-]; cbn.
  all: by eapply update_still in E; [|apply Ha].
Qed.

Lemma incoming_steps s n bytes bvc r n' bvc' : past_fork (m_blockchain_storage n) -> checkpoints_agree s n -> bytes_ok bytes ->
  handle_incoming_block s n bytes bvc = Some (r, n', bvc') -> rtc node_step (m_blockchain_storage n) (m_blockchain_storage n').
Proof.
  intros Hp Hd Hb. unfold handle_incoming_block. destruct (core_update_checkpoints s n) as [[r1 n1]|] eqn:Eu; cbn [mbind option_bind]; [|done].
  apply core_update_still in Eu; [|done]. pose proof (still_step _ _ (pf_pool _ Hp) Eu) as S1. destruct r1; cbn [negb]; [|intros [= <- <- <-]; by apply rtc_once].
  destruct (Z.ltb_spec get_max_block_size (zlen bytes)) as [|Hz]; [intros [= <- <- <-]; by apply rtc_once|].
  destruct (parse_and_validate_block_from_blob bytes) as [b|] eqn:Eb; [|intros [= <- <- <-]; by apply rtc_once]. apply parsed_in_memory in Eb as [Hm Hc]; [|done|exact Hz].
  change (Bvc false false false false false) with bvc_zero. destruct (add_new_block _ _ _ _ _) as [[[r0 st] bvc0]|] eqn:Ea; cbn [mbind option_bind]; [|done].
  intros [= <- <- <-]. eapply rtc_l; [exact S1|]. apply rtc_once. by eapply step_block.
Qed.

Lemma found_steps s n b r n' : past_fork (m_blockchain_storage n) -> in_memory b -> block_cache_ok b ->
  core_handle_block_found s n b = (r, n') -> rtc node_step (m_blockchain_storage n) (m_blockchain_storage n').
Proof.
  intros Hp Hm Hc. unfold core_handle_block_found. destruct (get_block_complete_entry _ _) as [e|]; [|by intros [= <- <-]].
  destruct (prepare_handle_incoming_blocks _ _ _ _) as [st1|] eqn:Epr; [|by intros [= <- <-]].
  apply prepare_still in Epr. pose proof (still_step _ _ (pf_pool _ Hp) Epr) as S1. destruct (node_step_past _ _ Hp S1) as [Hp1 _].
  change (Bvc false false false false false) with bvc_zero. destruct (add_new_block _ _ _ _ _) as [[[r0 st2] bvc]|] eqn:Ea; [|intros [= <- <-]; by apply rtc_once].
  assert (node_step st1 st2) as S2 by by eapply step_block. destruct (node_step_past _ _ Hp1 S2) as [Hp2 _].
  pose proof (still_step _ _ (pf_pool _ Hp2) (cleanup_still (sync_due s) st2 true)) as S3. set (st3 := (cleanup_handle_incoming_blocks _ _ _).2) in *. clearbody st3.
  assert (rtc node_step (m_blockchain_storage n) st3) as Hr by (eapply rtc_l; [exact S1|]; eapply rtc_l; [exact S2|]; by apply rtc_once).
  destruct (m_verifivation_failed bvc); [by intros [= <- <-]|]. destruct (m_added_to_main_chain bvc); [|by intros [= <- <-]].
  destruct (get_transactions_blobs _ _) as [found missed]. destruct (_ && _); [by intros [= <- <-]|]. destruct (negb _); by intros [= <- <-].
Qed.

Lemma core_step_past n n' : past_fork (m_blockchain_storage n) -> core_step n n' ->
  past_fork (m_blockchain_storage n') /\ grows (m_blockchain_storage n) (m_blockchain_storage n').
Proof.
  intros Hp Hst. apply node_steps_past; [done|]. destruct Hst as [s n bytes bvc r n' bvc' Hd Hb E|s n b r n' Hm Hc E|s n adr nonce t n' E|c t n es st E|hh now n bl k rl nr r tvc st bad Hb Ha E|due n force].
  - by eapply incoming_steps.
  - by eapply found_steps.
  - unfold core_get_block_template in E. destruct (create_block_template _ _ _ _ _ _) as [[t0 st]|] eqn:Et; injection E as _ <-; [|done].
    apply rtc_once. eapply template_step; [apply Hp|exact Et].
  - apply rtc_once, still_step; [apply Hp|by eapply prepare_still].
  - pose proof (handle_incoming_txs_good hh now (m_blockchain_storage n) (bad_semantics_txes n) bl k rl nr (pf_pool _ Hp) Hb Ha) as Hg. cbv zeta in Hg. rewrite E in Hg.
    destruct Hg as ((E1 & E2 & _ & E3) & Hg). by apply rtc_once, step_other.
  - apply rtc_once, still_step; [apply Hp|apply cleanup_still].
Qed.

(** C2: past the proof-of-stake fork the chain is final, and closed to everyone
    but the leaders.  Take any run of the calls of [core_step]: bytes from peers
    for blocks and for transactions (the latter not kept with a block of the area
    of known hashes), groups of blocks, templates and blocks of the node's own,
    and updates of the checkpoints as long as those agree with the chain; calls
    that end, those for the leader's blocks and templates also by an exception.
    Then no block of the chain is removed or replaced: every later chain is the
    present one with blocks appended, and the network stays past the fork.  Once
    the temporary consensus is in force it stays in force, and every block that is
    appended is signed by an authorised leader. *)
Theorem chain_final n n' : past_fork (m_blockchain_storage n) -> rtc core_step n n' ->
  let st := m_blockchain_storage n in let st' := m_blockchain_storage n' in
  past_fork st' /\ exists new, blocks (m_db st') = blocks (m_db st) ++ new /\
    (guarded st -> guarded st' /\ Forall (fun bi => leader_signed (bi_block bi)) new).
Proof.
  cbv zeta. intros Hp Hst. assert (past_fork (m_blockchain_storage n') /\ grows (m_blockchain_storage n) (m_blockchain_storage n')) as [Hp' Hg].
  { induction Hst as [|n1 n2 n3 H12 _ IH]; [done|]. destruct (core_step_past _ _ Hp H12) as [Hp2 Hg2]. destruct (IH Hp2) as [Hp3 Hg3]. split; [done|by etrans]. }
  split; [done|]. pose proof (grows_guarded _ _ Hg) as Hgu. destruct Hg as (_ & new & Eb & Hs). exists new. auto.
Qed.
End final.

(** ** A leader at work *)
#[local] Existing Instances example_env toy_derivation toy_sodium toy_sodium_laws.
#[local] Existing Instance toy_pos.

Definition example_surroundings : surroundings :=
  Surroundings 1700000100 toy_keys 4 4 false MAINNET true false false None None 0.
Definition example_node : node := NodeState v13_chain 0 0 [] (∅, ∅).
Definition example_reserved : blob := replicate LEADER_INFO_RESERVED_SIZE 0.

(** The leader's block for the slot after the template, and its hashes. *)
Definition example_signed : block := Eval vm_compute in
  match core_get_block_template example_surroundings example_node (miner_address example_config) example_reserved with
  | (Some (Some (tb, _, _, _)), _) => match sign_template example_config tb 1700000130 with Some (Some (_, b)) => b | _ => fresh_block end
  | _ => fresh_block
  end.
Definition example_signed_tx : blob := Eval vm_compute in transaction_hash (miner_tx example_signed).
Definition example_signed_id : blob := Eval vm_compute in default [] (block_id example_signed).

Lemma example_signed_facts :
  match core_get_block_template example_surroundings example_node (miner_address example_config) example_reserved with
  | (Some (Some (tb, _, _, _)), _) => match sign_template example_config tb 1700000130 with Some (Some (_, b)) => Some b | _ => None end
  | _ => None
  end = Some example_signed /\
  block_id example_signed = Some example_signed_id /\ have_block v13_chain example_signed_id = false /\ hashes_new v13_chain example_signed example_signed_id.
Proof.
  assert (transaction_hash (miner_tx example_signed) = example_signed_tx) as Em by (vm_compute; reflexivity).
  split; [vm_compute; reflexivity|]. split; [|split; [vm_compute; reflexivity|split]].
  - unfold block_id, block_txs. change (default null_hash (calculate_transaction_hash (miner_tx example_signed))) with (transaction_hash (miner_tx example_signed)).
    rewrite Em. vm_compute. reflexivity.
  - apply (bool_decide_eq_false_1 _). vm_compute. reflexivity.
  - rewrite Em. apply eq_None_not_Some, (bool_decide_eq_false_1 _). vm_compute. reflexivity.
  - rewrite Em. apply (bool_decide_eq_false_1 _). vm_compute. reflexivity.
Qed.

Lemma leader_extends_chain_witness : exists n' bi, generate_block (H0 := node_core example_surroundings) example_config example_node 1700000130 = (Some true, n') /\
  blocks (m_db (m_blockchain_storage n')) = blocks (m_db v13_chain) ++ [bi] /\ bi_hash bi = example_signed_id /\ chain_ok (m_blockchain_storage n') /\
  length (relayed n') = 1%nat.
Proof.
  destruct (leader_extends_chain example_surroundings example_parse example_vm example_config example_node 1700000130) as
    (tb & er & n1 & b & id & Et & Es & Hid & _ & _ & H); [exact example_config_ok|exact v13_ready|apply toy_keys_derive|by_decide|reflexivity|by_decide|by_decide|by_decide|].
  destruct example_signed_facts as (E & Eid & Hhb & Hn). fold example_reserved in Et. rewrite Et, Es in E. injection E as ->. rewrite Eid in Hid. injection Hid as <-.
  destruct (H Hhb Hn) as (n' & bi & found & G1 & G2 & _ & G3 & G4 & _ & G5 & _). exists n', bi. split; [exact G1|]. split; [exact G2|]. split; [exact G3|].
  split; [exact G4|]. rewrite G5. reflexivity.
Defined.

(** A node on which the consensus is in force is sent an unsigned block. *)
Definition tall_node : node := NodeState tall_chain 0 0 [] (∅, ∅).

Lemma tall_past_fork : past_fork tall_chain /\ guarded tall_chain.
Proof.
  split; [split; [by_decide|apply v13_ready|intros id meta bd E; discriminate E]|]. split; [by exists (Validator true)|]. rewrite tall_chain_height. by_decide.
Qed.

Lemma tall_refused :
  handle_incoming_block example_surroundings tall_node (block_to_blob LeaderService.example_template) bvc_zero =
    Some (true, set_storage tall_node (clear_txs_check tall_chain), bvc_zero).
Proof.
  unfold handle_incoming_block. change (core_update_checkpoints example_surroundings tall_node) with (Some (true, tall_node)). cbn [mbind option_bind negb].
  assert (get_max_block_size <? zlen (block_to_blob LeaderService.example_template) = false) as -> by (vm_compute; reflexivity).
  assert (parse_and_validate_block_from_blob (block_to_blob LeaderService.example_template) = Some LeaderService.example_template) as -> by (vm_compute; reflexivity).
  change (Bvc false false false false false) with bvc_zero. cbn [m_blockchain_storage tall_node switch_depth clock example_surroundings].
  rewrite tall_chain_refuses. reflexivity.
Qed.

Lemma chain_final_witness : exists n', rtc core_step tall_node n' /\ past_fork (m_blockchain_storage n') /\ guarded (m_blockchain_storage n') /\
  exists new, blocks (m_db (m_blockchain_storage n')) = blocks (m_db tall_chain) ++ new /\ Forall (fun bi => leader_signed (bi_block bi)) new.
Proof.
  destruct tall_past_fork as [Hp Hg]. eexists. assert (rtc core_step tall_node _) as Hr
    by (apply rtc_once; eapply (core_incoming example_surroundings tall_node (block_to_blob LeaderService.example_template)); [intros [=]|by_decide|exact tall_refused]).
  split; [exact Hr|]. destruct (chain_final tall_node _ Hp Hr) as (H1 & new & H2 & H3). destruct (H3 Hg) as [H4 H5].
  split; [exact H1|]. split; [exact H4|]. exists new. split; [exact H2|exact H5].
Defined.
